(* ===== verification/_CoqProject ===== *)
-Q . S2P
Prelude.v
Bitmap.v
Lists.v
Machine.v
Mips.v
MipsSpec.v
Execute.v
ExecuteSpec.v
Disasm.v
AddrSpace.v
Paging.v
Coff2noff.v
Coff2flat.v
Interrupt.v
Disk.v
FileHdr.v
Directory.v
FileSys.v
FsTest.v
FsStub.v
Threads.v
ThreadsSpec.v
KernelSpec.v
KernelRuns.v
Interleave.v
ThreadTest.v
ThreadTestSpec.v
ThreadTestRuns.v
Network.v
PostSpec.v
PostRuns.v
NetTest.v
Syscall.v
Progtest.v
Lifecycle.v
SyscallSpec.v
Console.v
Switch.v
UserProgs.v
Shell.v
System.v
