(* ===== verification/Prelude.v ===== *)
(** A verification of Nachos, the instructional operating system, as it is in this
    repository (src/code).

    Nachos is a kernel and the hardware it runs on, both in C++: a MIPS processor
    with paged memory, an interrupt controller with simulated time, a timer, a disk,
    a console and a network device, and above them threads with a scheduler and semaphores,
    demand-paged address spaces with page replacement, system calls, a file system,
    a post office and programs that demonstrate them, with tools that convert, interpret and
    disassemble executables.  The development translates these parts into executable
    functions and shows what makes each of them correct.

    ** Conventions

    A call returns a [res]: [Done], a failing ASSERT ([Assert]), behaviour that C++
    does not define ([Undef]: an array overrun, a dangling pointer, a division that
    traps), a thread that has to wait ([Blocks]), or a loop cut off by its bound
    ([Fuel]).  Integers are [Z] with the wrap-around of 32 bits written out ([s32],
    [u32]); bytes are [Z] in 0..255.  State is passed explicitly: a record per class,
    heaps of objects as finite maps where the code shares pointers.  Fuel occurs in
    the loops over pending interrupts (at most one turn per interrupt that is due)
    and over the list of active threads (one turn per thread); the theorems show that
    it is enough, since they state that the calls return.  What the code takes from
    outside src/ - UNIX files and sockets, random numbers, uninitialised memory,
    pointers returned by new - is a parameter, with its documented behaviour as the
    laws of a class.

    ** The files, the code they model, and what they show

    - Prelude.v: outcomes, machine integers, arrays, little-endian words, counted
      loops, tactics and hints.
    - Bitmap.v (userprog/bitmap): the class over its array of words; it implements a
      set of numbers and survives being written to a file.  [BitmapLike] is its
      interface to the file system and to paging.
    - Lists.v (threads/list): the linked list over a heap of elements; it implements
      a queue of keyed items ([Queue], the interface of all its clients), and sorted
      insertion is stable.
    - Machine.v (machine/machine, translate): registers, memory, TLB and page table;
      translation is safe and paged memory implements a flat memory.
    - Mips.v, MipsSpec.v (machine/mipssim): the instruction set interpreter; every word is
      decoded to the operation that the tables of the architecture give it, arithmetic agrees with the architecture, overflow traps are
      exact, and no instruction leaves the defined behaviour except those named.
    - Execute.v (bin/execute, system, main and the headers instr.h, encode.h, int.h): the
      stand-alone interpreter, with the UNIX calls and the object-file library as parameters.
      ExecuteSpec.v: against a reference that gives each instruction its writes and its jump,
      it agrees with mipssim.cc wherever both implement the architecture, and where they
      differ; the two loaders; ilog2.
    - Disasm.v (bin/d, opstrings, disasm): the disassembler; it names instructions as
      mipssim.cc does, and the address it shows for a branch or jump is where Execute.v goes.
    - AddrSpace.v, Paging.v (userprog/addrspace): address spaces, page faults and page
      replacement; the invariant that ties page tables, free frames, the inverted page
      table and the page list together.  By it, what a process does through ReadMem and
      WriteMem neither changes nor depends on the resident pages of another.  Where a
      segment begins behind a page, loadPage calls read with a negative count, which POSIX
      leaves open: that such a read fails is the hypothesis [negative_reads_fail].
    - Interrupt.v (machine/interrupt, stats, timer): the pending list and simulated
      time; the handlers that are due run once and in order of time, idling moves the
      clock to the next interrupt, and the timer keeps ticking.  [Handlers] is what the
      hardware relies on of a device.
    - Disk.v (machine/disk, filesys/synchdisk): the disk with its exact latencies; the
      synchronous disk implements an array of sectors ([BlockDev]).
    - FileHdr.v (filesys/filehdr, openfile), Directory.v (filesys/directory),
      FileSys.v (filesys/filesys): each layer implements its abstraction - an array of
      bytes, a map from names, a map from names to files - on any [BlockDev].
    - Threads.v (threads/thread, scheduler, synch, the thread switches of interrupt.cc,
      Exec, Join and process start of userprog/exception.cc and progtest.cc): the stack
      of a thread is data, a step runs the current thread to the next point where
      threads can switch.  ThreadsSpec.v: the invariant of the thread states and queues.
      KernelSpec.v: every step keeps it - no assertion fails, no deleted thread is
      used, no wakeup is lost.  KernelRuns.v: waiting is bounded, a joined parent runs
      next, registers survive a switch.
    - Syscall.v (userprog/exception, the loop of Machine::Run): the exception handler,
      system call by system call, with the number that Exec returns; the calls that switch
      threads are handed to Threads.v.  SyscallSpec.v: the handler keeps the registers of
      the program except for the results of Read and Exec in register 2, and strings
      survive the way through user memory.  The loop that copies a string for SC_Write
      retries without bound after a fault, so it has fuel; more fuel than characters
      is enough when the string is resident.
    - Progtest.v (StartProcess of userprog/progtest): starting the first program establishes
      the paging invariant that the faults of Paging.v keep.
    - Lifecycle.v: runs of processes that start, fault, are switched, use their memory and
      end; the paging invariant holds throughout, and no fault and no exit fails.
    - Network.v (machine/network, network/post, threads/synchlist and the locks of
      threads/synch): the network device and the post office.  PostSpec.v: framing and
      the invariant of one post office.  PostRuns.v: machines that send each other mail;
      mail arrives in order and uncorrupted, and which calls fail an assertion and which
      do not.
    - NetTest.v (network/nettest): MailTest on two machines, as programs on PostRuns.v; each
      receives the other's greeting and acknowledgement, or aborts on an empty box.
    - Console.v (machine/console, ConsoleTest of userprog/progtest): the console device;
      its test echoes what is typed, whatever the order of events, up to and including the
      first q (the byte 0xFF, which looks like no character, apart).
    - Switch.v (threads/switch for HOST_i386, Thread::StackAllocate): the context switch,
      instruction by instruction on a small x86 machine; SWITCH and ThreadRoot implement
      the transfer of control between coroutines, which is how Threads.v uses them.
    - Interleave.v: the kernel seen from the programs that run on it.  Every step of the
      kernel is a step of one program or invisible, so what all interleavings of the
      programs keep, the kernel keeps.
    - ThreadTest.v (threads/threadtest): the demonstrations as such programs - shouting
      threads, zombies, spawning threads, philosophers, a rock band - and getNumber.
      ThreadTestSpec.v: eating philosophers share no chopstick and eat every meal;
      instruments are exclusive.  ThreadTestRuns.v: shouts are counted, getNumber returns
      the number that the lines of its input denote, and runs of a concrete kernel, in two of which the threads wait for each other for
      ever.  getNumber has fuel for one turn per character of the input; the loop that
      draws random numbers until one fits has a bound that is a parameter.
    - FsTest.v (filesys/fstest): Copy and Print are inverse to each other on any
      [BlockDev], and a file that is too large for a header overruns it; the performance test cannot succeed.
    - Coff2noff.v (bin/coff2noff): the converter of executables, as a monad over its two
      files; it computes the layout of the segments - for .bss and .sbss, what its comment
      asks for and what its test does are told apart - and the code it writes is what the
      paging of AddrSpace.v loads.
    - Coff2flat.v (bin/coff2flat): the converter to a flat image, over a parameter for the
      structures of the system headers; where each section ends up.
    - FsStub.v (FILESYS_STUB of filesys/filesys.h and the file routines of machine/sysdep):
      the file system that passes its calls on to UNIX.
    - UserProgs.v (test/sort, matmult): what the two programs compute, by loop invariants;
      sort.c does not sort.  Shell.v (test/shell, halt and others): the shell over an
      interface to the kernel, which has the documented calls and those of exception.cc as
      instances.  The loop that reads a line has fuel for 61 turns, one more than its buffer.
    - System.v (threads/system, main, utility): the command line; what Initialize sets and
      constructs and what main calls is what the options and commands say.

    Theorems about a component are stated against the interfaces of the components it
    uses, and the instances at the end of each file discharge them.  Witnesses evaluate
    the theorems on concrete systems.

    ** Not modelled

    Printed messages and debug output, except those of ThreadTest.v; the context switch of
    the processors other than the 386; bin/out.c, which prints the symbol tables of system
    headers that are not in the repository; the assembly stubs of test/start.s;
    threads/list1.cc, which is not compiled (and does not compile).  SynchDisk is modelled
    for one thread; a second one fails an assertion.  Compiler reordering and hardware
    concurrency do not arise: Nachos runs in one UNIX process. *)

From Stdlib Require Export ZArith Lia.
From stdpp Require Export base tactics numbers list list_numbers gmap option sorting.

#[global] Open Scope Z_scope.

(** * Outcomes of a C++ computation

    A call either returns ([Done]), runs into a failing [ASSERT] and dumps core
    ([Assert], src/code/threads/utility.h), or leaves the defined behaviour of
    C++ - a null or dangling pointer, an access outside an array, a signed
    division overflow ([Undef]).  [Blocks] is the outcome of a call that puts
    the calling thread to sleep; [Fuel] is never produced by the code, it marks
    an iteration bound of the model that was chosen too small. *)
Inductive res (A : Type) : Type :=
| Done (a : A)
| Assert
| Undef
| Blocks
| Fuel.
Arguments Done {A} a.
Arguments Assert {A}.
Arguments Undef {A}.
Arguments Blocks {A}.
Arguments Fuel {A}.

#[export] Instance res_ret : MRet res := @Done.
#[export] Instance res_bind : MBind res := λ A B f m,
  match m with
  | Done a => f a
  | Assert => Assert
  | Undef => Undef
  | Blocks => Blocks
  | Fuel => Fuel
  end.
#[export] Instance res_fmap : FMap res := λ A B f m,
  match m with
  | Done a => Done (f a)
  | Assert => Assert
  | Undef => Undef
  | Blocks => Blocks
  | Fuel => Fuel
  end.

(** The [ASSERT] macro. *)
Definition ASSERT (condition : bool) : res () :=
  if condition then Done () else Assert.

Definition is_Done {A} (m : res A) : bool :=
  match m with Done _ => true | _ => false end.

Lemma bind_Done {A B} (m : res A) (f : A → res B) b :
  m ≫= f = Done b ↔ ∃ a, m = Done a ∧ f a = Done b.
Proof. destruct m; naive_solver. Qed.

Lemma bind_of_Done {A B} (a : A) (f : A → res B) : Done a ≫= f = f a.
Proof. reflexivity. Qed.

Lemma fmap_Done {A B} (m : res A) (f : A → B) b :
  f <$> m = Done b ↔ ∃ a, m = Done a ∧ f a = b.
Proof. destruct m; naive_solver. Qed.

Lemma ASSERT_Done (b : bool) u : ASSERT b = Done u ↔ b = true.
Proof. destruct b, u; naive_solver. Qed.

Lemma bind_ASSERT {B} (c : bool) (f : () → res B) :
  c = true → ASSERT c ≫= f = f ().
Proof. intros ->. done. Qed.

Lemma bind_ASSERT_false {B} (c : bool) (f : () → res B) :
  c = false → ASSERT c ≫= f = Assert.
Proof. intros ->. done. Qed.

(** Takes apart every hypothesis of the form [m ≫= f = Done b]. *)
Ltac inv_res :=
  repeat match goal with
  | H : _ ≫= _ = Done _ |- _ =>
      let a := fresh "r" in let Ha := fresh "Hr" in let Hb := fresh "Hk" in
      apply bind_Done in H as (a & Ha & Hb)
  | H : _ <$> _ = Done _ |- _ =>
      let a := fresh "r" in let Ha := fresh "Hr" in
      apply fmap_Done in H as (a & Ha & <-)
  | H : ASSERT _ = Done _ |- _ => apply ASSERT_Done in H
  | H : Done _ = Done _ |- _ => injection H as H
  | H : Assert = Done _ |- _ => discriminate H
  | H : Undef = Done _ |- _ => discriminate H
  | H : Blocks = Done _ |- _ => discriminate H
  | H : Fuel = Done _ |- _ => discriminate H
  | H : mret _ = Done _ |- _ => injection H as H
  | x : () |- _ => destruct x
  end.

(** Boolean tests of the code as propositions. *)
Ltac simplify_tests :=
  repeat match goal with
  | H : _ && _ = true |- _ => apply andb_true_iff in H as [? ?]
  | H : _ || _ = false |- _ => apply orb_false_iff in H as [? ?]
  | H : negb _ = true |- _ => apply negb_true_iff in H
  | H : negb _ = false |- _ => apply negb_false_iff in H
  | H : (_ <=? _) = true |- _ => apply Z.leb_le in H
  | H : (_ <=? _) = false |- _ => apply Z.leb_gt in H
  | H : (_ <? _) = true |- _ => apply Z.ltb_lt in H
  | H : (_ <? _) = false |- _ => apply Z.ltb_ge in H
  | H : (_ =? _) = true |- _ => apply Z.eqb_eq in H
  | H : (_ =? _) = false |- _ => apply Z.eqb_neq in H
  end.

(** * Machine integers

    The code is compiled for a 32-bit host (Makefile.common passes [-m32]), so
    [int] and [unsigned] have 32 bits.  A value of either type is a [Z] in its
    range; every operation that can leave the range is followed by the
    wrap-around written here. *)
Definition u32 (z : Z) : Z := z mod 2 ^ 32.
Definition u16 (z : Z) : Z := z mod 2 ^ 16.
Definition u8 (z : Z) : Z := z mod 2 ^ 8.
Definition s32 (z : Z) : Z := (z + 2 ^ 31) mod 2 ^ 32 - 2 ^ 31.
Definition s8 (z : Z) : Z := (z + 2 ^ 7) mod 2 ^ 8 - 2 ^ 7.

Definition INT_MIN : Z := - 2 ^ 31.
Definition INT_MAX : Z := 2 ^ 31 - 1.

Definition is_s32 (z : Z) : Prop := INT_MIN ≤ z ≤ INT_MAX.
Definition is_u32 (z : Z) : Prop := 0 ≤ z < 2 ^ 32.
Definition is_byte (z : Z) : Prop := 0 ≤ z < 256.

(** [/] and [%] of C++ round toward zero. *)
Definition cdiv (a b : Z) : Z := Z.quot a b.
Definition cmod (a b : Z) : Z := Z.rem a b.

Definition divRoundDown (n s : Z) : Z := cdiv n s.
Definition divRoundUp (n s : Z) : Z :=
  cdiv n s + (if 0 <? cmod n s then 1 else 0).

Ltac unfold_int :=
  unfold is_s32, is_u32, is_byte, s32, s8, u32, u16, u8, INT_MIN, INT_MAX in *;
  change (2 ^ 32) with 4294967296 in *; change (2 ^ 31) with 2147483648 in *;
  change (2 ^ 16) with 65536 in *; change (2 ^ 8) with 256 in *;
  change (2 ^ 7) with 128 in *.

(** Linear arithmetic with the wrap-arounds as division equations. *)
Ltac int_lia := unfold_int; Z.div_mod_to_equations; lia.

(** Closed range conditions on the elements of a concrete list. *)
Ltac ranges := repeat match goal with |- Forall _ _ => constructor end; unfold_int; lia.

Lemma u32_range z : is_u32 (u32 z).
Proof. int_lia. Qed.
Lemma s32_range z : is_s32 (s32 z).
Proof. int_lia. Qed.
Lemma u8_range z : is_byte (u8 z).
Proof. int_lia. Qed.
Lemma u32_id z : is_u32 z → u32 z = z.
Proof. int_lia. Qed.
Lemma s32_id z : is_s32 z → s32 z = z.
Proof. int_lia. Qed.
Lemma u32_u32 z : u32 (u32 z) = u32 z.
Proof. apply u32_id, u32_range. Qed.
Lemma s32_s32 z : s32 (s32 z) = s32 z.
Proof. apply s32_id, s32_range. Qed.
Lemma s32_u32 z : s32 (u32 z) = s32 z.
Proof. int_lia. Qed.
Lemma u32_s32 z : u32 (s32 z) = u32 z.
Proof. int_lia. Qed.

Lemma u32_eq_mod z : ∃ k, u32 z = z + k * 2 ^ 32.
Proof. exists (- (z / 2 ^ 32)). int_lia. Qed.
Lemma s32_eq_mod z : ∃ k, s32 z = z + k * 2 ^ 32.
Proof. exists (- ((z + 2 ^ 31) / 2 ^ 32)). int_lia. Qed.

Lemma u32_add_mult z k : u32 (z + k * 2 ^ 32) = u32 z.
Proof. unfold u32. by rewrite Z.mod_add. Qed.

Lemma u32_testbit z i : 0 ≤ i → Z.testbit (u32 z) i = bool_decide (i < 32) && Z.testbit z i.
Proof.
  intros Hi. unfold u32. case_bool_decide.
  - by rewrite Z.mod_pow2_bits_low.
  - by rewrite Z.mod_pow2_bits_high by lia.
Qed.

Lemma cdiv_nonneg a b : 0 ≤ a → 0 < b → cdiv a b = a / b.
Proof. intros. apply Z.quot_div_nonneg; lia. Qed.
Lemma cmod_nonneg a b : 0 ≤ a → 0 < b → cmod a b = a mod b.
Proof. intros. apply Z.rem_mod_nonneg; lia. Qed.

Lemma divRoundUp_spec n s :
  0 ≤ n → 0 < s →
  (divRoundUp n s - 1) * s < n ≤ divRoundUp n s * s.
Proof.
  intros Hn Hs. unfold divRoundUp. rewrite cdiv_nonneg, cmod_nonneg by done.
  pose proof (Z.div_mod n s). pose proof (Z.mod_pos_bound n s).
  destruct (0 <? n mod s) eqn:E; simplify_tests; nia.
Qed.

Lemma divRoundUp_nonneg n s : 0 ≤ n → 0 < s → 0 ≤ divRoundUp n s.
Proof. intros. pose proof (divRoundUp_spec n s). nia. Qed.

(** * Arrays

    An array is a list; reading or writing outside it is undefined. *)
Definition aget {A} (l : list A) (i : Z) : res A :=
  if 0 <=? i
  then match l !! Z.to_nat i with Some x => Done x | None => Undef end
  else Undef.

Definition aset {A} (l : list A) (i : Z) (x : A) : res (list A) :=
  if (0 <=? i) && (i <? Z.of_nat (length l))
  then Done (<[Z.to_nat i := x]> l)
  else Undef.

Lemma aget_Done {A} (l : list A) i x :
  aget l i = Done x ↔ 0 ≤ i ∧ l !! Z.to_nat i = Some x.
Proof.
  unfold aget. destruct (0 <=? i) eqn:E; simplify_tests.
  - destruct (l !! Z.to_nat i) eqn:E'; naive_solver.
  - split; [done|lia].
Qed.

Lemma aget_Some {A} (l : list A) i x : 0 ≤ i → l !! Z.to_nat i = Some x → aget l i = Done x.
Proof. intros. by apply aget_Done. Qed.

Lemma aget_in_range {A} (l : list A) i :
  0 ≤ i < Z.of_nat (length l) → ∃ x, aget l i = Done x ∧ l !! Z.to_nat i = Some x.
Proof.
  intros Hi. destruct (lookup_lt_is_Some_2 l (Z.to_nat i)) as [x Hx]; [lia|].
  exists x. rewrite aget_Done. split; [split; [lia|done]|done].
Qed.

Lemma aget_Undef {A} (l : list A) i :
  i < 0 ∨ Z.of_nat (length l) ≤ i → aget l i = Undef.
Proof.
  unfold aget. destruct (0 <=? i) eqn:E; simplify_tests; [|done].
  intros [?|?]; [lia|]. by rewrite lookup_ge_None_2 by lia.
Qed.

Lemma aset_Done {A} (l : list A) i x l' :
  aset l i x = Done l' ↔
  0 ≤ i < Z.of_nat (length l) ∧ l' = <[Z.to_nat i := x]> l.
Proof.
  unfold aset. destruct ((0 <=? i) && _) eqn:E; simplify_tests.
  - naive_solver.
  - apply andb_false_iff in E as [?|?]; simplify_tests; split; try done; lia.
Qed.

Lemma aset_in_range {A} (l : list A) i x :
  0 ≤ i < Z.of_nat (length l) → aset l i x = Done (<[Z.to_nat i := x]> l).
Proof. intros. by apply aset_Done. Qed.

Lemma aset_Undef {A} (l : list A) i x :
  i < 0 ∨ Z.of_nat (length l) ≤ i → aset l i x = Undef.
Proof.
  intros H. unfold aset. destruct ((0 <=? i) && _) eqn:E; simplify_tests; [lia|done].
Qed.

(** [n] elements from offset [off]; [bcopy]/[memcpy] out of a buffer. *)
Definition slice {A} (l : list A) (off n : Z) : res (list A) :=
  if (0 <=? off) && (0 <=? n) && (off + n <=? Z.of_nat (length l))
  then Done (take (Z.to_nat n) (drop (Z.to_nat off) l))
  else Undef.

(** Overwrites [dst] from offset [off] with [src]; [bcopy] into a buffer. *)
Definition blit {A} (dst : list A) (off : Z) (src : list A) : res (list A) :=
  if (0 <=? off) && (off + Z.of_nat (length src) <=? Z.of_nat (length dst))
  then Done (take (Z.to_nat off) dst ++ src ++
             drop (Z.to_nat off + length src) dst)
  else Undef.

Lemma slice_Done {A} (l : list A) off n r :
  slice l off n = Done r ↔
  0 ≤ off ∧ 0 ≤ n ∧ off + n ≤ Z.of_nat (length l) ∧
  r = take (Z.to_nat n) (drop (Z.to_nat off) l).
Proof.
  unfold slice. destruct (_ && _) eqn:E; simplify_tests.
  - naive_solver lia.
  - rewrite !andb_false_iff in E. split; [done|].
    intros (?&?&?&?). destruct E as [[?|?]|?]; simplify_tests; lia.
Qed.

Lemma slice_in_range {A} (l : list A) off n :
  0 ≤ off → 0 ≤ n → off + n ≤ Z.of_nat (length l) →
  slice l off n = Done (take (Z.to_nat n) (drop (Z.to_nat off) l)).
Proof. intros. by apply slice_Done. Qed.

Lemma blit_Done {A} (dst : list A) off src r :
  blit dst off src = Done r ↔
  0 ≤ off ∧ off + Z.of_nat (length src) ≤ Z.of_nat (length dst) ∧
  r = take (Z.to_nat off) dst ++ src ++ drop (Z.to_nat off + length src) dst.
Proof.
  unfold blit. destruct (_ && _) eqn:E; simplify_tests.
  - naive_solver lia.
  - rewrite andb_false_iff in E. split; [done|].
    intros (?&?&?). destruct E as [?|?]; simplify_tests; lia.
Qed.

Lemma blit_in_range {A} (dst : list A) off src :
  0 ≤ off → off + Z.of_nat (length src) ≤ Z.of_nat (length dst) →
  blit dst off src =
  Done (take (Z.to_nat off) dst ++ src ++ drop (Z.to_nat off + length src) dst).
Proof. intros. by apply blit_Done. Qed.

Lemma blit_length {A} (dst : list A) off src r :
  blit dst off src = Done r → length r = length dst.
Proof.
  rewrite blit_Done. intros (?&?&->).
  rewrite !length_app, length_take, length_drop. lia.
Qed.

Lemma blit_lookup_in {A} (dst : list A) off src r (i : nat) :
  blit dst off src = Done r →
  (Z.to_nat off ≤ i < Z.to_nat off + length src)%nat →
  r !! i = src !! (i - Z.to_nat off)%nat.
Proof.
  rewrite blit_Done. intros (?&?&->) Hi.
  rewrite lookup_app_r by (rewrite length_take; lia).
  rewrite length_take, Nat.min_l by lia. by rewrite lookup_app_l by lia.
Qed.

Lemma blit_lookup_out {A} (dst : list A) off src r (i : nat) :
  blit dst off src = Done r →
  ¬ (Z.to_nat off ≤ i < Z.to_nat off + length src)%nat →
  r !! i = dst !! i.
Proof.
  rewrite blit_Done. intros (?&?&->) Hi.
  destruct (decide (i < Z.to_nat off)%nat).
  - rewrite lookup_app_l by (rewrite length_take; lia). by rewrite lookup_take_lt.
  - rewrite lookup_app_r by (rewrite length_take; lia).
    rewrite length_take, Nat.min_l by lia.
    rewrite lookup_app_r by lia. rewrite lookup_drop. f_equal. lia.
Qed.

Lemma slice_length {A} (l : list A) off n r :
  slice l off n = Done r → length r = Z.to_nat n.
Proof. rewrite slice_Done. intros (?&?&?&->). rewrite length_take, length_drop. lia. Qed.

Lemma slice_lookup {A} (l : list A) off n r (i : nat) :
  slice l off n = Done r → (i < Z.to_nat n)%nat →
  r !! i = l !! (Z.to_nat off + i)%nat.
Proof.
  rewrite slice_Done. intros (?&?&?&->) Hi.
  rewrite lookup_take_lt by done. by rewrite lookup_drop.
Qed.

Lemma aset_blit {A} (l : list A) i x : aset l i x = blit l i [x].
Proof.
  unfold aset, blit. simpl. change (Z.of_nat 1) with 1.
  replace (i + 1 <=? Z.of_nat (length l)) with (i <? Z.of_nat (length l)) by lia.
  destruct (_ && _) eqn:E; simplify_tests; [|done].
  f_equal. rewrite insert_take_drop by lia. by rewrite Nat.add_1_r.
Qed.

(** Reading back what was just written. *)
Lemma slice_blit_same {A} (dst : list A) off src r :
  blit dst off src = Done r → slice r off (Z.of_nat (length src)) = Done src.
Proof.
  intros Hb. pose proof (blit_length _ _ _ _ Hb) as Hlen.
  pose proof Hb as Hb'. apply blit_Done in Hb' as (?&?&Hr).
  rewrite slice_in_range by lia. f_equal. apply list_eq. intros i.
  destruct (decide (i < length src)%nat).
  - rewrite lookup_take_lt by lia. rewrite lookup_drop.
    rewrite (blit_lookup_in _ _ _ _ _ Hb) by lia. f_equal. lia.
  - rewrite !lookup_ge_None_2; [done|lia|].
    rewrite length_take, length_drop. lia.
Qed.

(** A read that does not overlap the write is unaffected by it. *)
Lemma slice_blit_disjoint {A} (dst : list A) off src r off' n' :
  blit dst off src = Done r → 0 ≤ off' → 0 ≤ n' →
  off' + n' ≤ off ∨ off + Z.of_nat (length src) ≤ off' →
  slice r off' n' = slice dst off' n'.
Proof.
  intros Hb Ho Hn Hd. pose proof (blit_length _ _ _ _ Hb) as Hlen.
  unfold slice. rewrite Hlen.
  destruct ((0 <=? off') && (0 <=? n') && (off' + n' <=? Z.of_nat (length dst)))
    eqn:E; [|done].
  simplify_tests. f_equal. apply list_eq. intros i.
  apply blit_Done in Hb as Hb'. destruct Hb' as (?&?&_).
  destruct (decide (i < Z.to_nat n')%nat).
  - rewrite !lookup_take_lt, !lookup_drop by done.
    apply (blit_lookup_out _ _ _ _ _ Hb). lia.
  - rewrite !lookup_ge_None_2; [done| |]; rewrite length_take, length_drop; lia.
Qed.

(** The elements of a list of blocks of one size. *)
Lemma concat_lookup {A} (n : nat) (ls : list (list A)) (k : nat) :
  (0 < n)%nat → Forall (λ l, length l = n) ls →
  concat ls !! k = ls !! (k / n)%nat ≫= λ l, l !! (k mod n)%nat.
Proof.
  intros Hn Hall. revert k. induction Hall as [|l ls Hl _ IH]; intros k; [done|]. simpl.
  destruct (decide (k < n)%nat) as [Hk|Hk].
  - rewrite lookup_app_l by lia. by rewrite Nat.div_small, Nat.mod_small by done.
  - rewrite lookup_app_r, Hl, IH by lia.
    assert (∃ j, k = (j + 1 * n)%nat) as [j ->] by (exists (k - n)%nat; lia).
    replace (j + 1 * n - n)%nat with j by lia.
    rewrite Nat.div_add, Nat.Div0.mod_add by lia. by rewrite Nat.add_1_r.
Qed.

Lemma concat_length {A} (n : nat) (ls : list (list A)) :
  Forall (λ l, length l = n) ls → length (concat ls) = (length ls * n)%nat.
Proof. induction 1 as [|l ls Hl _ IH]; simpl; [done|]. rewrite length_app. lia. Qed.

(** * Little-endian words *)
Fixpoint bytes_of (n : nat) (w : Z) : list Z :=
  match n with
  | O => []
  | S n => w mod 256 :: bytes_of n (w / 256)
  end.

Fixpoint word_of (bs : list Z) : Z :=
  match bs with
  | [] => 0
  | b :: bs => b + 256 * word_of bs
  end.

Lemma bytes_of_length n w : length (bytes_of n w) = n.
Proof. revert w. induction n; intros w; simpl; auto. Qed.

Lemma bytes_of_bytes n w : Forall is_byte (bytes_of n w).
Proof.
  revert w. induction n; intros w; simpl; constructor; [|done].
  unfold is_byte. apply Z.mod_pos_bound. lia.
Qed.

Lemma word_of_bytes_of n w : word_of (bytes_of n w) = w mod 256 ^ Z.of_nat n.
Proof.
  revert w. induction n as [|n IH]; intros w.
  - simpl. by rewrite Z.mod_1_r.
  - cbn [bytes_of word_of]. rewrite IH, Nat2Z.inj_succ, Z.pow_succ_r by lia.
    rewrite Z.rem_mul_r by lia. done.
Qed.

Lemma word_of_range bs :
  Forall is_byte bs → 0 ≤ word_of bs < 256 ^ Z.of_nat (length bs).
Proof.
  induction 1 as [|b bs Hb _ IH]; cbn [word_of length]; [by simpl|].
  rewrite Nat2Z.inj_succ, Z.pow_succ_r by lia. unfold is_byte in Hb. lia.
Qed.

Lemma bytes_of_word_of bs :
  Forall is_byte bs → bytes_of (length bs) (word_of bs) = bs.
Proof.
  induction 1 as [|b bs Hb _ IH]; [done|]. cbn [word_of length bytes_of].
  unfold is_byte in Hb. f_equal.
  - rewrite (Z.mul_comm 256), Z.mod_add by lia. by apply Z.mod_small.
  - rewrite (Z.mul_comm 256), Z.div_add by lia. by rewrite Z.div_small.
Qed.

Lemma bytes_of_mod n w : bytes_of n (w mod 256 ^ Z.of_nat n) = bytes_of n w.
Proof.
  rewrite <- word_of_bytes_of.
  rewrite <- (bytes_of_length n w) at 1. apply bytes_of_word_of, bytes_of_bytes.
Qed.

(** * Uninitialised memory

    What [new char[n]] returns. *)
Class FreshMemory : Type := {
  fresh_bytes : Z → list Z;
  fresh_length : ∀ n, 0 ≤ n → length (fresh_bytes n) = Z.to_nat n;
  fresh_is_byte : ∀ n, Forall is_byte (fresh_bytes n)
}.

(** * Counted loops

    [for (int i = lo; i < lo + n; i++) body] where the body neither changes the
    bound nor leaves the loop early. *)
Fixpoint for_up {T} (n : nat) (i : Z) (body : Z → T → res T) (s : T) : res T :=
  match n with
  | O => Done s
  | S n => s' ← body i s; for_up n (i + 1) body s'
  end.

(** Invariant rule: if the body re-establishes [I] one step further, the loop
    returns, in a state where [I] holds of the bound. *)
Lemma for_up_inv {T} (I : Z → T → Prop) (body : Z → T → res T) n lo s :
  I lo s →
  (∀ i s, lo ≤ i < lo + Z.of_nat n → I i s →
          ∃ s', body i s = Done s' ∧ I (i + 1) s') →
  ∃ s', for_up n lo body s = Done s' ∧ I (lo + Z.of_nat n) s'.
Proof.
  revert lo s. induction n as [|n IH]; intros lo s HI Hstep; cbn [for_up].
  - exists s. by rewrite Z.add_0_r.
  - destruct (Hstep lo s) as (s1 & -> & HI1); [lia|done|]. cbn [mbind res_bind].
    destruct (IH (lo + 1) s1 HI1) as (s2 & Hs2 & HI2).
    + intros i s' Hi. apply Hstep. lia.
    + exists s2. split; [done|].
      by replace (lo + Z.of_nat (S n)) with (lo + 1 + Z.of_nat n) by lia.
Qed.

(** A loop in two parts. *)
Lemma for_up_app {T} (body : Z → T → res T) n m lo s :
  for_up (n + m) lo body s = (s' ← for_up n lo body s; for_up m (lo + Z.of_nat n) body s').
Proof.
  revert lo s. induction n as [|n IH]; intros lo s; cbn [for_up Nat.add].
  - by rewrite Z.add_0_r.
  - destruct (body lo s) as [s'| | | |]; cbn [mbind res_bind]; [|done..]. rewrite IH.
    by replace (lo + Z.of_nat (S n)) with (lo + 1 + Z.of_nat n) by lia.
Qed.

(** The indices [lo .. lo+n-1] of a loop. *)
Lemma seqZ_snoc lo n : 0 ≤ n → seqZ lo (n + 1) = seqZ lo n ++ [lo + n].
Proof. intros. rewrite seqZ_app by lia. done. Qed.

Lemma filter_none {A} (P : A → Prop) `{!∀ x, Decision (P x)} (l : list A) :
  (∀ x, x ∈ l → ¬ P x) → filter P l = [].
Proof.
  induction l as [|x l IH]; intros Hn; [done|].
  rewrite filter_cons, decide_False by (apply Hn; set_solver). apply IH. set_solver.
Qed.

Lemma filter_everything {A} (P : A → Prop) `{!∀ x, Decision (P x)} (l : list A) :
  (∀ x, x ∈ l → P x) → filter P l = l.
Proof.
  induction l as [|x l IH]; intros Hn; [done|].
  rewrite filter_cons, decide_True by (apply Hn; set_solver). f_equal. apply IH. set_solver.
Qed.

(** * Shared automation *)
Create HintDb nachos.
Create Rewrite HintDb nachos_len.
#[export] Hint Resolve u32_range s32_range u8_range bytes_of_bytes : nachos.
#[export] Hint Rewrite @length_insert @length_app @length_take @length_drop
  @length_replicate @length_fmap @length_seqZ bytes_of_length : nachos_len.
