(* ===== verification/Bitmap.v ===== *)
(** Bitmap: the bit map of src/code/userprog/bitmap.{h,cc}.

    [Module BitMap] translates the class: the words of storage ([map]) are the
    [unsigned int] array of the code, with the rounding to whole words and the
    mask arithmetic as written.  [BitmapLike] is what the class promises to its
    clients (free sectors in the file system, page frames in the address
    spaces); it is an instance of that interface at the end of the file. *)

From S2P Require Import Prelude.

Module BitMap.

Definition BitsInByte : Z := 8.
Definition BitsInWord : Z := 32.

Record t : Type := mk {
  numBits : Z;
  numWords : Z;
  map : list Z
}.

(** [1 << (which % BitsInWord)], converted to [unsigned]. *)
Definition mask (which : Z) : Z := u32 (Z.shiftl 1 (cmod which BitsInWord)).

Definition in_range (b : t) (which : Z) : bool :=
  (0 <=? which) && (which <? numBits b).

Definition Mark (b : t) (which : Z) : res t :=
  ASSERT (in_range b which);;
  w ← aget (map b) (cdiv which BitsInWord);
  m ← aset (map b) (cdiv which BitsInWord) (Z.lor w (mask which));
  Done (mk (numBits b) (numWords b) m).

Definition Clear (b : t) (which : Z) : res t :=
  ASSERT (in_range b which);;
  w ← aget (map b) (cdiv which BitsInWord);
  m ← aset (map b) (cdiv which BitsInWord)
        (Z.land w (u32 (Z.lnot (Z.shiftl 1 (cmod which BitsInWord)))));
  Done (mk (numBits b) (numWords b) m).

Definition Test (b : t) (which : Z) : res bool :=
  ASSERT (in_range b which);;
  w ← aget (map b) (cdiv which BitsInWord);
  Done (negb (Z.land w (mask which) =? 0)).

(** The constructor; [storage] is what [new unsigned int[numWords]] returns,
    which the code does not initialise before clearing bit by bit. *)
Definition BitMap (storage : list Z) (nitems : Z) : res t :=
  for_up (Z.to_nat nitems) 0 (λ i b, Clear b i)
    (mk nitems (divRoundUp nitems BitsInWord) storage).

Fixpoint Find_loop (n : nat) (i : Z) (b : t) : res (Z * t) :=
  match n with
  | O => Done (-1, b)
  | S n =>
      used ← Test b i;
      if negb used then b' ← Mark b i; Done (i, b')
      else Find_loop n (i + 1) b
  end.

Definition Find (b : t) : res (Z * t) := Find_loop (Z.to_nat (numBits b)) 0 b.

Definition NumClear (b : t) : res Z :=
  for_up (Z.to_nat (numBits b)) 0
    (λ i count, used ← Test b i; Done (if negb used then count + 1 else count)) 0.

(** The digits [Print] writes: 49 is '1', 48 is '0'. *)
Definition Print (b : t) : res (list Z) :=
  for_up (Z.to_nat (numBits b)) 0
    (λ i out, used ← Test b i; Done (out ++ [if (used : bool) then 49 else 48])) [].

(** The bytes of the storage, as [WriteBack] hands them to [WriteAt]. *)
Definition WriteBack (b : t) : list Z := concat (bytes_of 4 <$> map b).

Fixpoint words_of_bytes (n : nat) (bs : list Z) : list Z :=
  match n with
  | O => []
  | S n => word_of (take 4 bs) :: words_of_bytes n (drop 4 bs)
  end.

(** [FetchFrom]: [bs] are the bytes [ReadAt] copied to the start of the storage. *)
Definition FetchFrom (b : t) (bs : list Z) : res t :=
  bytes ← blit (WriteBack b) 0 bs;
  Done (mk (numBits b) (numWords b) (words_of_bytes (length (map b)) bytes)).

(** ** Invariant and abstraction *)

Record wf (b : t) : Prop := {
  wf_bits : 0 ≤ numBits b;
  wf_words : numWords b = divRoundUp (numBits b) BitsInWord;
  wf_length : Z.of_nat (length (map b)) = numWords b;
  wf_u32 : Forall is_u32 (map b)
}.

(** Bit [i] of the map. *)
Definition bit (b : t) (i : Z) : bool :=
  Z.testbit (default 0 (map b !! Z.to_nat (i / BitsInWord))) (i mod BitsInWord).

(** [b'] is [b] with bit [i] set to [v] (and nothing else changed). *)
Definition updated (b b' : t) (i : Z) (v : bool) : Prop :=
  wf b' ∧ numBits b' = numBits b ∧
  ∀ j, 0 ≤ j < numBits b → bit b' j = if decide (j = i) then v else bit b j.

Lemma testbit_shiftl1 k j : 0 ≤ k → 0 ≤ j → Z.testbit (Z.shiftl 1 k) j = (j =? k).
Proof.
  intros. rewrite Z.shiftl_1_l, Z.pow2_bits_eqb by lia. apply Z.eqb_sym.
Qed.

Lemma lor_mask_bit w k j :
  0 ≤ k < 32 → 0 ≤ j < 32 →
  Z.testbit (Z.lor w (u32 (Z.shiftl 1 k))) j = if decide (j = k) then true else Z.testbit w j.
Proof.
  intros. rewrite Z.lor_spec, u32_testbit, testbit_shiftl1 by lia.
  rewrite bool_decide_true by lia. simpl.
  case_decide.
  - subst. by rewrite Z.eqb_refl, orb_true_r.
  - rewrite (proj2 (Z.eqb_neq j k)) by done. apply orb_false_r.
Qed.

Lemma land_mask_bit w k j :
  0 ≤ k < 32 → 0 ≤ j < 32 →
  Z.testbit (Z.land w (u32 (Z.lnot (Z.shiftl 1 k)))) j =
  if decide (j = k) then false else Z.testbit w j.
Proof.
  intros. rewrite Z.land_spec, u32_testbit, Z.lnot_spec, testbit_shiftl1 by lia.
  rewrite bool_decide_true by lia. simpl. case_decide.
  - subst. by rewrite Z.eqb_refl, andb_false_r.
  - rewrite (proj2 (Z.eqb_neq j k)) by done. apply andb_true_r.
Qed.

Lemma land_mask_zero w k :
  0 ≤ k < 32 → (Z.land w (u32 (Z.shiftl 1 k)) =? 0) = negb (Z.testbit w k).
Proof.
  intros Hk.
  assert (Hu : u32 (Z.shiftl 1 k) = 2 ^ k).
  { rewrite Z.shiftl_1_l. apply u32_id. split; [lia|].
    apply Z.pow_lt_mono_r; lia. }
  rewrite Hu. destruct (Z.testbit w k) eqn:E; simpl; apply Bool.eq_true_iff_eq.
  - split; [|done]. intros H%Z.eqb_eq.
    assert (H' : Z.testbit (Z.land w (2 ^ k)) k = false) by (rewrite H; apply Z.bits_0).
    rewrite Z.land_spec, E, Z.pow2_bits_true in H' by lia. done.
  - split; [done|]. intros _. apply Z.eqb_eq, Z.bits_inj'. intros j Hj.
    rewrite Z.land_spec, Z.pow2_bits_eqb, Z.bits_0 by lia.
    destruct (Z.eqb_spec k j); [subst; by rewrite E|apply andb_false_r].
Qed.

Lemma land_u32 w m : is_u32 w → is_u32 (Z.land w m).
Proof.
  intros [Hw0 Hw1]. split.
  - apply Z.land_nonneg. by left.
  - destruct (Z.eq_dec (Z.land w m) 0) as [->|Hn]; [lia|].
    assert (0 ≤ Z.land w m) by (apply Z.land_nonneg; by left).
    apply Z.log2_lt_pow2; [lia|].
    assert (Hw : w ≠ 0) by (intros ->; by rewrite Z.land_0_l in Hn).
    rewrite <- (Z.mod_small w (2 ^ 32)) by lia. rewrite <- Z.land_ones by lia.
    rewrite <- Z.land_assoc, (Z.land_comm _ m), Z.land_assoc, Z.land_ones by lia.
    assert (Hlt : 0 ≤ Z.land w m mod 2 ^ 32 < 2 ^ 32) by (apply Z.mod_pos_bound; lia).
    destruct (Z.eq_dec (Z.land w m mod 2 ^ 32) 0) as [->|]; [by vm_compute|].
    apply Z.log2_lt_pow2; lia.
Qed.

Lemma lor_u32 w m : is_u32 w → is_u32 m → is_u32 (Z.lor w m).
Proof.
  intros [Hw0 Hw1] [Hm0 Hm1]. split; [by apply Z.lor_nonneg|].
  destruct (Z.eq_dec (Z.lor w m) 0) as [->|Hn]; [lia|].
  assert (0 ≤ Z.lor w m) by (by apply Z.lor_nonneg).
  apply Z.log2_lt_pow2; [lia|]. rewrite Z.log2_lor by done.
  apply Z.max_lub_lt.
  - destruct (Z.eq_dec w 0) as [->|]; [by vm_compute|apply Z.log2_lt_pow2; lia].
  - destruct (Z.eq_dec m 0) as [->|]; [by vm_compute|apply Z.log2_lt_pow2; lia].
Qed.

(** Every bit number below [numBits] falls into the storage. *)
Lemma wf_word b i :
  wf b → 0 ≤ i < numBits b →
  0 ≤ i / BitsInWord < Z.of_nat (length (map b)).
Proof.
  intros Hwf Hi. rewrite (wf_length b Hwf), (wf_words b Hwf).
  pose proof (divRoundUp_spec (numBits b) BitsInWord) as Hd.
  unfold BitsInWord in *. split; [apply Z.div_pos; lia|].
  apply Z.div_lt_upper_bound; lia.
Qed.

(** Replacing one word by a word that differs in one bit updates that bit. *)
Lemma insert_word_updated b i w v :
  wf b → 0 ≤ i < numBits b → is_u32 w →
  (∀ j, 0 ≤ j < 32 → Z.testbit w j =
        if decide (j = i mod BitsInWord) then v
        else Z.testbit (default 0 (map b !! Z.to_nat (i / BitsInWord))) j) →
  updated b (mk (numBits b) (numWords b) (<[Z.to_nat (i / BitsInWord) := w]> (map b))) i v.
Proof.
  intros Hwf Hi Hw Hbits. pose proof (wf_word b i Hwf Hi).
  split; [|split; [done|]].
  - destruct Hwf. split; simpl; auto.
    + by rewrite length_insert.
    + by apply Forall_insert.
  - intros j Hj. unfold bit at 1. simpl.
    pose proof (Z.mod_pos_bound j BitsInWord) as Hjm.
    pose proof (Z.mod_pos_bound i BitsInWord) as Him.
    pose proof (Z.div_mod i BitsInWord) as Hid. pose proof (Z.div_mod j BitsInWord) as Hjd.
    unfold BitsInWord in *.
    destruct (decide (j / 32 = i / 32)) as [E|E].
    + rewrite E, list_lookup_insert_eq by lia. simpl. rewrite Hbits by lia.
      unfold bit. unfold BitsInWord. rewrite E.
      destruct (decide (j = i)); destruct (decide (j mod 32 = i mod 32)); try done; try lia; congruence.
    + assert (0 ≤ j / 32) by (apply Z.div_pos; lia).
      rewrite list_lookup_insert_ne by lia.
      rewrite decide_False by congruence. done.
Qed.

Lemma in_range_true b i : 0 ≤ i < numBits b → in_range b i = true.
Proof. intros. unfold in_range. lia. Qed.

Lemma in_range_false b i : i < 0 ∨ numBits b ≤ i → in_range b i = false.
Proof. intros. unfold in_range. lia. Qed.

(** The word that holds bit [i]. *)
Lemma aget_word b i :
  wf b → 0 ≤ i < numBits b →
  ∃ w, aget (map b) (cdiv i BitsInWord) = Done w ∧ is_u32 w ∧
       map b !! Z.to_nat (i / BitsInWord) = Some w.
Proof.
  intros Hwf Hi. rewrite cdiv_nonneg by (unfold BitsInWord; lia).
  destruct (aget_in_range (map b) (i / BitsInWord)) as (w & Hw & Hl);
    [by apply wf_word|].
  exists w. split; [done|]. split; [|done].
  eapply Forall_lookup_1; [apply (wf_u32 b Hwf)|done].
Qed.

Lemma Mark_spec b i :
  wf b → 0 ≤ i < numBits b →
  ∃ b', Mark b i = Done b' ∧ updated b b' i true.
Proof.
  intros Hwf Hi. destruct (aget_word b i Hwf Hi) as (w & Hw & Hu & Hl).
  pose proof (wf_word b i Hwf Hi) as Hr.
  unfold Mark. rewrite in_range_true by done. simpl. rewrite Hw. simpl.
  rewrite cdiv_nonneg in * by (unfold BitsInWord; lia).
  rewrite aset_in_range by done. simpl.
  eexists. split; [done|]. apply insert_word_updated; [done..| |].
  - apply lor_u32; [done|apply u32_range].
  - intros j Hj. rewrite Hl. simpl. unfold mask.
    rewrite cmod_nonneg by (unfold BitsInWord; lia).
    apply lor_mask_bit; [|done]. apply Z.mod_pos_bound. done.
Qed.

Lemma Clear_spec b i :
  wf b → 0 ≤ i < numBits b →
  ∃ b', Clear b i = Done b' ∧ updated b b' i false.
Proof.
  intros Hwf Hi. destruct (aget_word b i Hwf Hi) as (w & Hw & Hu & Hl).
  pose proof (wf_word b i Hwf Hi) as Hr.
  unfold Clear. rewrite in_range_true by done. simpl. rewrite Hw. simpl.
  rewrite cdiv_nonneg in * by (unfold BitsInWord; lia).
  rewrite aset_in_range by done. simpl.
  eexists. split; [done|]. apply insert_word_updated; [done..| |].
  - by apply land_u32.
  - intros j Hj. rewrite Hl. simpl.
    rewrite cmod_nonneg by (unfold BitsInWord; lia).
    apply land_mask_bit; [|done]. apply Z.mod_pos_bound. done.
Qed.

Lemma Test_spec b i : wf b → 0 ≤ i < numBits b → Test b i = Done (bit b i).
Proof.
  intros Hwf Hi. destruct (aget_word b i Hwf Hi) as (w & Hw & Hu & Hl).
  unfold Test. rewrite in_range_true by done. simpl. rewrite Hw. simpl.
  unfold mask. rewrite cmod_nonneg by (unfold BitsInWord; lia).
  rewrite land_mask_zero by (apply Z.mod_pos_bound; done).
  unfold bit. rewrite Hl. simpl. by rewrite negb_involutive.
Qed.

Lemma ops_out_of_range b i :
  i < 0 ∨ numBits b ≤ i →
  Mark b i = Assert ∧ Clear b i = Assert ∧ Test b i = Assert.
Proof.
  intros H. unfold Mark, Clear, Test. by rewrite (in_range_false b i H).
Qed.

(** The bits that are clear, in increasing order. *)
Definition clear_bits (b : t) : list Z :=
  filter (λ i, bit b i = false) (seqZ 0 (numBits b)).

Lemma elem_of_clear_bits b i :
  i ∈ clear_bits b ↔ 0 ≤ i < numBits b ∧ bit b i = false.
Proof. unfold clear_bits. rewrite list_elem_of_filter, elem_of_seqZ. naive_solver lia. Qed.

Lemma Find_loop_spec b n i :
  wf b → 0 ≤ i → i + Z.of_nat n = numBits b → (∀ j, 0 ≤ j < i → bit b j = true) →
  (∃ k b', Find_loop n i b = Done (k, b') ∧ 0 ≤ k < numBits b ∧ bit b k = false ∧
           (∀ j, 0 ≤ j < k → bit b j = true) ∧ updated b b' k true) ∨
  (Find_loop n i b = Done (-1, b) ∧ ∀ j, 0 ≤ j < numBits b → bit b j = true).
Proof.
  intros Hwf. revert i. induction n as [|n IH]; intros i Hi Hn Hlow.
  - right. split; [done|]. intros j Hj. apply Hlow. lia.
  - cbn [Find_loop]. rewrite Test_spec by (done || lia). cbn [mbind res_bind].
    destruct (bit b i) eqn:E; simpl.
    + apply IH; [lia..|]. intros j Hj. destruct (decide (j = i)); [by subst|apply Hlow; lia].
    + left. destruct (Mark_spec b i Hwf) as (b' & -> & Hu); [lia|]. simpl.
      exists i, b'. naive_solver lia.
Qed.

Lemma Find_spec b :
  wf b →
  (∃ k b', Find b = Done (k, b') ∧ 0 ≤ k < numBits b ∧ bit b k = false ∧
           (∀ j, 0 ≤ j < k → bit b j = true) ∧ updated b b' k true) ∨
  (Find b = Done (-1, b) ∧ ∀ j, 0 ≤ j < numBits b → bit b j = true).
Proof.
  intros Hwf. unfold Find. pose proof (wf_bits b Hwf).
  apply Find_loop_spec; [done|lia|lia|lia].
Qed.

Lemma NumClear_spec b : wf b → NumClear b = Done (Z.of_nat (length (clear_bits b))).
Proof.
  intros Hwf. pose proof (wf_bits b Hwf).
  destruct (for_up_inv
    (λ i c, c = Z.of_nat (length (filter (λ j, bit b j = false) (seqZ 0 i))))
    (λ i count, used ← Test b i; Done (if negb used then count + 1 else count))
    (Z.to_nat (numBits b)) 0 0) as (c & Hc & HI).
  - done.
  - intros i c Hi ->. rewrite Test_spec by (done || lia). simpl.
    eexists. split; [done|].
    rewrite seqZ_snoc, list.filter_app, length_app by lia. simpl.
    rewrite filter_cons, filter_nil, Z.add_0_l.
    case_decide as Hd; destruct (bit b i); simpl; done || lia.
  - unfold NumClear. rewrite Hc. f_equal. rewrite HI. unfold clear_bits.
    do 4 f_equal. lia.
Qed.

Lemma Print_spec b :
  wf b →
  Print b = Done ((λ i, if bit b i then 49 else 48) <$> seqZ 0 (numBits b)).
Proof.
  intros Hwf. pose proof (wf_bits b Hwf).
  destruct (for_up_inv
    (λ i out, out = (λ j, if bit b j then 49 else 48) <$> seqZ 0 i)
    (λ i out, used ← Test b i; Done (out ++ [if (used : bool) then 49 else 48]))
    (Z.to_nat (numBits b)) 0 []) as (c & Hc & HI).
  - done.
  - intros i c Hi ->. rewrite Test_spec by (done || lia). simpl.
    eexists. split; [done|]. by rewrite seqZ_snoc, fmap_app by lia.
  - unfold Print. rewrite Hc. f_equal. rewrite HI. do 2 f_equal. lia.
Qed.

(** The constructor clears every bit, whatever the storage held. *)
Lemma BitMap_spec storage n :
  0 ≤ n → Z.of_nat (length storage) = divRoundUp n BitsInWord →
  Forall is_u32 storage →
  ∃ b, BitMap storage n = Done b ∧ wf b ∧ numBits b = n ∧
       ∀ i, 0 ≤ i < n → bit b i = false.
Proof.
  intros Hn Hlen Hu.
  destruct (for_up_inv (λ i b, wf b ∧ numBits b = n ∧ ∀ j, 0 ≤ j < i → bit b j = false)
    (λ i b, Clear b i) (Z.to_nat n) 0 (mk n (divRoundUp n BitsInWord) storage))
    as (b & Hb & Hwf & Hnb & Hz).
  - split; [|split; [done|lia]]. by split.
  - intros i b Hi (Hwf & Hnb & Hz).
    destruct (Clear_spec b i Hwf) as (b' & Hb' & Hwf' & Hn' & Hbits); [lia|].
    exists b'. split; [done|]. split; [done|]. split; [congruence|].
    intros j Hj. rewrite Hbits by lia. case_decide; [done|apply Hz; lia].
  - exists b. split; [done|]. split; [done|]. split; [done|].
    intros i Hi. apply Hz. lia.
Qed.

Lemma words_of_bytes_concat ws rest :
  Forall is_u32 ws →
  words_of_bytes (length ws) (concat (bytes_of 4 <$> ws) ++ rest) = ws.
Proof.
  induction 1 as [|w ws Hw _ IH]; [done|].
  cbn [length words_of_bytes fmap list_fmap concat]. rewrite <- app_assoc.
  rewrite take_app_length', drop_app_length' by (by rewrite bytes_of_length).
  rewrite word_of_bytes_of. f_equal; [|done].
  apply Z.mod_small. unfold is_u32 in Hw. lia.
Qed.

Lemma WriteBack_length b : length (WriteBack b) = (4 * length (map b))%nat.
Proof.
  unfold WriteBack. induction (map b) as [|w ws IH]; [done|].
  cbn [fmap list_fmap concat length]. rewrite length_app, bytes_of_length, IH. lia.
Qed.

(** Storing a map and fetching the bytes into a map of the same size restores it. *)
Lemma FetchFrom_WriteBack b c :
  wf b → wf c → numBits c = numBits b → FetchFrom c (WriteBack b) = Done b.
Proof.
  intros Hb Hc Hn. unfold FetchFrom.
  assert (Hl : length (map c) = length (map b)).
  { destruct Hb as [? Hw Hl _], Hc as [? Hw' Hl' _]. rewrite Hn in Hw'. lia. }
  rewrite blit_in_range; [|lia|rewrite !WriteBack_length; lia]. simpl.
  rewrite drop_ge by (rewrite !WriteBack_length; lia).
  rewrite Hl. unfold WriteBack.
  rewrite words_of_bytes_concat by (by apply wf_u32).
  destruct b as [nb nw m], Hb as [? Hw _ _], Hc as [? Hw' _ _]. simpl in *.
  by rewrite Hw', Hn, Hw.
Qed.

Lemma updated_clear_bits b b' i :
  0 ≤ i < numBits b → bit b i = false → updated b b' i true →
  clear_bits b ≡ₚ i :: clear_bits b'.
Proof.
  intros Hi Hc (Hwf & Hn & Hbits).
  apply NoDup_Permutation.
  - apply list.NoDup_filter, NoDup_seqZ.
  - constructor; [|apply list.NoDup_filter, NoDup_seqZ].
    rewrite elem_of_clear_bits. intros [_ Hb]. rewrite Hbits, decide_True in Hb by done. done.
  - intros j. rewrite elem_of_cons, !elem_of_clear_bits, Hn. split.
    + intros [Hj Hb]. destruct (decide (j = i)); [by left|right].
      split; [done|]. by rewrite Hbits, decide_False by done.
    + intros [->|[Hj Hb]]; [done|]. rewrite Hbits in Hb by done.
      by case_decide.
Qed.

End BitMap.

(** * What the class promises to its clients *)
Class BitmapLike (B : Type) : Type := {
  bm_Mark : B → Z → res B;
  bm_Clear : B → Z → res B;
  bm_Test : B → Z → res bool;
  bm_Find : B → res (Z * B);
  bm_NumClear : B → res Z;
  bm_ok : B → Prop;
  bm_size : B → Z;
  bm_bit : B → Z → bool;
  bm_Mark_spec : ∀ b i, bm_ok b → 0 ≤ i < bm_size b →
    ∃ b', bm_Mark b i = Done b' ∧ bm_ok b' ∧ bm_size b' = bm_size b ∧
      ∀ j, 0 ≤ j < bm_size b → bm_bit b' j = if decide (j = i) then true else bm_bit b j;
  bm_Clear_spec : ∀ b i, bm_ok b → 0 ≤ i < bm_size b →
    ∃ b', bm_Clear b i = Done b' ∧ bm_ok b' ∧ bm_size b' = bm_size b ∧
      ∀ j, 0 ≤ j < bm_size b → bm_bit b' j = if decide (j = i) then false else bm_bit b j;
  bm_Test_spec : ∀ b i, bm_ok b → 0 ≤ i < bm_size b → bm_Test b i = Done (bm_bit b i);
  bm_Find_spec : ∀ b, bm_ok b →
    (∃ k b', bm_Find b = Done (k, b') ∧ 0 ≤ k < bm_size b ∧ bm_bit b k = false ∧
       bm_ok b' ∧ bm_size b' = bm_size b ∧
       ∀ j, 0 ≤ j < bm_size b → bm_bit b' j = if decide (j = k) then true else bm_bit b j) ∨
    (bm_Find b = Done (-1, b) ∧ ∀ j, 0 ≤ j < bm_size b → bm_bit b j = true);
  bm_NumClear_spec : ∀ b, bm_ok b →
    bm_NumClear b =
    Done (Z.of_nat (length (filter (λ i, bm_bit b i = false) (seqZ 0 (bm_size b)))))
}.

#[export] Program Instance BitMap_BitmapLike : BitmapLike BitMap.t := {
  bm_Mark := BitMap.Mark;
  bm_Clear := BitMap.Clear;
  bm_Test := BitMap.Test;
  bm_Find := BitMap.Find;
  bm_NumClear := BitMap.NumClear;
  bm_ok := BitMap.wf;
  bm_size := BitMap.numBits;
  bm_bit := BitMap.bit
}.
Next Obligation. intros b i. apply BitMap.Mark_spec. Qed.
Next Obligation. intros b i. apply BitMap.Clear_spec. Qed.
Next Obligation. intros b i. apply BitMap.Test_spec. Qed.
Next Obligation.
  intros b Hb. destruct (BitMap.Find_spec b Hb) as [(k&b'&?&?&?&_&?&?&?)|?]; [left|by right].
  naive_solver.
Qed.
Next Obligation. intros b. apply BitMap.NumClear_spec. Qed.

(** * Refinement to a finite set

    The map implements a set of allocated numbers below [n]: the calls of a
    client, with the value each of them returns (0 for the procedures), against
    the same calls on a [gset Z]. *)
Module BitMapSpec.
Import BitMap.

Inductive call : Type :=
| CMark (which : Z)
| CClear (which : Z)
| CTest (which : Z)
| CFind
| CNumClear.

(** The calls that satisfy the ASSERTs of the class. *)
Definition legal (n : Z) (c : call) : bool :=
  match c with
  | CMark i | CClear i | CTest i => (0 <=? i) && (i <? n)
  | CFind | CNumClear => true
  end.

Definition step (b : t) (c : call) : res (Z * t) :=
  match c with
  | CMark i => b' ← Mark b i; Done (0, b')
  | CClear i => b' ← Clear b i; Done (0, b')
  | CTest i => v ← Test b i; Done (if (v : bool) then 1 else 0, b)
  | CFind => Find b
  | CNumClear => k ← NumClear b; Done (k, b)
  end.

Fixpoint run (b : t) (cs : list call) : res (list Z) :=
  match cs with
  | [] => Done []
  | c :: cs => '(v, b') ← step b c; vs ← run b' cs; Done (v :: vs)
  end.

Definition set_step (n : Z) (s : gset Z) (c : call) : Z * gset Z :=
  match c with
  | CMark i => (0, {[i]} ∪ s)
  | CClear i => (0, s ∖ {[i]})
  | CTest i => (if bool_decide (i ∈ s) then 1 else 0, s)
  | CFind => match list_find (λ i, i ∉ s) (seqZ 0 n) with
             | Some (_, i) => (i, {[i]} ∪ s)
             | None => (-1, s)
             end
  | CNumClear => (n - Z.of_nat (size s), s)
  end.

Fixpoint set_run (n : Z) (s : gset Z) (cs : list call) : list Z :=
  match cs with
  | [] => []
  | c :: cs => (set_step n s c).1 :: set_run n (set_step n s c).2 cs
  end.

Definition represents (n : Z) (b : t) (s : gset Z) : Prop :=
  wf b ∧ numBits b = n ∧
  (∀ i, i ∈ s → 0 ≤ i < n) ∧
  (∀ i, 0 ≤ i < n → bit b i = bool_decide (i ∈ s)).

Lemma represents_updated n b b' s i (v : bool) :
  represents n b s → 0 ≤ i < n → updated b b' i v →
  represents n b' (if v then {[i]} ∪ s else s ∖ {[i]}).
Proof.
  intros (Hwf & Hn & Hr & Hb) Hi (Hwf' & Hn' & Hb').
  split; [done|]. split; [congruence|]. split.
  - intros j. destruct v; set_solver by lia.
  - intros j Hj. rewrite Hb' by lia. destruct v; case_decide as Hd.
    + subst. symmetry. apply bool_decide_eq_true. set_solver.
    + rewrite Hb by done. apply bool_decide_ext. set_solver.
    + subst. symmetry. apply bool_decide_eq_false. set_solver.
    + rewrite Hb by done. apply bool_decide_ext. set_solver.
Qed.

Lemma first_clear n (s : gset Z) k :
  0 ≤ k < n → k ∉ s → (∀ j, 0 ≤ j < k → j ∈ s) →
  list_find (λ i, i ∉ s) (seqZ 0 n) = Some (Z.to_nat k, k).
Proof.
  intros Hk Hn Hl. apply list_find_Some. split; [|split; [done|]].
  - apply lookup_seqZ. lia.
  - intros j y [-> Hj]%lookup_seqZ Hlt Hy. apply Hy, Hl. lia.
Qed.

Lemma no_clear n (s : gset Z) :
  (∀ j, 0 ≤ j < n → j ∈ s) → list_find (λ i, i ∉ s) (seqZ 0 n) = None.
Proof.
  intros Hl. apply list_find_None, list.Forall_forall. intros j Hj%elem_of_seqZ Hy.
  apply Hy, Hl. lia.
Qed.

Lemma clear_count n b s :
  represents n b s → Z.of_nat (length (clear_bits b)) = n - Z.of_nat (size s).
Proof.
  intros (Hwf & Hn & Hr & Hb).
  assert (Hp : elements s ++ clear_bits b ≡ₚ seqZ 0 n).
  { apply NoDup_Permutation.
    - apply list.NoDup_app. split; [apply NoDup_elements|]. split.
      + intros i Hi%elem_of_elements [Hi2 Hc]%elem_of_clear_bits.
        rewrite Hb in Hc by (rewrite <- Hn; done).
        by apply bool_decide_eq_false in Hc.
      + apply list.NoDup_filter, NoDup_seqZ.
    - apply NoDup_seqZ.
    - intros i. rewrite elem_of_app, elem_of_elements, elem_of_clear_bits, elem_of_seqZ.
      split.
      + intros [Hi|[Hi _]]; [apply Hr in Hi; lia|lia].
      + intros Hi. destruct (decide (i ∈ s)) as [Hs|Hs]; [by left|right].
        split; [lia|]. rewrite Hb by lia. by apply bool_decide_eq_false. }
  apply Permutation_length in Hp. rewrite length_app, length_seqZ in Hp.
  pose proof (wf_bits b Hwf). unfold size, set_size in *. simpl in *. lia.
Qed.

Lemma bitmap_step_refines n b s c :
  represents n b s → legal n c = true →
  ∃ b', step b c = Done ((set_step n s c).1, b') ∧ represents n b' (set_step n s c).2.
Proof.
  intros HR Hc. pose proof HR as (Hwf & Hn & Hr & Hb).
  destruct c as [i|i|i| |]; simpl in *; simplify_tests.
  - destruct (Mark_spec b i Hwf) as (b' & -> & Hu); [lia|]. simpl.
    exists b'. split; [done|]. by apply (represents_updated n b b' s i true).
  - destruct (Clear_spec b i Hwf) as (b' & -> & Hu); [lia|]. simpl.
    exists b'. split; [done|]. by apply (represents_updated n b b' s i false).
  - rewrite Test_spec by (done || lia). simpl. exists b. by rewrite Hb by lia.
  - destruct (Find_spec b Hwf) as [(k & b' & Hf & Hk & Hkc & Hlow & Hu)|[Hf Hall]]; rewrite Hf.
    + rewrite Hn in *. rewrite (first_clear n s k); [|done|..]; simpl.
      * exists b'. split; [done|]. by apply (represents_updated n b b' s k true).
      * rewrite Hb in Hkc by done. by apply bool_decide_eq_false in Hkc.
      * intros j Hj. specialize (Hlow j Hj). rewrite Hb in Hlow by lia.
        by apply bool_decide_eq_true in Hlow.
    + rewrite (no_clear n s); simpl; [by exists b|].
      intros j Hj. rewrite Hn in Hall. specialize (Hall j Hj). rewrite Hb in Hall by lia.
      by apply bool_decide_eq_true in Hall.
  - rewrite NumClear_spec by done. simpl. exists b. by rewrite (clear_count n b s).
Qed.

Lemma bitmap_run_refines n b s cs :
  represents n b s → forallb (legal n) cs = true → run b cs = Done (set_run n s cs).
Proof.
  revert b s. induction cs as [|c cs IH]; intros b s HR Hl; [done|].
  simpl in Hl. simplify_tests.
  destruct (bitmap_step_refines n b s c HR) as (b' & Hs & HR'); [done|].
  cbn [run set_run]. rewrite Hs. cbn [mbind res_bind].
  rewrite (IH b' _ HR'); done.
Qed.

(** C15: A freshly constructed BitMap refines a finite set of allocated numbers.
    Whatever the uninitialised storage of the constructor held, any sequence of
    in-range calls to Mark, Clear, Test, Find and NumClear runs without an
    ASSERT or an access outside the storage and returns exactly the values of
    the same calls on a set that starts empty, where Find returns and adds the
    least absent number (or -1) and NumClear counts the absent ones. *)
Theorem BitMap_refines_set (n : Z) (storage : list Z) (cs : list call) :
  0 ≤ n → Z.of_nat (length storage) = divRoundUp n BitsInWord →
  Forall is_u32 storage → forallb (legal n) cs = true →
  (b ← BitMap storage n; run b cs) = Done (set_run n ∅ cs).
Proof.
  intros Hn Hlen Hu Hl.
  destruct (BitMap_spec storage n Hn Hlen Hu) as (b & -> & Hwf & Hnb & Hz). simpl.
  apply bitmap_run_refines; [|done]. split; [done|]. split; [done|]. split; [set_solver|].
  intros i Hi. rewrite Hz by done. symmetry. apply bool_decide_eq_false. set_solver.
Qed.

Lemma BitMap_refines_set_witness :
  (b ← BitMap [4294967295; 7] 33; run b [CFind; CMark 32; CFind; CClear 0; CTest 32; CFind; CNumClear])
  = Done [0; 0; 1; 0; 1; 0; 30].
Proof.
  rewrite (BitMap_refines_set 33 [4294967295; 7]).
  - vm_compute. reflexivity.
  - lia.
  - reflexivity.
  - ranges.
  - reflexivity.
Defined.

(** WriteBack and FetchFrom are inverse. The bytes a BitMap writes to a
    file, fetched into any BitMap of the same size (for instance a freshly
    constructed one), give back the map that was written, word for word. *)
Theorem BitMap_file_roundtrip (b c : t) :
  wf b → wf c → numBits c = numBits b → FetchFrom c (WriteBack b) = Done b.
Proof. apply FetchFrom_WriteBack. Qed.

Lemma BitMap_file_roundtrip_witness :
  FetchFrom (mk 33 2 [0; 0]) (WriteBack (mk 33 2 [3221225473; 1])) = Done (mk 33 2 [3221225473; 1]).
Proof.
  apply BitMap_file_roundtrip; [..|reflexivity];
    (split; [simpl; lia|reflexivity|reflexivity|simpl; ranges]).
Defined.

End BitMapSpec.
