(* ===== verification/Lists.v ===== *)
(** Lists: the singly linked list of src/code/threads/list.{h,cc}.

    [Module LList] translates the class with its ListElements in a heap: the
    [next] pointers, the [first]/[last]/[size] members and every pointer
    assignment of the code.  [Module Queue] is what the list promises to its
    clients (the ready list, the pending interrupts, the page list): a sequence
    of keyed items and the [size] counter.  The theorems of [ListSpec] show that
    the pointer code implements the sequence. *)

From S2P Require Import Prelude.

(** * The abstract list *)
Module Queue.

Record queue (A : Type) : Type := mkQ {
  items : list (Z * A);
  size : Z
}.
Arguments mkQ {A}.
Arguments items {A}.
Arguments size {A}.

Section ops.
Context {A : Type}.

Definition empty : queue A := mkQ [] 0.

Definition IsEmpty (q : queue A) : bool :=
  match items q with [] => true | _ => false end.

Definition Append (x : A) (q : queue A) : queue A :=
  mkQ (items q ++ [(0, x)]) (s32 (size q + 1)).

Definition Prepend (x : A) (q : queue A) : queue A :=
  mkQ ((0, x) :: items q) (s32 (size q + 1)).

(** The first item with its key, and the list without it. *)
Definition SortedRemove (q : queue A) : option (Z * A) * queue A :=
  match items q with
  | [] => (None, q)
  | kx :: xs => (Some kx, mkQ xs (size q))
  end.

Definition Remove (q : queue A) : option A * queue A :=
  let '(r, q') := SortedRemove (mkQ (items q) (s32 (size q - 1))) in
  (snd <$> r, q').

Fixpoint insert_sorted (k : Z) (x : A) (xs : list (Z * A)) : list (Z * A) :=
  match xs with
  | [] => [(k, x)]
  | (k', x') :: xs' =>
      if k <? k' then (k, x) :: xs else (k', x') :: insert_sorted k x xs'
  end.

Definition SortedInsert (x : A) (k : Z) (q : queue A) : queue A :=
  mkQ (insert_sorted k x (items q)) (size q).

Definition getSize (q : queue A) : Z := size q.

Definition contents (q : queue A) : list A := snd <$> items q.

(** Increasing keys. *)
Definition sorted (xs : list (Z * A)) : Prop := Sorted Z.le (fst <$> xs).

(** The size counter counts the items. *)
Definition size_ok (q : queue A) : Prop := size q = Z.of_nat (length (items q)).

Lemma insert_sorted_perm k x xs : insert_sorted k x xs ≡ₚ (k, x) :: xs.
Proof.
  induction xs as [|[k' x'] xs IH]; simpl; [done|].
  destruct (k <? k'); [done|]. rewrite IH. apply Permutation_swap.
Qed.

Lemma insert_sorted_length k x xs : length (insert_sorted k x xs) = S (length xs).
Proof. by rewrite insert_sorted_perm. Qed.

Lemma insert_sorted_keys k x xs j :
  j ∈ (fst <$> insert_sorted k x xs) ↔ j = k ∨ j ∈ (fst <$> xs).
Proof. rewrite insert_sorted_perm. simpl. by rewrite elem_of_cons. Qed.

Lemma insert_sorted_sorted k x xs : sorted xs → sorted (insert_sorted k x xs).
Proof.
  unfold sorted. intros Hs. apply Sorted_StronglySorted in Hs; [|apply _].
  apply StronglySorted_Sorted. induction xs as [|[k' x'] xs IH]; simpl.
  - repeat constructor.
  - simpl in Hs. inversion Hs as [|? ? Hs' Hall]; subst.
    destruct (k <? k') eqn:E; simplify_tests; simpl.
    + constructor; [done|]. constructor; [lia|].
      eapply Forall_impl; [done|]. simpl. lia.
    + constructor; [by apply IH|]. apply list.Forall_forall. intros j Hj.
      apply insert_sorted_keys in Hj as [->|Hj]; [lia|].
      rewrite list.Forall_forall in Hall. by apply Hall.
Qed.

(** Insertion is stable: items of one key keep their order of arrival. *)
Lemma insert_sorted_stable k x xs j :
  sorted xs →
  filter (λ p, p.1 = j) (insert_sorted k x xs) =
  filter (λ p, p.1 = j) xs ++ (if decide (k = j) then [(k, x)] else []).
Proof.
  unfold sorted. intros Hs. apply Sorted_StronglySorted in Hs; [|apply _].
  induction xs as [|[k' x'] xs IH]; simpl.
  - rewrite filter_cons, filter_nil. done.
  - simpl in Hs. inversion Hs as [|? ? Hs' Hall]; subst.
    destruct (k <? k') eqn:E; simplify_tests.
    + rewrite (filter_cons _ (k, x)). case_decide as Hk; simpl in Hk; subst.
      * rewrite decide_True by done.
        assert (Hnil : filter (λ p : Z * A, p.1 = j) ((k', x') :: xs) = []).
        { rewrite filter_cons, decide_False by (simpl; lia).
          apply filter_none. intros [k1 x1] Hin. simpl.
          rewrite list.Forall_forall in Hall.
          assert (k' ≤ k1); [|lia]. apply Hall. apply list_elem_of_fmap. by exists (k1, x1). }
        by rewrite Hnil.
      * rewrite decide_False by done. by rewrite app_nil_r.
    + rewrite !filter_cons. simpl. destruct (decide (k' = j)); simpl; [f_equal|]; by apply IH.
Qed.

End ops.
End Queue.

(** * The pointer list *)
Module LList.

Definition NULL : Z := 0.

Record ListElement : Type := mkE {
  item : Z;
  key : Z;
  next : Z
}.

Record List : Type := mkL {
  first : Z;
  last : Z;
  size : Z
}.

Abbreviation heap := (gmap Z ListElement).

(** [*p]: undefined for NULL and for an element that was deleted. *)
Definition deref (h : heap) (p : Z) : res ListElement :=
  match h !! p with Some e => Done e | None => Undef end.

Definition set_next (e : ListElement) (n : Z) : ListElement := mkE (item e) (key e) n.

(** The constructors. *)
Definition ListElement_new (itemPtr sortKey : Z) : ListElement := mkE itemPtr sortKey NULL.
Definition List_new : List := mkL NULL NULL 0.

Definition IsEmpty (l : List) : bool := first l =? NULL.
Definition getSize (l : List) : Z := size l.

Section with_alloc.

(** [new ListElement]: an address that is neither NULL nor in use. *)
Context (alloc : heap → Z).

Definition Append (it : Z) (h : heap) (l : List) : res (heap * List) :=
  let element := alloc h in
  let h := <[element := ListElement_new it 0]> h in
  let size' := s32 (size l + 1) in
  if IsEmpty l then Done (h, mkL element element size')
  else
    e ← deref h (last l);
    Done (<[last l := set_next e element]> h, mkL (first l) element size').

Definition Prepend (it : Z) (h : heap) (l : List) : res (heap * List) :=
  let element := alloc h in
  let h := <[element := ListElement_new it 0]> h in
  let size' := s32 (size l + 1) in
  if IsEmpty l then Done (h, mkL element element size')
  else
    e ← deref h element;
    Done (<[element := set_next e (first l)]> h, mkL element (last l) size').

(** The [for] loop of SortedInsert: [Some h'] when it inserted and returned,
    [None] when it ran off the end of the list. *)
Fixpoint SortedInsert_loop (fuel : nat) (h : heap) (ptr element sortKey : Z)
    : res (option heap) :=
  match fuel with
  | O => Fuel
  | S fuel =>
      p ← deref h ptr;
      if next p =? NULL then Done None
      else
        n ← deref h (next p);
        if sortKey <? key n then
          e ← deref h element;
          let h := <[element := set_next e (next p)]> h in
          Done (Some (<[ptr := set_next p element]> h))
        else SortedInsert_loop fuel h (next p) element sortKey
  end.

Definition SortedInsert (it sortKey : Z) (h : heap) (l : List) : res (heap * List) :=
  let element := alloc h in
  let h := <[element := ListElement_new it sortKey]> h in
  if IsEmpty l then Done (h, mkL element element (size l))
  else
    f ← deref h (first l);
    if sortKey <? key f then
      e ← deref h element;
      Done (<[element := set_next e (first l)]> h, mkL element (last l) (size l))
    else
      r ← SortedInsert_loop (base.size h) h (first l) element sortKey;
      match r with
      | Some h' => Done (h', l)
      | None =>
          e ← deref h (last l);
          Done (<[last l := set_next e element]> h, mkL (first l) element (size l))
      end.

(** Returns the item (NULL if there is none) and the key stored to [*keyPtr]. *)
Definition SortedRemove (h : heap) (l : List) : res (Z * option Z * heap * List) :=
  if IsEmpty l then Done (NULL, None, h, l)
  else
    element ← deref h (first l);
    let l' := if first l =? last l then mkL NULL NULL (size l)
              else mkL (next element) (last l) (size l) in
    Done (item element, Some (key element), delete (first l) h, l').

Definition Remove (h : heap) (l : List) : res (Z * heap * List) :=
  '(thing, _, h', l') ← SortedRemove h (mkL (first l) (last l) (s32 (size l - 1)));
  Done (thing, h', l').

(** The items [func] is called with, in order. *)
Fixpoint Mapcar_loop (fuel : nat) (h : heap) (ptr : Z) : res (list Z) :=
  if ptr =? NULL then Done []
  else match fuel with
  | O => Fuel
  | S fuel => e ← deref h ptr; r ← Mapcar_loop fuel h (next e); Done (item e :: r)
  end.

Definition Mapcar (h : heap) (l : List) : res (list Z) :=
  Mapcar_loop (base.size h) h (first l).

(** The destructor: [while (Remove() != NULL);]. *)
Fixpoint List_delete_loop (fuel : nat) (h : heap) (l : List) : res (heap * List) :=
  match fuel with
  | O => Fuel
  | S fuel =>
      '(thing, h, l) ← Remove h l;
      if thing =? NULL then Done (h, l) else List_delete_loop fuel h l
  end.

Definition List_delete (h : heap) (l : List) : res (heap * List) :=
  List_delete_loop (S (base.size h)) h l.

End with_alloc.

(** ** Representation *)

(** The elements at [addrs], linked in this order from [p] to [q], hold the
    keyed items [xs]. *)
Fixpoint lseg (h : heap) (p : Z) (addrs : list Z) (xs : list (Z * Z)) (q : Z) : Prop :=
  match addrs, xs with
  | [], [] => p = q
  | a :: addrs, (k, i) :: xs =>
      p = a ∧ a ≠ NULL ∧ ∃ n, h !! a = Some (mkE i k n) ∧ lseg h n addrs xs q
  | _, _ => False
  end.

Record rep (h : heap) (l : List) (addrs : list Z) (q : Queue.queue Z) : Prop := {
  rep_lseg : lseg h (first l) addrs (Queue.items q) NULL;
  rep_nodup : NoDup addrs;
  rep_last : last l = default NULL (list.last addrs);
  rep_size : size l = Queue.size q
}.

Lemma deref_Some h p e : h !! p = Some e → deref h p = Done e.
Proof. unfold deref. by intros ->. Qed.

Lemma lseg_length h p addrs xs q : lseg h p addrs xs q → length addrs = length xs.
Proof.
  revert p xs. induction addrs as [|a addrs IH]; intros p [|[k i] xs]; simpl; try done.
  intros (-> & _ & n & _ & H). f_equal. eauto.
Qed.

Lemma lseg_app h p a1 a2 x1 x2 q :
  length a1 = length x1 →
  lseg h p (a1 ++ a2) (x1 ++ x2) q ↔ ∃ m, lseg h p a1 x1 m ∧ lseg h m a2 x2 q.
Proof.
  revert p x1. induction a1 as [|a a1 IH]; intros p [|[k i] x1] Hl; simpl in *; try lia.
  - naive_solver.
  - split.
    + intros (-> & Ha & n & Hn & H). apply IH in H as (m & H1 & H2); [|lia]. eauto 10.
    + intros (m & (-> & Ha & n & Hn & H1) & H2). split; [done|]. split; [done|].
      exists n. split; [done|]. apply IH; [lia|]. eauto.
Qed.

Lemma lseg_dom h p addrs xs q a : lseg h p addrs xs q → a ∈ addrs → is_Some (h !! a).
Proof.
  revert p xs. induction addrs as [|b addrs IH]; intros p [|[k i] xs]; simpl;
    [by rewrite elem_of_nil|done|done|].
  intros (-> & _ & n & Hn & H) [->|Ha]%elem_of_cons; [by rewrite Hn|eauto].
Qed.

Lemma lseg_nonnull h p addrs xs q a : lseg h p addrs xs q → a ∈ addrs → a ≠ NULL.
Proof.
  revert p xs. induction addrs as [|b addrs IH]; intros p [|[k i] xs]; simpl;
    [by rewrite elem_of_nil|done|done|].
  intros (-> & Hb & n & Hn & H) [->|Ha]%elem_of_cons; [done|eauto].
Qed.

(** A segment only depends on its own elements. *)
Lemma lseg_frame h h' p addrs xs q :
  (∀ a, a ∈ addrs → h' !! a = h !! a) → lseg h p addrs xs q → lseg h' p addrs xs q.
Proof.
  revert p xs. induction addrs as [|b addrs IH]; intros p [|[k i] xs]; simpl; try done.
  intros Hf (-> & Hb & n & Hn & H). split; [done|]. split; [done|].
  exists n. rewrite Hf by set_solver. split; [done|]. apply IH; [|done]. set_solver.
Qed.

Lemma lseg_insert_ne h b e p addrs xs q :
  b ∉ addrs → lseg h p addrs xs q → lseg (<[b := e]> h) p addrs xs q.
Proof.
  intros Hb. apply lseg_frame. intros a Ha. apply lookup_insert_ne. set_solver.
Qed.

Lemma lseg_delete_ne h b p addrs xs q :
  b ∉ addrs → lseg h p addrs xs q → lseg (delete b h) p addrs xs q.
Proof.
  intros Hb. apply lseg_frame. intros a Ha. apply lookup_delete_ne. set_solver.
Qed.

(** There are at least as many elements in the heap as in a segment. *)
Lemma lseg_size h p addrs xs q :
  lseg h p addrs xs q → NoDup addrs → (length addrs ≤ base.size h)%nat.
Proof.
  intros Hl Hn. rewrite <- (size_dom h).
  rewrite <- (size_list_to_set (C := gset Z)) by done.
  apply subseteq_size. intros a Ha%elem_of_list_to_set. apply elem_of_dom.
  eapply lseg_dom; eauto.
Qed.

Lemma rep_first h l addrs q :
  rep h l addrs q → IsEmpty l = Queue.IsEmpty q.
Proof.
  intros [Hl _ _ _]. unfold IsEmpty, Queue.IsEmpty.
  destruct addrs as [|a addrs], (Queue.items q) as [|[k i] xs]; simpl in Hl; try done.
  - by rewrite Hl.
  - destruct Hl as (-> & Ha & _). by apply Z.eqb_neq.
Qed.

Lemma rep_empty h : rep h List_new [] Queue.empty.
Proof. split; simpl; [done|constructor|done|done]. Qed.

(** ** Every operation implements the operation of the abstract list

    In each lemma [addrs] are the elements of the list before the call; an
    element outside the list and outside what the call allocates is untouched,
    so lists that share a heap do not disturb each other. *)
Lemma SortedRemove_spec h l addrs q :
  rep h l addrs q →
  ∃ h' l' addrs', SortedRemove h l =
      Done (default NULL (snd <$> (Queue.SortedRemove q).1),
            fst <$> (Queue.SortedRemove q).1, h', l') ∧
    rep h' l' addrs' (Queue.SortedRemove q).2 ∧ addrs' = tail addrs ∧
    h' = from_option (λ a, delete a h) h (head addrs).
Proof.
  intros Hr. pose proof Hr as [Hl Hnd Hlast Hsz].
  unfold SortedRemove. rewrite (rep_first _ _ _ _ Hr).
  unfold Queue.IsEmpty, Queue.SortedRemove.
  destruct (Queue.items q) as [|[k i] xs] eqn:Eq.
  - assert (addrs = []) as -> by (destruct addrs; [done|by simpl in Hl]).
    eexists h, l, []. done.
  - destruct addrs as [|a addrs]; [by simpl in Hl|]. simpl in Hl.
    destruct Hl as (Hf & Ha & n & Hn & Hl). rewrite Hf.
    unfold deref. rewrite Hn. simpl. apply NoDup_cons in Hnd as [Hna Hnd].
    eexists _, _, addrs. split; [done|]. split; [|split; [done|]].
    + destruct addrs as [|a2 addrs].
      * simpl in Hlast. rewrite Hlast, Z.eqb_refl.
        destruct xs; [|by simpl in Hl]. split; simpl; [done|constructor|done|done].
      * assert (Hneq : last l ≠ a).
        { rewrite Hlast, last_cons_cons. destruct (list.last (a2 :: addrs)) as [y|] eqn:Ey.
          - simpl. apply last_Some_elem_of in Ey. set_solver.
          - by apply last_None in Ey. }
        rewrite (proj2 (Z.eqb_neq a (last l))) by done.
        split; simpl; [|done|by rewrite Hlast|done].
        by apply (lseg_delete_ne h a n (a2 :: addrs) xs).
    + done.
Qed.

Lemma Remove_spec h l addrs q :
  rep h l addrs q →
  ∃ h' l' addrs', Remove h l = Done (default NULL (Queue.Remove q).1, h', l') ∧
    rep h' l' addrs' (Queue.Remove q).2 ∧ addrs' = tail addrs ∧
    h' = from_option (λ a, delete a h) h (head addrs).
Proof.
  intros [Hl Hnd Hlast Hsz].
  destruct (SortedRemove_spec h (mkL (first l) (last l) (s32 (size l - 1))) addrs
    (Queue.mkQ (Queue.items q) (s32 (Queue.size q - 1)))) as (h' & l' & addrs' & Hs & Hr & Ht & Hf).
  { split; simpl; [done|done|done|by rewrite Hsz]. }
  unfold Remove. rewrite Hs. simpl. unfold Queue.Remove.
  destruct (Queue.SortedRemove _) as [r q'] eqn:E. simpl in *.
  exists h', l', addrs'. split; [|done]. by destruct r.
Qed.

Lemma Mapcar_loop_spec fuel h p addrs xs :
  lseg h p addrs xs NULL → (length addrs ≤ fuel)%nat →
  Mapcar_loop fuel h p = Done (snd <$> xs).
Proof.
  revert p addrs xs. induction fuel as [|fuel IH]; intros p [|a addrs] [|[k i] xs] Hl Hf;
    simpl in Hl, Hf; try done; try lia.
  - by rewrite Hl.
  - by rewrite Hl.
  - destruct Hl as (-> & Ha & n & Hn & Hl). simpl.
    rewrite (proj2 (Z.eqb_neq a NULL)) by done. unfold deref. rewrite Hn. simpl.
    rewrite (IH n addrs xs); [done|done|lia].
Qed.

Lemma Mapcar_spec h l addrs q : rep h l addrs q → Mapcar h l = Done (Queue.contents q).
Proof.
  intros [Hl Hnd _ _]. unfold Mapcar. eapply Mapcar_loop_spec; [done|by eapply lseg_size].
Qed.

(** The destructor removes items up to the first NULL one. *)
Lemma List_delete_loop_spec fuel h l addrs q :
  rep h l addrs q → Forall (λ p, p.2 ≠ NULL) (Queue.items q) →
  (length addrs < fuel)%nat →
  ∃ h' l', List_delete_loop fuel h l = Done (h', l') ∧ IsEmpty l' = true ∧
    ∀ a, h' !! a = if decide (a ∈ addrs) then None else h !! a.
Proof.
  revert h l addrs q. induction fuel as [|fuel IH]; intros h l addrs q Hr Hnn Hf; [lia|].
  cbn [List_delete_loop].
  destruct (Remove_spec h l addrs q Hr) as (h1 & l1 & ad1 & -> & Hr1 & -> & ->).
  cbn [mbind res_bind]. pose proof (rep_lseg _ _ _ _ Hr) as Hl.
  pose proof (rep_first _ _ _ _ Hr1) as Hf1.
  destruct addrs as [|a addrs], (Queue.items q) as [|[k i] xs] eqn:Eq; simpl in Hl; try done.
  - unfold Queue.Remove, Queue.SortedRemove in *. simpl in *. rewrite Eq in *. simpl in *.
    eexists _, _. split; [done|]. by split.
  - apply Forall_cons in Hnn as [Hi Hnn]. simpl in Hi. destruct Hl as (_ & _ & n & Hn & Hl).
    unfold Queue.Remove, Queue.SortedRemove in *. simpl in *. rewrite Eq in *. simpl in *.
    rewrite (proj2 (Z.eqb_neq i NULL)) by done.
    destruct (IH _ _ _ _ Hr1) as (h' & l' & -> & He & Hh); [done|lia|].
    exists h', l'. split; [done|]. split; [done|]. intros b. rewrite Hh.
    pose proof (rep_nodup _ _ _ _ Hr) as [Hna Hnd]%NoDup_cons.
    destruct (decide (b = a)) as [->|Hba].
    + rewrite decide_False, decide_True by set_solver. apply lookup_delete_eq.
    + rewrite lookup_delete_ne by done. by do 2 case_decide; set_solver.
Qed.

Section specs.
Context (alloc : heap → Z).
Context (alloc_fresh : ∀ h, h !! alloc h = None).
Context (alloc_nonnull : ∀ h, alloc h ≠ NULL).

Definition framed (h h' : heap) (addrs : list Z) : Prop :=
  ∀ a, a ∉ addrs → a ≠ alloc h → h' !! a = h !! a.

Lemma alloc_notin h p addrs xs q : lseg h p addrs xs q → alloc h ∉ addrs.
Proof. intros Hl Ha. destruct (lseg_dom _ _ _ _ _ _ Hl Ha) as [e He]. by rewrite alloc_fresh in He. Qed.

(** Linking a new element behind the last one. *)
Lemma lseg_link_last h p addrs xs a0 e n :
  lseg h p (addrs ++ [a0]) xs NULL → NoDup (addrs ++ [a0]) →
  n ∉ addrs ++ [a0] → n ≠ NULL → h !! n = Some e → next e = NULL →
  ∃ e0, h !! a0 = Some e0 ∧
    lseg (<[a0 := set_next e0 n]> h) p ((addrs ++ [a0]) ++ [n]) (xs ++ [(key e, item e)]) NULL.
Proof.
  intros Hl Hnd Hn Hnn He Hne.
  pose proof (lseg_length _ _ _ _ _ Hl) as Hlen. rewrite length_app in Hlen. simpl in Hlen.
  destruct xs as [|[k0 i0] xs0 _] using rev_ind; [simpl in Hlen; lia|].
  rewrite length_app in Hlen. simpl in Hlen.
  apply lseg_app in Hl as (m & H1 & H2); [|lia]. simpl in H2.
  destruct H2 as (-> & Ha0 & nx & Hm & ->).
  exists (mkE i0 k0 NULL). split; [done|].
  apply NoDup_app in Hnd as (Hnd1 & Hnd2 & _).
  assert (Hne0 : n ≠ a0) by set_solver.
  rewrite <- !app_assoc. apply lseg_app; [lia|]. exists a0. split.
  - apply lseg_insert_ne; [|done]. intros Hin. apply (Hnd2 a0 Hin). set_solver.
  - simpl. split; [done|]. split; [done|]. exists n. split; [by rewrite lookup_insert_eq|].
    split; [done|]. split; [done|]. exists NULL. split; [|done].
    rewrite lookup_insert_ne by done. destruct e. simpl in *. by subst.
Qed.

Lemma Append_spec h l addrs q it :
  rep h l addrs q →
  ∃ h' l', Append alloc it h l = Done (h', l') ∧
    rep h' l' (addrs ++ [alloc h]) (Queue.Append it q) ∧ framed h h' addrs.
Proof.
  intros Hr. pose proof Hr as [Hl Hnd Hlast Hsz].
  pose proof (alloc_notin _ _ _ _ _ Hl) as Hfr.
  unfold Append. rewrite (rep_first _ _ _ _ Hr). unfold Queue.IsEmpty.
  destruct (Queue.items q) as [|[k0 i0] xs0] eqn:Eq.
  - assert (addrs = []) as -> by (destruct addrs; [done|by simpl in Hl]).
    eexists _, _. split; [done|]. split.
    + split; simpl; rewrite ?Eq; simpl.
      * split; [done|]. split; [apply alloc_nonnull|]. exists NULL.
        split; [by rewrite lookup_insert_eq|done].
      * apply NoDup_singleton.
      * done.
      * by rewrite Hsz.
    + intros a _ Ha. by apply lookup_insert_ne.
  - destruct addrs as [|a0 addrs0 _] using rev_ind; [by simpl in Hl|].
    rewrite last_snoc in Hlast. simpl in Hlast.
    destruct (lseg_link_last (<[alloc h := ListElement_new it 0]> h) (first l) addrs0
      ((k0, i0) :: xs0) a0 (ListElement_new it 0) (alloc h)) as (e0 & He0 & Hl');
      [by apply lseg_insert_ne|done|done|done|by rewrite lookup_insert_eq|done|].
    rewrite Hlast. unfold deref. rewrite He0. simpl.
    eexists _, _. split; [done|]. split.
    + split; simpl.
      * by rewrite Eq.
      * apply NoDup_app. split; [done|]. split; [set_solver|apply NoDup_singleton].
      * by rewrite last_snoc.
      * by rewrite Hsz.
    + intros a Ha Ha'. rewrite !lookup_insert_ne; [done|done|set_solver].
Qed.

(** Putting a new element in front. *)
Lemma rep_push_front h l addrs q it k sz :
  rep h l addrs q → Queue.IsEmpty q = false →
  rep (<[alloc h := mkE it k (first l)]> (<[alloc h := mkE it k NULL]> h))
      (mkL (alloc h) (last l) sz) (alloc h :: addrs)
      (Queue.mkQ ((k, it) :: Queue.items q) sz).
Proof.
  intros [Hl Hnd Hlast Hsz] Hne. pose proof (alloc_notin _ _ _ _ _ Hl) as Hfr.
  split; simpl.
  - split; [done|]. split; [apply alloc_nonnull|]. exists (first l).
    split; [by rewrite lookup_insert_eq|]. by repeat apply lseg_insert_ne.
  - by constructor.
  - rewrite Hlast, last_cons. destruct addrs as [|a addrs].
    + unfold Queue.IsEmpty in Hne. by destruct (Queue.items q).
    + rewrite last_cons. by destruct (list.last addrs).
  - done.
Qed.

Lemma Prepend_spec h l addrs q it :
  rep h l addrs q →
  ∃ h' l', Prepend alloc it h l = Done (h', l') ∧
    rep h' l' (alloc h :: addrs) (Queue.Prepend it q) ∧ framed h h' addrs.
Proof.
  intros Hr. pose proof Hr as [Hl Hnd Hlast Hsz].
  unfold Prepend. rewrite (rep_first _ _ _ _ Hr).
  destruct (Queue.IsEmpty q) eqn:Eq.
  - unfold Queue.IsEmpty in Eq. destruct (Queue.items q) eqn:Ei; [|done].
    assert (addrs = []) as -> by (destruct addrs; [done|by simpl in Hl]).
    eexists _, _. split; [done|]. split.
    + split; simpl; rewrite ?Ei, ?Hsz; simpl; [|apply NoDup_singleton|done|done].
      split; [done|]. split; [apply alloc_nonnull|]. exists NULL.
      split; [by rewrite lookup_insert_eq|done].
    + intros a _ Ha. by apply lookup_insert_ne.
  - unfold deref. rewrite lookup_insert_eq. simpl.
    eexists _, _. split; [done|]. split.
    + rewrite Hsz. by apply rep_push_front.
    + intros a _ Ha. by rewrite !lookup_insert_ne.
Qed.

(** The loop of SortedInsert, started at an element whose key is not larger. *)
Lemma SortedInsert_loop_spec fuel h p addrs xs k0 i0 el e sk :
  lseg h p (p :: addrs) ((k0, i0) :: xs) NULL → NoDup (p :: addrs) →
  el ∉ p :: addrs → el ≠ NULL → h !! el = Some e → key e = sk →
  (length (p :: addrs) ≤ fuel)%nat →
  (∃ h' addrs', SortedInsert_loop fuel h p el sk = Done (Some h') ∧
     lseg h' p (p :: addrs') ((k0, i0) :: Queue.insert_sorted sk (item e) xs) NULL ∧
     addrs' ≡ₚ el :: addrs ∧ addrs ≠ [] ∧ list.last addrs' = list.last addrs ∧
     (∀ a, a ∉ el :: p :: addrs → h' !! a = h !! a)) ∨
  (SortedInsert_loop fuel h p el sk = Done None ∧
   Queue.insert_sorted sk (item e) xs = xs ++ [(sk, item e)]).
Proof.
  revert p addrs xs k0 i0. induction fuel as [|fuel IH];
    intros p addrs xs k0 i0 Hl Hnd Hel Heln He Hk Hfuel; [simpl in Hfuel; lia|].
  simpl in Hl. destruct Hl as (_ & Hp & n & Hn & Hl).
  cbn [SortedInsert_loop]. rewrite (deref_Some _ _ _ Hn). cbn [mbind res_bind next].
  destruct addrs as [|a2 addrs], xs as [|[k1 i1] xs]; simpl in Hl; try done.
  - right. rewrite Hl. done.
  - destruct Hl as (-> & Ha2 & n2 & Hn2 & Hl).
    rewrite (proj2 (Z.eqb_neq a2 NULL)) by done. rewrite (deref_Some _ _ _ Hn2).
    cbn [mbind res_bind key Queue.insert_sorted].
    apply NoDup_cons in Hnd as [Hnp Hnd].
    destruct (sk <? k1) eqn:E.
    + left. unfold deref. rewrite He. simpl.
      eexists _, (el :: a2 :: addrs). split; [done|].
      assert (el ≠ p) by set_solver. assert (el ≠ a2) by set_solver.
      assert (p ≠ a2) by set_solver.
      split; [|split; [done|split; [done|split]]].
      * split; [done|]. split; [done|]. exists el. split; [by rewrite lookup_insert_eq|].
        split; [done|]. split; [done|]. exists a2.
        rewrite lookup_insert_ne, lookup_insert_eq by done.
        split; [destruct e; simpl in *; by subst|].
        split; [done|]. split; [done|]. exists n2. rewrite !lookup_insert_ne by done.
        split; [done|]. apply lseg_insert_ne; [set_solver|]. apply lseg_insert_ne; [set_solver|done].
      * by rewrite last_cons_cons.
      * intros a Ha. rewrite !lookup_insert_ne; [done|set_solver|set_solver].
    + destruct (IH a2 addrs xs k1 i1) as [(h' & ad' & Hs & Hl' & Hp' & Hnn & Hlast & Hf)|[Hs Hi]];
        [simpl; by eauto 10|done|set_solver|done|done|done|simpl in *; lia| |].
      * left. exists h', (a2 :: ad'). rewrite Hs. split; [done|].
        split; [|split; [|split; [done|split]]].
        -- simpl. split; [done|]. split; [done|]. exists a2. split; [|done].
           rewrite Hf; [done|]. set_solver.
        -- rewrite Hp'. apply Permutation_swap.
        -- rewrite !last_cons, Hlast. done.
        -- intros a Ha. apply Hf. set_solver.
      * right. rewrite Hs. split; [done|]. by rewrite Hi.
Qed.

Lemma SortedInsert_spec h l addrs q it k :
  rep h l addrs q →
  ∃ h' l' addrs', SortedInsert alloc it k h l = Done (h', l') ∧
    rep h' l' addrs' (Queue.SortedInsert it k q) ∧
    addrs' ≡ₚ alloc h :: addrs ∧ framed h h' addrs.
Proof.
  intros Hr. pose proof Hr as [Hl Hnd Hlast Hsz].
  pose proof (alloc_notin _ _ _ _ _ Hl) as Hfr.
  unfold SortedInsert. rewrite (rep_first _ _ _ _ Hr).
  unfold Queue.IsEmpty, Queue.SortedInsert.
  destruct (Queue.items q) as [|[k0 i0] xs] eqn:Eq.
  - assert (addrs = []) as -> by (destruct addrs; [done|by simpl in Hl]).
    eexists _, _, [_]. split; [done|]. split; [|split; [done|]].
    + split; simpl; [|apply NoDup_singleton|done|done].
      split; [done|]. split; [apply alloc_nonnull|]. exists NULL.
      split; [by rewrite lookup_insert_eq|done].
    + intros a _ Ha. by apply lookup_insert_ne.
  - destruct addrs as [|a addrs]; [by simpl in Hl|].
    pose proof Hl as Hl0. simpl in Hl0. destruct Hl0 as (Hfa & Ha & n & Hn & Hl1).
    set (h1 := <[alloc h := ListElement_new it k]> h).
    assert (Hl2 : lseg h1 a (a :: addrs) ((k0, i0) :: xs) NULL).
    { apply lseg_insert_ne; [done|]. by rewrite Hfa in Hl. }
    assert (Hh1a : h1 !! a = Some (mkE i0 k0 n)).
    { unfold h1. rewrite lookup_insert_ne; [done|set_solver]. }
    rewrite Hfa. rewrite (deref_Some _ _ _ Hh1a). cbn [mbind res_bind key Queue.insert_sorted].
    destruct (k <? k0) eqn:E.
    + rewrite (deref_Some h1 (alloc h) (ListElement_new it k)) by apply lookup_insert_eq. simpl.
      eexists _, _, _. split; [done|]. split; [|split; [done|]].
      * rewrite <- Eq, <- Hsz.
        pose proof (rep_push_front h l (a :: addrs) q it k (size l) Hr) as Hp.
        rewrite Hfa in Hp. apply Hp. unfold Queue.IsEmpty. by rewrite Eq.
      * intros b _ Hb. unfold h1. by rewrite !lookup_insert_ne.
    + destruct (SortedInsert_loop_spec (base.size h1) h1 a addrs xs k0 i0 (alloc h)
        (ListElement_new it k) k) as [(h' & ad' & Hs & Hl' & Hp & Hnn & Hla & Hf)|[Hs Hi]];
        [done|done|done|done|apply lookup_insert_eq|done
        |by eapply lseg_size|..]; rewrite Hs; cbn [mbind res_bind].
      * eexists _, _, (a :: ad'). split; [done|]. split; [|split].
        -- split; simpl in *; [by rewrite Hfa| | |done].
           ++ apply NoDup_cons in Hnd as [Hna Hnd]. apply not_elem_of_cons in Hfr as [Hf1 Hf2].
              rewrite Hp. constructor; [by rewrite not_elem_of_cons|by constructor].
           ++ rewrite Hlast, !last_cons, Hla. done.
        -- rewrite Hp. apply Permutation_swap.
        -- intros b Hb Hb'. rewrite Hf by set_solver. unfold h1. by rewrite lookup_insert_ne.
      * destruct (exists_last (l := a :: addrs)) as (ad0 & a0 & Ead); [done|].
        rewrite Ead in *. rewrite last_snoc in Hlast. simpl in Hlast.
        destruct (lseg_link_last h1 a ad0 ((k0, i0) :: xs) a0 (ListElement_new it k) (alloc h))
          as (e0 & He0 & Hl'); [done|done|done|done|apply lookup_insert_eq|done|].
        rewrite Hlast. unfold deref. rewrite He0. simpl.
        eexists _, _, ((ad0 ++ [a0]) ++ [alloc h]). split; [done|]. split; [|split].
        -- split; simpl.
           ++ simpl in Hi. by rewrite Hi.
           ++ apply NoDup_app. split; [done|]. split; [set_solver|apply NoDup_singleton].
           ++ by rewrite last_snoc.
           ++ done.
        -- by rewrite (Permutation_app_comm _ [_]).
        -- intros b Hb Hb'. unfold h1. rewrite !lookup_insert_ne; [done|done|set_solver].
Qed.

End specs.
End LList.

(** * The linked list implements the abstract list *)
Module ListSpec.
Import LList.

(** The calls of a client; [CMapcar] returns the items the function saw. *)
Inductive call : Type :=
| CAppend (x : Z)
| CPrepend (x : Z)
| CRemove
| CSortedInsert (x k : Z)
| CSortedRemove
| CMapcar
| CIsEmpty
| CgetSize.

Definition of_bool (b : bool) : Z := if b then 1 else 0.

Section run.
Context (alloc : heap → Z).

Definition step (h : heap) (l : List) (c : call) : res (list Z * heap * List) :=
  match c with
  | CAppend x => '(h, l) ← Append alloc x h l; Done ([], h, l)
  | CPrepend x => '(h, l) ← Prepend alloc x h l; Done ([], h, l)
  | CRemove => '(x, h, l) ← Remove h l; Done ([x], h, l)
  | CSortedInsert x k => '(h, l) ← SortedInsert alloc x k h l; Done ([], h, l)
  | CSortedRemove =>
      '(x, k, h, l) ← SortedRemove h l; Done (x :: option_list k, h, l)
  | CMapcar => xs ← Mapcar h l; Done (xs, h, l)
  | CIsEmpty => Done ([of_bool (IsEmpty l)], h, l)
  | CgetSize => Done ([getSize l], h, l)
  end.

Fixpoint run (h : heap) (l : List) (cs : list call) : res (list (list Z)) :=
  match cs with
  | [] => Done []
  | c :: cs => '(v, h, l) ← step h l c; vs ← run h l cs; Done (v :: vs)
  end.

Definition spec_step (q : Queue.queue Z) (c : call) : list Z * Queue.queue Z :=
  match c with
  | CAppend x => ([], Queue.Append x q)
  | CPrepend x => ([], Queue.Prepend x q)
  | CRemove => let '(x, q') := Queue.Remove q in ([default NULL x], q')
  | CSortedInsert x k => ([], Queue.SortedInsert x k q)
  | CSortedRemove =>
      let '(r, q') := Queue.SortedRemove q in
      (match r with Some (k, x) => [x; k] | None => [NULL] end, q')
  | CMapcar => (Queue.contents q, q)
  | CIsEmpty => ([of_bool (Queue.IsEmpty q)], q)
  | CgetSize => ([Queue.getSize q], q)
  end.

Fixpoint spec_run (q : Queue.queue Z) (cs : list call) : list (list Z) :=
  match cs with
  | [] => []
  | c :: cs => (spec_step q c).1 :: spec_run (spec_step q c).2 cs
  end.

Context (alloc_fresh : ∀ h, h !! alloc h = None).
Context (alloc_nonnull : ∀ h, alloc h ≠ NULL).

Lemma list_step_refines h l addrs q c :
  rep h l addrs q →
  ∃ h' l' addrs', step h l c = Done ((spec_step q c).1, h', l') ∧
    rep h' l' addrs' (spec_step q c).2.
Proof.
  intros Hr. destruct c as [x|x| |x k| | | |]; simpl.
  - destruct (Append_spec alloc alloc_fresh alloc_nonnull h l addrs q x Hr) as (h' & l' & -> & ? & _).
    by eexists _, _, _.
  - destruct (Prepend_spec alloc alloc_fresh alloc_nonnull h l addrs q x Hr) as (h' & l' & -> & ? & _).
    by eexists _, _, _.
  - destruct (Remove_spec h l addrs q Hr) as (h' & l' & ad' & -> & Hr' & _).
    destruct (Queue.Remove q). by eexists _, _, _.
  - destruct (SortedInsert_spec alloc alloc_fresh alloc_nonnull h l addrs q x k Hr)
      as (h' & l' & ad' & -> & ? & _). by eexists _, _, _.
  - destruct (SortedRemove_spec h l addrs q Hr) as (h' & l' & ad' & -> & Hr' & _).
    destruct (Queue.SortedRemove q) as [[[k x]|] q']; by eexists _, _, _.
  - rewrite (Mapcar_spec h l addrs q Hr). by eexists _, _, _.
  - rewrite (rep_first _ _ _ _ Hr). by eexists _, _, _.
  - unfold getSize. rewrite (rep_size _ _ _ _ Hr). by eexists _, _, _.
Qed.

Lemma list_run_refines h l addrs q cs : rep h l addrs q → run h l cs = Done (spec_run q cs).
Proof.
  revert h l addrs q. induction cs as [|c cs IH]; intros h l addrs q Hr; [done|].
  destruct (list_step_refines h l addrs q c Hr) as (h' & l' & ad' & Hs & Hr').
  cbn [run spec_run]. rewrite Hs. cbn [mbind res_bind]. by rewrite (IH _ _ _ _ Hr').
Qed.


(** C24: The linked list of list.cc implements the abstract sequence. Starting
    from a new List, in any heap and with any allocator that returns fresh
    non-NULL addresses, every sequence of Append, Prepend, Remove, SortedInsert,
    SortedRemove, Mapcar, IsEmpty and getSize calls runs without dereferencing
    NULL or a deleted element, terminates, and returns the values (and the keys
    stored through keyPtr) that the same calls return on the sequence. *)
Theorem List_refines_queue (h : heap) (cs : list call) :
  run h List_new cs = Done (spec_run Queue.empty cs).
Proof. apply (list_run_refines h List_new []), rep_empty. Qed.

Lemma spec_run_app q cs1 cs2 :
  spec_run q (cs1 ++ cs2) = spec_run q cs1 ++ spec_run (foldl (λ q c, (spec_step q c).2) q cs1) cs2.
Proof. revert q. induction cs1 as [|c cs1 IH]; intros q; simpl; [done|]. by rewrite IH. Qed.

Definition inserts (kxs : list (Z * Z)) : list call := (λ p, CSortedInsert p.2 p.1) <$> kxs.

(** The sequence after a series of SortedInserts. *)
Lemma inserts_state kxs q :
  Queue.sorted (Queue.items q) →
  let q' := foldl (λ q c, (spec_step q c).2) q (inserts kxs) in
  Queue.sorted (Queue.items q') ∧ Queue.items q' ≡ₚ Queue.items q ++ kxs ∧
  ∀ j, filter (λ p, p.1 = j) (Queue.items q') =
       filter (λ p, p.1 = j) (Queue.items q) ++ filter (λ p, p.1 = j) kxs.
Proof.
  revert q. induction kxs as [|[k x] kxs IH]; intros q Hs; cbn -[filter].
  - split; [done|]. rewrite app_nil_r. split; [done|]. intros j. by rewrite filter_nil, app_nil_r.
  - destruct (IH (Queue.SortedInsert x k q)) as (H1 & H2 & H3);
      [by apply Queue.insert_sorted_sorted|].
    split; [done|]. split.
    + rewrite H2. simpl. rewrite Queue.insert_sorted_perm. by rewrite <- Permutation_middle.
    + intros j. rewrite H3. simpl. rewrite Queue.insert_sorted_stable by done.
      rewrite <- app_assoc. f_equal. rewrite filter_cons. simpl. by case_decide.
Qed.

Lemma inserts_results kxs q : spec_run q (inserts kxs) = replicate (length kxs) [].
Proof. revert q. induction kxs as [|[k x] kxs IH]; intros q; simpl; [done|]. f_equal. apply IH. Qed.

Lemma drain_results q n :
  length (Queue.items q) = n →
  spec_run q (replicate n CSortedRemove) = (λ p, [p.2; p.1]) <$> Queue.items q.
Proof.
  revert q. induction n as [|n IH]; intros q Hn.
  - by destruct (Queue.items q).
  - cbn [replicate spec_run spec_step]. unfold Queue.SortedRemove.
    destruct (Queue.items q) as [|[k x] xs]; simpl in *; [lia|]. rewrite IH by (simpl; lia). done.
Qed.

(** SortedInsert and SortedRemove form a stable priority queue. Whatever
    keyed items are inserted into a new list, removing as many again returns
    exactly those items, in increasing order of their keys, and items with equal
    keys in the order they were inserted (so interrupts due at the same tick fire
    in the order they were scheduled). *)
Theorem SortedInsert_stable_sort (h : heap) (kxs : list (Z * Z)) :
  ∃ ys : list (Z * Z),
    run h List_new (inserts kxs ++ replicate (length kxs) CSortedRemove) =
      Done (replicate (length kxs) [] ++ ((λ p, [p.2; p.1]) <$> ys)) ∧
    ys ≡ₚ kxs ∧ Sorted Z.le (fst <$> ys) ∧
    ∀ j, filter (λ p, p.1 = j) ys = filter (λ p, p.1 = j) kxs.
Proof.
  rewrite (list_run_refines h List_new [] Queue.empty) by apply rep_empty.
  destruct (inserts_state kxs Queue.empty) as (H1 & H2 & H3); [constructor|].
  eexists. split; [|split; [exact H2|split; [exact H1|exact H3]]].
  rewrite spec_run_app, inserts_results, drain_results; [done|].
  by rewrite (Permutation_length H2).
Qed.

(** The destructor of a List that holds no NULL item frees exactly its own
    elements: the loop ends, the list is empty, every element of the list is gone
    and every other element of the heap is untouched. *)
Theorem List_delete_frees (h : heap) (l : List) (addrs : list Z) (q : Queue.queue Z) :
  rep h l addrs q → Forall (λ p, p.2 ≠ NULL) (Queue.items q) →
  ∃ h' l', List_delete h l = Done (h', l') ∧ IsEmpty l' = true ∧
    ∀ a, h' !! a = if decide (a ∈ addrs) then None else h !! a.
Proof.
  intros Hr Hnn. eapply List_delete_loop_spec; [done..|].
  destruct Hr as [Hl Hnd _ _]. pose proof (lseg_size _ _ _ _ _ Hl Hnd). lia.
Qed.

End run.

(** An allocator: the address after the largest one in use. *)
Definition bump (h : heap) : Z := 1 + map_fold (λ a _ m, Z.max a m) 0 h.

Lemma bump_above h : 0 < bump h ∧ ∀ a, is_Some (h !! a) → a < bump h.
Proof.
  unfold bump.
  apply (map_fold_weak_ind (λ m h, 0 < 1 + m ∧ ∀ a, is_Some (h !! a) → a < 1 + m)).
  - split; [lia|]. intros a [e He]. by rewrite lookup_empty in He.
  - intros i e h' m Hi [Hm IH]. split; [lia|]. intros a Ha.
    destruct (decide (a = i)) as [->|Hne]; [lia|].
    rewrite lookup_insert_ne in Ha by done. apply IH in Ha. lia.
Qed.

Lemma bump_fresh h : h !! bump h = None.
Proof.
  destruct (h !! bump h) eqn:E; [|done].
  destruct (bump_above h) as [_ H]. specialize (H (bump h)). rewrite E in H.
  assert (bump h < bump h) by (by apply H). lia.
Qed.

Lemma bump_nonnull h : bump h ≠ NULL.
Proof. destruct (bump_above h) as [H _]. unfold NULL. lia. Qed.

Lemma List_refines_queue_witness :
  run bump {[ 4 := mkE 9 9 0 ]} List_new
    [CAppend 7; CPrepend 8; CSortedInsert 6 3; CMapcar; CRemove; CSortedRemove; CgetSize; CRemove; CRemove; CgetSize]
  = Done [[]; []; []; [8; 7; 6]; [8]; [7; 0]; [1]; [6]; [0]; [-1]].
Proof. apply (List_refines_queue bump bump_fresh bump_nonnull). Defined.

Lemma SortedInsert_stable_sort_witness :
  ∃ ys : list (Z * Z),
    run bump ∅ List_new (inserts [(5, 1); (2, 3); (5, 4)] ++ replicate 3 CSortedRemove) =
      Done (replicate 3 [] ++ ((λ p, [p.2; p.1]) <$> ys)) ∧
    ys ≡ₚ [(5, 1); (2, 3); (5, 4)] ∧ Sorted Z.le (fst <$> ys) ∧
    ∀ j, filter (λ p, p.1 = j) ys = filter (λ p, p.1 = j) [(5, 1); (2, 3); (5, 4)].
Proof. apply (SortedInsert_stable_sort bump bump_fresh bump_nonnull ∅ [(5, 1); (2, 3); (5, 4)]). Defined.

Lemma List_delete_frees_witness :
  ∃ h' l', List_delete {[ 2 := mkE 9 0 0; 5 := mkE 1 1 0 ]} (mkL 2 2 1) = Done (h', l') ∧
    IsEmpty l' = true ∧
    ∀ a, h' !! a = if decide (a ∈ [2]) then None
                   else ({[ 2 := mkE 9 0 0; 5 := mkE 1 1 0 ]} : heap) !! a.
Proof.
  apply (List_delete_frees _ _ [2] (Queue.mkQ [(0, 9)] 1)).
  - split; simpl; [|apply NoDup_singleton|done|done].
    split; [done|]. split; [done|]. exists 0. by split.
  - by repeat constructor.
Defined.

(** Remove decrements the size counter even when the list is empty. *)
Lemma Remove_empty_size h sz :
  Remove h (mkL NULL NULL sz) = Done (NULL, h, mkL NULL NULL (s32 (sz - 1))).
Proof. done. Qed.

(** The destructor stops at the first NULL item (page frame 0 on the page list
    is such an item) and leaks the elements behind it. *)
Lemma List_delete_stops_at_null :
  List_delete {[ 1 := mkE 0 0 2; 2 := mkE 7 0 0 ]} (mkL 1 2 2) =
  Done ({[ 2 := mkE 7 0 0 ]}, mkL 2 2 1).
Proof. vm_compute. reflexivity. Qed.

End ListSpec.
