(* ===== verification/Machine.v ===== *)
(** Machine: the simulated hardware of src/code/machine/machine.{h,cc} and its
    address translation, src/code/machine/translate.{h,cc}.

    [Machine.t] is class Machine.  The page tables live in host memory and are
    shared: an address space and the machine hold the same pointer, so [tables]
    maps the addresses of such arrays to their contents and [pageTable] is an
    address (0 is NULL).  Memory is a list of bytes in 0..255; the [char] reads
    of the code sign-extend.  The byte order of the host is a parameter, as
    HOST_IS_BIG_ENDIAN is in the code. *)

From S2P Require Import Prelude.

Module Machine.

Definition SectorSize : Z := 256.
Definition PageSize : Z := SectorSize.
Definition NumPhysPages : Z := 32.
Definition MemorySize : Z := NumPhysPages * PageSize.
Definition TLBSize : Z := 4.

Inductive ExceptionType : Type :=
| NoException
| SyscallException
| PageFaultException
| ReadOnlyException
| BusErrorException
| AddressErrorException
| OverflowException
| IllegalInstrException
| NumExceptionTypes.

#[export] Instance ExceptionType_eq_dec : EqDecision ExceptionType.
Proof. solve_decision. Defined.

Inductive MachineStatus : Type := IdleMode | SystemMode | UserMode.

Definition StackReg : Z := 29.
Definition RetAddrReg : Z := 31.
Definition NumGPRegs : Z := 32.
Definition HiReg : Z := 32.
Definition LoReg : Z := 33.
Definition PCReg : Z := 34.
Definition NextPCReg : Z := 35.
Definition PrevPCReg : Z := 36.
Definition LoadReg : Z := 37.
Definition LoadValueReg : Z := 38.
Definition BadVAddrReg : Z := 39.
Definition NumTotalRegs : Z := 40.

Record TranslationEntry : Type := mkTE {
  virtualPage : Z;
  physicalPage : Z;
  valid : bool;
  readOnly : bool;
  use : bool;
  dirty : bool
}.

Record t : Type := mk {
  mainMemory : list Z;
  registers : list Z;
  tlb : option (list TranslationEntry);
  tables : gmap Z (list TranslationEntry);
  pageTable : Z;
  pageTableSize : Z;
  singleStep : bool;
  runUntilTime : Z
}.

Definition NULL : Z := 0.

Definition set_mainMemory (m : t) (x : list Z) : t :=
  mk x (registers m) (tlb m) (tables m) (pageTable m) (pageTableSize m) (singleStep m) (runUntilTime m).
Definition set_registers (m : t) (x : list Z) : t :=
  mk (mainMemory m) x (tlb m) (tables m) (pageTable m) (pageTableSize m) (singleStep m) (runUntilTime m).
Definition set_tlb (m : t) (x : option (list TranslationEntry)) : t :=
  mk (mainMemory m) (registers m) x (tables m) (pageTable m) (pageTableSize m) (singleStep m) (runUntilTime m).
Definition set_tables (m : t) (x : gmap Z (list TranslationEntry)) : t :=
  mk (mainMemory m) (registers m) (tlb m) x (pageTable m) (pageTableSize m) (singleStep m) (runUntilTime m).
Definition set_pageTable (m : t) (p n : Z) : t :=
  mk (mainMemory m) (registers m) (tlb m) (tables m) p n (singleStep m) (runUntilTime m).

(** The entry with the bits the hardware sets on a reference. *)
Definition touch (e : TranslationEntry) (writing : bool) : TranslationEntry :=
  mkTE (virtualPage e) (physicalPage e) (valid e) (readOnly e) true
       (if writing then true else dirty e).

(** ** Registers *)

Definition ReadRegister (num : Z) (m : t) : res Z :=
  ASSERT ((0 <=? num) && (num <? NumTotalRegs));;
  aget (registers m) num.

Definition WriteRegister (num value : Z) (m : t) : res t :=
  ASSERT ((0 <=? num) && (num <? NumTotalRegs));;
  r ← aset (registers m) num value;
  Done (set_registers m r).

(** [registers[i]] for an index the code knows to be in range. *)
Definition reg (m : t) (i : Z) : Z := default 0 (registers m !! Z.to_nat i).
Definition set_reg (m : t) (i v : Z) : t :=
  set_registers m (<[Z.to_nat i := v]> (registers m)).

(** [registers[registers[LoadReg]]]: the inner register is an arbitrary value. *)
Definition DelayedLoad (nextReg nextValue : Z) (m : t) : res t :=
  r ← aset (registers m) (reg m LoadReg) (reg m LoadValueReg);
  let m := set_registers m r in
  let m := set_reg m LoadReg nextReg in
  let m := set_reg m LoadValueReg nextValue in
  Done (set_reg m 0 0).

(** ** Byte order *)
Section host.
Context (HOST_IS_BIG_ENDIAN : bool).

(** How the host stores an [n]-byte integer. *)
Definition host_bytes (n : nat) (w : Z) : list Z :=
  if HOST_IS_BIG_ENDIAN then rev (bytes_of n w) else bytes_of n w.
Definition host_word (bs : list Z) : Z :=
  if HOST_IS_BIG_ENDIAN then word_of (rev bs) else word_of bs.

Definition WordToHost (word : Z) : Z :=
  if HOST_IS_BIG_ENDIAN then
    let result := Z.land (Z.shiftr word 24) 0x000000ff in
    let result := Z.lor result (Z.land (Z.shiftr word 8) 0x0000ff00) in
    let result := Z.lor result (Z.land (u32 (Z.shiftl word 8)) 0x00ff0000) in
    Z.lor result (Z.land (u32 (Z.shiftl word 24)) 0xff000000)
  else word.

Definition ShortToHost (shortword : Z) : Z :=
  if HOST_IS_BIG_ENDIAN then
    let result := u16 (Z.land (Z.shiftl shortword 8) 0xff00) in
    u16 (Z.lor result (Z.land (Z.shiftr shortword 8) 0x00ff))
  else shortword.

Definition WordToMachine (word : Z) : Z := WordToHost word.
Definition ShortToMachine (shortword : Z) : Z := ShortToHost shortword.

Definition CheckEndian : res () :=
  let intword := host_word [1; 2; 3; 4] in
  ASSERT (intword =? (if HOST_IS_BIG_ENDIAN then 0x01020304 else 0x04030201)).

(** ** Construction *)

(** [use_tlb] is USE_TLB; [tlb0] and [tables0] are the uninitialised fields. *)
Definition Machine (use_tlb : bool) (tlb0 : list TranslationEntry)
    (tables0 : gmap Z (list TranslationEntry)) (size0 until0 : Z) (debug : bool) : res t :=
  let m := mk (replicate (Z.to_nat MemorySize) 0) (replicate (Z.to_nat NumTotalRegs) 0)
    (if use_tlb
     then Some ((λ e, mkTE (virtualPage e) (physicalPage e) false (readOnly e) (use e) (dirty e)) <$> tlb0)
     else None)
    tables0 NULL size0 debug until0 in
  CheckEndian;;
  Done m.

(** ** Translation *)

Definition Translate_align (virtAddr size : Z) : bool :=
  ((size =? 4) && negb (Z.land virtAddr 0x3 =? 0)) ||
  ((size =? 2) && negb (Z.land virtAddr 0x1 =? 0)).

(** The index of the first valid TLB entry for [vpn]. *)
Fixpoint tlb_find (vpn : Z) (entries : list TranslationEntry) (n : nat) (i : Z)
    : res (option (Z * TranslationEntry)) :=
  match n with
  | O => Done None
  | S n =>
      e ← aget entries i;
      if valid e && (u32 (virtualPage e) =? vpn) then Done (Some (i, e))
      else tlb_find vpn entries n (i + 1)
  end.

(** [&pageTable[vpn]] or [&tlb[i]]. *)
Inductive entry_ptr : Type :=
| InTable (vpn : Z)
| InTlb (i : Z).

Definition the_table (m : t) : res (list TranslationEntry) :=
  match tables m !! pageTable m with Some tb => Done tb | None => Undef end.

(** The entry to use with its address, or the exception. *)
Definition find_entry (vpn : Z) (m : t) : res (ExceptionType + (entry_ptr * TranslationEntry)) :=
  match tlb m with
  | None =>
      if pageTableSize m <=? vpn then Done (inl AddressErrorException)
      else
        table ← the_table m;
        e ← aget table vpn;
        if negb (valid e) then Done (inl PageFaultException)
        else Done (inr (InTable vpn, e))
  | Some entries =>
      r ← tlb_find vpn entries (Z.to_nat TLBSize) 0;
      match r with
      | None => Done (inl PageFaultException)
      | Some (i, e) => Done (inr (InTlb i, e))
      end
  end.

(** [*p = e]. *)
Definition store_entry (p : entry_ptr) (e : TranslationEntry) (m : t) : res t :=
  match p with
  | InTable vpn =>
      table ← the_table m;
      tb ← aset table vpn e;
      Done (set_tables m (<[pageTable m := tb]> (tables m)))
  | InTlb i =>
      match tlb m with
      | Some entries => tb ← aset entries i e; Done (set_tlb m (Some tb))
      | None => Undef
      end
  end.

(** Returns the exception, the physical address (0 where the code stores none)
    and the machine with the use and dirty bits set. *)
Definition Translate (virtAddr size : Z) (writing : bool) (m : t)
    : res (ExceptionType * Z * t) :=
  if Translate_align virtAddr size then Done (AddressErrorException, 0, m)
  else
    ASSERT ((match tlb m with None => true | Some _ => false end) || (pageTable m =? NULL));;
    ASSERT ((match tlb m with None => false | Some _ => true end) || negb (pageTable m =? NULL));;
    let vpn := cdiv (u32 virtAddr) PageSize in
    let offset := cmod (u32 virtAddr) PageSize in
    r ← find_entry vpn m;
    match r with
    | inl exception => Done (exception, 0, m)
    | inr (p, entry) =>
        if readOnly entry && writing then Done (ReadOnlyException, 0, m)
        else
          let pageFrame := u32 (physicalPage entry) in
          if NumPhysPages <=? pageFrame then Done (BusErrorException, 0, m)
          else
            m' ← store_entry p (touch entry writing) m;
            let physAddr := s32 (pageFrame * PageSize + offset) in
            ASSERT ((0 <=? physAddr) && (physAddr + size <=? MemorySize));;
            Done (NoException, physAddr, m')
    end.

(** ** Memory access

    The kernel state [K] is whatever the exception handler works on. *)
Section with_kernel.
Context {K : Type}.
Context (setStatus : MachineStatus → K → K).
Context (ExceptionHandler : ExceptionType → K → t → res (K * t)).

Definition RaiseException (which : ExceptionType) (badVAddr : Z) (k : K) (m : t) : res (K * t) :=
  let m := set_reg m BadVAddrReg badVAddr in
  m ← DelayedLoad 0 0 m;
  '(k, m) ← ExceptionHandler which (setStatus SystemMode k) m;
  Done (setStatus UserMode k, m).

(** [None] is the return value FALSE. *)
Definition ReadMem (addr size : Z) (k : K) (m : t) : res (option Z * K * t) :=
  '(exception, physicalAddress, m) ← Translate addr size false m;
  if decide (exception ≠ NoException) then
    '(k, m) ← RaiseException exception addr k m;
    Done (None, k, m)
  else
    if size =? 1 then
      data ← aget (mainMemory m) physicalAddress;
      Done (Some (s8 data), k, m)
    else if size =? 2 then
      data ← slice (mainMemory m) physicalAddress 2;
      Done (Some (ShortToHost (host_word data)), k, m)
    else if size =? 4 then
      data ← slice (mainMemory m) physicalAddress 4;
      Done (Some (s32 (WordToHost (host_word data))), k, m)
    else Assert.

Definition WriteMem (addr size value : Z) (k : K) (m : t) : res (bool * K * t) :=
  '(exception, physicalAddress, m) ← Translate addr size true m;
  if decide (exception ≠ NoException) then
    '(k, m) ← RaiseException exception addr k m;
    Done (false, k, m)
  else
    if size =? 1 then
      mem ← aset (mainMemory m) physicalAddress (Z.land value 0xff);
      Done (true, k, set_mainMemory m mem)
    else if size =? 2 then
      mem ← blit (mainMemory m) physicalAddress (host_bytes 2 (ShortToMachine (Z.land value 0xffff)));
      Done (true, k, set_mainMemory m mem)
    else if size =? 4 then
      mem ← blit (mainMemory m) physicalAddress (host_bytes 4 (WordToMachine (u32 value)));
      Done (true, k, set_mainMemory m mem)
    else Assert.

End with_kernel.
End host.

(** ** Well-formed machines *)

(** The sizes and value ranges of memory and registers. *)
Record wf (m : t) : Prop := {
  wf_mem_length : Z.of_nat (length (mainMemory m)) = MemorySize;
  wf_mem_bytes : Forall is_byte (mainMemory m);
  wf_regs_length : Z.of_nat (length (registers m)) = NumTotalRegs;
  wf_regs : Forall is_s32 (registers m);
  wf_loadreg : 0 ≤ reg m LoadReg < NumGPRegs
}.

(** Exactly one of the TLB and the page table is there, and it has as many
    entries as the machine will look at. *)
Definition mmu_ok (m : t) : Prop :=
  match tlb m with
  | Some entries => pageTable m = NULL ∧ Z.of_nat (length entries) = TLBSize
  | None => pageTable m ≠ NULL ∧
      ∃ table, tables m !! pageTable m = Some table ∧ pageTableSize m ≤ Z.of_nat (length table)
  end.

(** The machines that differ from [m] in the use and dirty bits at most. *)
Definition vpn_ok (vpn : Z) : Prop := 0 ≤ vpn < 2 ^ 24.

Lemma vpn_range va : vpn_ok (cdiv (u32 va) PageSize).
Proof.
  unfold vpn_ok, PageSize, SectorSize.
  pose proof (u32_range va) as Hr. unfold is_u32 in Hr. rewrite cdiv_nonneg by lia.
  split; [apply Z.div_pos; lia|]. apply Z.div_lt_upper_bound; lia.
Qed.

Lemma offset_range va : 0 ≤ cmod (u32 va) PageSize < PageSize.
Proof.
  unfold PageSize, SectorSize. pose proof (u32_range va) as Hr. unfold is_u32 in Hr.
  rewrite cmod_nonneg by lia. apply Z.mod_pos_bound. lia.
Qed.

(** ** What the translation means *)

Definition tlb_match (vpn : Z) (e : TranslationEntry) : Prop :=
  valid e = true ∧ u32 (virtualPage e) = vpn.

#[export] Instance tlb_match_dec vpn e : Decision (tlb_match vpn e).
Proof. unfold tlb_match. apply _. Defined.

(** The entry that maps virtual page [vpn], or why there is none. *)
Definition entry_of (m : t) (vpn : Z) : ExceptionType + (entry_ptr * TranslationEntry) :=
  match tlb m with
  | Some entries =>
      match list_find (tlb_match vpn) entries with
      | Some (i, e) => inr (InTlb (Z.of_nat i), e)
      | None => inl PageFaultException
      end
  | None =>
      if decide (vpn < pageTableSize m) then
        match tables m !! pageTable m ≫= (.!! Z.to_nat vpn) with
        | Some e => if valid e then inr (InTable vpn, e) else inl PageFaultException
        | None => inl PageFaultException
        end
      else inl AddressErrorException
  end.

Lemma tlb_find_spec vpn entries n i :
  0 ≤ i → i + Z.of_nat n = Z.of_nat (length entries) →
  tlb_find vpn entries n i =
  Done (match list_find (tlb_match vpn) (drop (Z.to_nat i) entries) with
        | Some (j, e) => Some (i + Z.of_nat j, e)
        | None => None
        end).
Proof.
  revert i. induction n as [|n IH]; intros i Hi Hn; cbn [tlb_find].
  - by rewrite drop_ge by lia.
  - destruct (aget_in_range entries i) as (e & -> & He); [lia|]. cbn [mbind res_bind].
    rewrite (drop_S _ _ _ He). cbn [list_find].
    destruct (valid e && (u32 (virtualPage e) =? vpn)) eqn:E; simplify_tests.
    + rewrite decide_True by done. by rewrite Z.add_0_r.
    + rewrite decide_False.
      2: { intros [H1 H2]. rewrite H1, H2, Z.eqb_refl in E. done. }
      rewrite IH by lia. rewrite Z2Nat.inj_add, Nat.add_1_r by lia.
      destruct (list_find (tlb_match vpn) (drop (S (Z.to_nat i)) entries)) as [[j e']|]; simpl; [|done].
      do 3 f_equal. lia.
Qed.

Lemma find_entry_spec m vpn :
  mmu_ok m → vpn_ok vpn → find_entry vpn m = Done (entry_of m vpn).
Proof.
  unfold mmu_ok, find_entry, entry_of. intros Hm Hv. destruct (tlb m) as [entries|].
  - destruct Hm as [_ Hl]. rewrite tlb_find_spec; [|lia|rewrite Hl; done]. simpl.
    rewrite drop_0. by destruct (list_find _ _) as [[j e]|].
  - destruct Hm as (_ & table & Ht & Hs). unfold vpn_ok in Hv.
    destruct (pageTableSize m <=? vpn) eqn:E; simplify_tests.
    + by rewrite decide_False by lia.
    + rewrite decide_True by lia. unfold the_table. rewrite Ht. simpl.
      destruct (aget_in_range table vpn) as (e & -> & He); [lia|]. simpl. rewrite He.
      by destruct (valid e).
Qed.

(** An entry that was found can be stored to, and marking its use and dirty bits
    changes the translation of no page. *)
Lemma store_entry_spec m vpn p e writing :
  mmu_ok m → vpn_ok vpn → entry_of m vpn = inr (p, e) →
  ∃ m', store_entry p (touch e writing) m = Done m' ∧
    mainMemory m' = mainMemory m ∧ registers m' = registers m ∧ mmu_ok m' ∧
    entry_of m' vpn = inr (p, touch e writing) ∧
    ∀ vpn', vpn_ok vpn' → vpn' ≠ vpn → entry_of m' vpn' = entry_of m vpn'.
Proof.
  unfold mmu_ok, entry_of, vpn_ok. intros Hm Hv He. destruct (tlb m) as [entries|] eqn:Et.
  - destruct Hm as [Hp Hl].
    destruct (list_find (tlb_match vpn) entries) as [[i e']|] eqn:Ef; [|done].
    injection He as <- ->. simpl. rewrite Et.
    pose proof Ef as Ef'. apply list_find_Some in Ef' as (Hi & Hm & Hfirst).
    pose proof (lookup_lt_Some _ _ _ Hi). rewrite aset_in_range by lia. simpl.
    eexists. split; [done|]. simpl. rewrite Nat2Z.id, length_insert.
    split; [done|]. split; [done|]. split; [done|]. split.
    + assert (Hf : list_find (tlb_match vpn) (<[i:=touch e writing]> entries) = Some (i, touch e writing)).
      { apply list_find_Some. split; [by apply list_lookup_insert_eq|]. split; [done|].
        intros j y Hj Hlt. rewrite list_lookup_insert_ne in Hj by lia. by eapply Hfirst. }
      by rewrite Hf.
    + intros vpn' Hv' Hne.
      assert (Hno : ∀ e', e' = e ∨ e' = touch e writing → ¬ tlb_match vpn' e').
      { intros e' [->| ->] [_ Heq]; apply Hne; rewrite <- Heq; by destruct Hm. }
      assert (Hf : list_find (tlb_match vpn') (<[i:=touch e writing]> entries) =
                   list_find (tlb_match vpn') entries).
      { clear - Hi Hno. revert i Hi. induction entries as [|x entries IH]; intros [|i] Hi; simpl in *.
        - done.
        - done.
        - simplify_eq. rewrite !decide_False; [done|apply Hno; by left|apply Hno; by right].
        - by rewrite IH. }
      by rewrite Hf.
  - destruct Hm as (Hp & table & Ht & Hs). rewrite Ht in *. simpl in *.
    destruct (decide (vpn < pageTableSize m)) as [Hlt|]; [|done].
    destruct (table !! Z.to_nat vpn) as [e'|] eqn:Ee; [|done].
    destruct (valid e') eqn:Ev; [|done]. injection He as <- ->. simpl.
    unfold the_table. rewrite Ht. simpl. rewrite aset_in_range by lia. simpl.
    eexists. split; [done|]. simpl. rewrite Et, lookup_insert_eq. simpl.
    split; [done|]. split; [done|]. split; [|split].
    + split; [done|]. eexists. split; [done|]. by rewrite length_insert.
    + rewrite decide_True by done. rewrite list_lookup_insert_eq by lia. simpl. by rewrite Ev.
    + intros vpn' Hv' Hne. case_decide; [|done]. by rewrite list_lookup_insert_ne by lia.
Qed.

(** ** The translation theorem *)

Definition good_size (size : Z) : bool := (size =? 1) || (size =? 2) || (size =? 4).

(** What Translate computes: the physical address or the exception. *)
Definition phys (m : t) (va size : Z) (writing : bool) : ExceptionType + Z :=
  if Translate_align va size then inl AddressErrorException
  else match entry_of m (cdiv (u32 va) PageSize) with
  | inl x => inl x
  | inr (_, e) =>
      if readOnly e && writing then inl ReadOnlyException
      else if decide (u32 (physicalPage e) < NumPhysPages)
      then inr (u32 (physicalPage e) * PageSize + cmod (u32 va) PageSize)
      else inl BusErrorException
  end.

Lemma land_3 z : Z.land z 3 = z mod 4.
Proof. apply (Z.land_ones z 2). lia. Qed.
Lemma land_1 z : Z.land z 1 = z mod 2.
Proof. apply (Z.land_ones z 1). lia. Qed.

(** An aligned access stays inside its page. *)
Lemma aligned_in_page va size :
  good_size size = true → Translate_align va size = false →
  cmod (u32 va) PageSize + size ≤ PageSize.
Proof.
  unfold good_size, Translate_align, PageSize, SectorSize. rewrite land_3, land_1.
  intros Hs Ha. pose proof (u32_range va) as Hr. unfold is_u32 in Hr.
  rewrite cmod_nonneg by lia.
  destruct (u32_eq_mod va) as [k Hk]. change (2 ^ 32) with 4294967296 in *.
  repeat (apply orb_true_iff in Hs as [Hs|Hs]); apply Z.eqb_eq in Hs; subst size; simpl in Ha.
  - int_lia.
  - apply negb_false_iff, Z.eqb_eq in Ha. clear Hr. Z.div_mod_to_equations. lia.
  - rewrite orb_false_r in Ha. apply negb_false_iff, Z.eqb_eq in Ha. clear Hr.
    Z.div_mod_to_equations. lia.
Qed.

Lemma Translate_spec m va size writing :
  mmu_ok m → good_size size = true →
  match phys m va size writing with
  | inl x => x ≠ NoException ∧ Translate va size writing m = Done (x, 0, m)
  | inr pa =>
      0 ≤ pa ∧ pa + size ≤ MemorySize ∧
      ∃ m', Translate va size writing m = Done (NoException, pa, m') ∧
        mainMemory m' = mainMemory m ∧ registers m' = registers m ∧ mmu_ok m' ∧
        (∃ p e, entry_of m (cdiv (u32 va) PageSize) = inr (p, e) ∧
                entry_of m' (cdiv (u32 va) PageSize) = inr (p, touch e writing)) ∧
        ∀ vpn, vpn_ok vpn → vpn ≠ cdiv (u32 va) PageSize → entry_of m' vpn = entry_of m vpn
  end.
Proof.
  intros Hm Hs. unfold phys, Translate.
  destruct (Translate_align va size) eqn:Ea; [done|].
  pose proof (vpn_range va) as Hv. pose proof (offset_range va) as Ho.
  pose proof (aligned_in_page va size Hs Ea) as Hin.
  assert (Hsz : 0 < size).
  { unfold good_size in Hs. repeat (apply orb_true_iff in Hs as [Hs|Hs]); simplify_tests; lia. }
  assert (Hasserts : (match tlb m with None => true | Some _ => false end || (pageTable m =? NULL)) = true
    ∧ (match tlb m with None => false | Some _ => true end || negb (pageTable m =? NULL)) = true).
  { unfold mmu_ok in Hm. destruct (tlb m); simpl; split; try done.
    - destruct Hm as [-> _]. done.
    - destruct Hm as [Hp _]. by apply negb_true_iff, Z.eqb_neq. }
  destruct Hasserts as [-> ->]. cbn [ASSERT mbind res_bind].
  rewrite (find_entry_spec m _ Hm Hv). cbn [mbind res_bind].
  destruct (entry_of m (cdiv (u32 va) PageSize)) as [x|[p e]] eqn:Ee.
  - split; [|done]. unfold entry_of in Ee. repeat case_match; simplify_eq; done.
  - destruct (readOnly e && writing); [done|].
    destruct (NumPhysPages <=? u32 (physicalPage e)) eqn:Ef; simplify_tests.
    { by rewrite decide_False by lia. }
    rewrite decide_True by lia.
    destruct (store_entry_spec m _ p e writing Hm Hv Ee) as (m' & -> & Hmem & Hregs & Hm' & Hself & Hother).
    cbn [mbind res_bind]. pose proof (u32_range (physicalPage e)) as Hf.
    unfold MemorySize, NumPhysPages, PageSize, SectorSize, is_u32 in *.
    rewrite s32_id by (unfold is_s32, INT_MIN, INT_MAX; lia).
    split; [lia|]. split; [lia|]. exists m'. split.
    { rewrite bind_ASSERT by lia. done. }
    eauto 10.
Qed.

(** ** Byte order does not matter *)

Lemma lor_add a b k : 0 ≤ k → 0 ≤ a < 2 ^ k → Z.lor a (b * 2 ^ k) = a + b * 2 ^ k.
Proof.
  intros Hk Ha. rewrite <- Z.shiftl_mul_pow2 by done.
  assert (Hl : Z.land a (Z.shiftl b k) = 0).
  { apply Z.bits_inj'. intros i Hi. rewrite Z.land_spec, Z.bits_0, Z.shiftl_spec by done.
    destruct (decide (i < k)).
    - rewrite (Z.testbit_neg_r b) by lia. apply andb_false_r.
    - rewrite <- (Z.mod_small a (2 ^ k)) by done.
      rewrite Z.mod_pow2_bits_high by lia. done. }
  by rewrite Z.add_nocarry_lxor, Z.lxor_lor.
Qed.

(** [(w >> lo) & 0xff << lo']: one byte of a word, moved. *)
Lemma land_byte_field w k : 0 ≤ k → Z.land w (255 * 2 ^ k) = (w / 2 ^ k) mod 256 * 2 ^ k.
Proof.
  intros Hk. rewrite <- !Z.shiftl_mul_pow2, <- Z.shiftr_div_pow2 by done.
  change 256 with (2 ^ 8). rewrite <- Z.land_ones by lia.
  apply Z.bits_inj'. intros i Hi.
  rewrite Z.land_spec, !Z.shiftl_spec by done. destruct (decide (i < k)).
  - rewrite !(Z.testbit_neg_r _ (i - k)) by lia. by rewrite andb_false_r.
  - rewrite Z.land_spec, Z.shiftr_spec by lia. do 2 f_equal; lia.
Qed.

Lemma byte_fields a b c d :
  is_byte a → is_byte b → is_byte c → is_byte d →
  let w := d + 256 * (c + 256 * (b + 256 * (a + 256 * 0))) in
  WordToHost true w = a + 256 * (b + 256 * (c + 256 * (d + 256 * 0))).
Proof.
  intros Ha Hb Hc Hd w. unfold WordToHost, is_byte in *.
  change 0x000000ff with (255 * 2 ^ 0). change 0x0000ff00 with (255 * 2 ^ 8).
  change 0x00ff0000 with (255 * 2 ^ 16). change 0xff000000 with (255 * 2 ^ 24).
  rewrite !land_byte_field by lia.
  assert (H1 : (Z.shiftr w 24 / 2 ^ 0) mod 256 = a).
  { subst w. rewrite Z.shiftr_div_pow2 by lia. change (2 ^ 24) with 16777216.
    change (2 ^ 0) with 1. Z.div_mod_to_equations. lia. }
  assert (H2 : (Z.shiftr w 8 / 2 ^ 8) mod 256 = b).
  { subst w. rewrite Z.shiftr_div_pow2 by lia. change (2 ^ 8) with 256.
    Z.div_mod_to_equations. lia. }
  assert (H3 : (u32 (Z.shiftl w 8) / 2 ^ 16) mod 256 = c).
  { subst w. rewrite Z.shiftl_mul_pow2 by lia. unfold u32. change (2 ^ 16) with 65536.
    change (2 ^ 8) with 256. change (2 ^ 32) with 4294967296. Z.div_mod_to_equations. lia. }
  assert (H4 : (u32 (Z.shiftl w 24) / 2 ^ 24) mod 256 = d).
  { subst w. rewrite Z.shiftl_mul_pow2 by lia. unfold u32. change (2 ^ 24) with 16777216.
    change (2 ^ 32) with 4294967296. Z.div_mod_to_equations. lia. }
  rewrite H1, H2, H3, H4. rewrite (lor_add (a * 2 ^ 0)) by lia.
  rewrite (lor_add _ c) by lia. rewrite (lor_add _ d) by lia.
  change (2 ^ 0) with 1. change (2 ^ 8) with 256. change (2 ^ 16) with 65536.
  change (2 ^ 24) with 16777216. lia.
Qed.

Lemma four_bytes (bs : list Z) : length bs = 4%nat → ∃ a b c d, bs = [a; b; c; d].
Proof. destruct bs as [|a [|b [|c [|d [|]]]]]; try done. naive_solver. Qed.

(** Loading a word of simulated memory gives its little-endian value on either
    kind of host; storing one writes the little-endian bytes. *)
Lemma load_word be bs :
  Forall is_byte bs → length bs = 4%nat → WordToHost be (host_word be bs) = word_of bs.
Proof.
  intros Hb Hl. destruct be; [|done]. unfold host_word.
  destruct (four_bytes bs Hl) as (a & b & c & d & ->).
  rewrite !Forall_cons in Hb. destruct Hb as (Ha & Hb & Hc & Hd & _).
  exact (byte_fields a b c d Ha Hb Hc Hd).
Qed.

Lemma store_word be w :
  is_u32 w → host_bytes be 4 (WordToMachine be w) = bytes_of 4 w.
Proof.
  intros Hw. destruct be; [|done]. unfold host_bytes, WordToMachine.
  destruct (four_bytes (bytes_of 4 w)) as (d & c & b & a & E); [apply bytes_of_length|].
  pose proof (bytes_of_bytes 4 w) as Hb. rewrite E, !Forall_cons in Hb.
  destruct Hb as (Hd & Hc & Hb & Ha & _).
  assert (Hv : w = word_of [d; c; b; a]).
  { rewrite <- E, word_of_bytes_of. symmetry. apply Z.mod_small. unfold is_u32 in Hw. simpl. lia. }
  rewrite Hv at 1. cbn [word_of]. rewrite byte_fields by done.
  rewrite E. change (a + 256 * (b + 256 * (c + 256 * (d + 256 * 0)))) with (word_of [a; b; c; d]).
  change 4%nat with (length [a; b; c; d]). by rewrite bytes_of_word_of by (repeat constructor; apply Ha || apply Hb || apply Hc || apply Hd).
Qed.

Lemma short_fields a b :
  is_byte a → is_byte b → ShortToHost true (b + 256 * (a + 256 * 0)) = a + 256 * (b + 256 * 0).
Proof.
  intros Ha Hb. unfold ShortToHost, is_byte in *.
  change 0xff00 with (255 * 2 ^ 8). change 0x00ff with (255 * 2 ^ 0).
  rewrite !land_byte_field, Z.shiftl_mul_pow2, Z.shiftr_div_pow2 by lia.
  assert (H1 : ((b + 256 * (a + 256 * 0)) * 2 ^ 8 / 2 ^ 8) mod 256 = b).
  { rewrite Z.div_mul by lia. Z.div_mod_to_equations. lia. }
  assert (H2 : ((b + 256 * (a + 256 * 0)) / 2 ^ 8 / 2 ^ 0) mod 256 = a).
  { change (2 ^ 8) with 256. change (2 ^ 0) with 1. Z.div_mod_to_equations. lia. }
  rewrite H1, H2, Z.lor_comm. change (2 ^ 0) with 1. rewrite Z.mul_1_r.
  assert (Hu : u16 (b * 2 ^ 8) = b * 2 ^ 8) by int_lia. rewrite Hu.
  rewrite lor_add by lia. int_lia.
Qed.

Lemma two_bytes (bs : list Z) : length bs = 2%nat → ∃ a b, bs = [a; b].
Proof. destruct bs as [|a [|b [|]]]; try done. naive_solver. Qed.

Lemma load_short be bs :
  Forall is_byte bs → length bs = 2%nat → ShortToHost be (host_word be bs) = word_of bs.
Proof.
  intros Hb Hl. destruct be; [|done]. unfold host_word.
  destruct (two_bytes bs Hl) as (a & b & ->).
  rewrite !Forall_cons in Hb. destruct Hb as (Ha & Hb & _). exact (short_fields a b Ha Hb).
Qed.

Lemma store_short be w :
  0 ≤ w < 65536 → host_bytes be 2 (ShortToMachine be w) = bytes_of 2 w.
Proof.
  intros Hw. destruct be; [|done]. unfold host_bytes, ShortToMachine.
  destruct (two_bytes (bytes_of 2 w)) as (b & a & E); [apply bytes_of_length|].
  pose proof (bytes_of_bytes 2 w) as Hb. rewrite E, !Forall_cons in Hb. destruct Hb as (Hb & Ha & _).
  assert (Hv : w = word_of [b; a]).
  { rewrite <- E, word_of_bytes_of. symmetry. apply Z.mod_small. simpl. lia. }
  rewrite Hv at 1. cbn [word_of]. rewrite short_fields by done.
  rewrite E. change (a + 256 * (b + 256 * 0)) with (word_of [a; b]).
  change 2%nat with (length [a; b]). by rewrite bytes_of_word_of by (repeat constructor; apply Ha || apply Hb).
Qed.

End Machine.

(** * Virtual memory as a flat memory *)
Module FlatMemory.
Import Machine.

(** The frame of a virtual page and its read-only bit. *)
Definition mapped (m : t) (vpn : Z) : option (Z * bool) :=
  match entry_of m vpn with
  | inr (_, e) =>
      if decide (u32 (physicalPage e) < NumPhysPages)
      then Some (u32 (physicalPage e), readOnly e) else None
  | inl _ => None
  end.

(** The byte at virtual address [va], 0 <= va < 2^32. *)
Definition view (m : t) (va : Z) : option Z :=
  if decide (is_u32 va) then
    '(f, _) ← mapped m (va / PageSize);
    mainMemory m !! Z.to_nat (f * PageSize + va mod PageSize)
  else None.

(** No two virtual pages share a frame. *)
Definition frames_distinct (m : t) : Prop :=
  ∀ v1 v2 f r1 r2, vpn_ok v1 → vpn_ok v2 →
    mapped m v1 = Some (f, r1) → mapped m v2 = Some (f, r2) → v1 = v2.

(** ** The abstract memory *)
Definition flat := Z → option Z.

Inductive access : Type :=
| Rd (addr size : Z)
| Wr (addr size value : Z).

(** The value of [size] loaded bytes: a single byte is sign-extended, a half
    word is not, a word is an [int]. *)
Definition load_value (size : Z) (bs : list Z) : Z :=
  if size =? 1 then s8 (word_of bs) else if size =? 2 then word_of bs else s32 (word_of bs).

Definition bytes_at (f : flat) (a n : Z) : list Z := (λ x, default 0 (f x)) <$> seqZ a n.

Definition fwrite (f : flat) (a : Z) (bs : list Z) : flat := λ x,
  if decide (a ≤ x < a + Z.of_nat (length bs)) then bs !! Z.to_nat (x - a) else f x.

(** Each access with the value it returns: the loaded value, or 1 for TRUE. *)
Definition flat_step (f : flat) (c : access) : Z * flat :=
  match c with
  | Rd a n => (load_value n (bytes_at f (u32 a) n), f)
  | Wr a n v => (1, fwrite f (u32 a) (bytes_of (Z.to_nat n) v))
  end.

Fixpoint flat_run (f : flat) (cs : list access) : list Z :=
  match cs with
  | [] => []
  | c :: cs => (flat_step f c).1 :: flat_run (flat_step f c).2 cs
  end.

(** The accesses that must succeed: aligned, to a mapped page, and not a store
    to a read-only page. *)
Definition allowed (map : Z → option (Z * bool)) (c : access) : Prop :=
  match c with
  | Rd a n => good_size n = true ∧ Translate_align a n = false ∧ is_Some (map (u32 a / PageSize))
  | Wr a n v => good_size n = true ∧ Translate_align a n = false ∧
      ∃ f, map (u32 a / PageSize) = Some (f, false)
  end.

(** ** The machine *)
Section run.
Context (be : bool) {K : Type} (setStatus : MachineStatus → K → K).
Context (ExceptionHandler : ExceptionType → K → t → res (K * t)).

Definition step (k : K) (m : t) (c : access) : res (option Z * K * t) :=
  match c with
  | Rd a n => ReadMem be setStatus ExceptionHandler a n k m
  | Wr a n v =>
      '(ok, k, m) ← WriteMem be setStatus ExceptionHandler a n v k m;
      Done (if (ok : bool) then Some 1 else None, k, m)
  end.

Fixpoint run (k : K) (m : t) (cs : list access) : res (list (option Z)) :=
  match cs with
  | [] => Done []
  | c :: cs => '(v, k, m) ← step k m c; vs ← run k m cs; Done (v :: vs)
  end.

Lemma vpn_div va : cdiv (u32 va) PageSize = u32 va / PageSize.
Proof. pose proof (u32_range va) as Hr. unfold is_u32 in Hr. apply cdiv_nonneg; [lia|done]. Qed.
Lemma off_mod va : cmod (u32 va) PageSize = u32 va mod PageSize.
Proof. pose proof (u32_range va) as Hr. unfold is_u32 in Hr. apply cmod_nonneg; [lia|done]. Qed.

Lemma mapped_touch m m' vpn p e w :
  entry_of m vpn = inr (p, e) → entry_of m' vpn = inr (p, touch e w) → mapped m' vpn = mapped m vpn.
Proof. unfold mapped. by intros -> ->. Qed.

(** A translation that must succeed, with its frame. *)
Lemma Translate_mapped m va size (w ro : bool) f :
  mmu_ok m → good_size size = true → Translate_align va size = false →
  mapped m (u32 va / PageSize) = Some (f, ro) → ro && w = false →
  0 ≤ f < NumPhysPages ∧ u32 va mod PageSize + size ≤ PageSize ∧
  ∃ m', Translate va size w m = Done (NoException, f * PageSize + u32 va mod PageSize, m') ∧
    mainMemory m' = mainMemory m ∧ registers m' = registers m ∧ mmu_ok m' ∧
    ∀ vpn, vpn_ok vpn → mapped m' vpn = mapped m vpn.
Proof.
  intros Hm Hs Ha Hmap Hro. pose proof (Translate_spec m va size w Hm Hs) as HT.
  unfold phys in HT. rewrite Ha, vpn_div, off_mod in HT. unfold mapped in Hmap.
  destruct (entry_of m (u32 va / PageSize)) as [x|[p e]] eqn:Ee; [done|].
  case_decide as Hf; [|done]. injection Hmap as <- <-. rewrite Hro in HT.
  destruct HT as (_ & _ & m' & HT & Hmem & Hregs & Hok & (p' & e' & He & He') & Hoth).
  injection He as <- <-.
  pose proof (u32_range (physicalPage e)) as Hr. unfold is_u32 in Hr.
  split; [lia|]. split; [rewrite <- off_mod; by apply aligned_in_page|].
  exists m'. split; [done|]. split; [done|]. split; [done|]. split; [done|].
  intros vpn Hv. destruct (decide (vpn = u32 va / PageSize)) as [->|Hne].
  - by eapply mapped_touch.
  - unfold mapped. by rewrite Hoth.
Qed.

(** The bytes of an access inside one page, in memory and in the view. *)
Lemma slice_view m va size f ro mem :
  wf m → mapped m (u32 va / PageSize) = Some (f, ro) → 0 ≤ f < NumPhysPages →
  0 < size → u32 va mod PageSize + size ≤ PageSize →
  slice (mainMemory m) (f * PageSize + u32 va mod PageSize) size = Done mem →
  mem = bytes_at (view m) (u32 va) size ∧ Forall is_byte mem ∧ length mem = Z.to_nat size.
Proof.
  intros Hwf Hmap Hf Hs Hin Hsl. pose proof (slice_length _ _ _ _ Hsl) as Hlen.
  split; [|split; [|done]].
  - apply list_eq. intros i. unfold bytes_at. rewrite list_lookup_fmap.
    destruct (decide (i < Z.to_nat size)%nat) as [Hi|Hi].
    + rewrite (slice_lookup _ _ _ _ _ Hsl Hi). rewrite lookup_seqZ_lt by lia. simpl.
      pose proof (u32_range va) as Hu.
      assert (Hdiv : (u32 va + Z.of_nat i) / PageSize = u32 va / PageSize
        ∧ (u32 va + Z.of_nat i) mod PageSize = u32 va mod PageSize + Z.of_nat i
        ∧ is_u32 (u32 va + Z.of_nat i)).
      { unfold PageSize, SectorSize, is_u32 in *. split; [|split]; Z.div_mod_to_equations; lia. }
      destruct Hdiv as (Hd & Hmo & Hu'). unfold view. rewrite decide_True by done.
      rewrite Hd, Hmo, Hmap. simpl.
      destruct Hwf as [Hml _ _ _ _]. unfold MemorySize, NumPhysPages, PageSize, SectorSize in *.
      pose proof (Z.mod_pos_bound (u32 va) 256).
      replace (Z.to_nat (f * 256 + (u32 va mod 256 + Z.of_nat i)))
        with (Z.to_nat (f * 256 + u32 va mod 256) + i)%nat by lia.
      destruct (lookup_lt_is_Some_2 (mainMemory m) (Z.to_nat (f * 256 + u32 va mod 256) + i)) as [b Hb]; [lia|].
      by rewrite Hb.
    + rewrite lookup_ge_None_2 by lia. by rewrite lookup_seqZ_ge by lia.
  - apply slice_Done in Hsl as (_ & _ & _ & ->). apply Forall_take, Forall_drop. apply Hwf.
Qed.

Lemma view_ext m m' :
  mainMemory m' = mainMemory m → (∀ vpn, vpn_ok vpn → mapped m' vpn = mapped m vpn) →
  ∀ x, view m' x = view m x.
Proof.
  intros Hmem Hmap x. unfold view. case_decide as Hu; [|done]. rewrite Hmap, Hmem; [done|].
  unfold vpn_ok, is_u32, PageSize, SectorSize in *. split; [apply Z.div_pos; lia|].
  apply Z.div_lt_upper_bound; lia.
Qed.

Lemma mapped_set_mem m mem vpn : mapped (set_mainMemory m mem) vpn = mapped m vpn.
Proof. done. Qed.

Lemma wf_same m m' :
  mainMemory m' = mainMemory m → registers m' = registers m → wf m → wf m'.
Proof. intros Hm Hr [H1 H2 H3 H4 H5]. split; unfold reg in *; rewrite ?Hm, ?Hr; done. Qed.

Lemma wf_set_mem m mem :
  wf m → length mem = length (mainMemory m) → Forall is_byte mem → wf (set_mainMemory m mem).
Proof. intros [H1 H2 H3 H4 H5] Hl Hb. split; simpl; rewrite ?Hl; done. Qed.

Lemma good_size_cases size : good_size size = true → size = 1 ∨ size = 2 ∨ size = 4.
Proof. unfold good_size. lia. Qed.

(** ReadMem returns the bytes of the view and changes nothing that can be seen. *)
Lemma ReadMem_spec k m va size f ro :
  wf m → mmu_ok m → good_size size = true → Translate_align va size = false →
  mapped m (u32 va / PageSize) = Some (f, ro) →
  ∃ m', ReadMem be setStatus ExceptionHandler va size k m =
      Done (Some (load_value size (bytes_at (view m) (u32 va) size)), k, m') ∧
    wf m' ∧ mmu_ok m' ∧ registers m' = registers m ∧ mainMemory m' = mainMemory m ∧
    ∀ vpn, vpn_ok vpn → mapped m' vpn = mapped m vpn.
Proof.
  intros Hwf Hm Hs Ha Hmap.
  destruct (Translate_mapped m va size false ro f) as (Hf & Hin & m' & HT & Hmem & Hregs & Hok & Hsame);
    [done..|by rewrite andb_false_r|].
  exists m'. split; [|split; [by apply (wf_same m)|done]].
  unfold ReadMem. rewrite HT. cbn [mbind res_bind]. rewrite decide_False by naive_solver.
  pose proof (offset_range va) as Ho. rewrite off_mod in Ho.
  assert (Hsz : ∀ n, 0 < n → n = size → ∃ mem,
    slice (mainMemory m') (f * PageSize + u32 va mod PageSize) n = Done mem ∧
    mem = bytes_at (view m) (u32 va) n ∧ Forall is_byte mem ∧ length mem = Z.to_nat n).
  { intros n Hn ->. eexists. rewrite Hmem.
    pose proof (wf_mem_length _ Hwf) as Hml. rewrite slice_in_range;
      [|unfold MemorySize, NumPhysPages, PageSize, SectorSize in *; lia..].
    split; [done|]. apply (slice_view m va size f ro); [done..|].
    apply slice_in_range; unfold MemorySize, NumPhysPages, PageSize, SectorSize in *; lia. }
  unfold load_value. destruct (good_size_cases size Hs) as [->|[->| ->]]; simpl.
  - destruct (Hsz 1) as (mem & Hsl & -> & Hb & Hlen); [done..|].
    unfold bytes_at in *. simpl in *. apply slice_Done in Hsl as (? & _ & Hle & Hsl).
    destruct (aget_in_range (mainMemory m') (f * PageSize + u32 va mod PageSize)) as (x & -> & Hx); [lia|].
    simpl. do 4 f_equal. rewrite (drop_S _ _ _ Hx) in Hsl. injection Hsl as ->. f_equal. lia.
  - destruct (Hsz 2) as (mem & -> & -> & Hb & Hlen); [done..|]. simpl. by rewrite load_short.
  - destruct (Hsz 4) as (mem & -> & -> & Hb & Hlen); [done..|]. simpl. by rewrite load_word.
Qed.

(** Storing bytes of one page in memory is storing them in the view. *)
Lemma view_blit m m' va f ro bs mem :
  wf m → frames_distinct m → mapped m (u32 va / PageSize) = Some (f, ro) → 0 ≤ f < NumPhysPages →
  u32 va mod PageSize + Z.of_nat (length bs) ≤ PageSize →
  blit (mainMemory m) (f * PageSize + u32 va mod PageSize) bs = Done mem →
  mainMemory m' = mem → (∀ vpn, vpn_ok vpn → mapped m' vpn = mapped m vpn) →
  ∀ x, view m' x = fwrite (view m) (u32 va) bs x.
Proof.
  intros Hwf Hd Hmap Hf Hin Hb Hmem Hsame x.
  pose proof (u32_range va) as Hu. pose proof (offset_range va) as Ho. rewrite off_mod in Ho.
  unfold fwrite, view. destruct (decide (is_u32 x)) as [Hx|Hx].
  2: { rewrite decide_False; [done|].
       unfold is_u32, PageSize, SectorSize in *. intros Hx'. apply Hx. Z.div_mod_to_equations. lia. }
  assert (Hvx : vpn_ok (x / PageSize)).
  { unfold vpn_ok, is_u32, PageSize, SectorSize in *. split; [apply Z.div_pos; lia|].
    apply Z.div_lt_upper_bound; lia. }
  rewrite Hsame by done. destruct (decide (x / PageSize = u32 va / PageSize)) as [Hp|Hp].
  - rewrite Hp, Hmap. simpl. rewrite Hmem.
    assert (Hxo : x mod PageSize = u32 va mod PageSize + (x - u32 va)).
    { unfold PageSize, SectorSize in *. Z.div_mod_to_equations. lia. }
    pose proof (Z.mod_pos_bound x PageSize). unfold PageSize, SectorSize in *.
    case_decide as Hr.
    + rewrite (blit_lookup_in _ _ _ _ _ Hb) by lia. f_equal. lia.
    + rewrite (blit_lookup_out _ _ _ _ _ Hb) by lia. done.
  - rewrite decide_False.
    2: { intros Hr. apply Hp. unfold PageSize, SectorSize in *. Z.div_mod_to_equations. lia. }
    destruct (mapped m (x / PageSize)) as [[g r]|] eqn:Eg; simpl; [|done].
    rewrite Hmem. apply (blit_lookup_out _ _ _ _ _ Hb).
    assert (Hfg : g ≠ f).
    { intros ->. apply Hp. apply (Hd _ _ f r ro); [done| |done|done].
      rewrite <- vpn_div. apply vpn_range. }
    assert (0 ≤ g).
    { unfold mapped in Eg. repeat case_match; try done. injection Eg as <- _. apply u32_range. }
    pose proof (Z.mod_pos_bound x PageSize). unfold PageSize, SectorSize in *. nia.
Qed.

Lemma WriteMem_spec k m va size v f :
  wf m → mmu_ok m → frames_distinct m → good_size size = true → Translate_align va size = false →
  mapped m (u32 va / PageSize) = Some (f, false) →
  ∃ m', WriteMem be setStatus ExceptionHandler va size v k m = Done (true, k, m') ∧
    wf m' ∧ mmu_ok m' ∧ registers m' = registers m ∧
    (∀ x, view m' x = fwrite (view m) (u32 va) (bytes_of (Z.to_nat size) v) x) ∧
    ∀ vpn, vpn_ok vpn → mapped m' vpn = mapped m vpn.
Proof.
  intros Hwf Hm Hd Hs Ha Hmap.
  destruct (Translate_mapped m va size true false f) as (Hf & Hin & m1 & HT & Hmem & Hregs & Hok & Hsame);
    [done..|].
  pose proof (offset_range va) as Ho. rewrite off_mod in Ho.
  assert (Hb : ∃ mem, blit (mainMemory m) (f * PageSize + u32 va mod PageSize) (bytes_of (Z.to_nat size) v) = Done mem).
  { eexists. apply blit_in_range; [unfold PageSize, SectorSize in *; lia|]. rewrite bytes_of_length.
    destruct Hwf as [Hml _ _ _ _]. rewrite Hml.
    destruct (good_size_cases size Hs) as [->|[->| ->]];
    unfold MemorySize, NumPhysPages, PageSize, SectorSize in *; lia. }
  destruct Hb as [mem Hb].
  assert (HW : WriteMem be setStatus ExceptionHandler va size v k m = Done (true, k, set_mainMemory m1 mem)).
  { unfold WriteMem. rewrite HT. cbn [mbind res_bind]. rewrite decide_False by naive_solver.
    rewrite Hmem. destruct (good_size_cases size Hs) as [->|[->| ->]]; cbn [Z.eqb Pos.eqb].
    - change (Z.to_nat 1) with 1%nat in Hb. cbn [bytes_of] in Hb. rewrite aset_blit. change 0xff with (Z.ones 8). rewrite Z.land_ones by lia.
      change (2 ^ 8) with 256. by rewrite Hb.
    - change 0xffff with (Z.ones 16). rewrite Z.land_ones by lia.
      rewrite store_short by (apply Z.mod_pos_bound; lia).
      change (2 ^ 16) with (256 ^ Z.of_nat 2). rewrite bytes_of_mod.
      change (Z.to_nat 2) with 2%nat in Hb. by rewrite Hb.
    - rewrite store_word by apply u32_range.
      rewrite (bytes_of_mod 4 v : bytes_of 4 (u32 v) = bytes_of 4 v).
      change (Z.to_nat 4) with 4%nat in Hb. by rewrite Hb. }
  eexists. split; [exact HW|]. pose proof (blit_length _ _ _ _ Hb) as Hlen.
  split; [|split; [done|split; [done|split; [|done]]]].
  - apply wf_set_mem; [by eapply wf_same|by rewrite Hmem|].
    apply blit_Done in Hb as (_ & _ & ->). apply Forall_app. split; [apply Forall_take, Hwf|].
    apply Forall_app. split; [apply bytes_of_bytes|apply Forall_drop, Hwf].
  - eapply view_blit; [done..| |exact Hb|done|done].
    rewrite bytes_of_length, Z2Nat.id; [done|].
    destruct (good_size_cases size Hs) as [->|[->| ->]]; lia.
Qed.

Lemma frames_distinct_same m m' :
  (∀ vpn, vpn_ok vpn → mapped m' vpn = mapped m vpn) → frames_distinct m → frames_distinct m'.
Proof. intros Hs Hd v1 v2 f r1 r2 H1 H2. rewrite !Hs by done. by apply Hd. Qed.

Lemma vpage_ok a : vpn_ok (u32 a / PageSize).
Proof. rewrite <- vpn_div. apply vpn_range. Qed.

Lemma allowed_same map map' c :
  (∀ vpn, vpn_ok vpn → map' vpn = map vpn) → allowed map c → allowed map' c.
Proof. intros Hs. destruct c as [a n|a n v]; simpl; rewrite Hs by apply vpage_ok; done. Qed.

Lemma bytes_at_ext (f g : flat) a n : (∀ x, f x = g x) → bytes_at f a n = bytes_at g a n.
Proof. intros H. unfold bytes_at. apply list_fmap_ext. intros i x _. by rewrite H. Qed.

Lemma flat_run_ext f g cs : (∀ x, f x = g x) → flat_run f cs = flat_run g cs.
Proof.
  revert f g. induction cs as [|[a n|a n v] cs IH]; intros f g H; simpl; [done|..].
  - rewrite (bytes_at_ext f g) by done. f_equal. by apply IH.
  - f_equal. apply IH. intros x. unfold fwrite. by rewrite H.
Qed.

(** One access: its value, and the machine that follows. *)
Lemma memory_step_refines k m c :
  wf m → mmu_ok m → frames_distinct m → allowed (mapped m) c →
  ∃ m', step k m c = Done (Some (flat_step (view m) c).1, k, m') ∧
    wf m' ∧ mmu_ok m' ∧ (∀ x, view m' x = (flat_step (view m) c).2 x) ∧
    ∀ vpn, vpn_ok vpn → mapped m' vpn = mapped m vpn.
Proof.
  intros Hwf Hm Hd. destruct c as [a n|a n v]; simpl.
  - intros (Hs & Ha & [f ro] & Hmap).
    destruct (ReadMem_spec k m a n f ro) as (m' & -> & Hwf' & Hm' & _ & Hmem & Hsame); [done..|].
    exists m'. split; [done|]. split; [done|]. split; [done|]. split; [by apply view_ext|done].
  - intros (Hs & Ha & f & Hmap).
    destruct (WriteMem_spec k m a n v f) as (m' & -> & Hwf' & Hm' & _ & Hv & Hsame); [done..|].
    by exists m'.
Qed.

(** C5: The paged memory of the simulated machine implements a flat memory. If
    no two virtual pages share a frame, then any sequence of ReadMem and WriteMem
    calls of 1, 2 or 4 bytes that are aligned, mapped and not stores to read-only
    pages returns exactly the values the same accesses return on a flat
    byte-addressed little-endian memory holding the same bytes. It holds with a
    page table and with a TLB, on hosts of either byte order, and the exception
    handler is never entered. *)
Theorem paged_memory_refines_flat (k : K) (m : t) (cs : list access) :
  wf m → mmu_ok m → frames_distinct m → Forall (allowed (mapped m)) cs →
  run k m cs = Done (Some <$> flat_run (view m) cs).
Proof.
  revert m. induction cs as [|c cs IH]; intros m Hwf Hm Hd Hall; [done|].
  apply Forall_cons in Hall as [Hc Hall].
  destruct (memory_step_refines k m c) as (m' & Hs & Hwf' & Hm' & Hv & Hsame); [done..|].
  cbn [run flat_run]. rewrite Hs. cbn [mbind res_bind]. rewrite IH; [|done|done| |].
  - cbn. by rewrite (flat_run_ext (view m') (flat_step (view m) c).2).
  - by eapply frames_distinct_same.
  - eapply Forall_impl; [done|]. intros c' Hc'. by eapply allowed_same.
Qed.

End run.

(** Translate is total and safe. With exactly one of TLB and page table
    present and for sizes 1, 2 and 4, none of its ASSERTs fails and it stays
    inside the tables. It returns either the exception that the alignment, the
    page table or TLB entry, the read-only bit and the frame number call for,
    leaving the machine as it was, or NoException with a physical address whose
    bytes all lie in memory, having set the use bit (and the dirty bit of a
    store) of the one entry it used and nothing else. *)
Theorem Translate_correct (m : t) (va size : Z) (writing : bool) :
  mmu_ok m → good_size size = true →
  match phys m va size writing with
  | inl x => x ≠ NoException ∧ Translate va size writing m = Done (x, 0, m)
  | inr pa =>
      0 ≤ pa ∧ pa + size ≤ MemorySize ∧
      ∃ m', Translate va size writing m = Done (NoException, pa, m') ∧
        mainMemory m' = mainMemory m ∧ registers m' = registers m ∧ mmu_ok m' ∧
        (∃ p e, entry_of m (cdiv (u32 va) PageSize) = inr (p, e) ∧
                entry_of m' (cdiv (u32 va) PageSize) = inr (p, touch e writing)) ∧
        ∀ vpn, vpn_ok vpn → vpn ≠ cdiv (u32 va) PageSize → entry_of m' vpn = entry_of m vpn
  end.
Proof. apply Translate_spec. Qed.

(** A TLB whose valid entries are copies of page table entries. *)
Definition coherent (entries table : list TranslationEntry) (size : Z) : Prop :=
  ∀ e, e ∈ entries → valid e = true →
    u32 (virtualPage e) < size ∧
    ∃ e', table !! Z.to_nat (u32 (virtualPage e)) = Some e' ∧ valid e' = true ∧
      physicalPage e' = physicalPage e ∧ readOnly e' = readOnly e.

(** A TLB is a cache of the page table. If every valid TLB entry is a copy of
    the page table entry of its page, then whatever the access, the machine with
    the TLB either reports a page fault (the miss the kernel has to serve) or
    behaves like the machine with the page table: the same exception, or the same
    physical address. *)
Theorem TLB_agrees_with_page_table (m : t) (entries table : list TranslationEntry)
    (p psize va size : Z) (writing : bool) :
  tlb m = Some entries → pageTable m = NULL → Z.of_nat (length entries) = TLBSize →
  p ≠ NULL → tables m !! p = Some table → psize ≤ Z.of_nat (length table) →
  coherent entries table psize → good_size size = true →
  let m2 := set_pageTable (set_tlb m None) p psize in
  ∃ x pa m', Translate va size writing m = Done (x, pa, m') ∧
    (x = PageFaultException ∨ ∃ m2', Translate va size writing m2 = Done (x, pa, m2')).
Proof.
  intros Ht Hp Hl Hnn Htab Hps Hc Hs m2.
  assert (Hm1 : mmu_ok m) by (unfold mmu_ok; by rewrite Ht).
  assert (Hm2 : mmu_ok m2) by (unfold mmu_ok; simpl; eauto).
  pose proof (Translate_spec m va size writing Hm1 Hs) as H1.
  pose proof (Translate_spec m2 va size writing Hm2 Hs) as H2.
  assert (Hphys : phys m va size writing = inl PageFaultException ∨
                  phys m2 va size writing = phys m va size writing).
  { unfold phys. destruct (Translate_align va size); [by right|].
    unfold entry_of. rewrite Ht. simpl.
    destruct (list_find _ entries) as [[i e]|] eqn:Ef; [right|by left].
    apply list_find_Some in Ef as (Hi & [Hv Hvp] & _).
    destruct (Hc e) as (Hlt & e' & He' & Hv' & Hpp & Hro); [by eapply list_elem_of_lookup_2|done|].
    rewrite <- Hvp, decide_True by done. rewrite Htab. simpl. by rewrite He', Hv', Hro, Hpp. }
  destruct Hphys as [Hpf|Heq]; [rewrite Hpf in H1|rewrite Heq in H2].
  - destruct H1 as [_ ->]. eauto 10.
  - destruct (phys m va size writing) as [x|pa].
    + destruct H1 as [_ ->], H2 as [_ ->]. eauto 10.
    + destruct H1 as (_ & _ & m' & -> & _), H2 as (_ & _ & m2' & -> & _). eauto 10.
Qed.

(** ** Witnesses: a machine with a page table of three pages *)
Definition demo_table : list TranslationEntry :=
  [mkTE 0 3 true false false false; mkTE 1 0 true true false false; mkTE 2 0 false false false false].
Definition demo : t :=
  mk (replicate (Z.to_nat MemorySize) 0) (replicate 40 0) None {[ 77 := demo_table ]} 77 3 false 0.

Lemma demo_wf : wf demo.
Proof.
  split; try done.
  - apply Forall_replicate. unfold is_byte. lia.
  - apply Forall_replicate. unfold_int. lia.
Qed.

Lemma demo_mmu : mmu_ok demo.
Proof. split; [done|]. by exists demo_table. Qed.

Lemma demo_mapped vpn : mapped demo vpn =
  if decide (vpn ≤ 0) then Some (3, false)
  else if decide (vpn = 1) then Some (0, true) else None.
Proof.
  unfold mapped, entry_of. simpl.
  destruct (decide (vpn < 3)) as [Hlt|Hge]; [|by rewrite !decide_False by lia].
  rewrite lookup_singleton_eq. simpl.
  destruct (decide (vpn ≤ 0)); [by replace (Z.to_nat vpn) with 0%nat by lia|].
  assert (vpn = 1 ∨ vpn = 2) as [->| ->] by lia; done.
Qed.

Lemma demo_distinct : frames_distinct demo.
Proof.
  intros v1 v2 f r1 r2 H1 H2. rewrite !demo_mapped. unfold vpn_ok in *.
  repeat case_decide; naive_solver lia.
Qed.

Definition demo_accesses : list access :=
  [Wr 8 4 (-2); Rd 8 4; Rd 8 1; Wr 10 2 0x1234; Rd 8 4; Rd 10 2; Rd 256 4].

Lemma paged_memory_refines_flat_witness :
  run true (λ _ k, k) (λ _ _ _, Assert) () demo demo_accesses =
  Done (Some <$> [1; -2; -2; 1; 305463294; 4660; 0]).
Proof.
  rewrite (paged_memory_refines_flat true _ _ () demo demo_accesses demo_wf demo_mmu demo_distinct).
  - vm_compute. reflexivity.
  - repeat constructor; simpl; rewrite ?demo_mapped; try done; by eexists.
Defined.

Lemma Translate_correct_witness :
  ∃ m', Translate 260 4 false demo = Done (NoException, 4, m') ∧ entry_of m' 1 = inr (InTable 1, mkTE 1 0 true true true false).
Proof.
  pose proof (Translate_correct demo 260 4 false demo_mmu eq_refl) as H.
  cbn -[Translate] in H. destruct H as (_ & _ & m' & HT & _ & _ & _ & (p & e & He & He') & _).
  exists m'. split; [exact HT|]. change (entry_of m' 1 = inr (p, touch e false)) in He'. rewrite He'.
  injection He as <- <-. reflexivity.
Defined.

Lemma TLB_agrees_with_page_table_witness :
  let e0 := mkTE 0 3 true false false false in
  let bad := mkTE 0 0 false false false false in
  let m := mk (replicate (Z.to_nat MemorySize) 0) (replicate 40 0) (Some [bad; e0; bad; bad]) {[ 77 := [e0] ]} 0 0 false 0 in
  ∃ x pa m', Translate 4 4 true m = Done (x, pa, m') ∧
    (x = PageFaultException ∨
     ∃ m2', Translate 4 4 true (set_pageTable (set_tlb m None) 77 1) = Done (x, pa, m2')).
Proof.
  intros e0 bad m.
  apply (TLB_agrees_with_page_table m [bad; e0; bad; bad] [e0] 77 1); try done.
  intros e He Hv. rewrite !elem_of_cons, elem_of_nil in He.
  destruct He as [->|[->|[->|[->|[]]]]]; try done. split; [done|]. by exists e0.
Defined.

End FlatMemory.
