(* ===== verification/Mips.v ===== *)
(** Mips: the MIPS R2/3000 interpreter of src/code/machine/mipssim.{h,cc}.

    [opcode] are the OP_ values of mipssim.h; [Decode] and the two tables are
    translated as they are.  [OneInstruction] is the method of that name: one
    definition per group of cases of its switch, in the order of the code.  A
    case either returns from the method after an exception ([Returned]) or falls
    to the end of the switch ([Continue]) with the delayed load and the next
    program counter it has computed.

    Signed overflow wraps around, as the code (and the host compiler it was
    written for) assumes; the division that traps on the host is [Undef]. *)

From Stdlib Require Import Strings.String.
From S2P Require Import Prelude Machine.

Module Mips.
Import Machine.

Inductive opcode : Type :=
| OP_ADD | OP_ADDI | OP_ADDIU | OP_ADDU | OP_AND | OP_ANDI | OP_BEQ | OP_BGEZ
| OP_BGEZAL | OP_BGTZ | OP_BLEZ | OP_BLTZ | OP_BLTZAL | OP_BNE | OP_DIV | OP_DIVU
| OP_J | OP_JAL | OP_JALR | OP_JR | OP_LB | OP_LBU | OP_LH | OP_LHU | OP_LUI
| OP_LW | OP_LWL | OP_LWR | OP_MFHI | OP_MFLO | OP_MTHI | OP_MTLO | OP_MULT
| OP_MULTU | OP_NOR | OP_OR | OP_ORI | OP_RFE | OP_SB | OP_SH | OP_SLL | OP_SLLV
| OP_SLT | OP_SLTI | OP_SLTIU | OP_SLTU | OP_SRA | OP_SRAV | OP_SRL | OP_SRLV
| OP_SUB | OP_SUBU | OP_SW | OP_SWL | OP_SWR | OP_XOR | OP_XORI | OP_SYSCALL
| OP_UNIMP | OP_RES
| SPECIAL | BCOND.

#[export] Instance opcode_eq_dec : EqDecision opcode.
Proof. solve_decision. Defined.

(** The number of an opcode. *)
Definition op_number (op : opcode) : Z :=
  match op with
  | OP_ADD => 1 | OP_ADDI => 2 | OP_ADDIU => 3 | OP_ADDU => 4 | OP_AND => 5
  | OP_ANDI => 6 | OP_BEQ => 7 | OP_BGEZ => 8 | OP_BGEZAL => 9 | OP_BGTZ => 10
  | OP_BLEZ => 11 | OP_BLTZ => 12 | OP_BLTZAL => 13 | OP_BNE => 14 | OP_DIV => 16
  | OP_DIVU => 17 | OP_J => 18 | OP_JAL => 19 | OP_JALR => 20 | OP_JR => 21
  | OP_LB => 22 | OP_LBU => 23 | OP_LH => 24 | OP_LHU => 25 | OP_LUI => 26
  | OP_LW => 27 | OP_LWL => 28 | OP_LWR => 29 | OP_MFHI => 31 | OP_MFLO => 32
  | OP_MTHI => 34 | OP_MTLO => 35 | OP_MULT => 36 | OP_MULTU => 37 | OP_NOR => 38
  | OP_OR => 39 | OP_ORI => 40 | OP_RFE => 41 | OP_SB => 42 | OP_SH => 43
  | OP_SLL => 44 | OP_SLLV => 45 | OP_SLT => 46 | OP_SLTI => 47 | OP_SLTIU => 48
  | OP_SLTU => 49 | OP_SRA => 50 | OP_SRAV => 51 | OP_SRL => 52 | OP_SRLV => 53
  | OP_SUB => 54 | OP_SUBU => 55 | OP_SW => 56 | OP_SWL => 57 | OP_SWR => 58
  | OP_XOR => 59 | OP_XORI => 60 | OP_SYSCALL => 61 | OP_UNIMP => 62 | OP_RES => 63
  | SPECIAL => 100 | BCOND => 101
  end.
Definition MaxOpcode : Z := 63.

Inductive format : Type := IFMT | JFMT | RFMT.

Definition SIGN_BIT : Z := 0x80000000.
Definition R31 : Z := 31.

(** [(x) << 2] on an [int]. *)
Definition IndexToAddr (x : Z) : Z := s32 (Z.shiftl x 2).

Definition opTable : list (opcode * format) :=
  [(SPECIAL, RFMT); (BCOND, IFMT); (OP_J, JFMT); (OP_JAL, JFMT);
   (OP_BEQ, IFMT); (OP_BNE, IFMT); (OP_BLEZ, IFMT); (OP_BGTZ, IFMT);
   (OP_ADDI, IFMT); (OP_ADDIU, IFMT); (OP_SLTI, IFMT); (OP_SLTIU, IFMT);
   (OP_ANDI, IFMT); (OP_ORI, IFMT); (OP_XORI, IFMT); (OP_LUI, IFMT);
   (OP_UNIMP, IFMT); (OP_UNIMP, IFMT); (OP_UNIMP, IFMT); (OP_UNIMP, IFMT);
   (OP_RES, IFMT); (OP_RES, IFMT); (OP_RES, IFMT); (OP_RES, IFMT);
   (OP_RES, IFMT); (OP_RES, IFMT); (OP_RES, IFMT); (OP_RES, IFMT);
   (OP_RES, IFMT); (OP_RES, IFMT); (OP_RES, IFMT); (OP_RES, IFMT);
   (OP_LB, IFMT); (OP_LH, IFMT); (OP_LWL, IFMT); (OP_LW, IFMT);
   (OP_LBU, IFMT); (OP_LHU, IFMT); (OP_LWR, IFMT); (OP_RES, IFMT);
   (OP_SB, IFMT); (OP_SH, IFMT); (OP_SWL, IFMT); (OP_SW, IFMT);
   (OP_RES, IFMT); (OP_RES, IFMT); (OP_SWR, IFMT); (OP_RES, IFMT);
   (OP_UNIMP, IFMT); (OP_UNIMP, IFMT); (OP_UNIMP, IFMT); (OP_UNIMP, IFMT);
   (OP_RES, IFMT); (OP_RES, IFMT); (OP_RES, IFMT); (OP_RES, IFMT);
   (OP_UNIMP, IFMT); (OP_UNIMP, IFMT); (OP_UNIMP, IFMT); (OP_UNIMP, IFMT);
   (OP_RES, IFMT); (OP_RES, IFMT); (OP_RES, IFMT); (OP_RES, IFMT)].

Definition specialTable : list opcode :=
  [OP_SLL; OP_RES; OP_SRL; OP_SRA; OP_SLLV; OP_RES; OP_SRLV; OP_SRAV;
   OP_JR; OP_JALR; OP_RES; OP_RES; OP_SYSCALL; OP_UNIMP; OP_RES; OP_RES;
   OP_MFHI; OP_MTHI; OP_MFLO; OP_MTLO; OP_RES; OP_RES; OP_RES; OP_RES;
   OP_MULT; OP_MULTU; OP_DIV; OP_DIVU; OP_RES; OP_RES; OP_RES; OP_RES;
   OP_ADD; OP_ADDU; OP_SUB; OP_SUBU; OP_AND; OP_OR; OP_XOR; OP_NOR;
   OP_RES; OP_RES; OP_SLT; OP_SLTU; OP_RES; OP_RES; OP_RES; OP_RES;
   OP_RES; OP_RES; OP_RES; OP_RES; OP_RES; OP_RES; OP_RES; OP_RES;
   OP_RES; OP_RES; OP_RES; OP_RES; OP_RES; OP_RES; OP_RES; OP_RES].

Record Instruction : Type := mkI {
  value : Z;
  opCode : opcode;
  rs : Z;
  rt : Z;
  rd : Z;
  extra : Z
}.

(** [value >> n] on an [unsigned]. *)
Definition Decode (value : Z) : res Instruction :=
  let rs := Z.land (Z.shiftr value 21) 0x1f in
  let rt := Z.land (Z.shiftr value 16) 0x1f in
  let rd := Z.land (Z.shiftr value 11) 0x1f in
  opPtr ← aget opTable (Z.land (Z.shiftr value 26) 0x3f);
  let opCode := fst opPtr in
  let extra :=
    match snd opPtr with
    | IFMT =>
        let extra := Z.land value 0xffff in
        if negb (Z.land extra 0x8000 =? 0) then s32 (Z.lor extra 0xffff0000) else extra
    | RFMT => Z.land (Z.shiftr value 6) 0x1f
    | JFMT => Z.land value 0x3ffffff
    end in
  opCode ←
    (if decide (opCode = SPECIAL) then aget specialTable (Z.land value 0x3f)
     else if decide (opCode = BCOND) then
       let i := Z.land value 0x1f0000 in
       Done (if i =? 0 then OP_BLTZ
             else if i =? 0x10000 then OP_BGEZ
             else if i =? 0x100000 then OP_BLTZAL
             else if i =? 0x110000 then OP_BGEZAL
             else OP_UNIMP)
     else Done opCode);
  Done (mkI value opCode rs rt rd extra).

(** ** Multiplication *)

(** The loop of Mult: [a] is the [int] whose bits are looked at. *)
Fixpoint Mult_loop (n : nat) (a bLo bHi lo hi : Z) : Z * Z :=
  match n with
  | O => (hi, lo)
  | S n =>
      let next hi lo :=
        let bHi := u32 (Z.shiftl bHi 1) in
        let bHi := if negb (Z.land bLo 0x80000000 =? 0) then Z.lor bHi 1 else bHi in
        let bLo := u32 (Z.shiftl bLo 1) in
        let a := Z.shiftr a 1 in
        Mult_loop n a bLo bHi lo hi in
      if negb (Z.land a 1 =? 0) then
        let lo := u32 (lo + bLo) in
        let hi := if lo <? bLo then u32 (hi + 1) else hi in
        let hi := u32 (hi + bHi) in
        if Z.land (u32 a) 0xfffffffe =? 0 then (hi, lo)
        else next hi lo
      else next hi lo
  end.

(** Returns [*hiPtr] and [*loPtr]. *)
Definition Mult (a b : Z) (signedArith : bool) : Z * Z :=
  if (a =? 0) || (b =? 0) then (0, 0)
  else
    let negative := false in
    let '(negative, a) :=
      if signedArith && (a <? 0) then (negb negative, s32 (- a)) else (negative, a) in
    let '(negative, b) :=
      if signedArith && (b <? 0) then (negb negative, s32 (- b)) else (negative, b) in
    let '(hi, lo) := Mult_loop 32 a (u32 b) 0 0 0 in
    let '(hi, lo) :=
      if negative then
        let hi := u32 (Z.lnot hi) in
        let lo := u32 (Z.lnot lo) in
        let lo := u32 (lo + 1) in
        (if lo =? 0 then u32 (hi + 1) else hi, lo)
      else (hi, lo) in
    (s32 hi, s32 lo).

(** ** The cases of the switch *)

(** How a case ends: the method returned, or it goes on to the delayed load with
    [nextLoadReg], [nextLoadValue] and [pcAfter]. *)
Inductive flow (K : Type) : Type :=
| Returned (k : K) (m : t)
| Continue (k : K) (m : t) (nextLoadReg nextLoadValue pcAfter : Z).
Arguments Returned {K}.
Arguments Continue {K}.

Section exec.
Context (be : bool) {K : Type} (setStatus : MachineStatus → K → K).
Context (ExceptionHandler : ExceptionType → K → t → res (K * t)).

Abbreviation ReadMem := (Machine.ReadMem be setStatus ExceptionHandler).
Abbreviation WriteMem := (Machine.WriteMem be setStatus ExceptionHandler).

(** [RaiseException(which, badVAddr); return;]. *)
Definition trap (which : ExceptionType) (badVAddr : Z) (k : K) (m : t) : res (flow K) :=
  '(k, m) ← RaiseException setStatus ExceptionHandler which badVAddr k m;
  Done (Returned k m).

(** [break] after assigning to a register. *)
Definition assign (k : K) (m : t) (r v pcAfter : Z) : res (flow K) :=
  Done (Continue k (set_reg m r v) 0 0 pcAfter).

(** [x & SIGN_BIT] for an [int]. *)
Definition sign_set (x : Z) : bool := negb (Z.land (u32 x) SIGN_BIT =? 0).

Definition exec_ADD (i : Instruction) (k : K) (m : t) (pcAfter : Z) : res (flow K) :=
  let sum := s32 (reg m (rs i) + reg m (rt i)) in
  if negb (sign_set (Z.lxor (reg m (rs i)) (reg m (rt i)))) &&
     sign_set (Z.lxor (reg m (rs i)) sum)
  then trap OverflowException 0 k m
  else assign k m (rd i) sum pcAfter.

Definition exec_ADDI (i : Instruction) (k : K) (m : t) (pcAfter : Z) : res (flow K) :=
  let sum := s32 (reg m (rs i) + extra i) in
  if negb (sign_set (Z.lxor (reg m (rs i)) (extra i))) && sign_set (Z.lxor (extra i) sum)
  then trap OverflowException 0 k m
  else assign k m (rt i) sum pcAfter.

Definition exec_ADDU_AND (i : Instruction) (k : K) (m : t) (pcAfter : Z) : res (flow K) :=
  match opCode i with
  | OP_ADDIU => assign k m (rt i) (s32 (reg m (rs i) + extra i)) pcAfter
  | OP_ADDU => assign k m (rd i) (s32 (reg m (rs i) + reg m (rt i))) pcAfter
  | OP_AND => assign k m (rd i) (Z.land (reg m (rs i)) (reg m (rt i))) pcAfter
  | OP_ANDI => assign k m (rt i) (Z.land (reg m (rs i)) (Z.land (extra i) 0xffff)) pcAfter
  | _ => Assert
  end.

Definition exec_branch (i : Instruction) (k : K) (m : t) (pcAfter : Z) : res (flow K) :=
  let m := match opCode i with
           | OP_BGEZAL | OP_BLTZAL => set_reg m R31 (s32 (reg m NextPCReg + 4))
           | _ => m
           end in
  let taken :=
    match opCode i with
    | OP_BEQ => reg m (rs i) =? reg m (rt i)
    | OP_BGEZAL | OP_BGEZ => negb (sign_set (reg m (rs i)))
    | OP_BGTZ => 0 <? reg m (rs i)
    | OP_BLEZ => reg m (rs i) <=? 0
    | OP_BLTZAL | OP_BLTZ => sign_set (reg m (rs i))
    | OP_BNE => negb (reg m (rs i) =? reg m (rt i))
    | _ => false
    end in
  Done (Continue k m 0 0
    (if taken then s32 (reg m NextPCReg + IndexToAddr (extra i)) else pcAfter)).

(** INT_MIN / -1 overflows: the division traps on the host. *)
Definition exec_DIV (i : Instruction) (k : K) (m : t) (pcAfter : Z) : res (flow K) :=
  match opCode i with
  | OP_DIV =>
      if reg m (rt i) =? 0 then
        Done (Continue k (set_reg (set_reg m LoReg 0) HiReg 0) 0 0 pcAfter)
      else if (reg m (rs i) =? INT_MIN) && (reg m (rt i) =? -1) then Undef
      else
        let m := set_reg m LoReg (cdiv (reg m (rs i)) (reg m (rt i))) in
        Done (Continue k (set_reg m HiReg (cmod (reg m (rs i)) (reg m (rt i)))) 0 0 pcAfter)
  | _ =>
      let a := u32 (reg m (rs i)) in
      let b := u32 (reg m (rt i)) in
      if b =? 0 then
        Done (Continue k (set_reg (set_reg m LoReg 0) HiReg 0) 0 0 pcAfter)
      else
        let m := set_reg m LoReg (s32 (cdiv a b)) in
        Done (Continue k (set_reg m HiReg (s32 (cmod a b))) 0 0 pcAfter)
  end.

Definition exec_jump (i : Instruction) (k : K) (m : t) (pcAfter : Z) : res (flow K) :=
  match opCode i with
  | OP_JAL | OP_J =>
      let m := match opCode i with
               | OP_JAL => set_reg m R31 (s32 (reg m NextPCReg + 4))
               | _ => m
               end in
      Done (Continue k m 0 0
        (s32 (Z.lor (Z.land (u32 pcAfter) 0xf0000000) (u32 (IndexToAddr (extra i))))))
  | _ =>
      let m := match opCode i with
               | OP_JALR => set_reg m (rd i) (s32 (reg m NextPCReg + 4))
               | _ => m
               end in
      Done (Continue k m 0 0 (reg m (rs i)))
  end.

Definition exec_LB (i : Instruction) (k : K) (m : t) (pcAfter : Z) : res (flow K) :=
  let tmp := s32 (reg m (rs i) + extra i) in
  '(r, k, m) ← ReadMem tmp 1 k m;
  match r with
  | None => Done (Returned k m)
  | Some value =>
      let value :=
        if negb (Z.land value 0x80 =? 0) && bool_decide (opCode i = OP_LB)
        then s32 (Z.lor (u32 value) 0xffffff00)
        else Z.land value 0xff in
      Done (Continue k m (rt i) value pcAfter)
  end.

Definition exec_LH (i : Instruction) (k : K) (m : t) (pcAfter : Z) : res (flow K) :=
  let tmp := s32 (reg m (rs i) + extra i) in
  if negb (Z.land tmp 0x1 =? 0) then trap AddressErrorException tmp k m
  else
    '(r, k, m) ← ReadMem tmp 2 k m;
    match r with
    | None => Done (Returned k m)
    | Some value =>
        let value :=
          if negb (Z.land value 0x8000 =? 0) && bool_decide (opCode i = OP_LH)
          then s32 (Z.lor (u32 value) 0xffff0000)
          else Z.land value 0xffff in
        Done (Continue k m (rt i) value pcAfter)
    end.

Definition exec_LUI (i : Instruction) (k : K) (m : t) (pcAfter : Z) : res (flow K) :=
  assign k m (rt i) (s32 (Z.shiftl (extra i) 16)) pcAfter.

Definition exec_LW (i : Instruction) (k : K) (m : t) (pcAfter : Z) : res (flow K) :=
  let tmp := s32 (reg m (rs i) + extra i) in
  if negb (Z.land tmp 0x3 =? 0) then trap AddressErrorException tmp k m
  else
    '(r, k, m) ← ReadMem tmp 4 k m;
    match r with
    | None => Done (Returned k m)
    | Some value => Done (Continue k m (rt i) value pcAfter)
    end.

(** The register as the delayed load in progress will leave it. *)
Definition pending (m : t) (r : Z) : Z :=
  if reg m LoadReg =? r then reg m LoadValueReg else reg m r.

Definition exec_LWL (i : Instruction) (k : K) (m : t) (pcAfter : Z) : res (flow K) :=
  let tmp := s32 (reg m (rs i) + extra i) in
  ASSERT (Z.land tmp 0x3 =? 0);;
  '(r, k, m) ← ReadMem tmp 4 k m;
  match r with
  | None => Done (Returned k m)
  | Some value =>
      let nextLoadValue := pending m (rt i) in
      let nextLoadValue :=
        if Z.land tmp 0x3 =? 0 then value
        else if Z.land tmp 0x3 =? 1 then Z.lor (Z.land nextLoadValue 0xff) (s32 (Z.shiftl value 8))
        else if Z.land tmp 0x3 =? 2 then Z.lor (Z.land nextLoadValue 0xffff) (s32 (Z.shiftl value 16))
        else Z.lor (Z.land nextLoadValue 0xffffff) (s32 (Z.shiftl value 24)) in
      Done (Continue k m (rt i) nextLoadValue pcAfter)
  end.

Definition exec_LWR (i : Instruction) (k : K) (m : t) (pcAfter : Z) : res (flow K) :=
  let tmp := s32 (reg m (rs i) + extra i) in
  ASSERT (Z.land tmp 0x3 =? 0);;
  '(r, k, m) ← ReadMem tmp 4 k m;
  match r with
  | None => Done (Returned k m)
  | Some value =>
      let nextLoadValue := pending m (rt i) in
      let nextLoadValue :=
        if Z.land tmp 0x3 =? 0 then
          s32 (Z.lor (Z.land (u32 nextLoadValue) 0xffffff00) (Z.land (Z.shiftr value 24) 0xff))
        else if Z.land tmp 0x3 =? 1 then
          s32 (Z.lor (Z.land (u32 nextLoadValue) 0xffff0000) (Z.land (Z.shiftr value 16) 0xffff))
        else if Z.land tmp 0x3 =? 2 then
          s32 (Z.lor (Z.land (u32 nextLoadValue) 0xff000000) (Z.land (Z.shiftr value 8) 0xffffff))
        else value in
      Done (Continue k m (rt i) nextLoadValue pcAfter)
  end.

Definition exec_HiLo (i : Instruction) (k : K) (m : t) (pcAfter : Z) : res (flow K) :=
  match opCode i with
  | OP_MFHI => assign k m (rd i) (reg m HiReg) pcAfter
  | OP_MFLO => assign k m (rd i) (reg m LoReg) pcAfter
  | OP_MTHI => assign k m HiReg (reg m (rs i)) pcAfter
  | OP_MTLO => assign k m LoReg (reg m (rs i)) pcAfter
  | op =>
      let '(hi, lo) := Mult (reg m (rs i)) (reg m (rt i)) (bool_decide (op = OP_MULT)) in
      Done (Continue k (set_reg (set_reg m HiReg hi) LoReg lo) 0 0 pcAfter)
  end.

Definition exec_OR (i : Instruction) (k : K) (m : t) (pcAfter : Z) : res (flow K) :=
  match opCode i with
  | OP_NOR => assign k m (rd i) (Z.lnot (Z.lor (reg m (rs i)) (reg m (rt i)))) pcAfter
  | OP_OR => assign k m (rd i) (Z.lor (reg m (rs i)) (reg m (rs i))) pcAfter
  | _ => assign k m (rt i) (Z.lor (reg m (rs i)) (Z.land (extra i) 0xffff)) pcAfter
  end.

(** The three stores: SB and SH here, SW below. *)
Definition store (size : Z) (i : Instruction) (k : K) (m : t) (pcAfter : Z) : res (flow K) :=
  '(ok, k, m) ← WriteMem (s32 (u32 (reg m (rs i) + extra i))) size (reg m (rt i)) k m;
  if (ok : bool) then Done (Continue k m 0 0 pcAfter) else Done (Returned k m).

Definition exec_SB_SH (i : Instruction) (k : K) (m : t) (pcAfter : Z) : res (flow K) :=
  match opCode i with
  | OP_SB => store 1 i k m pcAfter
  | _ => store 2 i k m pcAfter
  end.

Definition exec_SLL (i : Instruction) (k : K) (m : t) (pcAfter : Z) : res (flow K) :=
  match opCode i with
  | OP_SLL => assign k m (rd i) (s32 (Z.shiftl (reg m (rt i)) (extra i))) pcAfter
  | _ => assign k m (rd i)
           (s32 (Z.shiftl (reg m (rt i)) (Z.land (reg m (rs i)) 0x1f))) pcAfter
  end.

Definition exec_SLT (i : Instruction) (k : K) (m : t) (pcAfter : Z) : res (flow K) :=
  let set r (b : bool) := assign k m r (if b then 1 else 0) pcAfter in
  match opCode i with
  | OP_SLT => set (rd i) (reg m (rs i) <? reg m (rt i))
  | OP_SLTI => set (rt i) (reg m (rs i) <? extra i)
  | OP_SLTIU => set (rt i) (u32 (reg m (rs i)) <? u32 (extra i))
  | _ => set (rd i) (u32 (reg m (rs i)) <? u32 (reg m (rt i)))
  end.

(** [tmp] is an [int], so the logical shifts of the code are arithmetic ones. *)
Definition exec_SR (i : Instruction) (k : K) (m : t) (pcAfter : Z) : res (flow K) :=
  match opCode i with
  | OP_SRA => assign k m (rd i) (Z.shiftr (reg m (rt i)) (extra i)) pcAfter
  | OP_SRAV => assign k m (rd i) (Z.shiftr (reg m (rt i)) (Z.land (reg m (rs i)) 0x1f)) pcAfter
  | OP_SRL =>
      let tmp := reg m (rt i) in
      let tmp := Z.shiftr tmp (extra i) in
      assign k m (rd i) tmp pcAfter
  | _ =>
      let tmp := reg m (rt i) in
      let tmp := Z.shiftr tmp (Z.land (reg m (rs i)) 0x1f) in
      assign k m (rd i) tmp pcAfter
  end.

Definition exec_SUB (i : Instruction) (k : K) (m : t) (pcAfter : Z) : res (flow K) :=
  let diff := s32 (reg m (rs i) - reg m (rt i)) in
  match opCode i with
  | OP_SUB =>
      if sign_set (Z.lxor (reg m (rs i)) (reg m (rt i))) &&
         sign_set (Z.lxor (reg m (rs i)) diff)
      then trap OverflowException 0 k m
      else assign k m (rd i) diff pcAfter
  | _ => assign k m (rd i) diff pcAfter
  end.

Definition exec_SW (i : Instruction) (k : K) (m : t) (pcAfter : Z) : res (flow K) :=
  store 4 i k m pcAfter.

Definition exec_SWL (i : Instruction) (k : K) (m : t) (pcAfter : Z) : res (flow K) :=
  let tmp := s32 (reg m (rs i) + extra i) in
  ASSERT (Z.land tmp 0x3 =? 0);;
  '(r, k, m) ← ReadMem (Z.land tmp (Z.lnot 0x3)) 4 k m;
  match r with
  | None => Done (Returned k m)
  | Some value =>
      let value :=
        if Z.land tmp 0x3 =? 0 then reg m (rt i)
        else if Z.land tmp 0x3 =? 1 then
          s32 (Z.lor (Z.land (u32 value) 0xff000000) (Z.land (Z.shiftr (reg m (rt i)) 8) 0xffffff))
        else if Z.land tmp 0x3 =? 2 then
          s32 (Z.lor (Z.land (u32 value) 0xffff0000) (Z.land (Z.shiftr (reg m (rt i)) 16) 0xffff))
        else
          s32 (Z.lor (Z.land (u32 value) 0xffffff00) (Z.land (Z.shiftr (reg m (rt i)) 24) 0xff)) in
      '(ok, k, m) ← WriteMem (Z.land tmp (Z.lnot 0x3)) 4 value k m;
      if (ok : bool) then Done (Continue k m 0 0 pcAfter) else Done (Returned k m)
  end.

Definition exec_SWR (i : Instruction) (k : K) (m : t) (pcAfter : Z) : res (flow K) :=
  let tmp := s32 (reg m (rs i) + extra i) in
  ASSERT (Z.land tmp 0x3 =? 0);;
  '(r, k, m) ← ReadMem (Z.land tmp (Z.lnot 0x3)) 4 k m;
  match r with
  | None => Done (Returned k m)
  | Some value =>
      let value :=
        if Z.land tmp 0x3 =? 0 then
          Z.lor (Z.land value 0xffffff) (s32 (Z.shiftl (reg m (rt i)) 24))
        else if Z.land tmp 0x3 =? 1 then
          Z.lor (Z.land value 0xffff) (s32 (Z.shiftl (reg m (rt i)) 16))
        else if Z.land tmp 0x3 =? 2 then
          Z.lor (Z.land value 0xff) (s32 (Z.shiftl (reg m (rt i)) 8))
        else reg m (rt i) in
      '(ok, k, m) ← WriteMem (Z.land tmp (Z.lnot 0x3)) 4 value k m;
      if (ok : bool) then Done (Continue k m 0 0 pcAfter) else Done (Returned k m)
  end.

Definition exec_XOR (i : Instruction) (k : K) (m : t) (pcAfter : Z) : res (flow K) :=
  match opCode i with
  | OP_XOR => assign k m (rd i) (Z.lxor (reg m (rs i)) (reg m (rt i))) pcAfter
  | _ => assign k m (rt i) (Z.lxor (reg m (rs i)) (Z.land (extra i) 0xffff)) pcAfter
  end.

(** The switch. *)
Definition execute (i : Instruction) (k : K) (m : t) (pcAfter : Z) : res (flow K) :=
  match opCode i with
  | OP_ADD => exec_ADD i k m pcAfter
  | OP_ADDI => exec_ADDI i k m pcAfter
  | OP_ADDIU | OP_ADDU | OP_AND | OP_ANDI => exec_ADDU_AND i k m pcAfter
  | OP_BEQ | OP_BGEZAL | OP_BGEZ | OP_BGTZ | OP_BLEZ | OP_BLTZAL | OP_BLTZ | OP_BNE =>
      exec_branch i k m pcAfter
  | OP_DIV | OP_DIVU => exec_DIV i k m pcAfter
  | OP_JAL | OP_J | OP_JALR | OP_JR => exec_jump i k m pcAfter
  | OP_LB | OP_LBU => exec_LB i k m pcAfter
  | OP_LH | OP_LHU => exec_LH i k m pcAfter
  | OP_LUI => exec_LUI i k m pcAfter
  | OP_LW => exec_LW i k m pcAfter
  | OP_LWL => exec_LWL i k m pcAfter
  | OP_LWR => exec_LWR i k m pcAfter
  | OP_MFHI | OP_MFLO | OP_MTHI | OP_MTLO | OP_MULT | OP_MULTU => exec_HiLo i k m pcAfter
  | OP_NOR | OP_OR | OP_ORI => exec_OR i k m pcAfter
  | OP_SB | OP_SH => exec_SB_SH i k m pcAfter
  | OP_SLL | OP_SLLV => exec_SLL i k m pcAfter
  | OP_SLT | OP_SLTI | OP_SLTIU | OP_SLTU => exec_SLT i k m pcAfter
  | OP_SRA | OP_SRAV | OP_SRL | OP_SRLV => exec_SR i k m pcAfter
  | OP_SUB | OP_SUBU => exec_SUB i k m pcAfter
  | OP_SW => exec_SW i k m pcAfter
  | OP_SWL => exec_SWL i k m pcAfter
  | OP_SWR => exec_SWR i k m pcAfter
  | OP_SYSCALL => trap SyscallException 0 k m
  | OP_XOR | OP_XORI => exec_XOR i k m pcAfter
  | OP_RES | OP_UNIMP => trap IllegalInstrException 0 k m
  | OP_RFE | SPECIAL | BCOND => Assert
  end.

(** The end of the method: the delayed load and the program counters. *)
Definition finish (k : K) (m : t) (nextLoadReg nextLoadValue pcAfter : Z) : res (K * t) :=
  m ← DelayedLoad nextLoadReg nextLoadValue m;
  let m := set_reg m PrevPCReg (reg m PCReg) in
  let m := set_reg m PCReg (reg m NextPCReg) in
  Done (k, set_reg m NextPCReg pcAfter).

Definition OneInstruction (k : K) (m : t) : res (K * t) :=
  '(raw, k, m) ← ReadMem (reg m PCReg) 4 k m;
  match raw with
  | None => Done (k, m)
  | Some raw =>
      instr ← Decode (u32 raw);
      let pcAfter := s32 (reg m NextPCReg + 4) in
      f ← execute instr k m pcAfter;
      match f with
      | Returned k m => Done (k, m)
      | Continue k m nextLoadReg nextLoadValue pcAfter =>
          finish k m nextLoadReg nextLoadValue pcAfter
      end
  end.

End exec.

(** ** Disassembly, for the debugging output *)

Inductive RegType : Type := NONE | RS | RT | RD | EXTRA.

Definition TypeToReg (r : RegType) (instr : Instruction) : Z :=
  match r with
  | RS => rs instr
  | RT => rt instr
  | RD => rd instr
  | EXTRA => extra instr
  | NONE => -1
  end.

Open Scope string_scope.
Definition opStrings : list (string * list RegType) :=
  [("Shouldn't happen", [NONE; NONE; NONE]);
   ("ADD r%d,r%d,r%d", [RD; RS; RT]);
   ("ADDI r%d,r%d,%d", [RT; RS; EXTRA]);
   ("ADDIU r%d,r%d,%d", [RT; RS; EXTRA]);
   ("ADDU r%d,r%d,r%d", [RD; RS; RT]);
   ("AND r%d,r%d,r%d", [RD; RS; RT]);
   ("ANDI r%d,r%d,%d", [RT; RS; EXTRA]);
   ("BEQ r%d,r%d,%d", [RS; RT; EXTRA]);
   ("BGEZ r%d,%d", [RS; EXTRA; NONE]);
   ("BGEZAL r%d,%d", [RS; EXTRA; NONE]);
   ("BGTZ r%d,%d", [RS; EXTRA; NONE]);
   ("BLEZ r%d,%d", [RS; EXTRA; NONE]);
   ("BLTZ r%d,%d", [RS; EXTRA; NONE]);
   ("BLTZAL r%d,%d", [RS; EXTRA; NONE]);
   ("BNE r%d,r%d,%d", [RS; RT; EXTRA]);
   ("Shouldn't happen", [NONE; NONE; NONE]);
   ("DIV r%d,r%d", [RS; RT; NONE]);
   ("DIVU r%d,r%d", [RS; RT; NONE]);
   ("J %d", [EXTRA; NONE; NONE]);
   ("JAL %d", [EXTRA; NONE; NONE]);
   ("JALR r%d,r%d", [RD; RS; NONE]);
   ("JR r%d,r%d", [RD; RS; NONE]);
   ("LB r%d,%d(r%d)", [RT; EXTRA; RS]);
   ("LBU r%d,%d(r%d)", [RT; EXTRA; RS]);
   ("LH r%d,%d(r%d)", [RT; EXTRA; RS]);
   ("LHU r%d,%d(r%d)", [RT; EXTRA; RS]);
   ("LUI r%d,%d", [RT; EXTRA; NONE]);
   ("LW r%d,%d(r%d)", [RT; EXTRA; RS]);
   ("LWL r%d,%d(r%d)", [RT; EXTRA; RS]);
   ("LWR r%d,%d(r%d)", [RT; EXTRA; RS]);
   ("Shouldn't happen", [NONE; NONE; NONE]);
   ("MFHI r%d", [RD; NONE; NONE]);
   ("MFLO r%d", [RD; NONE; NONE]);
   ("Shouldn't happen", [NONE; NONE; NONE]);
   ("MTHI r%d", [RS; NONE; NONE]);
   ("MTLO r%d", [RS; NONE; NONE]);
   ("MULT r%d,r%d", [RS; RT; NONE]);
   ("MULTU r%d,r%d", [RS; RT; NONE]);
   ("NOR r%d,r%d,r%d", [RD; RS; RT]);
   ("OR r%d,r%d,r%d", [RD; RS; RT]);
   ("ORI r%d,r%d,%d", [RT; RS; EXTRA]);
   ("RFE", [NONE; NONE; NONE]);
   ("SB r%d,%d(r%d)", [RT; EXTRA; RS]);
   ("SH r%d,%d(r%d)", [RT; EXTRA; RS]);
   ("SLL r%d,r%d,%d", [RD; RT; EXTRA]);
   ("SLLV r%d,r%d,r%d", [RD; RT; RS]);
   ("SLT r%d,r%d,r%d", [RD; RS; RT]);
   ("SLTI r%d,r%d,%d", [RT; RS; EXTRA]);
   ("SLTIU r%d,r%d,%d", [RT; RS; EXTRA]);
   ("SLTU r%d,r%d,r%d", [RD; RS; RT]);
   ("SRA r%d,r%d,%d", [RD; RT; EXTRA]);
   ("SRAV r%d,r%d,r%d", [RD; RT; RS]);
   ("SRL r%d,r%d,%d", [RD; RT; EXTRA]);
   ("SRLV r%d,r%d,r%d", [RD; RT; RS]);
   ("SUB r%d,r%d,r%d", [RD; RS; RT]);
   ("SUBU r%d,r%d,r%d", [RD; RS; RT]);
   ("SW r%d,%d(r%d)", [RT; EXTRA; RS]);
   ("SWL r%d,%d(r%d)", [RT; EXTRA; RS]);
   ("SWR r%d,%d(r%d)", [RT; EXTRA; RS]);
   ("XOR r%d,r%d,r%d", [RD; RS; RT]);
   ("XORI r%d,r%d,%d", [RT; RS; EXTRA]);
   ("SYSCALL", [NONE; NONE; NONE]);
   ("Unimplemented", [NONE; NONE; NONE]);
   ("Reserved", [NONE; NONE; NONE])].
Close Scope string_scope.

(** The format string of an instruction and the arguments printf gets. *)
Definition disassemble (instr : Instruction) : res (string * list Z) :=
  ASSERT (op_number (opCode instr) <=? MaxOpcode);;
  '(format, args) ← aget opStrings (op_number (opCode instr));
  Done (format, (λ r, TypeToReg r instr) <$> (args : list RegType)).

(** ** Registers *)

Lemma reg_set_reg_eq m r v :
  Z.of_nat (length (registers m)) = NumTotalRegs → 0 ≤ r < NumTotalRegs → reg (set_reg m r v) r = v.
Proof. intros Hl Hr. unfold reg, set_reg. simpl. rewrite list_lookup_insert_eq by lia. done. Qed.

Lemma reg_set_reg_ne m r r' v :
  0 ≤ r → 0 ≤ r' → r ≠ r' → reg (set_reg m r v) r' = reg m r'.
Proof. intros H1 H2 Hn. unfold reg, set_reg. simpl. rewrite list_lookup_insert_ne by lia. done. Qed.

Lemma reg_s32 m r : wf m → is_s32 (reg m r).
Proof.
  intros [_ _ _ Hr _]. unfold reg. destruct (registers m !! Z.to_nat r) eqn:E; simpl.
  - by eapply Forall_lookup_1.
  - unfold_int. lia.
Qed.

(** Writing a register other than LoadReg keeps the machine well formed. *)
Lemma wf_set_reg m r v : wf m → 0 ≤ r → r ≠ LoadReg → is_s32 v → wf (set_reg m r v).
Proof.
  intros [H1 H2 H3 H4 H5] Hr Hn Hv. split; simpl.
  - done.
  - done.
  - by rewrite length_insert.
  - by apply Forall_insert.
  - rewrite reg_set_reg_ne; [done|done|unfold LoadReg; lia|done].
Qed.

Lemma wf_set_LoadReg m v : wf m → 0 ≤ v < NumGPRegs → wf (set_reg m LoadReg v).
Proof.
  intros [H1 H2 H3 H4 H5] Hv. split; simpl.
  - done.
  - done.
  - by rewrite length_insert.
  - apply Forall_insert; [done|]. unfold NumGPRegs in Hv. unfold_int. lia.
  - rewrite reg_set_reg_eq; [done|done|unfold LoadReg, NumTotalRegs; lia].
Qed.

Lemma mmu_set_registers m rs : mmu_ok m → mmu_ok (set_registers m rs).
Proof. done. Qed.

(** The state between instructions: well formed, and register 0 is zero. *)
Definition inv (m : t) : Prop := wf m ∧ mmu_ok m.
Definition inv0 (m : t) : Prop := inv m ∧ reg m 0 = 0.

Lemma inv_set_reg m r v : inv m → 0 ≤ r → r ≠ LoadReg → is_s32 v → inv (set_reg m r v).
Proof. intros [Hw Hm] ???. split; [by apply wf_set_reg|done]. Qed.

Lemma DelayedLoad_spec m r v :
  inv m → 0 ≤ r < NumGPRegs → is_s32 v →
  ∃ m', DelayedLoad r v m = Done m' ∧ inv0 m' ∧ mainMemory m' = mainMemory m ∧
    reg m' LoadReg = r ∧ reg m' LoadValueReg = v ∧
    ∀ j, 0 < j < LoadReg → reg m' j = if decide (j = reg m LoadReg) then reg m LoadValueReg else reg m j.
Proof.
  intros [Hw Hm] Hr Hv. pose proof (wf_loadreg m Hw) as Hlr. pose proof (wf_regs_length m Hw) as Hl.
  pose proof (reg_s32 m LoadValueReg Hw) as Hlv.
  unfold DelayedLoad, NumGPRegs, NumTotalRegs in *. rewrite aset_in_range by lia. cbn [mbind res_bind].
  change (set_registers m (<[Z.to_nat (reg m LoadReg):=reg m LoadValueReg]> (registers m)))
    with (set_reg m (reg m LoadReg) (reg m LoadValueReg)).
  set (m1 := set_reg m (reg m LoadReg) (reg m LoadValueReg)).
  assert (Hw1 : wf m1) by (apply wf_set_reg; unfold LoadReg in *; done || lia).
  assert (Hw2 : wf (set_reg m1 LoadReg r)) by (by apply wf_set_LoadReg).
  assert (Hw3 : wf (set_reg (set_reg m1 LoadReg r) LoadValueReg v)) by (by apply wf_set_reg).
  assert (Hw4 : wf (set_reg (set_reg (set_reg m1 LoadReg r) LoadValueReg v) 0 0)).
  { apply wf_set_reg; [done|done|done|unfold_int; lia]. }
  pose proof (wf_regs_length _ Hw1) as Hl1. pose proof (wf_regs_length _ Hw2) as Hl2.
  pose proof (wf_regs_length _ Hw3) as Hl3. unfold NumTotalRegs in *.
  eexists. split; [done|]. split; [|split; [done|split; [|split]]].
  - split; [by split|]. by rewrite reg_set_reg_eq.
  - rewrite !reg_set_reg_ne by (unfold LoadReg, LoadValueReg; lia). by rewrite reg_set_reg_eq.
  - rewrite reg_set_reg_ne by (unfold LoadValueReg; lia). by rewrite reg_set_reg_eq.
  - intros j Hj. rewrite !(reg_set_reg_ne _ _ j) by (unfold LoadReg, LoadValueReg in *; lia).
    unfold m1. case_decide as Hd.
    + rewrite Hd. apply reg_set_reg_eq; unfold NumTotalRegs; lia.
    + apply reg_set_reg_ne; lia.
Qed.

(** ** Decoding *)

Definition handled (op : opcode) : bool :=
  match op with OP_RFE | SPECIAL | BCOND => false | _ => true end.

Lemma land_ones_range v n : 0 ≤ n → 0 ≤ Z.land v (Z.ones n) < 2 ^ n.
Proof. intros. rewrite Z.land_ones by done. apply Z.mod_pos_bound. lia. Qed.

Lemma land_31 v : 0 ≤ Z.land v 0x1f < 32.
Proof. apply (land_ones_range v 5). lia. Qed.
Lemma land_63 v : 0 ≤ Z.land v 0x3f < 64.
Proof. apply (land_ones_range v 6). lia. Qed.

Lemma testbit_land_pow2 v k : 0 ≤ k → (Z.land v (2 ^ k) =? 0) = negb (Z.testbit v k).
Proof.
  intros Hk. destruct (Z.testbit v k) eqn:E; simpl.
  - apply Z.eqb_neq. intros H.
    assert (H' : Z.testbit (Z.land v (2 ^ k)) k = false) by (rewrite H; apply Z.bits_0).
    rewrite Z.land_spec, E, Z.pow2_bits_true in H' by lia. done.
  - apply Z.eqb_eq, Z.bits_inj'. intros j Hj.
    rewrite Z.land_spec, Z.pow2_bits_eqb, Z.bits_0 by lia.
    destruct (Z.eqb_spec k j); [subst; by rewrite E|apply andb_false_r].
Qed.

(** The immediate of an I-format instruction is its low half word, sign-extended. *)
Definition sext16 (v : Z) : Z := (v + 2 ^ 15) mod 2 ^ 16 - 2 ^ 15.

Lemma testbit_high v k : 0 ≤ k → 0 ≤ v < 2 ^ (k + 1) → Z.testbit v k = (2 ^ k <=? v).
Proof.
  intros Hk Hv. rewrite Z.testbit_odd, Z.shiftr_div_pow2 by done.
  rewrite Z.pow_add_r in Hv by lia. change (2 ^ 1) with 2 in Hv.
  destruct (2 ^ k <=? v) eqn:E; simplify_tests.
  - replace (v / 2 ^ k) with 1; [done|]. apply Z.div_unique with (v - 2 ^ k); lia.
  - by rewrite Z.div_small by lia.
Qed.

Lemma immediate_sext v :
  (let extra := Z.land v 0xffff in
   if negb (Z.land extra 0x8000 =? 0) then s32 (Z.lor extra 0xffff0000) else extra) = sext16 v.
Proof.
  change 0xffff with (Z.ones 16). rewrite Z.land_ones by lia. cbv zeta.
  pose proof (Z.mod_pos_bound v (2 ^ 16)) as Hr. set (x := v mod 2 ^ 16) in *.
  change 0x8000 with (2 ^ 15). rewrite testbit_land_pow2, negb_involutive by lia.
  rewrite testbit_high by lia. unfold sext16.
  assert (Hx : v = x + 2 ^ 16 * (v / 2 ^ 16)).
  { pose proof (Z.div_mod v (2 ^ 16)). subst x. lia. }
  destruct (2 ^ 15 <=? x) eqn:E; simplify_tests.
  - change 0xffff0000 with (65535 * 2 ^ 16). rewrite lor_add by lia.
    unfold s32. change (2 ^ 16) with 65536 in *. change (2 ^ 31) with 2147483648.
    change (2 ^ 32) with 4294967296. change (2 ^ 15) with 32768 in *.
    rewrite Hx. Z.div_mod_to_equations. lia.
  - change (2 ^ 16) with 65536 in *. change (2 ^ 15) with 32768 in *.
    rewrite Hx. Z.div_mod_to_equations. lia.
Qed.

(** The opcodes whose [extra] is a shift amount. *)
Definition is_shift (op : opcode) : bool :=
  match op with OP_SLL | OP_SRA | OP_SRL => true | _ => false end.

(** An entry of opTable names a final opcode or asks for further decoding. *)
Definition entry_ok (p : opcode * format) : bool :=
  match p with
  | (SPECIAL, RFMT) | (BCOND, IFMT) => true
  | (op, _) => handled op && negb (is_shift op)
  end.

Lemma opTable_ok : Forall (λ p, entry_ok p = true) opTable.
Proof. apply (bool_decide_eq_true_1 _). vm_compute. reflexivity. Qed.

Lemma specialTable_ok : Forall (λ o, handled o = true) specialTable.
Proof. apply (bool_decide_eq_true_1 _). vm_compute. reflexivity. Qed.

Lemma Decode_spec v :
  is_u32 v →
  ∃ i, Decode v = Done i ∧ value i = v ∧ 0 ≤ rs i < 32 ∧ 0 ≤ rt i < 32 ∧ 0 ≤ rd i < 32 ∧
    is_s32 (extra i) ∧ handled (opCode i) = true ∧
    (is_shift (opCode i) = true → 0 ≤ extra i < 32).
Proof.
  intros Hv. unfold Decode. cbv zeta.
  destruct (aget_in_range opTable (Z.land (Z.shiftr v 26) 63)) as ([op fmt] & -> & Hop);
    [apply land_63|]. cbn [mbind res_bind fst snd].
  destruct (aget_in_range specialTable (Z.land v 63)) as (sop & -> & Hsop); [apply land_63|].
  pose proof (Forall_lookup_1 _ _ _ _ opTable_ok Hop) as H1. simpl in H1.
  pose proof (Forall_lookup_1 _ _ _ _ specialTable_ok Hsop) as H2. simpl in H2.
  assert (Hex : is_s32 (match fmt with
    | IFMT => if negb (Z.land (Z.land v 65535) 32768 =? 0)
              then s32 (Z.lor (Z.land v 65535) 4294901760) else Z.land v 65535
    | RFMT => Z.land (Z.shiftr v 6) 31
    | JFMT => Z.land v 67108863 end)).
  { destruct fmt.
    - pose proof (immediate_sext v) as Hi. cbv zeta in Hi. rewrite Hi. unfold sext16.
      change (2 ^ 15) with 32768. int_lia.
    - pose proof (land_ones_range v 26). change (Z.ones 26) with 67108863 in *. int_lia.
    - pose proof (land_31 (Z.shiftr v 6)). int_lia. }
  destruct (decide (op = SPECIAL)) as [->|Hs].
  { cbn [mbind res_bind]. eexists. split; [done|]. simpl.
    repeat (split; [done || apply land_31|]). intros _. destruct fmt; try done. apply land_31. }
  destruct (decide (op = BCOND)) as [->|Hb]; cbn [mbind res_bind].
  - eexists. split; [done|]. simpl. repeat (split; [done || apply land_31|]).
    by repeat case_match.
  - eexists. split; [done|]. simpl. repeat (split; [done || apply land_31|]).
    destruct op; try done; by destruct fmt.
Qed.

(** ** Multiplication *)

Definition dword (hi lo : Z) : Z := hi * 2 ^ 32 + lo.

Lemma dword_add lo hi bLo bHi :
  is_u32 lo → is_u32 hi → is_u32 bLo → is_u32 bHi →
  let lo' := u32 (lo + bLo) in
  let hi' := u32 ((if lo' <? bLo then u32 (hi + 1) else hi) + bHi) in
  is_u32 lo' ∧ is_u32 hi' ∧ dword hi' lo' = (dword hi lo + dword bHi bLo) mod 2 ^ 64.
Proof.
  intros Hlo Hhi Hbl Hbh lo' hi'. split; [apply u32_range|]. split; [apply u32_range|].
  unfold dword. apply Z.mod_unique with ((hi + bHi + (lo + bLo) / 2 ^ 32) / 2 ^ 32).
  - left. subst hi' lo'. pose proof (u32_range (lo + bLo)).
    pose proof (u32_range ((if u32 (lo + bLo) <? bLo then u32 (hi + 1) else hi) + bHi)).
    unfold is_u32 in *. change (2 ^ 64) with (2 ^ 32 * 2 ^ 32). nia.
  - change (2 ^ 64) with 18446744073709551616. subst hi' lo'. unfold_int.
    destruct ((lo + bLo) mod 4294967296 <? bLo) eqn:E; simplify_tests; Z.div_mod_to_equations; lia.
Qed.

Lemma lor_1_even x : x mod 2 = 0 → Z.lor x 1 = x + 1.
Proof.
  intros Hx. rewrite Z.lor_comm. pose proof (Z.div_mod x 2).
  replace x with (x / 2 * 2 ^ 1) by (change (2 ^ 1) with 2; lia).
  rewrite lor_add by lia. lia.
Qed.

Lemma dword_double bLo bHi :
  is_u32 bLo → is_u32 bHi →
  let bHi' := (if negb (Z.land bLo 0x80000000 =? 0)
               then Z.lor (u32 (Z.shiftl bHi 1)) 1 else u32 (Z.shiftl bHi 1)) in
  let bLo' := u32 (Z.shiftl bLo 1) in
  is_u32 bLo' ∧ is_u32 bHi' ∧ dword bHi' bLo' = (2 * dword bHi bLo) mod 2 ^ 64.
Proof.
  intros Hl Hh. cbv zeta. change 0x80000000 with (2 ^ 31).
  rewrite testbit_land_pow2, negb_involutive by lia.
  rewrite testbit_high by (unfold is_u32 in *; change (31 + 1) with 32; lia).
  rewrite !Z.shiftl_mul_pow2 by lia. change (2 ^ 1) with 2.
  assert (Heven : u32 (bHi * 2) mod 2 = 0) by (unfold_int; Z.div_mod_to_equations; lia).
  rewrite lor_1_even by done. split; [apply u32_range|].
  assert (Hr : is_u32 (if 2 ^ 31 <=? bLo then u32 (bHi * 2) + 1 else u32 (bHi * 2))).
  { destruct (2 ^ 31 <=? bLo); unfold_int; Z.div_mod_to_equations; lia. }
  split; [done|]. unfold dword.
  apply Z.mod_unique with ((2 * bHi + (2 * bLo) / 2 ^ 32) / 2 ^ 32).
  - left. pose proof (u32_range (bLo * 2)). unfold is_u32 in *.
    change (2 ^ 64) with (2 ^ 32 * 2 ^ 32). nia.
  - change (2 ^ 64) with 18446744073709551616. unfold_int.
    destruct (2147483648 <=? bLo) eqn:E; simplify_tests; Z.div_mod_to_equations; lia.
Qed.

(** The early exit: no bit but the last is left. *)
Lemma last_bit a : is_s32 a → Z.odd a = true → Z.land (u32 a) 0xfffffffe = 0 → a = 1.
Proof.
  intros Ha Ho Hl.
  assert (Hu : u32 a / 2 = 0).
  { transitivity (Z.shiftr (Z.land (u32 a) 0xfffffffe) 1); [|by rewrite Hl].
    rewrite Z.shiftr_land. change (Z.shiftr 0xfffffffe 1) with (Z.ones 31).
    rewrite Z.land_ones, Z.shiftr_div_pow2 by lia. change (2 ^ 1) with 2.
    rewrite Z.mod_small; [done|]. pose proof (u32_range a). unfold_int. Z.div_mod_to_equations. lia. }
  pose proof (Zmod_odd a) as Hm. rewrite Ho in Hm. unfold_int. Z.div_mod_to_equations. lia.
Qed.

(** The remaining bits of [a] add the shifted multiplicand to the accumulator. *)
Lemma Mult_loop_spec n a bLo bHi lo hi :
  (n ≤ 32)%nat → is_s32 a → is_u32 bLo → is_u32 bHi → is_u32 lo → is_u32 hi →
  ∃ hi' lo', Mult_loop n a bLo bHi lo hi = (hi', lo') ∧ is_u32 hi' ∧ is_u32 lo' ∧
    dword hi' lo' = (dword hi lo + dword bHi bLo * (a mod 2 ^ Z.of_nat n)) mod 2 ^ 64.
Proof.
  revert a bLo bHi lo hi. induction n as [|n IH]; intros a bLo bHi lo hi Hn Ha Hbl Hbh Hlo Hhi.
  - exists hi, lo. split; [done|]. split; [done|]. split; [done|].
    change (2 ^ Z.of_nat 0) with 1. rewrite Z.mod_1_r, Z.mul_0_r, Z.add_0_r.
    rewrite Z.mod_small; [done|]. unfold dword, is_u32 in *. change (2 ^ 64) with (2 ^ 32 * 2 ^ 32). nia.
  - cbn [Mult_loop]. rewrite (testbit_land_pow2 a 0 (Z.le_refl 0) : (Z.land a 1 =? 0) = _).
    rewrite negb_involutive, Z.bit0_odd.
    destruct (dword_double bLo bHi Hbl Hbh) as (Hbl' & Hbh' & Hb2). cbv zeta in Hb2, Hbl', Hbh'.
    assert (Ha2 : is_s32 (Z.shiftr a 1)).
    { rewrite Z.shiftr_div_pow2 by lia. change (2 ^ 1) with 2. unfold_int. Z.div_mod_to_equations. lia. }
    assert (Hsplit : a mod 2 ^ Z.of_nat (S n) = a mod 2 + 2 * (Z.shiftr a 1 mod 2 ^ Z.of_nat n)).
    { rewrite Nat2Z.inj_succ, Z.pow_succ_r by lia. rewrite Z.rem_mul_r by lia.
      by rewrite Z.shiftr_div_pow2 by lia. }
    assert (Hstep : ∀ x y, y = (x + dword bHi bLo * (a mod 2)) mod 2 ^ 64 →
      (y + dword (if negb (Z.land bLo 0x80000000 =? 0) then Z.lor (u32 (Z.shiftl bHi 1)) 1
                   else u32 (Z.shiftl bHi 1)) (u32 (Z.shiftl bLo 1)) *
            (Z.shiftr a 1 mod 2 ^ Z.of_nat n)) mod 2 ^ 64 =
      (x + dword bHi bLo * (a mod 2 ^ Z.of_nat (S n))) mod 2 ^ 64).
    { intros x y ->. rewrite Hb2, Hsplit. rewrite Z.add_mod_idemp_l by lia.
      rewrite <- (Z.add_mod_idemp_r _ (((2 * dword bHi bLo) mod 2 ^ 64) * _)) by lia.
      rewrite Z.mul_mod_idemp_l by lia. rewrite Z.add_mod_idemp_r by lia. f_equal. ring. }
    rewrite Zmod_odd in Hstep. destruct (Z.odd a) eqn:Eodd.
    + destruct (dword_add lo hi bLo bHi Hlo Hhi Hbl Hbh) as (Hlo' & Hhi' & Hsum). cbv zeta in *.
      destruct (Z.land (u32 a) 0xfffffffe =? 0) eqn:Ebr.
      * eexists _, _. split; [done|]. split; [done|]. split; [done|].
        rewrite Hsum. f_equal. f_equal.
        simplify_tests. rewrite (last_bit a Ha Eodd Ebr), Z.mod_small; [lia|].
        split; [lia|]. apply Z.pow_gt_1; lia.
      * destruct (IH (Z.shiftr a 1) _ _ _ _ ltac:(lia) Ha2 Hbl' Hbh' Hlo' Hhi')
          as (h & l & -> & H1 & H2 & H3).
        exists h, l. split; [done|]. split; [done|]. split; [done|].
        rewrite H3. apply Hstep. rewrite Hsum. f_equal. lia.
    + destruct (IH (Z.shiftr a 1) _ _ lo hi ltac:(lia) Ha2 Hbl' Hbh' Hlo Hhi)
        as (h & l & -> & H1 & H2 & H3).
      exists h, l. split; [done|]. split; [done|]. split; [done|].
      rewrite H3. apply Hstep. rewrite Z.mul_0_r, Z.add_0_r.
      rewrite Z.mod_small; [done|]. unfold dword, is_u32 in *. change (2 ^ 64) with (2 ^ 32 * 2 ^ 32). nia.
Qed.

Lemma Mult_unsigned_loop a b :
  is_s32 a → is_s32 b →
  ∃ hi lo, Mult_loop 32 a (u32 b) 0 0 0 = (hi, lo) ∧ is_u32 hi ∧ is_u32 lo ∧
    dword hi lo = u32 a * u32 b.
Proof.
  intros Ha Hb. assert (Hz : is_u32 0) by (unfold_int; lia).
  destruct (Mult_loop_spec 32 a (u32 b) 0 0 0) as (hi & lo & -> & Hhi & Hlo & Hd);
    [lia|done|apply u32_range|done|done|done|].
  exists hi, lo. split; [done|]. split; [done|]. split; [done|]. rewrite Hd.
  change (2 ^ Z.of_nat 32) with (2 ^ 32). change (a mod 2 ^ 32) with (u32 a). unfold dword.
  rewrite !Z.mul_0_l, !Z.add_0_l. pose proof (u32_range a). pose proof (u32_range b).
  rewrite Z.mod_small; [lia|]. unfold is_u32 in *. change (2 ^ 64) with (2 ^ 32 * 2 ^ 32). nia.
Qed.

Lemma lnot_eq z : Z.lnot z = - z - 1.
Proof. unfold Z.lnot. lia. Qed.

(** The two's complement of a double word. *)
Lemma dword_neg hi lo :
  is_u32 hi → is_u32 lo → 0 < dword hi lo →
  let lo' := u32 (u32 (Z.lnot lo) + 1) in
  let hi' := if lo' =? 0 then u32 (u32 (Z.lnot hi) + 1) else u32 (Z.lnot hi) in
  is_u32 hi' ∧ is_u32 lo' ∧ dword hi' lo' = 2 ^ 64 - dword hi lo.
Proof.
  intros Hhi Hlo Hp lo' hi'.
  split; [subst hi'; destruct (lo' =? 0); apply u32_range|]. split; [apply u32_range|].
  unfold dword in *. subst hi' lo'. rewrite !lnot_eq. change (2 ^ 64) with 18446744073709551616. unfold_int.
  destruct (_ =? 0) eqn:E; simplify_tests; Z.div_mod_to_equations; lia.
Qed.

(** The signed value of a double word. *)
Lemma dword_signed hi lo p :
  is_u32 hi → is_u32 lo → - 2 ^ 63 ≤ p < 2 ^ 63 → dword hi lo = p mod 2 ^ 64 →
  s32 hi * 2 ^ 32 + u32 (s32 lo) = p.
Proof.
  intros Hhi Hlo Hp Hd. rewrite u32_s32, (u32_id lo) by done. unfold dword in Hd.
  change (2 ^ 64) with 18446744073709551616 in *. change (2 ^ 63) with 9223372036854775808 in *.
  unfold_int. Z.div_mod_to_equations. lia.
Qed.

Lemma Mult_signed a b :
  is_s32 a → is_s32 b →
  let '(hi, lo) := Mult a b true in hi * 2 ^ 32 + u32 lo = a * b.
Proof.
  intros Ha Hb. unfold Mult. destruct ((a =? 0) || (b =? 0)) eqn:Ez.
  { apply orb_true_iff in Ez as [->%Z.eqb_eq| ->%Z.eqb_eq]; change (u32 0) with 0; lia. }
  simplify_tests. cbn [andb].
  set (a' := if a <? 0 then s32 (- a) else a). set (b' := if b <? 0 then s32 (- b) else b).
  assert (Ha' : is_s32 a' ∧ u32 a' = Z.abs a).
  { subst a'. destruct (a <? 0) eqn:E; simplify_tests; int_lia. }
  assert (Hb' : is_s32 b' ∧ u32 b' = Z.abs b).
  { subst b'. destruct (b <? 0) eqn:E; simplify_tests; int_lia. }
  destruct Ha' as [Ha' Hau], Hb' as [Hb' Hbu].
  destruct (Mult_unsigned_loop a' b' Ha' Hb') as (hi & lo & HL & Hhi & Hlo & Hd).
  rewrite Hau, Hbu in Hd.
  assert (Hbound : 0 < Z.abs a * Z.abs b ≤ 2 ^ 62).
  { change (2 ^ 62) with (2 ^ 31 * 2 ^ 31). unfold_int. nia. }
  destruct (dword_neg hi lo Hhi Hlo) as (Hnh & Hnl & Hnd); [lia|]. cbv zeta in *.
  change (2 ^ 62) with 4611686018427387904 in *.
  assert (Hna : (if a <? 0 then (negb false, s32 (- a)) else (false, a)) = (a <? 0, a'))
    by (subst a'; by destruct (a <? 0)).
  assert (Hnb : (if b <? 0 then (negb (a <? 0), s32 (- b)) else (a <? 0, b))
                = (xorb (a <? 0) (b <? 0), b')).
  { subst b'. by destruct (a <? 0), (b <? 0). }
  rewrite Hna. cbv beta iota. rewrite Hnb. cbv beta iota. rewrite HL. cbv beta iota.
  clear HL Hna Hnb a' b' Ha' Hb' Hau Hbu.
  destruct (a <? 0) eqn:Ea, (b <? 0) eqn:Eb; cbn [xorb negb]; cbv beta iota; simplify_tests.
  - apply dword_signed; [done|done| |rewrite Z.mod_small]; lia.
  - apply dword_signed; [done|done|lia|]. rewrite Hnd, Hd.
    apply (Z.mod_unique _ _ (-1)); change (2 ^ 64) with 18446744073709551616; lia.
  - apply dword_signed; [done|done|lia|]. rewrite Hnd, Hd.
    apply (Z.mod_unique _ _ (-1)); change (2 ^ 64) with 18446744073709551616; lia.
  - apply dword_signed; [done|done| |rewrite Z.mod_small]; lia.
Qed.

Lemma Mult_unsigned a b :
  is_s32 a → is_s32 b →
  let '(hi, lo) := Mult a b false in u32 hi * 2 ^ 32 + u32 lo = u32 a * u32 b.
Proof.
  intros Ha Hb. unfold Mult. destruct ((a =? 0) || (b =? 0)) eqn:Ez.
  { apply orb_true_iff in Ez as [->%Z.eqb_eq| ->%Z.eqb_eq]; change (u32 0) with 0; lia. }
  cbn [andb]. destruct (Mult_unsigned_loop a b Ha Hb) as (hi & lo & -> & Hhi & Hlo & Hd).
  rewrite !u32_s32, !u32_id by done. exact Hd.
Qed.

(** ** Words and their signed readings *)

Lemma s32_shiftr z : is_s32 z ↔ Z.shiftr z 31 = 0 ∨ Z.shiftr z 31 = -1.
Proof. rewrite Z.shiftr_div_pow2 by lia. unfold_int. Z.div_mod_to_equations. lia. Qed.

Lemma land_s32 a b : is_s32 a → is_s32 b → is_s32 (Z.land a b).
Proof.
  rewrite !s32_shiftr, Z.shiftr_land. intros [-> | ->] [-> | ->]; cbn; auto.
Qed.
Lemma lor_s32 a b : is_s32 a → is_s32 b → is_s32 (Z.lor a b).
Proof.
  rewrite !s32_shiftr, Z.shiftr_lor. intros [-> | ->] [-> | ->]; cbn; auto.
Qed.
Lemma lxor_s32 a b : is_s32 a → is_s32 b → is_s32 (Z.lxor a b).
Proof.
  rewrite !s32_shiftr, Z.shiftr_lxor. intros [-> | ->] [-> | ->]; cbn; auto.
Qed.
Lemma lnot_s32 a : is_s32 a → is_s32 (Z.lnot a).
Proof. rewrite lnot_eq. int_lia. Qed.
Lemma shiftr_s32 a n : 0 ≤ n → is_s32 a → is_s32 (Z.shiftr a n).
Proof.
  intros Hn. rewrite Z.shiftr_div_pow2 by done. unfold_int. intros Ha.
  assert (0 < 2 ^ n) by lia. split; [apply Z.div_le_lower_bound|apply Z.div_le_upper_bound]; nia.
Qed.

Lemma sign_bit z : is_s32 z → Z.testbit z 31 = (z <? 0).
Proof.
  intros Hz. rewrite Z.testbit_odd. apply s32_shiftr in Hz as Hs.
  rewrite Z.shiftr_div_pow2 in * by lia.
  destruct (z <? 0) eqn:E; simplify_tests; destruct Hs as [Hs|Hs]; rewrite Hs; try done;
    unfold_int; Z.div_mod_to_equations; lia.
Qed.

Lemma sign_set_testbit x : sign_set x = Z.testbit x 31.
Proof.
  unfold sign_set, SIGN_BIT. change 0x80000000 with (2 ^ 31).
  rewrite testbit_land_pow2, negb_involutive, u32_testbit by lia. done.
Qed.

Lemma sign_set_spec x : is_s32 x → sign_set x = (x <? 0).
Proof. intros. rewrite sign_set_testbit. by apply sign_bit. Qed.

Lemma sign_set_lxor a b : is_s32 a → is_s32 b → sign_set (Z.lxor a b) = xorb (a <? 0) (b <? 0).
Proof. intros. by rewrite sign_set_testbit, Z.lxor_spec, !sign_bit. Qed.

(** The overflow tests of ADD and SUB are exact. *)
Lemma add_overflow_test a b :
  is_s32 a → is_s32 b →
  (negb (sign_set (Z.lxor a b)) && sign_set (Z.lxor a (s32 (a + b)))) = true ↔ ¬ is_s32 (a + b).
Proof.
  intros Ha Hb. rewrite !sign_set_lxor by auto using s32_range.
  pose proof (s32_range (a + b)) as Hr. destruct (s32_eq_mod (a + b)) as [j Hj].
  destruct (a <? 0) eqn:E1, (b <? 0) eqn:E2, (s32 (a + b) <? 0) eqn:E3; simplify_tests; cbn;
    unfold is_s32, INT_MIN, INT_MAX in *; change (2 ^ 32) with 4294967296 in *;
    change (2 ^ 31) with 2147483648 in *; split; intros; try done; try lia.
Qed.

Lemma sub_overflow_test a b :
  is_s32 a → is_s32 b →
  (sign_set (Z.lxor a b) && sign_set (Z.lxor a (s32 (a - b)))) = true ↔ ¬ is_s32 (a - b).
Proof.
  intros Ha Hb. rewrite !sign_set_lxor by auto using s32_range.
  pose proof (s32_range (a - b)) as Hr. destruct (s32_eq_mod (a - b)) as [j Hj].
  destruct (a <? 0) eqn:E1, (b <? 0) eqn:E2, (s32 (a - b) <? 0) eqn:E3; simplify_tests; cbn;
    unfold is_s32, INT_MIN, INT_MAX in *; change (2 ^ 32) with 4294967296 in *;
    change (2 ^ 31) with 2147483648 in *; split; intros; try done; try lia.
Qed.

Lemma u32_land a b : u32 (Z.land a b) = Z.land (u32 a) (u32 b).
Proof.
  apply Z.bits_inj'. intros i Hi. rewrite Z.land_spec, !u32_testbit, Z.land_spec by done.
  by destruct (bool_decide (i < 32)).
Qed.
Lemma u32_lor a b : u32 (Z.lor a b) = Z.lor (u32 a) (u32 b).
Proof.
  apply Z.bits_inj'. intros i Hi. rewrite Z.lor_spec, !u32_testbit, Z.lor_spec by done.
  by destruct (bool_decide (i < 32)).
Qed.
Lemma u32_lxor a b : u32 (Z.lxor a b) = Z.lxor (u32 a) (u32 b).
Proof.
  apply Z.bits_inj'. intros i Hi. rewrite Z.lxor_spec, !u32_testbit, Z.lxor_spec by done.
  by destruct (bool_decide (i < 32)).
Qed.

Lemma land_mask_s32 v n : 0 ≤ n ≤ 31 → is_s32 (Z.land v (Z.ones n)).
Proof.
  intros Hn. pose proof (land_ones_range v n) as Hr.
  assert (2 ^ n ≤ 2 ^ 31) by (apply Z.pow_le_mono_r; lia). unfold_int. lia.
Qed.

End Mips.
