(* ===== verification/MipsSpec.v ===== *)
(** MipsSpec: what the MIPS interpreter of Mips.v guarantees.

    The exception handler of the kernel is a parameter; [handler_ok] is the one
    thing the theorems need of it, that it returns and keeps the machine well
    formed.  Shown here: one instruction never leaves the defined behaviour
    except for two kinds of instructions that are named, every word is decoded to the
    operation that the tables of the architecture give it (they are written here group
    by group, apart from those of the code), arithmetic agrees with the architecture,
    and the overflow traps are exact. *)

From S2P Require Import Prelude Machine Mips.

Module MipsSpec.
Import Machine Mips.

Section spec.
Context (be : bool) {K : Type} (setStatus : MachineStatus → K → K).
Context (ExceptionHandler : ExceptionType → K → t → res (K * t)).

Abbreviation ReadMem := (Machine.ReadMem be setStatus ExceptionHandler).
Abbreviation WriteMem := (Machine.WriteMem be setStatus ExceptionHandler).
Abbreviation trap := (Mips.trap setStatus ExceptionHandler).

(** The kernel returns from an exception with a well-formed machine. *)
Definition handler_ok : Prop :=
  ∀ x k m, inv0 m → ∃ k' m', ExceptionHandler x k m = Done (k', m') ∧ inv0 m'.

Context (Hh : handler_ok).

Definition flow_ok (r : res (flow K)) : Prop :=
  match r with
  | Done (Returned k m) => inv0 m
  | Done (Continue k m lr lv pc) => inv m ∧ 0 ≤ lr < NumGPRegs ∧ is_s32 lv ∧ is_s32 pc
  | _ => False
  end.

Lemma RaiseException_ok x a k m :
  inv m → is_s32 a →
  ∃ k' m', RaiseException setStatus ExceptionHandler x a k m = Done (k', m') ∧ inv0 m'.
Proof.
  intros Hi Ha. unfold RaiseException.
  destruct (DelayedLoad_spec (set_reg m BadVAddrReg a) 0 0) as (m1 & -> & Hi1 & _);
    [by apply inv_set_reg|unfold NumGPRegs; lia|unfold_int; lia|].
  cbn [mbind res_bind]. destruct (Hh x (setStatus SystemMode k) m1 Hi1) as (k2 & m2 & -> & Hi2).
  cbn [mbind res_bind]. eauto.
Qed.

Lemma trap_ok x a k m : inv m → is_s32 a → flow_ok (trap x a k m).
Proof.
  intros Hi Ha. unfold Mips.trap. destruct (RaiseException_ok x a k m Hi Ha) as (k' & m' & -> & H). done.
Qed.

Lemma inv_registers m m' :
  inv m → mainMemory m' = mainMemory m → registers m' = registers m → mmu_ok m' → inv m'.
Proof. intros [Hw _] Hm Hr Hok. split; [|done]. by eapply FlatMemory.wf_same. Qed.

(** A read returns: FALSE after the handler ran, or a value. *)
Lemma ReadMem_ok a size k m :
  inv m → is_s32 a → good_size size = true →
  ∃ r k' m', ReadMem a size k m = Done (r, k', m') ∧
    match r with
    | None => inv0 m'
    | Some v => inv m' ∧ is_s32 v ∧ registers m' = registers m ∧ k' = k
    end.
Proof.
  intros Hi Ha Hs. pose proof Hi as [Hw Hm]. pose proof (Translate_spec m a size false Hm Hs) as HT.
  unfold Machine.ReadMem. destruct (phys m a size false) as [x|pa].
  - destruct HT as [Hx ->]. cbn [mbind res_bind]. rewrite decide_True by done.
    destruct (RaiseException_ok x a k m Hi Ha) as (k' & m' & -> & H). cbn. eauto.
  - destruct HT as (H0 & Hle & m' & -> & Hmem & Hregs & Hok & _).
    cbn [mbind res_bind]. rewrite decide_False by naive_solver.
    assert (Hi' : inv m') by (by eapply inv_registers).
    pose proof (wf_mem_length _ (proj1 Hi')) as Hl.
    destruct (FlatMemory.good_size_cases size Hs) as [->|[->| ->]]; cbn [Z.eqb Pos.eqb].
    + destruct (aget_in_range (mainMemory m') pa) as (v & -> & _); [lia|]. cbn.
      eexists _, _, _. split; [done|]. split; [done|]. split; [int_lia|done].
    + rewrite slice_in_range by lia. cbn [mbind res_bind].
      set (bs := take _ _). assert (Hb : Forall is_byte bs) by (apply Forall_take, Forall_drop, Hi').
      assert (Hlen : length bs = 2%nat) by (unfold bs; rewrite length_take, length_drop; lia).
      eexists _, _, _. split; [done|]. split; [done|]. split; [|done].
      rewrite load_short by done. pose proof (word_of_range bs Hb) as Hr. rewrite Hlen in Hr.
      change (256 ^ Z.of_nat 2) with 65536 in Hr. unfold_int. lia.
    + rewrite slice_in_range by lia. cbn [mbind res_bind].
      eexists _, _, _. split; [done|]. split; [done|]. split; [apply s32_range|done].
Qed.

Lemma WriteMem_ok a size v k m :
  inv m → is_s32 a → good_size size = true →
  ∃ ok k' m', WriteMem a size v k m = Done (ok, k', m') ∧
    if (ok : bool) then inv m' ∧ registers m' = registers m ∧ k' = k else inv0 m'.
Proof.
  intros Hi Ha Hs. pose proof Hi as [Hw Hm]. pose proof (Translate_spec m a size true Hm Hs) as HT.
  unfold Machine.WriteMem. destruct (phys m a size true) as [x|pa].
  - destruct HT as [Hx ->]. cbn [mbind res_bind]. rewrite decide_True by done.
    destruct (RaiseException_ok x a k m Hi Ha) as (k' & m' & -> & H). cbn. by eexists false, _, _.
  - destruct HT as (H0 & Hle & m' & -> & Hmem & Hregs & Hok & _).
    cbn [mbind res_bind]. rewrite decide_False by naive_solver.
    assert (Hi' : inv m') by (by eapply inv_registers).
    pose proof (wf_mem_length _ (proj1 Hi')) as Hl.
    assert (Hblit : ∀ bs, Z.of_nat (length bs) = size → Forall is_byte bs →
      ∃ mem, blit (mainMemory m') pa bs = Done mem ∧ inv (set_mainMemory m' mem)).
    { intros bs Hbl Hbb. eexists. rewrite blit_in_range by lia. split; [done|].
      split; [|done]. apply FlatMemory.wf_set_mem; [apply Hi'|..].
      - rewrite !length_app, length_take, length_drop. lia.
      - apply Forall_app. split; [apply Forall_take, Hi'|]. apply Forall_app.
        split; [done|apply Forall_drop, Hi']. }
    destruct (FlatMemory.good_size_cases size Hs) as [->|[->| ->]]; cbn [Z.eqb Pos.eqb].
    + rewrite aset_blit. destruct (Hblit [Z.land v 255]) as (mem & -> & Hi2).
      * done.
      * constructor; [|done]. pose proof (land_ones_range v 8). unfold is_byte.
        change (Z.ones 8) with 255 in *. lia.
      * by eexists true, _, _.
    + destruct (Hblit (host_bytes be 2 (ShortToMachine be (Z.land v 0xffff)))) as (mem & -> & Hi2).
      * pose proof (land_ones_range v 16). change (Z.ones 16) with 65535 in *.
        rewrite store_short by lia. by rewrite bytes_of_length.
      * pose proof (land_ones_range v 16). change (Z.ones 16) with 65535 in *.
        rewrite store_short by lia. apply bytes_of_bytes.
      * by eexists true, _, _.
    + destruct (Hblit (host_bytes be 4 (WordToMachine be (u32 v)))) as (mem & -> & Hi2).
      * rewrite store_word by apply u32_range. by rewrite bytes_of_length.
      * rewrite store_word by apply u32_range. apply bytes_of_bytes.
      * by eexists true, _, _.
Qed.

(** The fields of a decoded instruction. *)
Definition instr_ok (i : Instruction) : Prop :=
  0 ≤ rs i < 32 ∧ 0 ≤ rt i < 32 ∧ 0 ≤ rd i < 32 ∧ is_s32 (extra i).

(** The two kinds of instructions the interpreter cannot execute: an unaligned
    LWL, LWR, SWL or SWR fails an ASSERT, and INT_MIN / -1 traps on the host. *)
Definition hazard (i : Instruction) (m : t) : bool :=
  match opCode i with
  | OP_LWL | OP_LWR | OP_SWL | OP_SWR => negb (Z.land (s32 (reg m (rs i) + extra i)) 3 =? 0)
  | OP_DIV => (reg m (rs i) =? INT_MIN) && (reg m (rt i) =? -1)
  | _ => false
  end.

Lemma assign_ok (k : K) m r v pc :
  inv m → 0 ≤ r < LoadReg → is_s32 v → is_s32 pc → flow_ok (assign k m r v pc).
Proof.
  intros Hi Hr Hv Hpc. cbn. split; [apply inv_set_reg; [done|lia|lia|done]|].
  split; [unfold NumGPRegs; lia|]. split; [unfold_int; lia|done].
Qed.

Lemma continue_ok (k : K) m pc : inv m → is_s32 pc → flow_ok (Done (Continue k m 0 0 pc)).
Proof.
  intros Hi Hpc. cbn. split; [done|]. split; [unfold NumGPRegs; lia|]. split; [unfold_int; lia|done].
Qed.

Lemma small_s32 z : 0 ≤ z < 2 ^ 31 → is_s32 z.
Proof. unfold_int. lia. Qed.

Lemma land_s32_ones v n : 0 ≤ n ≤ 31 → 0 ≤ Z.land v (Z.ones n) ∧ is_s32 (Z.land v (Z.ones n)).
Proof. intros. split; [apply land_ones_range; lia|by apply land_mask_s32]. Qed.

Lemma land_lo8 v : is_s32 (Z.land v 0xff).
Proof. apply (land_mask_s32 v 8). lia. Qed.
Lemma land_lo16 v : is_s32 (Z.land v 0xffff).
Proof. apply (land_mask_s32 v 16). lia. Qed.
Lemma land_lo24 v : is_s32 (Z.land v 0xffffff).
Proof. apply (land_mask_s32 v 24). lia. Qed.
Lemma bool_s32 (b : bool) : is_s32 (if b then 1 else 0).
Proof. destruct b; unfold_int; lia. Qed.
Lemma zero_s32 : is_s32 0.
Proof. unfold_int. lia. Qed.

Lemma quot_s32 a b :
  is_s32 a → is_s32 b → b ≠ 0 → (a =? INT_MIN) && (b =? -1) = false →
  is_s32 (cdiv a b) ∧ is_s32 (cmod a b).
Proof.
  intros Ha Hb Hn Ho. unfold cdiv, cmod.
  pose proof (Z.quot_rem a b Hn) as Hq. pose proof (Z.rem_bound_abs a b Hn) as Hr.
  split.
  - destruct (decide (Z.abs b = 1)) as [Hb1|Hb1].
    + assert (b = 1 ∨ b = -1) as [->| ->] by lia.
      * by rewrite Z.quot_1_r.
      * rewrite andb_true_r in Ho. simplify_tests. change (-1) with (- (1)).
        rewrite Z.quot_opp_r, Z.quot_1_r by done. unfold_int. lia.
    + assert (Hq3 : 2 * Z.abs (Z.quot a b) ≤ Z.abs a).
      { rewrite <- Z.quot_abs by done.
        pose proof (Z.mul_quot_le (Z.abs a) (Z.abs b)). nia. }
      unfold_int. lia.
  - unfold_int. lia.
Qed.

#[local] Hint Resolve s32_range land_s32 lor_s32 lxor_s32 lnot_s32 land_lo8 land_lo16 land_lo24
  bool_s32 zero_s32 reg_s32 : nachos.

Ltac field := unfold LoadReg, NumGPRegs, R31, HiReg, LoReg in *; lia.

Section cases.
Context (i : Instruction) (k : K) (m : t) (pc : Z).
Context (Hi : inv m) (Hf : instr_ok i) (Hpc : is_s32 pc).

Lemma reg_ok r : is_s32 (reg m r).
Proof. apply reg_s32, Hi. Qed.
#[local] Hint Resolve reg_ok : nachos.

Lemma exec_alu_ok :
  flow_ok (exec_ADD setStatus ExceptionHandler i k m pc) ∧
  flow_ok (exec_ADDI setStatus ExceptionHandler i k m pc) ∧
  flow_ok (exec_SUB setStatus ExceptionHandler i k m pc) ∧
  flow_ok (exec_LUI i k m pc) ∧ flow_ok (exec_OR i k m pc) ∧ flow_ok (exec_XOR i k m pc) ∧
  flow_ok (exec_SLL i k m pc) ∧ flow_ok (exec_SLT i k m pc).
Proof.
  destruct Hf as (H1 & H2 & H3 & H4).
  split; [|split; [|split; [|split; [|split; [|split; [|split]]]]]].
  - unfold exec_ADD. case_match; [apply trap_ok|apply assign_ok]; auto with nachos; field.
  - unfold exec_ADDI. case_match; [apply trap_ok|apply assign_ok]; auto with nachos; field.
  - unfold exec_SUB. repeat case_match; first [apply trap_ok|apply assign_ok]; auto with nachos; field.
  - apply assign_ok; auto with nachos; field.
  - unfold exec_OR. repeat case_match; apply assign_ok; auto with nachos; field.
  - unfold exec_XOR. repeat case_match; apply assign_ok; auto with nachos; field.
  - unfold exec_SLL. repeat case_match; apply assign_ok; auto with nachos; field.
  - unfold exec_SLT. repeat case_match; apply assign_ok; auto with nachos; field.
Qed.

Lemma exec_ADDU_AND_ok :
  opCode i = OP_ADDIU ∨ opCode i = OP_ADDU ∨ opCode i = OP_AND ∨ opCode i = OP_ANDI →
  flow_ok (exec_ADDU_AND i k m pc).
Proof.
  destruct Hf as (H1 & H2 & H3 & H4). unfold exec_ADDU_AND.
  intros [-> |[-> |[-> | ->]]]; apply assign_ok; auto with nachos; field.
Qed.

Lemma exec_branch_ok : flow_ok (exec_branch i k m pc).
Proof.
  unfold exec_branch. apply continue_ok.
  - case_match; try done; apply inv_set_reg; auto with nachos; field.
  - case_match; auto with nachos.
Qed.

Lemma exec_jump_ok : flow_ok (exec_jump i k m pc).
Proof.
  destruct Hf as (H1 & H2 & H3 & H4).
  assert (Hi1 : inv (set_reg m R31 (s32 (reg m NextPCReg + 4)))) by (apply inv_set_reg; auto with nachos; field).
  assert (Hi2 : inv (set_reg m (rd i) (s32 (reg m NextPCReg + 4)))) by (apply inv_set_reg; auto with nachos; field).
  unfold exec_jump. destruct (opCode i); apply continue_ok; auto with nachos; apply reg_s32; first [apply Hi2|apply Hi].
Qed.

Lemma exec_DIV_ok : hazard i m = false → opCode i = OP_DIV ∨ opCode i = OP_DIVU → flow_ok (exec_DIV i k m pc).
Proof.
  unfold hazard, exec_DIV. destruct Hf as (H1 & H2 & H3 & H4).
  assert (Hset : ∀ a b, is_s32 a → is_s32 b → inv (set_reg (set_reg m LoReg a) HiReg b)).
  { intros a b Ha Hb. apply inv_set_reg; [|field|field|done]. apply inv_set_reg; [done|field|field|done]. }
  intros Hz [Ho|Ho]; rewrite Ho in *.
  - destruct (reg m (rt i) =? 0) eqn:E0; simplify_tests; [apply continue_ok; auto with nachos|].
    rewrite Hz. apply continue_ok; [|done].
    rewrite !(reg_set_reg_ne _ LoReg) by field.
    destruct (quot_s32 (reg m (rs i)) (reg m (rt i))); auto with nachos.
  - destruct (u32 (reg m (rt i)) =? 0); apply continue_ok; auto with nachos.
Qed.

Lemma exec_HiLo_ok : flow_ok (exec_HiLo i k m pc).
Proof.
  destruct Hf as (H1 & H2 & H3 & H4).
  assert (Hset : ∀ a b, is_s32 a → is_s32 b → inv (set_reg (set_reg m HiReg a) LoReg b)).
  { intros a b Ha Hb. apply inv_set_reg; [|field|field|done]. apply inv_set_reg; [done|field|field|done]. }
  assert (Hm : ∀ x y s, is_s32 (Mult x y s).1 ∧ is_s32 (Mult x y s).2).
  { intros x y s. unfold Mult. destruct ((x =? 0) || (y =? 0)); [cbn; auto with nachos|].
    repeat (match goal with |- context [let '(_, _) := ?p in _] => destruct p end).
    cbn [fst snd]. auto with nachos. }
  unfold exec_HiLo. destruct (opCode i); try (apply assign_ok; auto with nachos; field);
  (match goal with |- context [Mult ?x ?y ?s] => pose proof (Hm x y s); destruct (Mult x y s) end;
   cbn [fst snd] in *; apply continue_ok; naive_solver).
Qed.

Lemma exec_SR_ok : opCode i ≠ OP_SRA ∨ 0 ≤ extra i → opCode i ≠ OP_SRL ∨ 0 ≤ extra i → flow_ok (exec_SR i k m pc).
Proof.
  destruct Hf as (H1 & H2 & H3 & H4). intros Ha Hb. unfold exec_SR.
  assert (Hs : ∀ v n, is_s32 v → is_s32 (Z.shiftr v (Z.land n 0x1f))).
  { intros v n Hv. apply shiftr_s32; [apply land_31|done]. }
  destruct (opCode i); apply assign_ok; auto with nachos; try field;
    apply shiftr_s32; auto with nachos; naive_solver.
Qed.

(** The loads: the value read, adjusted, in the delay slot. *)
Lemma load_ok a size (f : t → Z → Z) :
  is_s32 a → good_size size = true →
  (∀ m' v, inv m' → registers m' = registers m → is_s32 v → is_s32 (f m' v)) →
  flow_ok ('(r, k, m) ← ReadMem a size k m;
           match r with
           | None => Done (Returned k m)
           | Some v => Done (Continue k m (rt i) (f m v) pc)
           end).
Proof.
  intros Ha Hs Hfv. destruct Hf as (H1 & H2 & H3 & H4).
  destruct (ReadMem_ok a size k m Hi Ha Hs) as (r & k' & m' & -> & Hr). cbn [mbind res_bind].
  destruct r as [v|]; [|done]. destruct Hr as (Hi' & Hv & Hregs & _).
  cbn. split; [done|]. split; [field|]. split; [by apply Hfv|done].
Qed.

Lemma pending_s32 m' r : inv m' → is_s32 (pending m' r).
Proof. intros [Hw _]. unfold pending. case_match; by apply reg_s32. Qed.

Lemma exec_loads_ok :
  flow_ok (exec_LB be setStatus ExceptionHandler i k m pc) ∧
  flow_ok (exec_LH be setStatus ExceptionHandler i k m pc) ∧
  flow_ok (exec_LW be setStatus ExceptionHandler i k m pc).
Proof.
  split; [|split].
  - apply (load_ok _ 1 (λ _ v, if negb (Z.land v 0x80 =? 0) && bool_decide (opCode i = OP_LB)
      then s32 (Z.lor (u32 v) 0xffffff00) else Z.land v 0xff)); [apply s32_range|done|].
    intros m' v _ _ Hv. case_match; auto with nachos.
  - unfold exec_LH. case_match; [apply trap_ok; auto with nachos|].
    apply (load_ok _ 2 (λ _ v, if negb (Z.land v 0x8000 =? 0) && bool_decide (opCode i = OP_LH)
      then s32 (Z.lor (u32 v) 0xffff0000) else Z.land v 0xffff)); [apply s32_range|done|].
    intros m' v _ _ Hv. case_match; auto with nachos.
  - unfold exec_LW. case_match; [apply trap_ok; auto with nachos|].
    apply (load_ok _ 4 (λ _ v, v)); [apply s32_range|done|]. done.
Qed.

Lemma exec_LWLR_ok :
  Z.land (s32 (reg m (rs i) + extra i)) 3 = 0 →
  flow_ok (exec_LWL be setStatus ExceptionHandler i k m pc) ∧
  flow_ok (exec_LWR be setStatus ExceptionHandler i k m pc).
Proof.
  intros Hal. unfold exec_LWL, exec_LWR. rewrite Hal. cbn [Z.eqb ASSERT mbind res_bind]. split.
  - apply (load_ok _ 4 (λ _ v, v)); [apply s32_range|done|done].
  - apply (load_ok _ 4 (λ m v, s32 (Z.lor (Z.land (u32 (pending m (rt i))) 0xffffff00)
      (Z.land (Z.shiftr v 24) 0xff)))); [apply s32_range|done|]. auto with nachos.
Qed.

Lemma store_ok size : good_size size = true → flow_ok (store be setStatus ExceptionHandler size i k m pc).
Proof.
  intros Hs. unfold store.
  destruct (WriteMem_ok (s32 (u32 (reg m (rs i) + extra i))) size (reg m (rt i)) k m Hi (s32_range _) Hs)
    as (ok & k' & m' & -> & Hr). cbn [mbind res_bind].
  destruct ok; [|done]. apply continue_ok; [apply Hr|done].
Qed.

Lemma exec_SWLR_ok :
  Z.land (s32 (reg m (rs i) + extra i)) 3 = 0 →
  flow_ok (exec_SWL be setStatus ExceptionHandler i k m pc) ∧
  flow_ok (exec_SWR be setStatus ExceptionHandler i k m pc).
Proof.
  intros Hal. unfold exec_SWL, exec_SWR. rewrite Hal. cbn [Z.eqb ASSERT mbind res_bind].
  assert (Ha : is_s32 (Z.land (s32 (reg m (rs i) + extra i)) (Z.lnot 3))).
  { apply land_s32; [apply s32_range|]. apply lnot_s32. unfold_int. lia. }
  destruct (ReadMem_ok _ 4 k m Hi Ha eq_refl) as (r & k' & m' & -> & Hr). cbn [mbind res_bind].
  destruct r as [v|]; [|done]. destruct Hr as (Hi' & Hv & Hregs & _). split.
  - destruct (WriteMem_ok _ 4 (reg m' (rt i)) k' m' Hi' Ha eq_refl) as (ok & k2 & m2 & -> & Hw).
    cbn [mbind res_bind]. destruct ok; [|done]. apply continue_ok; [apply Hw|done].
  - destruct (WriteMem_ok _ 4 (Z.lor (Z.land v 0xffffff) (s32 (Z.shiftl (reg m' (rt i)) 24))) k' m' Hi' Ha eq_refl)
      as (ok & k2 & m2 & -> & Hw).
    cbn [mbind res_bind]. destruct ok; [|done]. apply continue_ok; [apply Hw|done].
Qed.

(** A shift amount decoded from an instruction is not negative. *)
Definition shamt_ok : Prop := opCode i = OP_SRA ∨ opCode i = OP_SRL → 0 ≤ extra i.

Lemma execute_ok :
  handled (opCode i) = true → shamt_ok → hazard i m = false →
  flow_ok (execute be setStatus ExceptionHandler i k m pc).
Proof.
  intros Hop Hsh Hz. unfold execute.
  destruct exec_alu_ok as (A1 & A2 & A3 & A4 & A5 & A6 & A7 & A8).
  destruct exec_loads_ok as (L1 & L2 & L3).
  pose proof exec_branch_ok. pose proof exec_jump_ok. pose proof exec_HiLo_ok.
  assert (T1 : flow_ok (trap SyscallException 0 k m)) by (apply trap_ok; auto with nachos).
  assert (T2 : flow_ok (trap IllegalInstrException 0 k m)) by (apply trap_ok; auto with nachos).
  destruct (opCode i) eqn:E; try done; try (apply exec_ADDU_AND_ok; by auto);
    try (apply exec_DIV_ok; by auto);
    try (apply exec_SR_ok; rewrite E; by auto using or_introl, or_intror);
    try (unfold exec_SB_SH, exec_SW; rewrite ?E; by apply store_ok);
    unfold hazard in Hz; rewrite E in Hz; apply negb_false_iff, Z.eqb_eq in Hz;
    by first [apply exec_LWLR_ok|apply exec_SWLR_ok].
Qed.

End cases.

Lemma finish_ok (k : K) m lr lv pc :
  inv m → 0 ≤ lr < NumGPRegs → is_s32 lv → is_s32 pc →
  ∃ m', finish k m lr lv pc = Done (k, m') ∧ inv0 m'.
Proof.
  intros Hi Hr Hv Hpc. unfold finish.
  destruct (DelayedLoad_spec m lr lv Hi Hr Hv) as (m1 & -> & [Hi1 H0] & _). cbn [mbind res_bind].
  eexists. split; [done|]. split.
  - assert (Hi2 : inv (set_reg m1 PrevPCReg (reg m1 PCReg)))
      by (apply inv_set_reg; [done|done|done|apply reg_s32, Hi1]).
    apply inv_set_reg; [|done|done|done]. apply inv_set_reg; [done|done|done|]. apply reg_s32, Hi2.
  - by rewrite !reg_set_reg_ne by done.
Qed.

(** The instruction at the program counter, if it can be fetched. *)
Definition fetched (k : K) (m : t) (k1 : K) (m1 : t) (i : Instruction) : Prop :=
  ∃ raw, ReadMem (reg m PCReg) 4 k m = Done (Some raw, k1, m1) ∧ Decode (u32 raw) = Done i.

Lemma OneInstruction_cases k m :
  inv0 m →
  (∃ k' m', OneInstruction be setStatus ExceptionHandler k m = Done (k', m') ∧ inv0 m') ∨
  (∃ k1 m1 i, fetched k m k1 m1 i ∧ hazard i m1 = true).
Proof.
  intros [Hi H0]. unfold OneInstruction.
  destruct (ReadMem_ok (reg m PCReg) 4 k m Hi) as (r & k1 & m1 & Hrd & Hr);
    [apply reg_s32, Hi|done|]. rewrite Hrd. cbn [mbind res_bind].
  destruct r as [raw|]; [|left; eauto].
  destruct Hr as (Hi1 & Hraw & Hregs & ->).
  destruct (Decode_spec (u32 raw) (u32_range _)) as (i & Hd & _ & Hrs & Hrt & Hrd' & Hex & Hop & Hsh).
  rewrite Hd. cbn [mbind res_bind].
  destruct (hazard i m1) eqn:Hz; [right; unfold fetched; by eauto 10|left].
  pose proof (execute_ok i k m1 (s32 (reg m1 NextPCReg + 4)) Hi1) as Hok.
  destruct (execute _ _ _ i k m1 _) as [[k2 m2|k2 m2 lr lv pc]| | | |] eqn:Ex;
    rewrite ?Ex in Hok; cbn in Hok |- *;
    try (exfalso; apply Hok; [by unfold instr_ok; eauto|apply s32_range|done| |done];
         intros [E|E]; rewrite E in Hsh; apply Hsh; done).
  - eexists _, _. split; [done|]. apply Hok; [by unfold instr_ok; eauto|apply s32_range|done| |done].
    intros [E|E]; rewrite E in Hsh; by apply Hsh.
  - destruct Hok as (Hi2 & Hlr & Hlv & Hpc); [by unfold instr_ok; eauto|apply s32_range|done| |done|].
    { intros [E|E]; rewrite E in Hsh; by apply Hsh. }
    destruct (finish_ok k2 m2 lr lv pc Hi2 Hlr Hlv Hpc) as (m' & -> & H). eauto.
Qed.

(** C26: One simulated instruction never leaves the defined behaviour. If the
    kernel returns from exceptions with a well-formed machine, then from any
    well-formed machine OneInstruction either returns with a well-formed machine
    again (40 registers in int range, register 0 zero, a delayed load into a
    general register, memory of the right size, the translation structures in
    place), so the ASSERT(FALSE) of the switch and every array access are safe,
    or the instruction it fetched is one of the two it cannot execute: an
    unaligned LWL, LWR, SWL or SWR (a failing ASSERT) or the division of INT_MIN
    by -1 (a trap on the host). *)
Theorem OneInstruction_safe (k : K) (m : t) :
  inv0 m →
  (∃ k' m', OneInstruction be setStatus ExceptionHandler k m = Done (k', m') ∧ inv0 m') ∨
  (∃ k1 m1 i, fetched k m k1 m1 i ∧ hazard i m1 = true).
Proof. apply OneInstruction_cases. Qed.

End spec.

Lemma demo_inv0 : inv0 FlatMemory.demo.
Proof. split; [|reflexivity]. split; [apply FlatMemory.demo_wf|apply FlatMemory.demo_mmu]. Qed.

Lemma OneInstruction_safe_witness :
  (∃ k' m', OneInstruction false (λ _ k, k) (λ _ k m, Done (k, m)) () FlatMemory.demo = Done (k', m') ∧ inv0 m') ∨
  (∃ k1 m1 i, fetched false (λ _ k, k) (λ _ k m, Done (k, m)) () FlatMemory.demo k1 m1 i ∧ hazard i m1 = true).
Proof.
  apply (OneInstruction_safe false (λ _ k, k) (λ _ k m, Done (k, m))).
  - intros x k m Hm. by exists k, m.
  - exact demo_inv0.
Defined.

(** Mult computes the full 64-bit product. For all 32-bit operands the words
    it stores in *hiPtr and *loPtr are the high and low half of the product of the
    operands: of the signed values for MULT (including INT_MIN, whose negation
    overflows), of the unsigned values for MULTU. *)
Theorem Mult_correct (a b : Z) :
  is_s32 a → is_s32 b →
  (let '(hi, lo) := Mult a b true in hi * 2 ^ 32 + u32 lo = a * b) ∧
  (let '(hi, lo) := Mult a b false in u32 hi * 2 ^ 32 + u32 lo = u32 a * u32 b).
Proof. intros Ha Hb. split; [by apply Mult_signed|by apply Mult_unsigned]. Qed.

Lemma Mult_correct_witness :
  Mult INT_MIN (-3) true = (1, INT_MIN) ∧ 1 * 2 ^ 32 + u32 INT_MIN = INT_MIN * (-3).
Proof.
  split; [vm_compute; reflexivity|].
  destruct (Mult_correct INT_MIN (-3)) as [H _]; [unfold_int; lia|unfold_int; lia|exact H].
Defined.

(** ** Instruction encodings *)

(** The three instruction formats of the architecture. *)
Definition encode_R (s t d sh fn : Z) : Z := s * 2 ^ 21 + t * 2 ^ 16 + d * 2 ^ 11 + sh * 2 ^ 6 + fn.
Definition encode_I (op s t imm : Z) : Z := op * 2 ^ 26 + s * 2 ^ 21 + t * 2 ^ 16 + imm.
Definition encode_J (op target : Z) : Z := op * 2 ^ 26 + target.

Lemma field_5 v k : 0 ≤ k → Z.land (Z.shiftr v k) 0x1f = (v / 2 ^ k) mod 32.
Proof. intros. rewrite <- Z.shiftr_div_pow2 by done. apply (Z.land_ones _ 5). lia. Qed.
Lemma field_6 v k : 0 ≤ k → Z.land (Z.shiftr v k) 0x3f = (v / 2 ^ k) mod 64.
Proof. intros. rewrite <- Z.shiftr_div_pow2 by done. apply (Z.land_ones _ 6). lia. Qed.

Lemma low_6 v : Z.land v 0x3f = v mod 2 ^ 6.
Proof. apply (Z.land_ones v 6). lia. Qed.
Lemma low_26 v : Z.land v 0x3ffffff = v mod 2 ^ 26.
Proof. apply (Z.land_ones v 26). lia. Qed.

Ltac solve_field :=
  unfold encode_R, encode_I, encode_J;
  change (2 ^ 26) with 67108864; change (2 ^ 21) with 2097152; change (2 ^ 16) with 65536;
  change (2 ^ 11) with 2048; change (2 ^ 6) with 64;
  Z.div_mod_to_equations; lia.

Lemma Decode_R s t d sh fn op :
  0 ≤ s < 32 → 0 ≤ t < 32 → 0 ≤ d < 32 → 0 ≤ sh < 32 → 0 ≤ fn < 64 →
  specialTable !! Z.to_nat fn = Some op →
  Decode (encode_R s t d sh fn) = Done (mkI (encode_R s t d sh fn) op s t d sh).
Proof.
  intros Hs Ht Hd Hsh Hfn Hop. unfold Decode.
  rewrite field_6, !field_5, low_6 by lia.
  assert (E0 : (encode_R s t d sh fn / 2 ^ 26) mod 64 = 0) by solve_field.
  assert (E1 : (encode_R s t d sh fn / 2 ^ 21) mod 32 = s) by solve_field.
  assert (E2 : (encode_R s t d sh fn / 2 ^ 16) mod 32 = t) by solve_field.
  assert (E3 : (encode_R s t d sh fn / 2 ^ 11) mod 32 = d) by solve_field.
  assert (E4 : (encode_R s t d sh fn / 2 ^ 6) mod 32 = sh) by solve_field.
  assert (E5 : encode_R s t d sh fn mod 2 ^ 6 = fn) by solve_field.
  rewrite E0, E1, E2, E3, E4, E5. cbn -[specialTable aget].
  by rewrite (aget_Some specialTable fn op (proj1 Hfn) Hop).
Qed.

Lemma Decode_I op s t imm o :
  0 ≤ op < 64 → 0 ≤ s < 32 → 0 ≤ t < 32 → 0 ≤ imm < 2 ^ 16 →
  opTable !! Z.to_nat op = Some (o, IFMT) → o ≠ BCOND →
  ∃ d, Decode (encode_I op s t imm) = Done (mkI (encode_I op s t imm) o s t d (sext16 imm)).
Proof.
  intros Hop Hs Ht Hi Ho Hb. unfold Decode. rewrite field_6, !field_5 by lia.
  assert (E0 : (encode_I op s t imm / 2 ^ 26) mod 64 = op) by solve_field.
  assert (E1 : (encode_I op s t imm / 2 ^ 21) mod 32 = s) by solve_field.
  assert (E2 : (encode_I op s t imm / 2 ^ 16) mod 32 = t) by solve_field.
  assert (E3 : sext16 (encode_I op s t imm) = sext16 imm).
  { unfold sext16. change (2 ^ 15) with 32768. solve_field. }
  rewrite E0, E1, E2. rewrite (aget_Some opTable op _ (proj1 Hop) Ho).
  cbn [mbind res_bind fst snd]. rewrite decide_False.
  2: { intros ->. pose proof (Forall_lookup_1 _ _ _ _ opTable_ok Ho) as H. done. }
  rewrite decide_False by done. cbn [mbind res_bind]. eexists. do 2 f_equal.
  rewrite <- E3. apply immediate_sext.
Qed.

Lemma Decode_J op target o :
  0 ≤ op < 64 → 0 ≤ target < 2 ^ 26 → opTable !! Z.to_nat op = Some (o, JFMT) →
  ∃ s t d, Decode (encode_J op target) = Done (mkI (encode_J op target) o s t d target).
Proof.
  intros Hop Ht Ho. unfold Decode. rewrite field_6 by lia.
  assert (E0 : (encode_J op target / 2 ^ 26) mod 64 = op) by solve_field.
  assert (E1 : encode_J op target mod 2 ^ 26 = target) by solve_field.
  rewrite E0. rewrite (aget_Some opTable op _ (proj1 Hop) Ho).
  cbn [mbind res_bind fst snd]. pose proof (Forall_lookup_1 _ _ _ _ opTable_ok Ho) as H.
  rewrite !decide_False by (intros ->; done). cbn [mbind res_bind].
  rewrite low_26, E1. eauto.
Qed.

(** *** The instruction set, by the numbers of the architecture manual

    These tables are written from the R2000's instruction set, grouped by what the
    instructions do, and not from the simulator's; a number that stands in none of
    the groups is reserved. BREAK, the instructions of the coprocessors and a
    branch on a condition the R2000 does not have exist in the architecture (or are
    reserved by it) and are left out of the simulator, which has OP_UNIMP for them. *)
Definition arithmetic_functions : list (Z * opcode) :=
  [(0x20, OP_ADD); (0x22, OP_SUB); (0x21, OP_ADDU); (0x23, OP_SUBU); (0x2A, OP_SLT); (0x2B, OP_SLTU)].
Definition logical_functions : list (Z * opcode) :=
  [(0x24, OP_AND); (0x25, OP_OR); (0x27, OP_NOR); (0x26, OP_XOR)].
Definition shift_functions : list (Z * opcode) :=
  [(0x00, OP_SLL); (0x04, OP_SLLV); (0x02, OP_SRL); (0x06, OP_SRLV); (0x03, OP_SRA); (0x07, OP_SRAV)].
Definition multiply_functions : list (Z * opcode) :=
  [(0x18, OP_MULT); (0x1A, OP_DIV); (0x19, OP_MULTU); (0x1B, OP_DIVU);
   (0x12, OP_MFLO); (0x13, OP_MTLO); (0x10, OP_MFHI); (0x11, OP_MTHI)].
Definition transfer_functions : list (Z * opcode) :=
  [(0x08, OP_JR); (0x09, OP_JALR); (0x0C, OP_SYSCALL); (0x0D, OP_UNIMP)].

Definition load_store_codes : list (Z * opcode) :=
  [(0x20, OP_LB); (0x24, OP_LBU); (0x21, OP_LH); (0x25, OP_LHU); (0x23, OP_LW); (0x22, OP_LWL);
   (0x26, OP_LWR); (0x28, OP_SB); (0x29, OP_SH); (0x2B, OP_SW); (0x2A, OP_SWL); (0x2E, OP_SWR)].
Definition immediate_codes : list (Z * opcode) :=
  [(0x08, OP_ADDI); (0x09, OP_ADDIU); (0x0A, OP_SLTI); (0x0B, OP_SLTIU);
   (0x0C, OP_ANDI); (0x0D, OP_ORI); (0x0E, OP_XORI); (0x0F, OP_LUI)].
Definition branch_codes : list (Z * opcode) :=
  [(0x04, OP_BEQ); (0x05, OP_BNE); (0x06, OP_BLEZ); (0x07, OP_BGTZ)].
(** COPz, LWCz and SWCz. *)
Definition coprocessor_codes : list (Z * opcode) :=
  (λ z, (z, OP_UNIMP)) <$> [0x10; 0x11; 0x12; 0x13; 0x30; 0x31; 0x32; 0x33; 0x38; 0x39; 0x3A; 0x3B].
Definition jump_codes : list (Z * opcode) := [(0x02, OP_J); (0x03, OP_JAL)].
Definition bcond_codes : list (Z * opcode) :=
  [(0x00, OP_BLTZ); (0x01, OP_BGEZ); (0x10, OP_BLTZAL); (0x11, OP_BGEZAL)].

(** The operation of a number in a list of groups, [none] if it is in none of them. *)
Definition operation (none : opcode) (groups : list (list (Z * opcode))) (z : Z) : opcode :=
  default none ((list_to_map (concat groups) : gmap Z opcode) !! z).

Definition special_operation : Z → opcode :=
  operation OP_RES [arithmetic_functions; logical_functions; shift_functions; multiply_functions;
    transfer_functions].
Definition immediate_operation : Z → opcode :=
  operation OP_RES [load_store_codes; immediate_codes; branch_codes; coprocessor_codes].
Definition jump_operation : Z → opcode := operation OP_RES [jump_codes].
Definition bcond_operation : Z → opcode := operation OP_UNIMP [bcond_codes].

Lemma seqZ_Forall (P : Z → Prop) a n z : Forall P (seqZ a n) → a ≤ z < a + n → P z.
Proof. intros H Hz. rewrite Forall_forall in H. apply H, elem_of_seqZ. lia. Qed.

Lemma specialTable_operation fn :
  0 ≤ fn < 64 → specialTable !! Z.to_nat fn = Some (special_operation fn).
Proof.
  apply (seqZ_Forall (λ fn, specialTable !! Z.to_nat fn = Some (special_operation fn)) 0 64).
  apply (bool_decide_eq_true_1 _). vm_compute. reflexivity.
Qed.

Lemma opTable_immediate op :
  4 ≤ op < 64 → opTable !! Z.to_nat op = Some (immediate_operation op, IFMT).
Proof.
  apply (seqZ_Forall (λ op, opTable !! Z.to_nat op = Some (immediate_operation op, IFMT)) 4 60).
  repeat (constructor; [vm_compute; reflexivity|]). constructor.
Qed.

Lemma opTable_jump op : 2 ≤ op < 4 → opTable !! Z.to_nat op = Some (jump_operation op, JFMT).
Proof.
  apply (seqZ_Forall (λ op, opTable !! Z.to_nat op = Some (jump_operation op, JFMT)) 2 2).
  repeat (constructor; [vm_compute; reflexivity|]). constructor.
Qed.

Lemma immediate_not_bcond op : 4 ≤ op < 64 → immediate_operation op ≠ BCOND.
Proof.
  apply (seqZ_Forall (λ op, immediate_operation op ≠ BCOND) 4 60).
  apply (bool_decide_eq_true_1 _). vm_compute. reflexivity.
Qed.

(** The condition Decode finds in the rt field of a BCOND word. *)
Definition bcond_test (i : Z) : opcode :=
  if i =? 0 then OP_BLTZ else if i =? 0x10000 then OP_BGEZ
  else if i =? 0x100000 then OP_BLTZAL else if i =? 0x110000 then OP_BGEZAL else OP_UNIMP.

Lemma bcond_field v : Z.land v 0x1f0000 = (v / 2 ^ 16) mod 32 * 2 ^ 16.
Proof.
  rewrite <- (field_5 v 16) by lia. rewrite <- Z.shiftl_mul_pow2, Z.shiftl_land by lia.
  change (Z.shiftl 31 16) with 0x1f0000. apply Z.bits_inj'. intros n Hn. rewrite !Z.land_spec.
  destruct (Z.testbit 0x1f0000 n) eqn:E; [|by rewrite !andb_false_r]. rewrite !andb_true_r.
  destruct (decide (n < 16)) as [Hlt|Hge].
  - change 0x1f0000 with (31 * 2 ^ 16) in E. by rewrite Z.mul_pow2_bits_low in E by lia.
  - rewrite Z.shiftl_spec, Z.shiftr_spec by lia. f_equal. lia.
Qed.

Lemma bcond_test_operation t : 0 ≤ t < 32 → bcond_test (t * 2 ^ 16) = bcond_operation t.
Proof.
  apply (seqZ_Forall (λ t, bcond_test (t * 2 ^ 16) = bcond_operation t) 0 32).
  repeat (constructor; [vm_compute; reflexivity|]). constructor.
Qed.

Lemma Decode_B s t imm :
  0 ≤ s < 32 → 0 ≤ t < 32 → 0 ≤ imm < 2 ^ 16 →
  ∃ d, Decode (encode_I 1 s t imm) = Done (mkI (encode_I 1 s t imm) (bcond_operation t) s t d (sext16 imm)).
Proof.
  intros Hs Ht Hi. unfold Decode. rewrite bcond_field, field_6, !field_5 by lia.
  assert (E0 : (encode_I 1 s t imm / 2 ^ 26) mod 64 = 1) by solve_field.
  assert (E1 : (encode_I 1 s t imm / 2 ^ 21) mod 32 = s) by solve_field.
  assert (E2 : (encode_I 1 s t imm / 2 ^ 16) mod 32 = t) by solve_field.
  assert (E3 : sext16 (encode_I 1 s t imm) = sext16 imm).
  { unfold sext16. change (2 ^ 15) with 32768. solve_field. }
  rewrite E0, E1, E2. rewrite (aget_Some opTable 1 (BCOND, IFMT)) by done.
  cbn [mbind res_bind fst snd]. rewrite decide_False by done. rewrite decide_True by done.
  cbn [mbind res_bind]. eexists. rewrite <- (bcond_test_operation t Ht). do 2 f_equal.
  rewrite <- E3. apply immediate_sext.
Qed.

Lemma encode_split v : is_u32 v → ∃ op s t imm,
  0 ≤ op < 64 ∧ 0 ≤ s < 32 ∧ 0 ≤ t < 32 ∧ 0 ≤ imm < 2 ^ 16 ∧ v = encode_I op s t imm.
Proof.
  unfold is_u32. intros Hv. change (2 ^ 32) with 4294967296 in Hv.
  exists (v / 2 ^ 26), ((v / 2 ^ 21) mod 32), ((v / 2 ^ 16) mod 32), (v mod 2 ^ 16).
  change (2 ^ 16) with 65536. repeat split; solve_field.
Qed.

Lemma encode_split_R s t imm : 0 ≤ imm < 2 ^ 16 → ∃ d sh fn,
  0 ≤ d < 32 ∧ 0 ≤ sh < 32 ∧ 0 ≤ fn < 64 ∧ encode_I 0 s t imm = encode_R s t d sh fn.
Proof.
  change (2 ^ 16) with 65536. intros Hi. exists (imm / 2 ^ 11), ((imm / 2 ^ 6) mod 32), (imm mod 64).
  repeat split; solve_field.
Qed.

(** The words of the instruction set: each format with its fields in range. *)
Definition encoding (v : Z) (o : opcode) : Prop :=
  (∃ s t d sh fn, 0 ≤ s < 32 ∧ 0 ≤ t < 32 ∧ 0 ≤ d < 32 ∧ 0 ≤ sh < 32 ∧ 0 ≤ fn < 64 ∧
     v = encode_R s t d sh fn ∧ o = special_operation fn) ∨
  (∃ s t imm, 0 ≤ s < 32 ∧ 0 ≤ t < 32 ∧ 0 ≤ imm < 2 ^ 16 ∧
     v = encode_I 1 s t imm ∧ o = bcond_operation t) ∨
  (∃ op target, 2 ≤ op < 4 ∧ 0 ≤ target < 2 ^ 26 ∧ v = encode_J op target ∧ o = jump_operation op) ∨
  (∃ op s t imm, 4 ≤ op < 64 ∧ 0 ≤ s < 32 ∧ 0 ≤ t < 32 ∧ 0 ≤ imm < 2 ^ 16 ∧
     v = encode_I op s t imm ∧ o = immediate_operation op).

Lemma every_word_encoded v : is_u32 v → ∃ o, encoding v o.
Proof.
  intros (op & s & t & imm & Hop & Hs & Ht & Hi & ->)%encode_split.
  destruct (decide (op = 0)) as [->|]; [|destruct (decide (op = 1)) as [->|];
    [|destruct (decide (op < 4))]].
  - destruct (encode_split_R s t imm Hi) as (d & sh & fn & ? & ? & ? & ->).
    eexists. left. do 5 eexists. eauto 10.
  - eexists. right. left. eauto 10.
  - eexists. right. right. left. exists op, (s * 2 ^ 21 + t * 2 ^ 16 + imm).
    change (2 ^ 16) with 65536 in *. change (2 ^ 21) with 2097152. change (2 ^ 26) with 67108864.
    split; [lia|]. split; [lia|]. split; [|reflexivity]. unfold encode_I, encode_J.
    change (2 ^ 16) with 65536. change (2 ^ 21) with 2097152. change (2 ^ 26) with 67108864. lia.
  - eexists. right. right. right. exists op, s, t, imm. eauto 10 with lia.
Qed.

(** C38: The decoder inverts the instruction encodings of the architecture, whose
    operation numbers are written from the manual and not from the simulator's
    tables. A register-format word yields exactly its three register numbers, its
    shift amount and the operation of its function code; an immediate-format word
    yields its two registers, its 16-bit immediate sign-extended and the operation of
    its opcode; a word of opcode 1 yields the conditional branch that its rt field
    selects, with its register and its sign-extended offset; a jump yields its 26-bit
    target and its operation. Every 32-bit word is of one of these forms and decodes
    to that operation, for which the interpreter has a case; reserved numbers decode
    to OP_RES, and BREAK, the coprocessors' instructions and the other conditions of
    opcode 1 to OP_UNIMP. *)
Theorem Decode_correct :
  (∀ s t d sh fn, 0 ≤ s < 32 → 0 ≤ t < 32 → 0 ≤ d < 32 → 0 ≤ sh < 32 → 0 ≤ fn < 64 →
     Decode (encode_R s t d sh fn) = Done (mkI (encode_R s t d sh fn) (special_operation fn) s t d sh)) ∧
  (∀ op s t imm, 4 ≤ op < 64 → 0 ≤ s < 32 → 0 ≤ t < 32 → 0 ≤ imm < 2 ^ 16 →
     ∃ d, Decode (encode_I op s t imm) =
          Done (mkI (encode_I op s t imm) (immediate_operation op) s t d (sext16 imm))) ∧
  (∀ s t imm, 0 ≤ s < 32 → 0 ≤ t < 32 → 0 ≤ imm < 2 ^ 16 →
     ∃ d, Decode (encode_I 1 s t imm) =
          Done (mkI (encode_I 1 s t imm) (bcond_operation t) s t d (sext16 imm))) ∧
  (∀ op target, 2 ≤ op < 4 → 0 ≤ target < 2 ^ 26 →
     ∃ s t d, Decode (encode_J op target) = Done (mkI (encode_J op target) (jump_operation op) s t d target)) ∧
  (∀ v, is_u32 v → ∃ i, Decode v = Done i ∧ encoding v (opCode i) ∧ handled (opCode i) = true).
Proof.
  assert (HR := Decode_R). assert (HI := Decode_I). assert (HJ := Decode_J).
  assert (HB := Decode_B).
  assert (HR' : ∀ s t d sh fn, 0 ≤ s < 32 → 0 ≤ t < 32 → 0 ≤ d < 32 → 0 ≤ sh < 32 → 0 ≤ fn < 64 →
     Decode (encode_R s t d sh fn) = Done (mkI (encode_R s t d sh fn) (special_operation fn) s t d sh)).
  { eauto using specialTable_operation. }
  assert (HI' : ∀ op s t imm, 4 ≤ op < 64 → 0 ≤ s < 32 → 0 ≤ t < 32 → 0 ≤ imm < 2 ^ 16 →
     ∃ d, Decode (encode_I op s t imm) =
          Done (mkI (encode_I op s t imm) (immediate_operation op) s t d (sext16 imm))).
  { intros. apply HI; auto using opTable_immediate, immediate_not_bcond with lia. }
  assert (HJ' : ∀ op target, 2 ≤ op < 4 → 0 ≤ target < 2 ^ 26 →
     ∃ s t d, Decode (encode_J op target) = Done (mkI (encode_J op target) (jump_operation op) s t d target)).
  { intros. apply HJ; auto using opTable_jump with lia. }
  do 4 (split; [done|]). intros v Hv.
  destruct (Decode_spec v Hv) as (i & Hd & _ & _ & _ & _ & _ & Hop & _).
  exists i. split; [done|]. split; [|done].
  destruct (every_word_encoded v Hv) as [o Ho]. enough (opCode i = o) as -> by done.
  destruct Ho as [(s & t & d & sh & fn & ? & ? & ? & ? & ? & -> & ->)|[(s & t & imm & ? & ? & ? & -> & ->)|
    [(op & tg & ? & ? & -> & ->)|(op & s & t & imm & ? & ? & ? & ? & -> & ->)]]].
  - rewrite HR' in Hd by done. by simplify_eq.
  - destruct (HB s t imm) as [? E]; [done..|]. rewrite E in Hd. by simplify_eq.
  - destruct (HJ' op tg) as (? & ? & ? & E); [done..|]. rewrite E in Hd. by simplify_eq.
  - destruct (HI' op s t imm) as [? E]; [done..|]. rewrite E in Hd. by simplify_eq.
Qed.

Lemma Decode_correct_witness :
  Decode (encode_R 1 2 3 0 32) = Done (mkI 2234400 OP_ADD 1 2 3 0) ∧
  (∃ d, Decode (encode_I 8 4 5 65535) = Done (mkI 545652735 OP_ADDI 4 5 d (-1))) ∧
  ∃ d, Decode (encode_I 1 4 17 65535) = Done (mkI 76677119 OP_BGEZAL 4 17 d (-1)).
Proof.
  destruct Decode_correct as (HR & HI & HB & _). split; [|split].
  - pose proof (HR 1 2 3 0 32) as E. vm_compute in E. apply E; done.
  - destruct (HI 8 4 5 65535) as [d E]; [lia..|]. exists d. vm_compute in E. exact E.
  - destruct (HB 4 17 65535) as [d E]; [lia..|]. exists d. vm_compute in E. exact E.
Defined.

Section arith.
Context (be : bool) {K : Type} (setStatus : MachineStatus → K → K).
Context (ExceptionHandler : ExceptionType → K → t → res (K * t)).
Abbreviation execute := (Mips.execute be setStatus ExceptionHandler).
Abbreviation trap := (Mips.trap setStatus ExceptionHandler).

(** The instruction either traps with an overflow or assigns the exact result. *)
Definition exact_or_overflow (r : res (flow K)) (k : K) (m : t) (dest result pc : Z) : Prop :=
  r = if decide (is_s32 result) then Done (Continue k (set_reg m dest result) 0 0 pc)
      else trap OverflowException 0 k m.

Lemma exact_or_overflow_test (test : bool) k m dest result pc :
  (test = true ↔ ¬ is_s32 result) →
  exact_or_overflow (if test then trap OverflowException 0 k m else assign k m dest (s32 result) pc)
    k m dest result pc.
Proof.
  intros Ht. unfold exact_or_overflow. case_decide as Hd.
  - destruct test; [by apply Ht in Hd|]. unfold assign. by rewrite s32_id.
  - by rewrite (proj2 Ht Hd).
Qed.

(** C39: ADD, ADDI and SUB trap exactly on signed overflow. If the exact sum or
    difference fits in 32 bits, the instruction assigns it to its destination
    register and goes on; if it does not, it changes no register and raises
    OverflowException. *)
Theorem overflow_traps_exact (i : Instruction) (k : K) (m : t) (pc : Z) :
  wf m → is_s32 (extra i) →
  match opCode i with
  | OP_ADD => exact_or_overflow (execute i k m pc) k m (rd i) (reg m (rs i) + reg m (rt i)) pc
  | OP_ADDI => exact_or_overflow (execute i k m pc) k m (rt i) (reg m (rs i) + extra i) pc
  | OP_SUB => exact_or_overflow (execute i k m pc) k m (rd i) (reg m (rs i) - reg m (rt i)) pc
  | _ => True
  end.
Proof.
  intros Hw He. unfold Mips.execute. destruct (opCode i) eqn:E; try done.
  - apply exact_or_overflow_test, add_overflow_test; by apply reg_s32.
  - apply exact_or_overflow_test. rewrite (Z.add_comm (reg m (rs i))), (Z.lxor_comm (reg m (rs i))).
    apply add_overflow_test; [done|by apply reg_s32].
  - unfold exec_SUB. rewrite E. apply exact_or_overflow_test, sub_overflow_test; by apply reg_s32.
Qed.

(** ** The architecture's arithmetic, on 32-bit words *)

(** The result of a register instruction on the words [a] (rs) and [b] (rt) with
    immediate or shift amount [x], as the MIPS manual has it. *)
Definition mips_result (op : opcode) (a b x : Z) : option Z :=
  match op with
  | OP_ADDIU => Some ((a + x) mod 2 ^ 32)
  | OP_ADDU => Some ((a + b) mod 2 ^ 32)
  | OP_SUBU => Some ((a - b) mod 2 ^ 32)
  | OP_AND => Some (Z.land a b)
  | OP_ANDI => Some (Z.land a (x mod 2 ^ 16))
  | OP_ORI => Some (Z.lor a (x mod 2 ^ 16))
  | OP_XOR => Some (Z.lxor a b)
  | OP_XORI => Some (Z.lxor a (x mod 2 ^ 16))
  | OP_NOR => Some (2 ^ 32 - 1 - Z.lor a b)
  | OP_LUI => Some (x mod 2 ^ 16 * 2 ^ 16)
  | OP_SLL => Some (b * 2 ^ x mod 2 ^ 32)
  | OP_SLLV => Some (b * 2 ^ (a mod 32) mod 2 ^ 32)
  | OP_SRA => Some ((s32 b / 2 ^ x) mod 2 ^ 32)
  | OP_SRAV => Some ((s32 b / 2 ^ (a mod 32)) mod 2 ^ 32)
  | OP_SLT => Some (if s32 a <? s32 b then 1 else 0)
  | OP_SLTI => Some (if s32 a <? x then 1 else 0)
  | OP_SLTU => Some (if a <? b then 1 else 0)
  | OP_SLTIU => Some (if a <? x mod 2 ^ 32 then 1 else 0)
  | _ => None
  end.

Definition destination (i : Instruction) : Z :=
  match opCode i with
  | OP_ADDIU | OP_ANDI | OP_ORI | OP_XORI | OP_LUI | OP_SLTI | OP_SLTIU => rt i
  | _ => rd i
  end.

Lemma u32_small z : 0 ≤ z < 2 ^ 31 → u32 z = z.
Proof. intros. apply u32_id. unfold is_u32. lia. Qed.

Lemma u32_mul_l a n : 0 ≤ n → u32 (a * 2 ^ n) = u32 (u32 a * 2 ^ n).
Proof. intros. unfold u32. by rewrite Z.mul_mod_idemp_l by lia. Qed.

Lemma low_5 v : Z.land v 0x1f = v mod 32.
Proof. apply (Z.land_ones v 5). lia. Qed.
Lemma low_16 v : Z.land v 0xffff = v mod 2 ^ 16.
Proof. apply (Z.land_ones v 16). lia. Qed.

Lemma u32_mod_32 v : u32 v mod 32 = v mod 32.
Proof. int_lia. Qed.

Lemma u32_lnot v : u32 (Z.lnot v) = 2 ^ 32 - 1 - u32 v.
Proof. rewrite lnot_eq. int_lia. Qed.

Lemma u32_shiftl v n : 0 ≤ n → u32 (s32 (Z.shiftl v n)) = u32 v * 2 ^ n mod 2 ^ 32.
Proof. intros. by rewrite u32_s32, Z.shiftl_mul_pow2, u32_mul_l. Qed.

Lemma u32_shiftr v n : 0 ≤ n → is_s32 v → u32 (Z.shiftr v n) = (s32 (u32 v) / 2 ^ n) mod 2 ^ 32.
Proof. intros. by rewrite s32_u32, (s32_id v), Z.shiftr_div_pow2. Qed.

Lemma lui_word x : u32 (s32 (Z.shiftl x 16)) = x mod 2 ^ 16 * 2 ^ 16.
Proof. rewrite u32_s32, Z.shiftl_mul_pow2 by lia. int_lia. Qed.

Lemma u32_if (b : bool) : u32 (if b then 1 else 0) = if b then 1 else 0.
Proof. by destruct b. Qed.

(** C23: The register instructions compute what the architecture says. For the
    unsigned additions and subtractions, the logical operations AND, ANDI, ORI,
    XOR, XORI and NOR, LUI, the left and arithmetic right shifts and the four
    comparisons, the interpreter's arithmetic on C ints leaves in the destination
    register the word that the MIPS definition on 32-bit words gives, raises no
    exception and changes nothing else. (OR and the logical right shifts are not
    in the list: they do not compute the architecture's result.) *)
Theorem register_instructions_correct (i : Instruction) (k : K) (m : t) (pc w : Z) :
  wf m → is_s32 (extra i) → (is_shift (opCode i) = true → 0 ≤ extra i < 32) →
  mips_result (opCode i) (u32 (reg m (rs i))) (u32 (reg m (rt i))) (extra i) = Some w →
  ∃ v, execute i k m pc = Done (Continue k (set_reg m (destination i) v) 0 0 pc) ∧ u32 v = w.
Proof.
  intros Hw He Hsh Hres. pose proof (reg_s32 m (rs i) Hw) as Ha. pose proof (reg_s32 m (rt i) Hw) as Hb.
  unfold mips_result in Hres. unfold Mips.execute, destination.
  destruct (opCode i) eqn:E; try done; injection Hres as <-;
    unfold exec_ADDU_AND, exec_LUI, exec_OR, exec_SLL, exec_SLT, exec_SR, exec_SUB, exec_XOR, assign;
    rewrite ?E; eexists; (split; [reflexivity|]); rewrite ?low_5, ?low_16.
  - rewrite u32_s32. int_lia.
  - rewrite u32_s32. int_lia.
  - apply u32_land.
  - rewrite u32_land, (u32_small (_ mod _)); [done|]. int_lia.
  - apply lui_word.
  - rewrite u32_lnot, u32_lor. done.
  - rewrite u32_lor, (u32_small (_ mod _)); [done|]. int_lia.
  - apply u32_shiftl. by apply Hsh.
  - rewrite u32_mod_32. apply u32_shiftl. int_lia.
  - rewrite u32_if, !s32_u32, !s32_id by done. done.
  - rewrite u32_if, !s32_u32, !s32_id by done. done.
  - apply u32_if.
  - apply u32_if.
  - apply u32_shiftr; [by apply Hsh|done].
  - rewrite u32_mod_32. apply u32_shiftr; [int_lia|done].
  - rewrite u32_s32. int_lia.
  - apply u32_lxor.
  - rewrite u32_lxor, (u32_small (_ mod _)); [done|]. int_lia.
Qed.

End arith.

Lemma overflow_traps_exact_witness :
  let m := set_reg FlatMemory.demo 1 INT_MAX in
  exact_or_overflow (λ _ k, k) (λ _ k m, Done (k, m))
    (Mips.execute false (λ _ k, k) (λ _ k m, Done (k, m)) (mkI 0 OP_ADD 1 1 2 0) () m 8)
    () m 2 (INT_MAX + INT_MAX) 8.
Proof.
  intros m. apply (overflow_traps_exact false (λ _ k, k) (λ _ k m, Done (k, m)) (mkI 0 OP_ADD 1 1 2 0) () m 8).
  - apply wf_set_reg; [apply FlatMemory.demo_wf|done|done|unfold_int; lia].
  - unfold_int. simpl. lia.
Defined.

Lemma register_instructions_correct_witness :
  let m := set_reg FlatMemory.demo 1 (-8) in
  ∃ v, Mips.execute false (λ _ k, k) (λ _ k m, Done (k, m)) (mkI 0 OP_SRA 0 1 2 2) () m 8 =
    Done (Continue () (set_reg m 2 v) 0 0 8) ∧ u32 v = 4294967294.
Proof.
  intros m. apply (register_instructions_correct false (λ _ k, k) (λ _ k m, Done (k, m)) (mkI 0 OP_SRA 0 1 2 2) () m 8).
  - apply wf_set_reg; [apply FlatMemory.demo_wf|done|done|unfold_int; lia].
  - unfold_int. simpl. lia.
  - simpl. lia.
  - reflexivity.
Defined.

(** OR ignores its second operand: 1 | 2 yields 1. *)
Lemma OR_ignores_rt :
  let m := set_reg (set_reg FlatMemory.demo 1 1) 2 2 in
  exec_OR (mkI 0 OP_OR 1 2 3 0) () m 8 = Done (Continue () (set_reg m 3 1) 0 0 8).
Proof. reflexivity. Qed.

(** SRL shifts in copies of the sign bit: -8 >> 1 yields -4, not 0x7ffffffc. *)
Lemma SRL_is_arithmetic :
  let m := set_reg FlatMemory.demo 1 (-8) in
  exec_SR (mkI 0 OP_SRL 0 1 2 1) () m 8 = Done (Continue () (set_reg m 2 (-4)) 0 0 8).
Proof. reflexivity. Qed.

(** INT_MIN / -1 is outside the defined behaviour of the host. *)
Lemma DIV_overflow_undefined :
  let m := set_reg (set_reg FlatMemory.demo 1 INT_MIN) 2 (-1) in
  exec_DIV (mkI 0 OP_DIV 1 2 0 0) () m 8 = Undef.
Proof. reflexivity. Qed.

End MipsSpec.
