(* ===== verification/Execute.v ===== *)
(** Execute: the stand-alone MIPS interpreter of src/code/bin - execute.c, with the fields of
    instr.h, the opcodes of encode.h, the memory of int.h and the system calls of system.c.
    ExecuteSpec.v compares it with the interpreter of the simulated machine.

    [turn] is one turn of the loop of runprogram.  The 16 megabytes of memory are a finite
    map, whose other cells are 0 as C has it; an access outside them is undefined.  The
    calls of the host system are a parameter.  Tracing and statistics only print and are
    left out. *)
From S2P Require Import Prelude Machine.

Module Execute.

(** ** instr.h: the fields of an instruction, an [int] *)
Definition rd (i : Z) : Z := Z.land (Z.shiftr i 11) 0x1f.
Definition rt (i : Z) : Z := Z.land (Z.shiftr i 16) 0x1f.
Definition rs (i : Z) : Z := Z.land (Z.shiftr i 21) 0x1f.
Definition shamt (i : Z) : Z := Z.land (Z.shiftr i 6) 0x1f.
Definition immed (i : Z) : Z :=
  if negb (Z.land i 0x8000 =? 0) then Z.lor i (-0x8000) else Z.land i 0x7fff.

(** ** encode.h: the numbers of the opcodes *)
Definition I_SPECIAL : Z := 0.
Definition I_BCOND : Z := 1.
Definition I_J : Z := 2.
Definition I_JAL : Z := 3.
Definition I_BEQ : Z := 4.
Definition I_BNE : Z := 5.
Definition I_BLEZ : Z := 6.
Definition I_BGTZ : Z := 7.
Definition I_ADDI : Z := 8.
Definition I_ADDIU : Z := 9.
Definition I_SLTI : Z := 10.
Definition I_SLTIU : Z := 11.
Definition I_ANDI : Z := 12.
Definition I_ORI : Z := 13.
Definition I_XORI : Z := 14.
Definition I_LUI : Z := 15.
Definition I_LB : Z := 32.
Definition I_LH : Z := 33.
Definition I_LWL : Z := 34.
Definition I_LW : Z := 35.
Definition I_LBU : Z := 36.
Definition I_LHU : Z := 37.
Definition I_LWR : Z := 38.
Definition I_SB : Z := 40.
Definition I_SH : Z := 41.
Definition I_SWL : Z := 42.
Definition I_SW : Z := 43.
Definition I_SWR : Z := 46.

Definition I_SLL : Z := 0.
Definition I_SRL : Z := 2.
Definition I_SRA : Z := 3.
Definition I_SLLV : Z := 4.
Definition I_SRLV : Z := 6.
Definition I_SRAV : Z := 7.
Definition I_JR : Z := 8.
Definition I_JALR : Z := 9.
Definition I_SYSCALL : Z := 12.
Definition I_BREAK : Z := 13.
Definition I_MFHI : Z := 16.
Definition I_MTHI : Z := 17.
Definition I_MFLO : Z := 18.
Definition I_MTLO : Z := 19.
Definition I_MULT : Z := 24.
Definition I_MULTU : Z := 25.
Definition I_DIV : Z := 26.
Definition I_DIVU : Z := 27.
Definition I_ADD : Z := 32.
Definition I_ADDU : Z := 33.
Definition I_SUB : Z := 34.
Definition I_SUBU : Z := 35.
Definition I_AND : Z := 36.
Definition I_OR : Z := 37.
Definition I_XOR : Z := 38.
Definition I_NOR : Z := 39.
Definition I_SLT : Z := 42.
Definition I_SLTU : Z := 43.

Definition I_BLTZ : Z := 0.
Definition I_BGEZ : Z := 1.
Definition I_BLTZAL : Z := 16.
Definition I_BGEZAL : Z := 17.

(** ** int.h: the memory *)
Definition MEMSIZE : Z := 2 ^ 24.
Definition memoffset : Z := 0x10000000.

Abbreviation memory := (gmap Z Z).

Definition in_memory (addr n : Z) : bool := (memoffset <=? addr) && (addr + n <=? memoffset + MEMSIZE).

(** [n] bytes at [addr]. *)
Fixpoint load_bytes (n : nat) (addr : Z) (m : memory) : list Z :=
  match n with
  | O => []
  | S n => default 0 (m !! addr) :: load_bytes n (addr + 1) m
  end.

Definition load (n : nat) (addr : Z) (m : memory) : res Z :=
  if in_memory addr (Z.of_nat n) then Done (word_of (load_bytes n addr m)) else Undef.

Definition fetch (addr : Z) (m : memory) : res Z := s32 <$> load 4 addr m.
Definition ifetch (addr : Z) (m : memory) : res Z := fetch addr m.
Definition usfetch (addr : Z) (m : memory) : res Z := load 2 addr m.
Definition sfetch (addr : Z) (m : memory) : res Z :=
  (λ w, (w + 2 ^ 15) mod 2 ^ 16 - 2 ^ 15) <$> load 2 addr m.
Definition ucfetch (addr : Z) (m : memory) : res Z := load 1 addr m.
Definition cfetch (addr : Z) (m : memory) : res Z := s8 <$> load 1 addr m.

Fixpoint store_bytes (bs : list Z) (addr : Z) (m : memory) : memory :=
  match bs with
  | [] => m
  | b :: bs => store_bytes bs (addr + 1) (<[addr := b]> m)
  end.

Definition store_n (n : nat) (addr w : Z) (m : memory) : res memory :=
  if in_memory addr (Z.of_nat n) then Done (store_bytes (bytes_of n w) addr m) else Undef.

Definition store (addr w : Z) (m : memory) : res memory := store_n 4 addr w m.
Definition sstore (addr w : Z) (m : memory) : res memory := store_n 2 addr w m.
Definition cstore (addr w : Z) (m : memory) : res memory := store_n 1 addr w m.

(** ** The machine *)
Record t : Type := mkE {
  Reg : list Z;
  HI : Z;
  LO : Z;
  mem : memory;
  pc : Z;
  npc : Z
}.

Definition get (s : t) (r : Z) : Z := default 0 (Reg s !! Z.to_nat r).
Definition set (s : t) (r v : Z) : t := mkE (<[Z.to_nat r := v]> (Reg s)) (HI s) (LO s) (mem s) (pc s) (npc s).
Definition set_HI (s : t) v : t := mkE (Reg s) v (LO s) (mem s) (pc s) (npc s).
Definition set_LO (s : t) v : t := mkE (Reg s) (HI s) v (mem s) (pc s) (npc s).
Definition set_mem (s : t) v : t := mkE (Reg s) (HI s) (LO s) v (pc s) (npc s).
Definition set_npc (s : t) v : t := mkE (Reg s) (HI s) (LO s) (mem s) (pc s) v.

(** What a turn ends with: the next turn, or exit. *)
Inductive outcome : Type :=
| Next (s : t)
| Exit (status : Z) (s : t).

(** [u()] *)
Definition u (s : t) : res outcome := Done (Exit 2 s).

Definition next (s : t) : res outcome := Done (Next s).

(** A shift by more than the width is undefined. *)
Definition shift_ok (n : Z) : bool := (0 <=? n) && (n <? 32).

Definition trunc (b : bool) : Z := if b then 1 else 0.

Section host.
(** The result of a call of the host system, and the memory after it. *)
Context (unix : Z → Z → Z → Z → memory → Z * memory).

(** The request of an ioctl as the host gets it ('t' is 116). *)
Definition ioctl_request (o1 : Z) : Z :=
  let size := Z.land (Z.shiftr o1 16) 0x7f in
  let ioctl_group := s8 (Z.land (Z.shiftr o1 8) 0xff) in
  if (ioctl_group =? 116) && (size =? 8)
  then Z.lor (Z.land o1 (Z.lnot (Z.shiftl 0x7f 16))) (Z.shiftl 6 16)
  else o1.

(** The numbers are those of the comments. *)
Definition system_trap (s : t) : res outcome :=
  let syscallno := get s 2 in
  let o0 := get s 4 in
  let o1 := get s 5 in
  let o2 := get s 6 in
  let host o1 :=
    let '(r, m) := unix syscallno o0 o1 o2 (mem s) in set (set_mem s m) 1 r in
  if syscallno =? 1 then Done (Exit 0 s)
  else if (syscallno =? 3) || (syscallno =? 4) || (syscallno =? 5) then next (host o1)
  else if syscallno =? 6 then next (set s 1 0)
  else if syscallno =? 17 then next (set s 1 (s32 ((cdiv o0 8192 + 1) * 8192)))
  else if syscallno =? 19 then next (host o1)
  else if syscallno =? 54 then next (set (host (ioctl_request o1)) 1 0)
  else if (syscallno =? 62) || (syscallno =? 64) then next (host o1)
  else Done (Exit 2 s).

(** [case I_MULT] and [case I_MULTU]: the high word from the halves. *)
Definition high (t1 t2 : Z) : Z :=
  let t1l := Z.land t1 0xffff in
  let t1h := Z.land (Z.shiftr t1 16) 0xffff in
  let t2l := Z.land t2 0xffff in
  let t2h := Z.land (Z.shiftr t2 16) 0xffff in
  s32 (s32 (s32 (t1h * t2h) + Z.shiftr (s32 (t1h * t2l)) 16) + Z.shiftr (s32 (t2h * t1l)) 16).

Definition mult (s : t) (t1 t2 : Z) : t :=
  let '(t1, neg) := if t1 <? 0 then (s32 (- t1), true) else (t1, false) in
  let '(t2, neg) := if t2 <? 0 then (s32 (- t2), negb neg) else (t2, neg) in
  let lo := s32 (t1 * t2) in
  let hi := high t1 t2 in
  if neg then
    let lo := s32 (Z.lnot lo + 1) in
    let hi := Z.lnot hi in
    set_HI (set_LO s lo) (if lo =? 0 then s32 (hi + 1) else hi)
  else set_HI (set_LO s lo) hi.

(** [case I_SPECIAL] *)
Definition special (instr xpc : Z) (s : t) : res outcome :=
  let funct := Z.land instr 0x3f in
  let a := get s (rs instr) in
  let b := get s (rt instr) in
  let put v := next (set s (rd instr) v) in
  if funct =? I_SLL then put (s32 (Z.shiftl b (shamt instr)))
  else if funct =? I_SRL then put (s32 (Z.shiftr (u32 b) (shamt instr)))
  else if funct =? I_SRA then put (Z.shiftr b (shamt instr))
  else if funct =? I_SLLV then if shift_ok a then put (s32 (Z.shiftl b a)) else Undef
  else if funct =? I_SRLV then if shift_ok a then put (s32 (Z.shiftr (u32 b) a)) else Undef
  else if funct =? I_SRAV then if shift_ok a then put (Z.shiftr b a) else Undef
  else if funct =? I_JR then next (set_npc s a)
  else if funct =? I_JALR then next (set (set_npc s a) (rd instr) (s32 (xpc + 8)))
  else if funct =? I_SYSCALL then system_trap s
  else if funct =? I_BREAK then system_trap s
  else if funct =? I_MFHI then put (HI s)
  else if funct =? I_MTHI then next (set_HI s a)
  else if funct =? I_MFLO then put (LO s)
  else if funct =? I_MTLO then next (set_LO s a)
  else if funct =? I_MULT then next (mult s a b)
  else if funct =? I_MULTU then next (set_HI (set_LO s (s32 (a * b))) (high a b))
  else if funct =? I_DIV then
    if (b =? 0) || ((a =? INT_MIN) && (b =? -1)) then Undef
    else next (set_HI (set_LO s (cdiv a b)) (cmod a b))
  else if funct =? I_DIVU then
    if b =? 0 then Undef
    else next (set_HI (set_LO s (s32 (cdiv (u32 a) (u32 b)))) (s32 (cmod (u32 a) (u32 b))))
  else if (funct =? I_ADD) || (funct =? I_ADDU) then put (s32 (a + b))
  else if (funct =? I_SUB) || (funct =? I_SUBU) then put (s32 (a - b))
  else if funct =? I_AND then put (Z.land a b)
  else if funct =? I_OR then put (Z.lor a b)
  else if funct =? I_XOR then put (Z.lxor a b)
  else if funct =? I_NOR then put (Z.lnot (Z.lor a b))
  else if funct =? I_SLT then put (trunc (a <? b))
  else if funct =? I_SLTU then put (trunc (u32 a <? u32 b))
  else u s.

(** [npc = xpc + 4 + (immed(instr) << 2)] when the condition holds. *)
Definition branch (instr xpc : Z) (taken : bool) (s : t) : res outcome :=
  next (if taken then set_npc s (s32 (xpc + 4 + s32 (Z.shiftl (immed instr) 2))) else s).

(** [case I_BCOND] *)
Definition bcond (instr xpc : Z) (s : t) : res outcome :=
  let link := set s 31 (s32 (xpc + 8)) in
  if rt instr =? I_BLTZ then branch instr xpc (get s (rs instr) <? 0) s
  else if rt instr =? I_BGEZ then branch instr xpc (0 <=? get s (rs instr)) s
  else if rt instr =? I_BLTZAL then branch instr xpc (get link (rs instr) <? 0) link
  else if rt instr =? I_BGEZAL then branch instr xpc (0 <=? get link (rs instr)) link
  else u s.

Definition jump_target (instr xpc : Z) : Z :=
  s32 (Z.lor (Z.land (u32 xpc) 0xf0000000) (Z.shiftl (Z.land instr 0x03ffffff) 2)).

(** The switch on the opcode. *)
Definition exec (instr xpc : Z) (s : t) : res outcome :=
  let op := Z.land (Z.shiftr instr 26) 0x3f in
  let a := get s (rs instr) in
  let b := get s (rt instr) in
  let addr := s32 (a + immed instr) in
  let put v := next (set s (rt instr) v) in
  let load (m : res Z) := v ← m; put v in
  let save (m : res memory) := m ← m; next (set_mem s m) in
  if op =? I_SPECIAL then special instr xpc s
  else if op =? I_BCOND then bcond instr xpc s
  else if op =? I_J then next (set_npc s (jump_target instr xpc))
  else if op =? I_JAL then next (set_npc (set s 31 (s32 (xpc + 8))) (jump_target instr xpc))
  else if op =? I_BEQ then branch instr xpc (a =? b) s
  else if op =? I_BNE then branch instr xpc (negb (a =? b)) s
  else if op =? I_BLEZ then branch instr xpc (a <=? 0) s
  else if op =? I_BGTZ then branch instr xpc (0 <? a) s
  else if op =? I_ADDI then put addr
  else if op =? I_ADDIU then put addr
  else if op =? I_SLTI then put (trunc (a <? immed instr))
  else if op =? I_SLTIU then put (trunc (u32 a <? u32 (immed instr)))
  else if op =? I_ANDI then put (Z.land a (immed instr))
  else if op =? I_ORI then put (Z.lor a (immed instr))
  else if op =? I_XORI then put (Z.lxor a (immed instr))
  else if op =? I_LUI then put (s32 (Z.shiftl instr 16))
  else if op =? I_LB then load (cfetch addr (mem s))
  else if op =? I_LH then load (sfetch addr (mem s))
  else if op =? I_LWL then
    let r := Z.land b (Z.shiftr (-1) (8 * Z.land (- addr) 3)) in
    load (w ← fetch (Z.land addr (Z.lnot 3)) (mem s);
          Done (Z.lor r (s32 (Z.shiftl w (8 * Z.land addr 3)))))
  else if op =? I_LW then load (fetch addr (mem s))
  else if op =? I_LBU then load (ucfetch addr (mem s))
  else if op =? I_LHU then load (usfetch addr (mem s))
  else if op =? I_LWR then
    let r := s32 (Z.land b (Z.shiftl (-1) (8 * Z.land addr 3))) in
    let r := if Z.land addr 3 =? 0 then 0 else r in
    load (w ← fetch (Z.land addr (Z.lnot 3)) (mem s);
          Done (Z.lor r (Z.shiftr w (8 * Z.land (- addr) 3))))
  else if op =? I_SB then save (cstore addr b (mem s))
  else if op =? I_SH then save (sstore addr b (mem s))
  else if op =? I_SW then save (store addr b (mem s))
  else u s.   (* SWL, SWR and the coprocessors print and exit(2) as well *)

(** One turn of [for ( ; ; )]. *)
Definition turn (s : t) : res outcome :=
  let xpc := pc s in
  let s := mkE (Reg s) (HI s) (LO s) (mem s) (npc s) (s32 (npc s + 4)) in
  instr ← ifetch xpc (mem s);
  let s := set s 0 0 in
  if instr =? 0 then next s else exec instr xpc s.

Fixpoint run (n : nat) (s : t) : res outcome :=
  match n with
  | O => next s
  | S n =>
      o ← turn s;
      match o with Next s => run n s | Exit _ _ => Done o end
  end.

(** ** Starting a program *)

(** The loop over the arguments, each a string without its 0. *)
Fixpoint store_args (args : list (list Z)) (aci ai : Z) (m : memory) : res memory :=
  match args with
  | [] => Done m
  | arg :: args =>
      if in_memory ai (Z.of_nat (S (length arg))) then
        let m := store_bytes (arg ++ [0]) ai m in
        m ← store aci ai m;
        store_args args (aci + 4) (ai + Z.of_nat (S (length arg))) m
      else Undef
  end.

Definition start (startpc : Z) (args : list (list Z)) (s : t) : res t :=
  let i := MEMSIZE - 1024 + memoffset in
  let s := mkE (Reg s) (HI s) (LO s) (mem s) startpc (s32 (startpc + 4)) in
  let s := set s 29 i in
  m ← store i (Z.of_nat (length args)) (mem s);
  m ← store_args args (i + 4) (i + 4 + 32) m;
  Done (set_mem s m).

End host.

(** ** Statistics *)

Definition ilog2 (i : Z) : Z :=
  let half mask n '(i, l) := let j := Z.land i mask in if j =? 0 then (i, l) else (j, l + n) in
  if i =? 0 then 0
  else
    snd (half 0xaaaaaaaa 1 (half 0xcccccccc 2 (half 0xf0f0f0f0 4
          (half 0xff00ff00 8 (half 0xffff0000 16 (u32 i, 1)))))).

Definition NH : Z := 32.
Definition NNN : Z := 33.
Definition NNNN : Z := 64.

Record histograms : Type := mkH { hists : list (list Z); hoflo : list Z; htotal : list Z }.

Definition henters (n hist : Z) (h : histograms) : res histograms :=
  h ← (if (0 <=? n) && (n <? NNN) then
         row ← aget (hists h) hist;
         c ← aget row n;
         row ← aset row n (s32 (c + 1));
         rows ← aset (hists h) hist row;
         Done (mkH rows (hoflo h) (htotal h))
       else
         c ← aget (hoflo h) hist;
         l ← aset (hoflo h) hist (s32 (c + 1));
         Done (mkH (hists h) l (htotal h)));
  c ← aget (htotal h) hist;
  l ← aset (htotal h) hist (s32 (c + 1));
  Done (mkH (hists h) (hoflo h) l).

Definition henter (n : Z) (hist : list Z) : res (list Z) :=
  if (0 <=? n) && (n <? NNNN) then c ← aget hist n; aset hist n (s32 (c + 1)) else Done hist.

(** The loop of hprint from histogram [h] on: the histograms it prints. *)
Fixpoint hprint_from (n : nat) (h : Z) (hs : histograms) : res (list Z) :=
  match n with
  | O => Done []
  | S n =>
      total ← aget (htotal hs) h;
      rest ← hprint_from n (h + 1) hs;
      Done (if 0 <? total then h :: rest else rest)
  end.

Definition hprint (hs : histograms) : res (list Z) := hprint_from (Z.to_nat (NH + 1)) 0 hs.

(** ** main.c: loading a program *)

Record SCNHDR : Type := mkScn { s_vaddr : Z; s_size : Z; s_scnptr : Z }.

Inductive scn_name : Type := TEXT | RDATA | DATA | SDATA | SBSS | BSS.

(** What a loader ends with. *)
Inductive loaded : Type :=
| Loaded (m : memory)
| LoadExit (status : Z).

Section loader.
(** The object-file library: the type of the file if it can be opened, its section headers by
    name, and the [i]-th character read after seeking to a place. *)
Context (ldopen : option Z) (ldnshread : scn_name → option SCNHDR) (getc : Z → Z → Z).

Fixpoint read_section (n : nat) (ptr i pc : Z) (m : memory) : res memory :=
  match n with
  | O => Done m
  | S n => m ← cstore pc (getc ptr i) m; read_section n ptr (i + 1) (pc + 1) m
  end.

(** The macro LOADSECTION. *)
Definition LOADSECTION (head : SCNHDR) (m : memory) : res loaded :=
  if negb (s_scnptr head =? 0) then
    m ← read_section (Z.to_nat (s_size head)) (s_scnptr head) 0 (s_vaddr head) m;
    let pc := s_vaddr head + Z.max 0 (s_size head) in
    if MEMSIZE <=? pc - memoffset then Done (LoadExit 1) else Done (Loaded m)
  else Done (Loaded m).

(** A section that is missing is reported and left out. *)
Fixpoint load_sections (load : SCNHDR → memory → res loaded) (names : list scn_name) (m : memory) : res loaded :=
  match names with
  | [] => Done (Loaded m)
  | name :: names =>
      match ldnshread name with
      | None => load_sections load names m
      | Some head =>
          l ← load head m;
          match l with
          | Loaded m => load_sections load names m
          | LoadExit _ => Done l
          end
      end
  end.

Definition load_program (load : SCNHDR → memory → res loaded) (m : memory) : res loaded :=
  match ldopen with
  | None => Done (LoadExit 0)
  | Some type =>
      if negb (type =? 0x162) then Done (LoadExit 0) else load_sections load [TEXT; RDATA; DATA; SDATA; SBSS; BSS] m
  end.

(** main: the program starts where memory does, with the arguments that follow the options. *)
Definition main (args : list (list Z)) (s : t) : res (Z + t) :=
  l ← load_program LOADSECTION (mem s);
  match l with
  | LoadExit status => Done (inl status)
  | Loaded m => s ← start memoffset args (set_mem s m); Done (inr s)
  end.

(** ** disasm.c: the same with the test inside the loop *)

Fixpoint load_section_from (n : nat) (ptr i pc : Z) (m : memory) : res loaded :=
  match n with
  | O => Done (Loaded m)
  | S n =>
      if MEMSIZE <=? pc - memoffset then Done (LoadExit 1)
      else m ← cstore pc (getc ptr i) m; load_section_from n ptr (i + 1) (pc + 1) m
  end.

Definition load_section (hd : SCNHDR) (m : memory) : res loaded :=
  if negb (s_scnptr hd =? 0)
  then load_section_from (Z.to_nat (s_size hd)) (s_scnptr hd) 0 (s_vaddr hd) m
  else Done (Loaded m).

End loader.

End Execute.
