(* ===== verification/ExecuteSpec.v ===== *)
(** ExecuteSpec: the two interpreters of the repository, the one of the simulated machine
    (Mips.v) and the stand-alone one of bin/execute.c (Execute.v), against one reference.

    [meaning] is what an instruction writes, as a list of numbered registers and a jump;
    it is given where the two programs agree, with the conditions under which they do. *)
From S2P Require Import Prelude Machine Mips MipsSpec Execute.

Module ExecuteSpec.
Import Machine Mips MipsSpec.
Import Execute.

(** ** Fields *)

Lemma field_u32 w k n : 0 ≤ k → 0 ≤ n → k + n ≤ 32 →
  Z.land (Z.shiftr (u32 w) k) (Z.ones n) = Z.land (Z.shiftr w k) (Z.ones n).
Proof.
  intros Hk Hn Hs. apply Z.bits_inj'. intros j Hj. rewrite !Z.land_spec, !Z.shiftr_spec, u32_testbit by lia.
  destruct (decide (j < n)) as [Hlt|Hge].
  - by rewrite bool_decide_eq_true_2 by lia.
  - rewrite Z.ones_spec_high by lia. by rewrite !andb_false_r.
Qed.

Lemma low_field_u32 w n : 0 ≤ n ≤ 32 → Z.land (u32 w) (Z.ones n) = Z.land w (Z.ones n).
Proof. intros Hn. pose proof (field_u32 w 0 n) as Hf. rewrite !Z.shiftr_0_r in Hf. apply Hf; lia. Qed.

Lemma lor_low w n : 0 ≤ n → Z.lor w (Z.lnot (Z.ones n)) = w mod 2 ^ n - 2 ^ n.
Proof.
  intros Hn. pose proof (Z.add_lor_land w (Z.lnot (Z.ones n))) as Ha.
  rewrite <- (Z.ldiff_land w (Z.ones n)), Z.ldiff_ones_r, Z.shiftl_mul_pow2, Z.shiftr_div_pow2 in Ha by lia.
  rewrite lnot_eq in Ha at 2. rewrite Z.ones_equiv in *. pose proof (Z.div_mod w (2 ^ n)). lia.
Qed.

Lemma immed_sext w : immed w = sext16 w.
Proof.
  unfold immed. change (Z.land w 32768) with (Z.land w (2 ^ 15)). rewrite testbit_land_pow2 by lia. rewrite negb_involutive.
  change (-32768) with (Z.lnot (Z.ones 15)). change 32767 with (Z.ones 15).
  unfold sext16. change (2 ^ 15) with 32768. change (2 ^ 16) with 65536.
  destruct (Z.testbit w 15) eqn:Hb.
  - rewrite lor_low by lia. apply Z.testbit_true in Hb; [|lia]. change (2 ^ 15) with 32768 in *.
    Z.div_mod_to_equations. lia.
  - rewrite Z.land_ones by lia. apply Z.testbit_false in Hb; [|lia]. change (2 ^ 15) with 32768 in *.
    Z.div_mod_to_equations. lia.
Qed.

Lemma sext16_u32 w : sext16 (u32 w) = sext16 w.
Proof. unfold sext16. change (2 ^ 15) with 32768. change (2 ^ 16) with 65536. int_lia. Qed.

(** ** Opcodes *)

(** The number of an opcode in encode.h, the number in the field for the special
    instructions, and the one of the branches that test a sign. *)
Definition normal_number (o : opcode) : option Z :=
  match o with
  | OP_J => Some I_J | OP_JAL => Some I_JAL | OP_BEQ => Some I_BEQ | OP_BNE => Some I_BNE
  | OP_BLEZ => Some I_BLEZ | OP_BGTZ => Some I_BGTZ | OP_ADDI => Some I_ADDI | OP_ADDIU => Some I_ADDIU
  | OP_SLTI => Some I_SLTI | OP_SLTIU => Some I_SLTIU | OP_ANDI => Some I_ANDI | OP_ORI => Some I_ORI
  | OP_XORI => Some I_XORI | OP_LUI => Some I_LUI
  | SPECIAL => Some I_SPECIAL | BCOND => Some I_BCOND
  | _ => None
  end.

Definition special_number (o : opcode) : option Z :=
  match o with
  | OP_SLL => Some I_SLL | OP_SRL => Some I_SRL | OP_SRA => Some I_SRA | OP_SLLV => Some I_SLLV
  | OP_SRLV => Some I_SRLV | OP_SRAV => Some I_SRAV | OP_JR => Some I_JR | OP_JALR => Some I_JALR
  | OP_MFHI => Some I_MFHI | OP_MTHI => Some I_MTHI | OP_MFLO => Some I_MFLO | OP_MTLO => Some I_MTLO
  | OP_MULT => Some I_MULT | OP_MULTU => Some I_MULTU
  | OP_DIV => Some I_DIV | OP_DIVU => Some I_DIVU | OP_ADD => Some I_ADD | OP_ADDU => Some I_ADDU
  | OP_SUB => Some I_SUB | OP_SUBU => Some I_SUBU | OP_AND => Some I_AND | OP_OR => Some I_OR
  | OP_XOR => Some I_XOR | OP_NOR => Some I_NOR | OP_SLT => Some I_SLT | OP_SLTU => Some I_SLTU
  | _ => None
  end.

Definition bcond_number (o : opcode) : option Z :=
  match o with
  | OP_BLTZ => Some I_BLTZ | OP_BGEZ => Some I_BGEZ | OP_BLTZAL => Some I_BLTZAL | OP_BGEZAL => Some I_BGEZAL
  | _ => None
  end.

Definition fmt_of (o : opcode) : format :=
  match o with SPECIAL => RFMT | OP_J | OP_JAL => JFMT | _ => IFMT end.

Lemma opTable_numbers : ∀ n o f, opTable !! n = Some (o, f) → f = fmt_of o ∧
  (∀ z, normal_number o = Some z → Z.of_nat n = z) ∧ special_number o = None ∧ bcond_number o = None.
Proof.
  assert (Hall : Forall (λ p, p.2.2 = fmt_of p.2.1 ∧
    (normal_number p.2.1 = None ∨ normal_number p.2.1 = Some (Z.of_nat p.1)) ∧
    special_number p.2.1 = None ∧ bcond_number p.2.1 = None) (imap (λ n e, (n, e)) opTable)).
  { repeat (constructor; [cbn; split; [done|split; [first [by left | by right]|done]]|]). constructor. }
  intros n o f Hn. eapply Forall_lookup_1 in Hall; [|by rewrite list_lookup_imap, Hn]. cbn in Hall.
  destruct Hall as (? & Hnum & ? & ?). split; [done|]. split; [|done]. intros z Hz. destruct Hnum; congruence.
Qed.

Lemma specialTable_numbers : ∀ n o, specialTable !! n = Some o →
  (∀ z, special_number o = Some z → Z.of_nat n = z) ∧ normal_number o = None ∧ bcond_number o = None.
Proof.
  assert (Hall : Forall (λ p, (special_number p.2 = None ∨ special_number p.2 = Some (Z.of_nat p.1)) ∧
    normal_number p.2 = None ∧ bcond_number p.2 = None) (imap (λ n e, (n, e)) specialTable)).
  { repeat (constructor; [cbn; split; [first [by left | by right]|done]|]). constructor. }
  intros n o Hn. eapply Forall_lookup_1 in Hall; [|by rewrite list_lookup_imap, Hn]. cbn in Hall.
  destruct Hall as (Hnum & ? & ?). split; [|done]. intros z Hz. destruct Hnum; congruence.
Qed.

(** What Decode says of a word, in terms of the fields of execute.c. *)
Record decoded (w : Z) (i : Instruction) : Prop := {
  dc_rs : Mips.rs i = rs w;
  dc_rt : Mips.rt i = rt w;
  dc_rd : Mips.rd i = rd w;
  dc_op : ∀ z, normal_number (opCode i) = Some z → Z.land (Z.shiftr w 26) 0x3f = z;
  dc_special : ∀ z, special_number (opCode i) = Some z →
    Z.land (Z.shiftr w 26) 0x3f = I_SPECIAL ∧ Z.land w 0x3f = z ∧ extra i = shamt w;
  dc_bcond : ∀ z, bcond_number (opCode i) = Some z →
    Z.land (Z.shiftr w 26) 0x3f = I_BCOND ∧ rt w = z;
  dc_extra : is_Some (normal_number (opCode i)) ∨ is_Some (bcond_number (opCode i)) →
    extra i = match opCode i with OP_J | OP_JAL => Z.land w 0x3ffffff | _ => immed w end
}.

(** The field of the branches that test a sign, in place. *)
Lemma rt_in_place w : Z.land (u32 w) 0x1f0000 = rt w * 2 ^ 16.
Proof.
  unfold rt. change 31 with (Z.ones 5). rewrite <- field_u32, <- Z.shiftl_mul_pow2 by lia.
  apply Z.bits_inj'. intros j Hj. change 2031616 with (Z.shiftl (Z.ones 5) 16).
  rewrite Z.land_spec, !Z.shiftl_spec by lia.
  destruct (decide (16 <= j)) as [Hle|Hlt].
  - rewrite Z.land_spec, Z.shiftr_spec by lia. by replace (j - 16 + 16) with j by lia.
  - rewrite !(Z.testbit_neg_r _ (j - 16)) by lia. apply andb_false_r.
Qed.

Definition bcond_opcode (f : Z) : opcode :=
  if f =? 0 then OP_BLTZ else if f =? 0x10000 then OP_BGEZ
  else if f =? 0x100000 then OP_BLTZAL else if f =? 0x110000 then OP_BGEZAL else OP_UNIMP.

Lemma bcond_opcode_cases r :
  normal_number (bcond_opcode (r * 2 ^ 16)) = None ∧ special_number (bcond_opcode (r * 2 ^ 16)) = None ∧
  (∀ z, bcond_number (bcond_opcode (r * 2 ^ 16)) = Some z → r = z) ∧
  (bcond_opcode (r * 2 ^ 16) ≠ OP_J ∧ bcond_opcode (r * 2 ^ 16) ≠ OP_JAL).
Proof.
  unfold bcond_opcode. change (2 ^ 16) with 65536.
  destruct (Z.eqb_spec (r * 65536) 0); [|destruct (Z.eqb_spec (r * 65536) 0x10000);
    [|destruct (Z.eqb_spec (r * 65536) 0x100000); [|destruct (Z.eqb_spec (r * 65536) 0x110000)]]];
    (split; [done|split; [done|split; [|done]]]); intros z [= <-];
    unfold I_BLTZ, I_BGEZ, I_BLTZAL, I_BGEZAL; lia.
Qed.

Lemma Decode_decoded w i : Decode (u32 w) = Done i → decoded w i.
Proof.
  intros Hd. unfold Decode in Hd. cbv zeta in Hd.
  pose proof (immediate_sext (u32 w)) as Hse. cbv zeta in Hse. rewrite Hse, sext16_u32, <- immed_sext in Hd.
  change 31 with (Z.ones 5) in Hd. change 63 with (Z.ones 6) in Hd. change 67108863 with (Z.ones 26) in Hd.
  rewrite !field_u32 in Hd by lia. rewrite !low_field_u32 in Hd by lia. rewrite rt_in_place in Hd.
  destruct (aget opTable _) as [[op f]| | | |] eqn:Hop; try done. cbn [mbind res_bind fst snd] in Hd.
  apply aget_Done in Hop as [Hpos Hop]. apply opTable_numbers in Hop as (-> & Hnum & Hsp & Hbc).
  assert (Hn : ∀ z, normal_number op = Some z → Z.land (Z.shiftr w 26) 0x3f = z).
  { intros z Hz. rewrite <- (Hnum z Hz). by rewrite Z2Nat.id. }
  case_decide as Hs.
  - subst op. destruct (aget specialTable _) as [op| | | |] eqn:Htab; try done.
    cbn [mbind res_bind] in Hd. injection Hd as <-. apply aget_Done in Htab as [Hpos' Htab].
    apply specialTable_numbers in Htab as (Hf & HnN & HbN).
    split; cbn [opCode Mips.rs Mips.rt Mips.rd extra]; try done.
    + by rewrite HnN.
    + intros z Hz. split; [by apply Hn|]. split; [|done]. rewrite <- (Hf z Hz). by rewrite Z2Nat.id.
    + by rewrite HbN.
    + rewrite HnN, HbN. intros [[? ?]|[? ?]]; done.
  - case_decide as Hb.
    + subst op. cbn [mbind res_bind] in Hd. fold (bcond_opcode (rt w * 2 ^ 16)) in Hd. injection Hd as <-.
      destruct (bcond_opcode_cases (rt w)) as (HbN & HbS & HbF & HbJ & HbK).
      split; cbn [opCode Mips.rs Mips.rt Mips.rd extra]; try done.
      * by rewrite HbN.
      * by rewrite HbS.
      * intros z Hz. split; [by apply Hn|by apply HbF].
      * intros _. by destruct (bcond_opcode _).
    + cbn [mbind res_bind] in Hd. injection Hd as <-.
      split; cbn [opCode Mips.rs Mips.rt Mips.rd extra]; try done.
      * by rewrite Hsp.
      * by rewrite Hbc.
      * by destruct op.
Qed.

(** ** The reference *)

(** The registers an instruction writes, in order, and where it jumps. *)
Record effect : Type := mkEff { writes : list (Z * Z); jump : option Z }.

Definition guard (b : bool) (e : effect) : option effect := if b then Some e else None.

Lemma guard_Some b e e' : guard b e = Some e' → b = true ∧ e' = e.
Proof. unfold guard. destruct b; naive_solver. Qed.

(** The value of register [r] after the writes. *)
Fixpoint updated (ws : list (Z * Z)) (rg : Z → Z) : Z → Z :=
  match ws with
  | [] => rg
  | (r, v) :: ws => updated ws (λ x, if x =? r then v else rg x)
  end.

Lemma updated_ext (P : Z → Prop) ws f g r :
  P r → (∀ x, P x → f x = g x) → updated ws f r = updated ws g r.
Proof.
  intros Hr. revert f g. induction ws as [|[d v] ws IH]; intros f g Hfg; cbn; [by apply Hfg|].
  apply IH. intros x Hx. by rewrite Hfg.
Qed.

Lemma updated_other ws f r : Forall (λ rv, rv.1 ≠ r) ws → updated ws f r = f r.
Proof.
  intros Hws. revert f. induction Hws as [|[d v] ws Hd _ IH]; intros f; [done|]. cbn in Hd |- *. rewrite IH.
  by destruct (Z.eqb_spec r d); subst.
Qed.

(** What [i] does when register [r] holds [rg r], where both programs do it.  The guards
    are: no overflow for ADD, ADDI and SUB, which trap on the simulated machine only; an
    immediate without its sign bit for ANDI, ORI and XORI, which execute.c sign-extends;
    OR only when rt adds nothing to rs, a shift to the right of a non-negative value, which
    the simulated machine computes differently; shift amounts below 32, a divisor that is
    not zero; factors below 2^16, beyond which execute.c loses carries; for JALR two
    different registers; and for branches and jumps an instruction that is not in the delay
    slot of another, and in the same segment as its successor. *)
Definition meaning (i : Instruction) (rg : Z → Z) : option effect :=
  let a := rg (Mips.rs i) in
  let b := rg (Mips.rt i) in
  let x := extra i in
  let npc := rg NextPCReg in
  let seq := npc =? s32 (rg PCReg + 4) in
  let to_rd v := mkEff [(Mips.rd i, v)] None in
  let to_rt v := mkEff [(Mips.rt i, v)] None in
  let branch ws (c : bool) := guard seq (mkEff ws (if c then Some (s32 (npc + IndexToAddr x)) else None)) in
  let link r := [(r, s32 (npc + 4))] in
  let linked := if Mips.rs i =? 31 then s32 (npc + 4) else a in
  let target := s32 (Z.lor (Z.land (u32 (s32 (npc + 4))) 0xf0000000) (x * 4)) in
  let segment := Z.land (u32 (s32 (npc + 4))) 0xf0000000 =? Z.land (u32 (rg PCReg)) 0xf0000000 in
  let short z := (0 <=? z) && (z <? 2 ^ 16) in
  let bit (c : bool) := if c then 1 else 0 in
  match opCode i with
  | OP_ADD => guard (bool_decide (is_s32 (a + b))) (to_rd (s32 (a + b)))
  | OP_ADDI => guard (bool_decide (is_s32 (a + x))) (to_rt (s32 (a + x)))
  | OP_SUB => guard (bool_decide (is_s32 (a - b))) (to_rd (s32 (a - b)))
  | OP_ADDIU => Some (to_rt (s32 (a + x)))
  | OP_ADDU => Some (to_rd (s32 (a + b)))
  | OP_SUBU => Some (to_rd (s32 (a - b)))
  | OP_AND => Some (to_rd (Z.land a b))
  | OP_XOR => Some (to_rd (Z.lxor a b))
  | OP_NOR => Some (to_rd (Z.lnot (Z.lor a b)))
  | OP_OR => guard (Z.lor a b =? a) (to_rd a)
  | OP_ANDI => guard (0 <=? x) (to_rt (Z.land a x))
  | OP_ORI => guard (0 <=? x) (to_rt (Z.lor a x))
  | OP_XORI => guard (0 <=? x) (to_rt (Z.lxor a x))
  | OP_LUI => Some (to_rt (s32 (Z.shiftl x 16)))
  | OP_SLL => Some (to_rd (s32 (Z.shiftl b x)))
  | OP_SRA => Some (to_rd (Z.shiftr b x))
  | OP_SRL => guard (0 <=? b) (to_rd (Z.shiftr b x))
  | OP_SLLV => guard (shift_ok a) (to_rd (s32 (Z.shiftl b a)))
  | OP_SRAV => guard (shift_ok a) (to_rd (Z.shiftr b a))
  | OP_SRLV => guard (shift_ok a && (0 <=? b)) (to_rd (Z.shiftr b a))
  | OP_SLT => Some (to_rd (bit (a <? b)))
  | OP_SLTU => Some (to_rd (bit (u32 a <? u32 b)))
  | OP_SLTI => Some (to_rt (bit (a <? x)))
  | OP_SLTIU => Some (to_rt (bit (u32 a <? u32 x)))
  | OP_MFHI => Some (to_rd (rg HiReg))
  | OP_MFLO => Some (to_rd (rg LoReg))
  | OP_MTHI => Some (mkEff [(HiReg, a)] None)
  | OP_MTLO => Some (mkEff [(LoReg, a)] None)
  | OP_MULT | OP_MULTU => guard (short a && short b) (mkEff [(HiReg, 0); (LoReg, s32 (a * b))] None)
  | OP_DIV =>
      guard (negb (b =? 0) && negb ((a =? INT_MIN) && (b =? -1)))
        (mkEff [(LoReg, cdiv a b); (HiReg, cmod a b)] None)
  | OP_DIVU =>
      guard (negb (b =? 0))
        (mkEff [(LoReg, s32 (cdiv (u32 a) (u32 b))); (HiReg, s32 (cmod (u32 a) (u32 b)))] None)
  | OP_BEQ => branch [] (a =? b)
  | OP_BNE => branch [] (negb (a =? b))
  | OP_BLEZ => branch [] (a <=? 0)
  | OP_BGTZ => branch [] (0 <? a)
  | OP_BLTZ => branch [] (a <? 0)
  | OP_BGEZ => branch [] (0 <=? a)
  | OP_BLTZAL => branch (link 31) (linked <? 0)
  | OP_BGEZAL => branch (link 31) (0 <=? linked)
  | OP_J => guard (seq && segment) (mkEff [] (Some target))
  | OP_JAL => guard (seq && segment) (mkEff (link 31) (Some target))
  | OP_JR => Some (mkEff [] (Some a))
  | OP_JALR => guard (seq && negb (Mips.rs i =? Mips.rd i)) (mkEff (link (Mips.rd i)) (Some a))
  | _ => None
  end.

(** ** The simulated machine *)

Definition mips_writes (ws : list (Z * Z)) (m : Machine.t) : Machine.t :=
  foldl (λ m rv, set_reg m rv.1 rv.2) m ws.

Definition writable (rv : Z * Z) : Prop := 0 ≤ rv.1 < PCReg.

Lemma mips_writes_reg ws m r :
  Z.of_nat (length (registers m)) = NumTotalRegs → Forall writable ws → 0 ≤ r →
  reg (mips_writes ws m) r = updated ws (reg m) r.
Proof.
  intros Hl Hws Hr. revert m Hl.
  induction Hws as [|[d v] ws Hd _ IH]; intros m Hl; [done|]. unfold writable, PCReg in Hd. cbn in Hd |- *.
  unfold mips_writes in *. rewrite IH by (cbn; by rewrite length_insert). apply (updated_ext (λ x, 0 ≤ x)); [done|]. intros x Hx.
  destruct (Z.eqb_spec x d) as [->|Hn].
  - apply reg_set_reg_eq; [done|]. unfold NumTotalRegs. lia.
  - apply reg_set_reg_ne; [lia|done|done].
Qed.

Lemma sext16_range w : - 2 ^ 15 ≤ sext16 w < 2 ^ 15.
Proof. unfold sext16. change (2 ^ 15) with 32768. change (2 ^ 16) with 65536. int_lia. Qed.

Lemma low_imm x : 0 ≤ x < 2 ^ 15 → Z.land x 0xffff = x.
Proof. intros Hx. rewrite low_16. apply Z.mod_small. lia. Qed.

Lemma IndexToAddr_u32 x : 0 ≤ x < 2 ^ 26 → u32 (IndexToAddr x) = x * 4.
Proof. intros Hx. unfold IndexToAddr. rewrite Z.shiftl_mul_pow2, u32_s32 by lia. apply u32_id. unfold_int. lia. Qed.

(** Products of two halfwords. *)
Lemma Mult_short a b sg : 0 ≤ a < 2 ^ 16 → 0 ≤ b < 2 ^ 16 → Mult a b sg = (0, s32 (a * b)).
Proof.
  intros Ha Hb. assert (Hp : 0 ≤ a * b < 2 ^ 32) by nia.
  assert (Has : is_s32 a) by (unfold_int; lia). assert (Hbs : is_s32 b) by (unfold_int; lia).
  destruct (Mult a b sg) as [hi lo] eqn:E.
  assert (Hr : is_s32 hi ∧ is_s32 lo).
  { unfold Mult in E. case_match; [simplify_eq; split; unfold_int; lia|].
    repeat case_match; simplify_eq; split; apply s32_range. }
  destruct Hr as [Hhi Hlo]. pose proof (u32_range lo) as Hu.
  assert (hi = 0 ∧ u32 lo = a * b) as [-> Hl].
  { destruct sg.
    - pose proof (Mult_signed a b Has Hbs) as Hm. rewrite E in Hm. unfold is_u32 in Hu. lia.
    - pose proof (Mult_unsigned a b Has Hbs) as Hm. rewrite E in Hm. rewrite (u32_id a), (u32_id b) in Hm by (unfold_int; lia).
      pose proof (u32_range hi) as Hh. unfold is_u32 in Hu, Hh. assert (u32 hi = 0) by lia.
      split; [|lia]. rewrite <- (s32_id hi Hhi), <- (s32_u32 hi). by replace (u32 hi) with 0. }
  by rewrite <- Hl, s32_u32, s32_id.
Qed.

Lemma add_no_overflow a b : is_s32 a → is_s32 b → bool_decide (is_s32 (a + b)) = true →
  (negb (sign_set (Z.lxor a b)) && sign_set (Z.lxor a (s32 (a + b)))) = false.
Proof.
  intros Ha Hb Hs. apply bool_decide_eq_true in Hs. apply not_true_iff_false. rewrite add_overflow_test by done. tauto.
Qed.

Lemma sub_no_overflow a b : is_s32 a → is_s32 b → bool_decide (is_s32 (a - b)) = true →
  (sign_set (Z.lxor a b) && sign_set (Z.lxor a (s32 (a - b)))) = false.
Proof.
  intros Ha Hb Hs. apply bool_decide_eq_true in Hs. apply not_true_iff_false. rewrite sub_overflow_test by done. tauto.
Qed.

Lemma u32_zero z : is_s32 z → (u32 z =? 0) = (z =? 0).
Proof. intros Hz. destruct (Z.eqb_spec z 0) as [->|Hn]; [done|]. apply Z.eqb_neq. revert Hz Hn. int_lia. Qed.

Lemma low_26_range v : 0 ≤ Z.land v 0x3ffffff < 2 ^ 26.
Proof. apply (land_ones_range v 26). lia. Qed.

Lemma default_if (c : bool) (x d : Z) : (if c then x else d) = default d (if c then Some x else None).
Proof. by destruct c. Qed.

Lemma shift_land a : shift_ok a = true → Z.land a 0x1f = a.
Proof. unfold shift_ok. intros Ha. simplify_tests. rewrite low_5. apply Z.mod_small. lia. Qed.

Lemma sign_clear x : is_s32 x → negb (sign_set x) = (0 <=? x).
Proof. intros Hx. rewrite sign_set_spec by done. by rewrite Z.ltb_antisym, negb_involutive. Qed.

Lemma reg_link m r v : Z.of_nat (length (registers m)) = NumTotalRegs → 0 ≤ r < 32 →
  reg (set_reg m R31 v) r = if r =? 31 then v else reg m r.
Proof.
  intros Hl Hr. destruct (Z.eqb_spec r 31) as [->|Hn].
  - by apply reg_set_reg_eq.
  - apply reg_set_reg_ne; unfold R31; lia.
Qed.

Section mips.
Context (be : bool) {K : Type} (setStatus : MachineStatus → K → K).
Context (ExceptionHandler : ExceptionType → K → Machine.t → res (K * Machine.t)).

Abbreviation execute := (Mips.execute be setStatus ExceptionHandler).

Context (w : Z) (i : Instruction) (k : K) (m : Machine.t).
Context (Hm : wf m) (Hi : instr_ok i) (Hd : decoded w i).

Lemma imm_range : is_Some (normal_number (opCode i)) → opCode i ≠ OP_J → opCode i ≠ OP_JAL →
  - 2 ^ 15 ≤ extra i < 2 ^ 15.
Proof.
  intros Hn H1 H2. rewrite (dc_extra w i Hd (or_introl Hn)).
  rewrite immed_sext. pose proof (sext16_range w). by destruct (opCode i).
Qed.

Lemma execute_meaning e :
  meaning i (reg m) = Some e →
  execute i k m (s32 (reg m NextPCReg + 4)) =
    Done (Continue k (mips_writes (writes e) m) 0 0 (default (s32 (reg m NextPCReg + 4)) (jump e))).
Proof.
  intros He. pose proof (reg_s32 m (Mips.rs i) Hm) as Ha. pose proof (reg_s32 m (Mips.rt i) Hm) as Hb.
  pose proof (wf_regs_length m Hm) as Hl. pose proof imm_range as Hx. pose proof (dc_extra w i Hd) as Hex.
  destruct Hi as (Hrs & Hrt & Hrd & Hxs). unfold meaning in He. unfold Mips.execute.
  destruct (opCode i) eqn:E; try done;
    first [apply guard_Some in He as [Hg ->]|injection He as <-]; cbn [writes jump mips_writes foldl fst snd];
    unfold exec_ADDU_AND, exec_LUI, exec_OR, exec_SLL, exec_SLT, exec_SR, exec_SUB, exec_XOR, exec_HiLo, exec_DIV,
      exec_branch, exec_jump, assign; rewrite ?E; try reflexivity;
    try (rewrite default_if; reflexivity); try (simplify_tests; rewrite shift_land by done; reflexivity);
    try (rewrite low_imm by (destruct Hx; [by eexists|done..|simplify_tests; lia]); reflexivity);
    try (rewrite reg_link, reg_set_reg_ne by done);
    try (rewrite ?sign_clear, ?sign_set_spec by (repeat case_match; by auto using s32_range); by rewrite default_if);
    try (rewrite IndexToAddr_u32 by (rewrite Hex by (left; by eexists); apply low_26_range); reflexivity).
  - unfold exec_ADD. by rewrite add_no_overflow.
  - unfold exec_ADDI. rewrite Z.add_comm, Z.lxor_comm in *. by rewrite add_no_overflow.
  - apply andb_true_iff in Hg as [Hz%negb_true_iff Hm1%negb_true_iff]. rewrite Hz, Hm1.
    by rewrite !reg_set_reg_ne by (unfold LoReg; lia).
  - apply negb_true_iff in Hg. by rewrite u32_zero, Hg by done.
  - apply andb_true_iff in Hg as [_ Hn%negb_true_iff%Z.eqb_neq]. by rewrite reg_set_reg_ne by lia.
  - simplify_tests. by rewrite Mult_short by lia.
  - simplify_tests. by rewrite Mult_short by lia.
  - by rewrite Z.lor_diag.
  - by rewrite sub_no_overflow.
Qed.
End mips.

(** ** The stand-alone interpreter *)

Definition exec_write (s : t) (rv : Z * Z) : t :=
  if rv.1 =? HiReg then set_HI s rv.2 else if rv.1 =? LoReg then set_LO s rv.2 else set s rv.1 rv.2.

Definition exec_effect (e : effect) (s : t) : t :=
  let s := foldl exec_write s (writes e) in
  match jump e with Some a => set_npc s a | None => s end.

Lemma exec_write_gp s r v : 0 ≤ r < 32 → exec_write s (r, v) = set s r v.
Proof.
  intros Hr. unfold exec_write, HiReg, LoReg. cbn.
  destruct (Z.eqb_spec r 32); [lia|]. destruct (Z.eqb_spec r 33); [lia|done].
Qed.

Lemma link_in_sequence npc xpc : (npc =? s32 (xpc + 4)) = true → s32 (xpc + 8) = s32 (npc + 4).
Proof. intros ->%Z.eqb_eq. int_lia. Qed.

Lemma branch_in_sequence w npc xpc c s : (npc =? s32 (xpc + 4)) = true →
  branch w xpc c s =
    next match (if c then Some (s32 (npc + IndexToAddr (immed w))) else None) with Some a => set_npc s a | None => s end.
Proof.
  intros ->%Z.eqb_eq. unfold branch. destruct c; [|done]. unfold IndexToAddr.
  replace (s32 (s32 (xpc + 4) + s32 (Z.shiftl (immed w) 2))) with (s32 (xpc + 4 + s32 (Z.shiftl (immed w) 2))); [done|].
  generalize (s32 (Z.shiftl (immed w) 2)). intros z. int_lia.
Qed.

Lemma get_link s r v : length (Reg s) = 32%nat → 0 ≤ r → get (set s 31 v) r = if r =? 31 then v else get s r.
Proof.
  intros Hl Hr. unfold get, set. cbn [Reg]. destruct (Z.eqb_spec r 31) as [->|Hn].
  - by rewrite list_lookup_insert_eq by lia.
  - by rewrite list_lookup_insert_ne by lia.
Qed.

Lemma jump_target_segment w xpc seg :
  (Z.land (u32 seg) 0xf0000000 =? Z.land (u32 xpc) 0xf0000000) = true →
  jump_target w xpc = s32 (Z.lor (Z.land (u32 seg) 0xf0000000) (Z.land w 0x3ffffff * 4)).
Proof. intros Hs%Z.eqb_eq. unfold jump_target. by rewrite Hs, Z.shiftl_mul_pow2. Qed.

Lemma high_short a b : 0 ≤ a < 2 ^ 16 → 0 ≤ b < 2 ^ 16 → high a b = 0.
Proof.
  intros Ha Hb. unfold high.
  assert (H0 : ∀ z, 0 ≤ z < 2 ^ 16 → Z.land (Z.shiftr z 16) 0xffff = 0).
  { intros z Hz. rewrite Z.shiftr_div_pow2, Z.div_small by lia. done. }
  by rewrite (H0 a), (H0 b) by done.
Qed.

Lemma mult_short s a b : 0 ≤ a < 2 ^ 16 → 0 ≤ b < 2 ^ 16 → mult s a b = set_HI (set_LO s (s32 (a * b))) 0.
Proof.
  intros Ha Hb. unfold mult. destruct (Z.ltb_spec a 0); [lia|]. destruct (Z.ltb_spec b 0); [lia|].
  by rewrite high_short.
Qed.

Lemma logical_shift b n : is_s32 b → 0 <= n → (0 <=? b) = true → s32 (Z.shiftr (u32 b) n) = Z.shiftr b n.
Proof.
  intros Hb Hn Hp%Z.leb_le. rewrite u32_small by (revert Hb; unfold_int; lia). apply s32_id, shiftr_s32; done.
Qed.

Lemma lui_immed w : s32 (Z.shiftl w 16) = s32 (Z.shiftl (immed w) 16).
Proof.
  rewrite immed_sext, !Z.shiftl_mul_pow2 by lia. unfold sext16.
  change (2 ^ 15) with 32768. change (2 ^ 16) with 65536. int_lia.
Qed.

(** Decides the tests on opcodes that are known. *)
Ltac decide_opcodes :=
  unfold I_SPECIAL, I_BCOND, I_J, I_JAL, I_BEQ, I_BNE, I_BLEZ, I_BGTZ, I_ADDI, I_ADDIU, I_SLTI, I_SLTIU, I_ANDI, I_ORI,
    I_XORI, I_LUI, I_SLL, I_SRL, I_SRA, I_SLLV, I_SRLV, I_SRAV, I_JR, I_JALR, I_SYSCALL, I_BREAK, I_MFHI, I_MTHI,
    I_MFLO, I_MTLO, I_MULT, I_MULTU, I_DIV, I_DIVU, I_ADD, I_ADDU, I_SUB, I_SUBU, I_AND, I_OR, I_XOR, I_NOR, I_SLT,
    I_SLTU, I_BLTZ, I_BGEZ, I_BLTZAL, I_BGEZAL in *;
  repeat match goal with
  | |- context [?a =? ?b] => first [change (a =? b) with false | change (a =? b) with true]
  end; cbn [orb].

Section stand_alone.
Context (unix : Z → Z → Z → Z → memory → Z * memory).
Context (w xpc : Z) (i : Instruction) (s : t) (rg : Z → Z).
Context (Hi : instr_ok i) (Hd : decoded w i).
Context (Hregs : ∀ r, 0 ≤ r < 32 → get s r = rg r) (Hlen : length (Reg s) = 32%nat).
Context (Hhi : HI s = rg HiReg) (Hlo : LO s = rg LoReg) (Hpc : xpc = rg PCReg).
Context (Hs32 : ∀ r, 0 ≤ r < 32 → is_s32 (rg r)).

Lemma exec_meaning e : meaning i rg = Some e → exec unix w xpc s = next (exec_effect e s).
Proof.
  intros He. destruct Hd as [Ers Ert Erd Hop Hsp Hbc Hex]. destruct Hi as (Hrs & Hrt & Hrd & Hxs).
  pose proof (Hs32 _ Hrs) as Ha. pose proof (Hs32 _ Hrt) as Hb.
  subst xpc. pose proof (Hregs _ Hrs) as Gs. pose proof (Hregs _ Hrt) as Gt. rewrite Ers in Gs. rewrite Ert in Gt.
  unfold meaning in He. unfold exec.
  destruct (opCode i) eqn:E; try done;
    first [apply guard_Some in He as [Hg ->]|injection He as <-];
    try (destruct (Hsp _ eq_refl) as (Eop & Efn & Esh); rewrite Eop; decide_opcodes; unfold special; rewrite Efn; decide_opcodes);
    try (destruct (Hbc _ eq_refl) as (Eop & Efn); rewrite Eop; decide_opcodes; unfold bcond; rewrite Efn; decide_opcodes);
    try (rewrite (Hop _ eq_refl); decide_opcodes); cbv zeta; unfold exec_effect; cbn [writes jump foldl];
    rewrite ?exec_write_gp by lia; rewrite ?Ers, ?Ert, ?Erd, ?Esh, <- ?Hhi, <- ?Hlo in *;
    try (rewrite Hex by eauto); rewrite ?Gs, ?Gt; try reflexivity;
    try (apply branch_in_sequence, Hg); try (by rewrite Hg).
  - rewrite (link_in_sequence _ _ Hg), get_link, Gs by lia. apply branch_in_sequence, Hg.
  - rewrite (link_in_sequence _ _ Hg), get_link, Gs by lia. apply branch_in_sequence, Hg.
  - apply andb_true_iff in Hg as [Hz%negb_true_iff Hm1%negb_true_iff]. by rewrite Hz, Hm1.
  - apply negb_true_iff in Hg. by rewrite Hg.
  - apply andb_true_iff in Hg as [_ Hg]. by rewrite (jump_target_segment _ _ _ Hg).
  - apply andb_true_iff in Hg as [Hq Hg]. by rewrite (jump_target_segment _ _ _ Hg), (link_in_sequence _ _ Hq).
  - apply andb_true_iff in Hg as [Hq _]. by rewrite (link_in_sequence _ _ Hq).
  - by rewrite lui_immed.
  - simplify_tests. by rewrite mult_short.
  - simplify_tests. by rewrite high_short.
  - simplify_tests. by rewrite Hg.
  - by rewrite logical_shift by (done || apply land_31).
  - apply andb_true_iff in Hg as [Hs Hn]. rewrite Hs. unfold shift_ok in Hs. simplify_tests.
    by rewrite logical_shift by (done || lia || by apply Z.leb_le).
Qed.
End stand_alone.

(** ** One turn of each *)

(** The registers of the stand-alone interpreter by the numbers of the simulated one. *)
Definition view (s : t) (r : Z) : Z :=
  if r =? HiReg then HI s else if r =? LoReg then LO s
  else if r =? PCReg then pc s else if r =? NextPCReg then npc s
  else if r =? 0 then 0 else get s r.

Definition agrees (s : t) (m : Machine.t) : Prop :=
  length (Reg s) = 32%nat ∧ ∀ r, 0 ≤ r ≤ NextPCReg → view s r = reg m r.

(** The registers after an instruction that has [e] for its meaning. *)
Definition after (e : effect) (rg : Z → Z) (r : Z) : Z :=
  if r =? 0 then 0
  else if r =? PCReg then rg NextPCReg
  else if r =? NextPCReg then default (s32 (rg NextPCReg + 4)) (jump e)
  else updated (writes e) rg r.

Lemma meaning_writable i rg e : instr_ok i → meaning i rg = Some e → Forall writable (writes e).
Proof.
  intros (Hrs & Hrt & Hrd & _) He. unfold meaning in He.
  destruct (opCode i); try done; first [apply guard_Some in He as [_ ->]|injection He as <-];
    cbn [writes]; repeat constructor; unfold writable, PCReg, HiReg, LoReg; cbn; lia.
Qed.

Lemma view_exec_write s d v x : length (Reg s) = 32%nat → 0 ≤ d < PCReg → 0 < x ≤ NextPCReg →
  view (exec_write s (d, v)) x = if x =? d then v else view s x.
Proof.
  unfold view, exec_write, HiReg, LoReg, PCReg, NextPCReg. cbn [fst snd]. intros Hl Hd Hx.
  destruct (Z.eqb_spec x d) as [->|Hn].
  - destruct (Z.eqb_spec d 32); [done|]. destruct (Z.eqb_spec d 33); [done|].
    destruct (Z.eqb_spec d 34); [lia|]. destruct (Z.eqb_spec d 35); [lia|]. destruct (Z.eqb_spec d 0); [lia|].
    unfold get, set. cbn [Reg]. by rewrite list_lookup_insert_eq by lia.
  - destruct (Z.eqb_spec d 32), (Z.eqb_spec d 33), (Z.eqb_spec x 32), (Z.eqb_spec x 33); try done; try lia.
    unfold get, set. cbn [Reg pc npc]. by rewrite list_lookup_insert_ne by lia.
Qed.

Lemma exec_write_length s rv : length (Reg (exec_write s rv)) = length (Reg s).
Proof. unfold exec_write. repeat case_match; cbn [Reg set set_HI set_LO]; by rewrite ?length_insert. Qed.

Lemma view_exec_writes ws s r :
  Forall writable ws → length (Reg s) = 32%nat → 0 < r ≤ NextPCReg →
  view (foldl exec_write s ws) r = updated ws (view s) r.
Proof.
  intros Hws Hl Hr. revert s Hl. induction Hws as [|[d v] ws Hd _ IH]; intros s Hl; [done|]. cbn [foldl updated].
  rewrite IH by (by rewrite exec_write_length). apply (updated_ext (λ x, 0 < x ≤ NextPCReg)); [done|].
  intros x Hx. by apply view_exec_write.
Qed.

Lemma exec_writes_keep ws s :
  length (Reg (foldl exec_write s ws)) = length (Reg s) ∧ mem (foldl exec_write s ws) = mem s.
Proof.
  revert s. induction ws as [|rv ws IH]; intros s; [done|]. cbn [foldl].
  destruct (IH (exec_write s rv)) as [-> ->]. split; [apply exec_write_length|].
  unfold exec_write. by repeat case_match.
Qed.

Lemma written_gp ws r : Forall writable ws → PCReg ≤ r → Forall (λ rv, rv.1 ≠ r) ws.
Proof. intros Hws Hr. eapply Forall_impl; [done|]. intros rv. unfold writable. lia. Qed.

(** The effect on the state a turn has before it: the counters advanced, register 0 cleared. *)
Definition advanced (s : t) : t := set (mkE (Reg s) (HI s) (LO s) (mem s) (npc s) (s32 (npc s + 4))) 0 0.

Lemma exec_effect_view e s r :
  Forall writable (writes e) → length (Reg s) = 32%nat → 0 ≤ r ≤ NextPCReg →
  view (exec_effect e (advanced s)) r = after e (view s) r.
Proof.
  intros Hw Hl Hr. unfold after. destruct (Z.eqb_spec r 0) as [->|Hn]; [done|].
  assert (Hl' : length (Reg (advanced s)) = 32%nat) by (cbn; by rewrite length_insert).
  pose proof (view_exec_writes (writes e) (advanced s) r Hw Hl') as Hv.
  assert (Hsame : ∀ x, 0 < x < PCReg → view (advanced s) x = view s x).
  { unfold PCReg. intros x Hx. unfold view, HiReg, LoReg, PCReg, NextPCReg, advanced, get, set. cbn [Reg HI LO pc npc].
    destruct (Z.eqb_spec x 34), (Z.eqb_spec x 35); try lia. by rewrite list_lookup_insert_ne by lia. }
  destruct (Z.eqb_spec r PCReg) as [->|Hp]; [|destruct (Z.eqb_spec r NextPCReg) as [->|Hq]].
  - transitivity (view (foldl exec_write (advanced s) (writes e)) PCReg); [unfold exec_effect; by destruct (jump e)|].
    rewrite Hv by (unfold PCReg, NextPCReg; lia). by rewrite updated_other by (apply written_gp; done).
  - unfold exec_effect. destruct (jump e); [done|]. rewrite Hv by (unfold NextPCReg; lia).
    by rewrite updated_other by (apply written_gp; done).
  - unfold NextPCReg, PCReg in *.
    transitivity (view (foldl exec_write (advanced s) (writes e)) r).
    { unfold exec_effect. destruct (jump e); [|done]. unfold view, NextPCReg. destruct (Z.eqb_spec r 35); [lia|done]. }
    rewrite Hv by lia. apply (updated_ext (λ x, 0 < x < 34)); [lia|done].
Qed.

Section turns.
Context (be : bool) {K : Type} (setStatus : MachineStatus → K → K).
Context (ExceptionHandler : ExceptionType → K → Machine.t → res (K * Machine.t)).
Context (unix : Z → Z → Z → Z → memory → Z * memory).

Lemma finish_after (k : K) m e :
  inv m → reg m LoadReg = 0 → Forall writable (writes e) → inv (mips_writes (writes e) m) →
  is_s32 (default (s32 (reg m NextPCReg + 4)) (jump e)) →
  ∃ m', finish k (mips_writes (writes e) m) 0 0 (default (s32 (reg m NextPCReg + 4)) (jump e)) = Done (k, m') ∧
    inv0 m' ∧ reg m' LoadReg = 0 ∧ mainMemory m' = mainMemory (mips_writes (writes e) m) ∧
    ∀ r, 0 ≤ r ≤ NextPCReg → reg m' r = after e (reg m) r.
Proof.
  intros Hi H0 Hw Hiw Hpc. set (m2 := mips_writes (writes e) m) in *.
  assert (Hreg : ∀ r, 0 ≤ r → reg m2 r = updated (writes e) (reg m) r).
  { intros r Hr. apply mips_writes_reg; [apply Hi|done|done]. }
  destruct (DelayedLoad_spec m2 0 0 Hiw) as (m3 & Hdl & [Hi3 H03] & Hmem & Hlr & _ & Hrest); [done|unfold_int; lia|].
  destruct (finish_ok k m2 0 0 _ Hiw ltac:(done) ltac:(unfold_int; lia) Hpc) as (m' & Hf & Hinv).
  exists m'. split; [done|]. split; [done|]. unfold finish in Hf. rewrite Hdl in Hf. cbn [mbind res_bind] in Hf.
  injection Hf as <-. pose proof (wf_regs_length m3 (proj1 Hi3)) as Hl3.
  assert (Hkeep : ∀ r, 0 < r < LoadReg → reg m3 r = updated (writes e) (reg m) r).
  { intros r Hr. rewrite Hrest by done. rewrite (Hreg LoadReg) by done.
    rewrite updated_other by (apply written_gp; done). rewrite H0, decide_False by lia. apply Hreg. lia. }
  split; [by rewrite !reg_set_reg_ne by done|]. split; [done|]. intros r Hr. unfold after.
  unfold PCReg, NextPCReg, PrevPCReg, LoadReg in *.
  destruct (Z.eqb_spec r 0) as [->|Hn]; [by rewrite !reg_set_reg_ne by done|].
  destruct (Z.eqb_spec r 35) as [->|Hq].
  { rewrite reg_set_reg_eq; [done|cbn; by rewrite !length_insert|done]. }
  rewrite (reg_set_reg_ne _ 35) by lia.
  destruct (Z.eqb_spec r 34) as [->|Hp].
  - rewrite reg_set_reg_eq; [|cbn; by rewrite !length_insert|done]. rewrite reg_set_reg_ne, Hkeep by lia.
    by rewrite updated_other by (apply written_gp; done).
  - rewrite !reg_set_reg_ne by lia. apply Hkeep. lia.
Qed.

Lemma turn_after s w i e :
  ifetch (pc s) (mem s) = Done w → decoded w i → Decode (u32 w) = Done i → instr_ok i → length (Reg s) = 32%nat →
  (∀ r, 0 ≤ r < 32 → is_s32 (view s r)) → meaning i (view s) = Some e →
  ∃ s', turn unix s = Done (Next s') ∧ length (Reg s') = 32%nat ∧ mem s' = mem s ∧
    ∀ r, 0 ≤ r ≤ NextPCReg → view s' r = after e (view s) r.
Proof.
  intros Hf Hd Hdec Hi Hl Hs He. pose proof (meaning_writable i _ e Hi He) as Hw.
  assert (Hl' : length (Reg (advanced s)) = 32%nat) by (cbn; by rewrite length_insert).
  unfold turn. cbn [mem]. rewrite Hf. cbn [mbind res_bind]. fold (advanced s).
  destruct (Z.eqb_spec w 0) as [->|Hn].
  - exists (advanced s). split; [done|]. split; [done|]. split; [done|]. intros r Hr.
    rewrite <- (exec_effect_view e s r Hw Hl Hr).
    vm_compute in Hdec. injection Hdec as <-. cbn in He. injection He as <-.
    unfold exec_effect. cbn [jump writes foldl]. destruct (decide (r = 0)) as [->|Hr0]; [done|].
    rewrite view_exec_write by (done || lia). by rewrite (proj2 (Z.eqb_neq r 0)).
  - exists (exec_effect e (advanced s)). split; [|split; [|split]].
    + eapply (exec_meaning unix w (pc s) i (advanced s) (view s)); try done. intros r Hr.
      unfold view, get, advanced, set, HiReg, LoReg, PCReg, NextPCReg. cbn [Reg].
      destruct (Z.eqb_spec r 32), (Z.eqb_spec r 33), (Z.eqb_spec r 34), (Z.eqb_spec r 35); try lia.
      destruct (Z.eqb_spec r 0) as [->|Hr0]; [by rewrite list_lookup_insert_eq by lia|].
      by rewrite list_lookup_insert_ne by lia.
    + unfold exec_effect. destruct (exec_writes_keep (writes e) (advanced s)) as [Hk _].
      destruct (jump e); cbn [Reg set_npc]; by rewrite Hk.
    + unfold exec_effect. destruct (exec_writes_keep (writes e) (advanced s)) as [_ Hk]. by destruct (jump e).
    + intros r Hr. by apply exec_effect_view.
Qed.
Context (Hh : handler_ok ExceptionHandler).

(** The reference depends on the registers up to NextPCReg only. *)
Lemma meaning_ext i f g :
  instr_ok i → (∀ r, 0 ≤ r ≤ NextPCReg → f r = g r) → meaning i f = meaning i g.
Proof.
  intros (Hrs & Hrt & Hrd & _) Hfg. unfold meaning, NextPCReg in *.
  by rewrite (Hfg (Mips.rs i)), (Hfg (Mips.rt i)), (Hfg 35), (Hfg PCReg), (Hfg HiReg), (Hfg LoReg)
    by (unfold PCReg, HiReg, LoReg; lia).
Qed.

Lemma after_ext e f g r :
  (∀ r, 0 ≤ r ≤ NextPCReg → f r = g r) → 0 ≤ r ≤ NextPCReg → after e f r = after e g r.
Proof.
  intros Hfg Hr. unfold after. rewrite (Hfg NextPCReg) by (unfold NextPCReg; lia).
  repeat case_match; try done. apply (updated_ext (λ x, 0 ≤ x ≤ NextPCReg)); done.
Qed.

(** An instruction of the simulated machine that has a meaning. *)
Lemma OneInstruction_after (k : K) m w k1 m1 i e :
  inv m → reg m LoadReg = 0 →
  Machine.ReadMem be setStatus ExceptionHandler (reg m PCReg) 4 k m = Done (Some w, k1, m1) →
  Decode (u32 w) = Done i → instr_ok i → handled (opCode i) = true → (is_shift (opCode i) = true → 0 ≤ extra i < 32) →
  meaning i (reg m) = Some e →
  ∃ m', OneInstruction be setStatus ExceptionHandler k m = Done (k, m') ∧ inv0 m' ∧ reg m' LoadReg = 0 ∧
    ∀ r, 0 ≤ r ≤ NextPCReg → reg m' r = after e (reg m) r.
Proof.
  intros Hi Hld Hrd Hdec Hio Hop Hsh He.
  destruct (ReadMem_ok be setStatus ExceptionHandler Hh (reg m PCReg) 4 k m Hi) as (r & k2 & m2 & Hrd' & Hr);
    [apply reg_s32, Hi|done|]. rewrite Hrd in Hrd'. injection Hrd' as <- <- <-.
  destruct Hr as (Hi1 & Hw & Hregs & ->).
  assert (Hsame : ∀ r, reg m1 r = reg m r) by (intros r; unfold reg; by rewrite Hregs).
  assert (He1 : meaning i (reg m1) = Some e) by (by rewrite (meaning_ext i _ (reg m))).
  pose proof (execute_meaning be setStatus ExceptionHandler w i k m1 (proj1 Hi1) Hio (Decode_decoded w i Hdec) e He1) as Hx.
  assert (Hok : flow_ok (Mips.execute be setStatus ExceptionHandler i k m1 (s32 (reg m1 NextPCReg + 4)))).
  { apply execute_ok; try done; [apply s32_range| |].
    - intros [E|E]; rewrite E in Hsh; by apply Hsh.
    - unfold hazard. unfold meaning in He1. destruct (opCode i); try done.
      apply guard_Some in He1 as [Hg _]. by apply andb_true_iff in Hg as [_ Hg%negb_true_iff]. }
  rewrite Hx in Hok. cbn [flow_ok] in Hok. destruct Hok as (Hi2 & _ & _ & Hpc).
  destruct (finish_after k m1 e Hi1) as (m' & Hfin & Hinv' & Hld' & _ & Hreg'); try done;
    [by rewrite Hsame|by eapply meaning_writable|].
  exists m'. split; [|split; [done|split; [done|]]].
  - unfold OneInstruction. rewrite Hrd. cbn [mbind res_bind]. rewrite Hdec. cbn [mbind res_bind].
    rewrite Hx. cbn [mbind res_bind]. exact Hfin.
  - intros r Hr. rewrite Hreg' by done. apply after_ext; [|done]. intros x _. apply Hsame.
Qed.

(** C20: The two MIPS interpreters of the repository agree. Take the simulated machine of
    mipssim.cc and the stand-alone interpreter of bin/execute.c with the same registers,
    HI, LO and program counters, no delayed load under way, and the same word at the program
    counter. If that word is an instruction to which the reference gives a meaning (all
    register, shift, multiply, divide, branch and jump instructions, each under the condition
    at which the programs do the same), then OneInstruction and one turn of runprogram both
    end normally, without an exception or an exit, both leave in every register the value
    the reference gives, so that they agree again, and neither starts a delayed load nor
    writes memory on the stand-alone side. *)
Theorem interpreters_agree (k : K) (m : Machine.t) (s : t) (w : Z) (k1 : K) (m1 : Machine.t) (i : Instruction)
    (e : effect) :
  inv0 m → reg m LoadReg = 0 → agrees s m →
  Machine.ReadMem be setStatus ExceptionHandler (reg m PCReg) 4 k m = Done (Some w, k1, m1) →
  ifetch (pc s) (mem s) = Done w → Decode (u32 w) = Done i → meaning i (reg m) = Some e →
  ∃ m' s',
    OneInstruction be setStatus ExceptionHandler k m = Done (k, m') ∧ turn unix s = Done (Next s') ∧
    (∀ r, 0 ≤ r ≤ NextPCReg → reg m' r = after e (reg m) r) ∧ agrees s' m' ∧
    inv0 m' ∧ reg m' LoadReg = 0 ∧ mem s' = mem s.
Proof.
  intros [Hi H0] Hld [Hl Hag] Hrd Hf Hdec He.
  destruct (Decode_spec (u32 w) (u32_range _)) as (i' & Hd' & _ & Hrs & Hrt & Hrd2 & Hex & Hop & Hsh).
  rewrite Hdec in Hd'. injection Hd' as <-. assert (Hio : instr_ok i) by (unfold instr_ok; eauto).
  assert (Hes : meaning i (view s) = Some e) by (by rewrite (meaning_ext i _ (reg m))).
  destruct (OneInstruction_after k m w k1 m1 i e) as (m' & Hone & Hinv' & Hld' & Hra); try done.
  destruct (turn_after s w i e) as (s' & Ht & Hls & Hms & Hvs); [done|by apply Decode_decoded|done..| |done|].
  { intros r Hr. rewrite Hag by (unfold NextPCReg; lia). apply reg_s32, Hi. }
  exists m', s'. repeat split; try done; try apply Hinv'. intros r Hr. rewrite Hvs, Hra by done. by apply after_ext.
Qed.
End turns.

(** ** Witness: an addition at the start of the stand-alone interpreter's memory *)

(** ADDU r3,r1,r2 *)
Definition demo_word : Z := encode_R 1 2 3 0 33.
Definition demo_regs : list Z := [0; 5; 7] ++ replicate 31 0 ++ [memoffset; memoffset + 4; 0; 0; 0; 0].

(** The page of [memoffset] is in the TLB. *)
Definition demo_mips : Machine.t :=
  mk (bytes_of 4 demo_word ++ replicate (Z.to_nat MemorySize - 4) 0) demo_regs
    (Some (mkTE 0x100000 0 true false false false :: replicate 3 (mkTE 0 0 false false false false))) ∅ 0 0 false 0.
Definition demo_exec : t :=
  mkE ([0; 5; 7] ++ replicate 29 0) 0 0 (store_bytes (bytes_of 4 demo_word) memoffset ∅) memoffset (memoffset + 4).

Lemma demo_mips_inv0 : inv0 demo_mips.
Proof.
  split; [|done]. split; [split|]; cbn [mainMemory registers demo_mips]; try done.
  - apply Forall_app. split; [apply bytes_of_bytes|]. apply Forall_replicate. unfold is_byte. lia.
  - repeat (constructor; [unfold memoffset; unfold_int; lia|]). constructor.
Qed.

Lemma demo_agrees : agrees demo_exec demo_mips.
Proof.
  split; [done|]. intros r Hr. unfold NextPCReg in Hr.
  assert (Hc : Forall (λ n, view demo_exec (Z.of_nat n) = reg demo_mips (Z.of_nat n)) (seq 0 36)).
  { apply (bool_decide_unpack _). vm_compute. exact I. }
  rewrite <- (Z2Nat.id r) by lia. eapply Forall_forall in Hc; [exact Hc|]. apply elem_of_seq. lia.
Qed.

Lemma interpreters_agree_witness :
  ∃ m' s',
    OneInstruction false (λ _ k, k) (λ _ k m, Done (k, m)) () demo_mips = Done ((), m') ∧
    turn (λ _ _ _ _ m, (0, m)) demo_exec = Done (Next s') ∧ reg m' 3 = 12 ∧ agrees s' m'.
Proof.
  destruct (interpreters_agree false (λ _ k, k) (λ _ k m, Done (k, m)) (λ _ _ _ _ m, (0, m))
    ltac:(intros x k m Hm; by exists k, m) () demo_mips demo_exec demo_word ()
    (set_tlb demo_mips (Some (mkTE 0x100000 0 true false true false :: replicate 3 (mkTE 0 0 false false false false))))
    (mkI demo_word OP_ADDU 1 2 3 0) (mkEff [(3, 12)] None)) as (m' & s' & H1 & H2 & H3 & H4 & _).
  - exact demo_mips_inv0.
  - reflexivity.
  - exact demo_agrees.
  - vm_compute. reflexivity.
  - vm_compute. reflexivity.
  - vm_compute. reflexivity.
  - vm_compute. reflexivity.
  - exists m', s'. split; [exact H1|]. split; [exact H2|]. split; [|exact H4].
    rewrite H3 by (unfold NextPCReg; lia). reflexivity.
Defined.

(** ** Where the interpreters differ *)

(** ORI with the sign bit set in its immediate: r2 := r1 | 0xffff. *)
Lemma ORI_sign_extends unix (s : t) :
  length (Reg s) = 32%nat → exec unix (encode_I 13 0 2 0xffff) 0 (set s 0 0) = next (set (set s 0 0) 2 (-1)).
Proof.
  intros Hl. unfold exec. change (rs _) with 0. change (rt _) with 2. change (immed _) with (-1).
  cbn -[set get]. unfold get, set. cbn [Reg]. by rewrite list_lookup_insert_eq by lia.
Qed.

(** The high word of a product loses the carries of the partial products: the square of
    0x1ffff has the high word 3. *)
Lemma high_loses_carries : high 0x1ffff 0x1ffff = 1 ∧ Mult 0x1ffff 0x1ffff true = (3, s32 0xfffc0001).
Proof. split; vm_compute; reflexivity. Qed.

(** The mask of LWL is [-1 >> n], which is -1: nothing of the register is cleared. *)
Lemma LWL_mask_clears_nothing b n : 0 ≤ n → Z.land b (Z.shiftr (-1) n) = b.
Proof.
  intros Hn. replace (Z.shiftr (-1) n) with (-1); [apply Z.land_m1_r|].
  apply Z.bits_inj'. intros j Hj. by rewrite Z.shiftr_spec, !Z.bits_m1 by lia.
Qed.

(** ** ilog2 *)

(** The bits of [i] lie in one block of [w] bits, the one that starts at [l - 1], as the
    highest bit of [x] does. *)
Record narrowed (x w i l : Z) : Prop := {
  nw_top : Z.log2 i = Z.log2 x;
  nw_pos : 0 < i;
  nw_align : (l - 1) mod w = 0;
  nw_block : ∀ b, 0 ≤ b → Z.testbit i b = true → l - 1 ≤ b < l - 1 + w
}.

Lemma bit_le_log2 i b : 0 < i → Z.testbit i b = true → b ≤ Z.log2 i.
Proof.
  intros Hi Hb. destruct (decide (b ≤ Z.log2 i)); [done|]. rewrite Z.bits_above_log2 in Hb; [done|lia|lia].
Qed.

(** One of the five tests: [mask] has the bits in the upper half of each block of [2 * n]. *)
Lemma ilog2_step x n mask i l :
  0 < n → narrowed x (2 * n) i l → Z.log2 x < 32 → 0 ≤ l - 1 →
  (∀ b, 0 ≤ b < 32 → Z.testbit mask b = Z.odd (b / n)) →
  let '(i', l') := if Z.land i mask =? 0 then (i, l) else (Z.land i mask, l + n) in narrowed x n i' l' ∧ 0 ≤ l' - 1.
Proof.
  intros Hn [Htop Hpos Hal Hbl] Hx Hl Hmask.
  assert (Hdiv : ∃ q, l - 1 = 2 * n * q) by (apply Z.mod_divide in Hal as [q ?]; [exists q; lia|lia]).
  destruct Hdiv as [q Hq]. assert (Hq0 : 0 ≤ q) by nia.
  assert (Hhalf : ∀ b, 0 ≤ b → Z.testbit i b = true → Z.testbit mask b = (l - 1 + n <=? b)).
  { intros b Hb Hbit. pose proof (Hbl b Hb Hbit) as Hr. rewrite Hmask.
    - destruct (Z.leb_spec (l - 1 + n) b).
      + replace (b / n) with (2 * q + 1) by (apply Z.div_unique with (b - (l - 1) - n); lia).
        by rewrite Z.add_comm, Z.odd_add_mul_2.
      + replace (b / n) with (2 * q) by (apply Z.div_unique with (b - (l - 1)); lia).
        by rewrite Z.odd_mul.
    - pose proof (bit_le_log2 _ _ Hpos Hbit). lia. }
  assert (Htb : Z.testbit i (Z.log2 i) = true) by (by apply Z.bit_log2).
  pose proof (Hbl _ (Z.log2_nonneg _) Htb) as Htr.
  destruct (Z.eqb_spec (Z.land i mask) 0) as [E|E].
  - split; [|done]. split; [done|done| |].
    + rewrite Hq. replace (2 * n * q) with (2 * q * n) by lia. by apply Z.mod_mul; lia.
    + intros b Hb Hbit. pose proof (Hbl b Hb Hbit). split; [lia|].
      assert (Hz : Z.testbit (Z.land i mask) b = false) by (by rewrite E, Z.bits_0).
      rewrite Z.land_spec, Hbit, Hhalf in Hz by done. cbn in Hz. apply Z.leb_gt in Hz. lia.
  - assert (Hj : 0 < Z.land i mask) by (assert (0 ≤ Z.land i mask) by (apply Z.land_nonneg; lia); lia).
    pose proof (Z.bit_log2 _ Hj) as Hbit. rewrite Z.land_spec in Hbit. apply andb_true_iff in Hbit as [Hib Hmb].
    pose proof (Z.log2_nonneg (Z.land i mask)) as Hb. rewrite Hhalf in Hmb by done. apply Z.leb_le in Hmb.
    pose proof (bit_le_log2 _ _ Hpos Hib) as Hble.
    assert (Hup : Z.testbit (Z.land i mask) (Z.log2 i) = true).
    { rewrite Z.land_spec, Htb, Hhalf by (done || apply Z.log2_nonneg). apply Z.leb_le. lia. }
    pose proof (bit_le_log2 _ _ Hj Hup) as Hge. split; [|lia]. split; [lia|done| |].
    + replace (l + n - 1) with ((2 * q + 1) * n) by lia. apply Z.mod_mul. lia.
    + intros b Hb0 Hbb. rewrite Z.land_spec in Hbb. apply andb_true_iff in Hbb as [Hbi Hbm].
      rewrite Hhalf in Hbm by done. apply Z.leb_le in Hbm. pose proof (Hbl b Hb0 Hbi). lia.
Qed.

Lemma ilog2_half x n mask p :
  0 < n → Z.log2 x < 32 → (∀ b, 0 ≤ b < 32 → Z.testbit mask b = Z.odd (b / n)) →
  narrowed x (2 * n) p.1 p.2 ∧ 0 ≤ p.2 - 1 →
  let p' := let '(i, l) := p in let j := Z.land i mask in if j =? 0 then (i, l) else (j, l + n) in
  narrowed x n p'.1 p'.2 ∧ 0 ≤ p'.2 - 1.
Proof.
  destruct p as [i l]. intros Hn Hx Hm [Hw Hl]. pose proof (ilog2_step x n mask i l Hn Hw Hx Hl Hm). by case_match.
Qed.

Lemma mask_bits mask n : forallb (λ b, Bool.eqb (Z.testbit mask b) (Z.odd (b / n))) (seqZ 0 32) = true →
  ∀ b, 0 ≤ b < 32 → Z.testbit mask b = Z.odd (b / n).
Proof.
  intros Hall b Hb. rewrite forallb_forall in Hall. apply Bool.eqb_prop, Hall.
  apply list_elem_of_In, elem_of_seqZ. lia.
Qed.

(** ilog2 is the number of bits of its argument as an unsigned number. *)
Lemma ilog2_correct x : x ≠ 0 → is_s32 x → ilog2 x = Z.log2 (u32 x) + 1.
Proof.
  intros Hx Hs. unfold ilog2. rewrite (proj2 (Z.eqb_neq x 0) Hx).
  assert (Hpos : 0 < u32 x) by (revert Hs Hx; int_lia).
  assert (Hlog : Z.log2 (u32 x) < 32) by (apply Z.log2_lt_pow2; [done|apply u32_range]).
  match goal with |- snd ?p = _ => assert (Hn : narrowed (u32 x) 1 p.1 p.2 ∧ 0 ≤ p.2 - 1) end.
  { do 4 (eapply ilog2_half; [lia|done|apply mask_bits; reflexivity|]).
    apply (ilog2_half _ 16 0xffff0000 (u32 x, 1)); [lia|done|apply mask_bits; reflexivity|]. split; [|cbn; lia].
    split; [done|done|done|]. intros b Hb Hbit. pose proof (bit_le_log2 _ _ Hpos Hbit). cbn [fst snd] in *. lia. }
  destruct Hn as [[Htop Hp _ Hblock] _]. pose proof (Hblock _ (Z.log2_nonneg _) (Z.bit_log2 _ Hp)). lia.
Qed.

(** ** The two loaders *)

Section loaders.
Context (getc : Z → Z → Z).

Lemma read_section_checked n ptr i pc m m' :
  pc + Z.of_nat n - memoffset < MEMSIZE → read_section getc n ptr i pc m = Done m' →
  load_section_from getc n ptr i pc m = Done (Loaded m').
Proof.
  revert i pc m. induction n as [|n IH]; intros i pc m Hpc Hr; cbn [read_section load_section_from] in *; [congruence|].
  destruct (Z.leb_spec MEMSIZE (pc - memoffset)); [lia|].
  destruct (cstore pc (getc ptr i) m) as [m1| | | |]; try done. cbn [mbind res_bind] in *. apply IH; [lia|done].
Qed.

(** What the loader of the interpreter loads, the loader of the disassembler loads. *)
Lemma loaders_agree head m m' :
  LOADSECTION getc head m = Done (Loaded m') → load_section getc head m = Done (Loaded m').
Proof.
  unfold LOADSECTION, load_section. case_match; [|done].
  destruct (read_section _ _ _ _ _ _) as [m1| | | |] eqn:Hr; try done. cbn [mbind res_bind].
  destruct (Z.leb_spec MEMSIZE (s_vaddr head + Z.max 0 (s_size head) - memoffset)); [done|].
  intros [= <-]. apply read_section_checked; [lia|done].
Qed.

(** The disassembler's loader tests before it writes, so it stays in memory. *)
Lemma load_section_total head m : memoffset ≤ s_vaddr head → ∃ l, load_section getc head m = Done l.
Proof.
  intros Hv. unfold load_section. case_match; [|eauto]. generalize (s_vaddr head) Hv (Z.to_nat (s_size head)) 0.
  clear Hv. intros pc Hpc n. revert pc Hpc m.
  induction n as [|n IH]; intros pc Hpc m i; cbn [load_section_from]; [eauto|].
  destruct (Z.leb_spec MEMSIZE (pc - memoffset)); [eauto|]. unfold cstore, store_n, in_memory.
  destruct (Z.leb_spec memoffset pc); [|lia].
  destruct (Z.leb_spec (pc + Z.of_nat 1) (memoffset + MEMSIZE)); [|lia]. cbn [andb mbind res_bind]. apply IH. lia.
Qed.

(** The interpreter's tests after the loop, when the bytes are already written. *)
Lemma LOADSECTION_overruns :
  LOADSECTION getc (mkScn (memoffset + MEMSIZE) 1 8) ∅ = Undef ∧
  load_section getc (mkScn (memoffset + MEMSIZE) 1 8) ∅ = Done (LoadExit 1).
Proof. split; reflexivity. Qed.

End loaders.

(** hprint looks at one histogram more than there are. *)
Lemma hprint_overruns hs : Z.of_nat (length (htotal hs)) = NH → hprint hs = Undef.
Proof.
  intros Hl. unfold hprint, NH in *. assert (Hg : ∀ n h, 0 ≤ h → h + Z.of_nat n = 33 → (0 < n)%nat → hprint_from n h hs = Undef).
  { induction n as [|n IH]; intros h Hh Hn Hpos; [lia|]. cbn [hprint_from]. destruct (decide (h = 32)) as [->|Hne].
    - unfold aget. cbn -[lookup]. by rewrite lookup_ge_None_2 by lia.
    - destruct (aget_in_range (htotal hs) h) as (x & -> & _); [lia|]. cbn [mbind res_bind]. by rewrite IH by lia. }
  apply Hg; lia.
Qed.

End ExecuteSpec.
