(* ===== verification/Disasm.v ===== *)
(** Disasm: the disassembler of src/code/bin - d.c, opstrings.c and the loop of disasm.c - and
    how it fits the two interpreters.

    [dump_ascii] gives what the calls of printf print: strings, and numbers in hexadecimal
    with or without leading zeros.  [disassembler_names] says that it names an instruction as
    the simulated machine does, [disassembler_shows_target] that the address it prints for a
    branch or a jump is where the stand-alone interpreter goes. *)
From Stdlib Require Import Strings.String Strings.Ascii.
From S2P Require Import Prelude Machine Mips MipsSpec Execute ExecuteSpec.

Module Disasm.
Import Execute.

(** What printf prints: [%s], [0x%x] and [%08x]. *)
Inductive piece : Type :=
| Str (s : string)
| Hex (n : Z)
| Hex8 (n : Z).

(** ** encode.h and instr.h *)
Definition I_NOP : Z := 0.
Definition I_COP0 : Z := 16.
Definition I_COP3 : Z := 19.
Definition I_LWC0 : Z := 48.
Definition I_LWC3 : Z := 51.
Definition I_SWC0 : Z := 56.
Definition I_SWC3 : Z := 59.

Definition off26 (i : Z) : Z := s32 (Z.shiftl (Z.land i (Z.shiftl 1 26 - 1)) 2).
Definition top4 (i : Z) : Z := Z.land i (Z.lnot (Z.shiftl 1 28 - 1)).
Definition off16 (i : Z) : Z := s32 (Z.shiftl (immed i) 2).

(** ** opstrings.c *)
Open Scope string_scope.
Definition normalops : list string :=
  ["special"; "bcond"; "j"; "jal"; "beq"; "bne"; "blez"; "bgtz";
   "addi"; "addiu"; "slti"; "sltiu"; "andi"; "ori"; "xori"; "lui";
   "cop0"; "cop1"; "cop2"; "cop3"; "024"; "025"; "026"; "027";
   "030"; "031"; "032"; "033"; "034"; "035"; "036"; "037";
   "lb"; "lh"; "lwl"; "lw"; "lbu"; "lhu"; "lwr"; "047";
   "sb"; "sh"; "swl"; "sw"; "054"; "055"; "swr"; "057";
   "lwc0"; "lwc1"; "lwc2"; "lwc3"; "064"; "065"; "066"; "067";
   "swc0"; "swc1"; "swc2"; "swc3"; "074"; "075"; "076"; "077"].

Definition specialops : list string :=
  ["sll"; "001"; "srl"; "sra"; "sllv"; "005"; "srlv"; "srav";
   "jr"; "jalr"; "012"; "013"; "syscall"; "break"; "016"; "017";
   "mfhi"; "mthi"; "mflo"; "mtlo"; "024"; "025"; "026"; "027";
   "mult"; "multu"; "div"; "divu"; "034"; "035"; "036"; "037";
   "add"; "addu"; "sub"; "subu"; "and"; "or"; "xor"; "nor";
   "050"; "051"; "slt"; "sltu"; "054"; "055"; "056"; "057";
   "060"; "061"; "062"; "063"; "064"; "065"; "066"; "067";
   "070"; "071"; "072"; "073"; "074"; "075"; "076"; "077"].

Definition regstrings : list string :=
  ["0"; "r1"; "r2"; "r3"; "r4"; "r5"; "r6"; "r7"; "r8"; "r9";
   "r10"; "r11"; "r12"; "r13"; "r14"; "r15"; "r16"; "r17"; "r18"; "r19";
   "r20"; "r21"; "r22"; "r23"; "r24"; "r25"; "r26"; "r27"; "gp"; "sp";
   "r30"; "r31"].

Close Scope string_scope.

Definition R (i : Z) : res piece := r ← aget regstrings i; Done (Str r).

(** ** dump_ascii *)

(** The pieces with a comma between them. *)
Definition commas (ps : list piece) : list piece :=
  match ps with
  | [] => []
  | p :: ps => p :: concat ((λ p, [Str ","%string; p]) <$> ps)
  end.

Definition special_operands (i : Z) : res (list piece) :=
  d ← R (rd i);
  t ← R (rt i);
  s ← R (rs i);
  let opcode := Z.land i 0x3f in
  Done (
    if (opcode =? I_SLL) || (opcode =? I_SRL) || (opcode =? I_SRA) then
      commas [d; t; Hex (shamt i)]
    else if (opcode =? I_SLLV) || (opcode =? I_SRLV) || (opcode =? I_SRAV) then commas [d; t; s]
    else if (opcode =? I_JR) || (opcode =? I_JALR) || (opcode =? I_MFLO) || (opcode =? I_MTLO) then [s]
    else if (opcode =? I_SYSCALL) || (opcode =? I_BREAK) then []
    else if (opcode =? I_MFHI) || (opcode =? I_MTHI) then [d]
    else if (opcode =? I_MULT) || (opcode =? I_MULTU) || (opcode =? I_DIV) || (opcode =? I_DIVU) then commas [s; t]
    else if (opcode =? I_ADD) || (opcode =? I_ADDU) || (opcode =? I_SUB) || (opcode =? I_SUBU) ||
            (opcode =? I_AND) || (opcode =? I_OR) || (opcode =? I_XOR) || (opcode =? I_NOR) ||
            (opcode =? I_SLT) || (opcode =? I_SLTU) then commas [d; s; t]
    else []).

Definition bcond_name (i : Z) : string :=
  if rt i =? I_BLTZ then "bltz"%string
  else if rt i =? I_BGEZ then "bgez"%string
  else if rt i =? I_BLTZAL then "bltzal"%string
  else if rt i =? I_BGEZAL then "bgezal"%string
  else "BCOND"%string.

Definition between (lo hi opcode : Z) : bool := (lo <=? opcode) && (opcode <=? hi).

(** The cases of the last switch; the opcodes of one format are consecutive or listed. *)
Definition normal_operands (i pc : Z) : res (list piece) :=
  t ← R (rt i);
  s ← R (rs i);
  let opcode := Z.shiftr (u32 i) 26 in
  Done (
    if (opcode =? I_J) || (opcode =? I_JAL) then [Hex8 (Z.lor (top4 pc) (off26 i))]
    else if (opcode =? I_BEQ) || (opcode =? I_BNE) then commas [t; s; Hex8 (s32 (off16 i + pc + 4))]
    else if between I_ADDI I_XORI opcode then commas [t; s; Hex (immed i)]
    else if opcode =? I_LUI then commas [t; Hex (immed i)]
    else if between I_COP0 I_COP3 opcode then []
    else if between I_LB I_LWR opcode || between I_SB I_SW opcode || (opcode =? I_SWR) ||
            between I_LWC0 I_LWC3 opcode || between I_SWC0 I_SWC3 opcode then
      [t; Str ","%string; Hex (immed i); Str "("%string; s; Str ")"%string]
    else []).

Definition tab : piece := Str (String "009"%char EmptyString).

Definition dump_ascii (longdis : bool) (instruction pc : Z) : res (list piece) :=
  let head := (if longdis then [Hex8 pc; Str ": "%string; Hex8 instruction; Str "  "%string] else []) ++ [tab] in
  let opcode := Z.shiftr (u32 instruction) 26 in
  body ←
    (if instruction =? I_NOP then Done [Str "nop"%string]
     else if opcode =? I_SPECIAL then
       name ← aget specialops (Z.land instruction 0x3f);
       ops ← special_operands instruction;
       Done ([Str name; tab] ++ ops)
     else if opcode =? I_BCOND then
       s ← R (rs instruction);
       Done [Str (bcond_name instruction); tab; s; Str ","%string; Hex8 (s32 (off16 instruction + pc + 4))]
     else
       name ← aget normalops opcode;
       ops ← normal_operands instruction pc;
       Done ([Str name; tab] ++ ops));
  Done (head ++ body).

(** ** disasm.c: the loop over the text, [n] instructions from [pc] on *)
Fixpoint disasm (longdis : bool) (n : nat) (pc : Z) (m : memory) : res (list (list piece)) :=
  match n with
  | O => Done []
  | S n =>
      instr ← fetch pc m;
      line ← dump_ascii longdis instr pc;
      lines ← disasm longdis n (s32 (pc + 4)) m;
      Done (line :: lines)
  end.

End Disasm.

(** * The disassembler and the interpreters *)
Module DisasmSpec.
Import Machine Mips MipsSpec.
Import Execute Disasm ExecuteSpec.

Lemma R_ok r : 0 ≤ r < 32 → ∃ p, R r = Done (Str p).
Proof.
  intros Hr. unfold R. destruct (aget_in_range regstrings r) as (x & -> & _); [done|]. cbn. eauto.
Qed.

Lemma opcode_field w : Z.shiftr (u32 w) 26 = Z.land (Z.shiftr w 26) 0x3f.
Proof.
  change 63 with (Z.ones 6). rewrite <- field_u32 by lia. rewrite Z.land_ones, Z.shiftr_div_pow2 by lia.
  symmetry. apply Z.mod_small. pose proof (u32_range w) as Hu. unfold is_u32 in Hu.
  change (2 ^ 26) with 67108864. change (2 ^ 6) with 64. Z.div_mod_to_equations. lia.
Qed.

(** The disassembler is total. *)
Lemma dump_ascii_total longdis w pc : ∃ ps, dump_ascii longdis w pc = Done ps.
Proof.
  unfold dump_ascii. rewrite opcode_field.
  assert (Hops : (∃ ps, special_operands w = Done ps) ∧ (∃ ps, normal_operands w pc = Done ps) ∧
                 ∃ p, R (rs w) = Done (Str p)).
  { unfold special_operands, normal_operands.
    destruct (R_ok (rd w) (land_31 _)) as [d ->], (R_ok (rt w) (land_31 _)) as [t ->],
      (R_ok (rs w) (land_31 _)) as [s ->]. split; [|split]; eexists; reflexivity. }
  destruct Hops as ((ps & ->) & (qs & ->) & (p & ->)).
  destruct (aget_in_range specialops (Z.land w 0x3f)) as (n1 & -> & _); [apply land_63|].
  destruct (aget_in_range normalops (Z.land (Z.shiftr w 26) 0x3f)) as (n2 & -> & _); [apply land_63|].
  cbn [mbind res_bind]. repeat case_match; cbn; eauto.
Qed.

(** ** Names *)

(** A format of the simulated machine up to its first blank, in lower case. *)
Definition lower (c : ascii) : ascii :=
  let n := nat_of_ascii c in if (65 <=? n)%nat && (n <=? 90)%nat then ascii_of_nat (n + 32) else c.

Fixpoint first_word (s : string) : string :=
  match s with
  | EmptyString => EmptyString
  | String c s => if Ascii.eqb c " "%char then EmptyString else String (lower c) (first_word s)
  end.

Definition name (o : opcode) : option string :=
  (λ e : string * list RegType, first_word e.1) <$> opStrings !! Z.to_nat (op_number o).

Definition named (o : opcode) : bool :=
  match o with OP_UNIMP | OP_RES | SPECIAL | BCOND | OP_RFE => false | _ => true end.

(** The tables give every opcode the same name. *)
Lemma normalops_names n o f : opTable !! n = Some (o, f) → named o = true → normalops !! n = name o.
Proof.
  assert (Hall : Forall (λ p, named p.2.1 = true → normalops !! p.1 = name p.2.1) (imap (λ n e, (n, e)) opTable)).
  { apply (bool_decide_unpack _). vm_compute. exact I. }
  intros Hn. eapply Forall_lookup_1 in Hall; [|by rewrite list_lookup_imap, Hn]. exact Hall.
Qed.

Lemma specialops_names n o : specialTable !! n = Some o → named o = true → specialops !! n = name o.
Proof.
  assert (Hall : Forall (λ p, named p.2 = true → specialops !! p.1 = name p.2) (imap (λ n e, (n, e)) specialTable)).
  { apply (bool_decide_unpack _). vm_compute. exact I. }
  intros Hn. eapply Forall_lookup_1 in Hall; [|by rewrite list_lookup_imap, Hn]. exact Hall.
Qed.

Lemma Decode_cases w i :
  Decode (u32 w) = Done i →
  (Z.land (Z.shiftr w 26) 0x3f = I_SPECIAL ∧ specialTable !! Z.to_nat (Z.land w 0x3f) = Some (opCode i)) ∨
  (Z.land (Z.shiftr w 26) 0x3f = I_BCOND ∧ opCode i = bcond_opcode (rt w * 2 ^ 16)) ∨
  (Z.land (Z.shiftr w 26) 0x3f ≠ I_SPECIAL ∧ Z.land (Z.shiftr w 26) 0x3f ≠ I_BCOND ∧
   ∃ f, opTable !! Z.to_nat (Z.land (Z.shiftr w 26) 0x3f) = Some (opCode i, f)).
Proof.
  intros Hd. unfold Decode in Hd. cbv zeta in Hd. rewrite rt_in_place in Hd.
  change 63 with (Z.ones 6) in *. rewrite !field_u32, !low_field_u32 in Hd by lia.
  destruct (aget opTable _) as [[op f]| | | |] eqn:Hop; try done. cbn [mbind res_bind fst snd] in Hd.
  apply aget_Done in Hop as [Hpos Hop]. pose proof (opTable_numbers _ _ _ Hop) as (_ & Hnum & _ & _).
  rewrite Z2Nat.id in Hnum by done.
  case_decide as Hs; [subst op|case_decide as Hb; [subst op|]].
  - destruct (aget specialTable _) as [op| | | |] eqn:Htab; try done. cbn [mbind res_bind] in Hd.
    injection Hd as <-. apply aget_Done in Htab as [_ Htab]. left. by split; [apply Hnum|].
  - cbn [mbind res_bind] in Hd. fold (bcond_opcode (rt w * 2 ^ 16)) in Hd. injection Hd as <-.
    right; left. by split; [apply Hnum|].
  - cbn [mbind res_bind] in Hd. injection Hd as <-. right; right. cbn [opCode].
    split; [|split; [|by eexists]]; intros E; rewrite E in Hop; vm_compute in Hop; congruence.
Qed.

Lemma bcond_names w : named (bcond_opcode (rt w * 2 ^ 16)) = true → name (bcond_opcode (rt w * 2 ^ 16)) = Some (bcond_name w).
Proof.
  unfold bcond_opcode, bcond_name. change (2 ^ 16) with 65536.
  destruct (Z.eqb_spec (rt w * 65536) 0); [|destruct (Z.eqb_spec (rt w * 65536) 0x10000);
    [|destruct (Z.eqb_spec (rt w * 65536) 0x100000); [|destruct (Z.eqb_spec (rt w * 65536) 0x110000); [|done]]]];
    intros _; [replace (rt w) with 0 by lia|replace (rt w) with 1 by lia|replace (rt w) with 16 by lia|
      replace (rt w) with 17 by lia]; reflexivity.
Qed.

(** The disassembler names an instruction as the simulated machine does: for every word other
    than 0 that Decode takes for an instruction the machine implements, the first thing it
    prints is the name that opStrings gives the opcode, in lower case. *)
Theorem disassembler_names (w pc : Z) (i : Instruction) :
  Decode (u32 w) = Done i → named (opCode i) = true → w ≠ 0 →
  ∃ n ops, name (opCode i) = Some n ∧ dump_ascii false w pc = Done (tab :: Str n :: tab :: ops).
Proof.
  intros Hd Hn Hw. destruct (dump_ascii_total false w pc) as [ps Hps]. rewrite Hps. unfold dump_ascii in Hps.
  rewrite opcode_field, (proj2 (Z.eqb_neq w I_NOP) Hw) in Hps.
  destruct (Decode_cases w i Hd) as [[E Ht]|[[E Ho]|(E1 & E2 & f & Ht)]].
  - rewrite E in Hps. cbn [Z.eqb I_SPECIAL] in Hps. apply specialops_names in Ht; [|done].
    destruct (aget specialops _) as [n| | | |] eqn:Hg; try done. apply aget_Done in Hg as [_ Hg].
    destruct (special_operands w) as [ops| | | |]; try done. cbn in Hps. injection Hps as <-.
    exists n, ops. split; [congruence|done].
  - rewrite E in Hps. cbn in Hps. destruct (R (rs w)) as [p| | | |]; try done. cbn in Hps. injection Hps as <-.
    rewrite Ho in *. eexists _, _. split; [by apply bcond_names|done].
  - rewrite (proj2 (Z.eqb_neq _ _) E1), (proj2 (Z.eqb_neq _ _) E2) in Hps. apply normalops_names in Ht; [|done].
    destruct (aget normalops _) as [n| | | |] eqn:Hg; try done. apply aget_Done in Hg as [_ Hg].
    destruct (normal_operands w pc) as [ops| | | |]; try done. cbn in Hps. injection Hps as <-.
    exists n, ops. split; [congruence|done].
Qed.

(** ** Targets *)

Lemma printed_branch w pc : s32 (s32 (off16 w + pc + 4)) = s32 (pc + 4 + s32 (Z.shiftl (immed w) 2)).
Proof. rewrite s32_s32. unfold off16. f_equal. lia. Qed.

Lemma printed_jump w pc : s32 (Z.lor (top4 pc) (off26 w)) = jump_target w pc.
Proof.
  unfold jump_target, top4, off26. rewrite <- (s32_u32 (Z.lor (Z.land pc _) _)), <- (s32_u32 (Z.lor (Z.land (u32 pc) _) _)).
  f_equal. rewrite !u32_lor, !u32_land, u32_u32, u32_s32. done.
Qed.

Lemma Done_inj {A} (x y : A) : Done x = Done y → x = y.
Proof. congruence. Qed.

Lemma next_inj s s' : next s = Done (Next s') → s' = s.
Proof. unfold next. congruence. Qed.

Lemma branch_target w pc taken s s' :
  branch w pc taken s = Done (Next s') → npc s' = npc s ∨ npc s' = s32 (s32 (off16 w + pc + 4)).
Proof. rewrite printed_branch. unfold branch. intros [= <-]. destruct taken; [by right|by left]. Qed.

(** The address at the end of a line, if it ends with one. *)
Definition shown_target (ps : list piece) : option Z :=
  match last ps with Some (Hex8 a) => Some a | _ => None end.

Lemma special_no_target w ops : special_operands w = Done ops → ∀ n, shown_target ([tab; Str n; tab] ++ ops) = None.
Proof.
  unfold special_operands.
  destruct (R_ok (rd w) (land_31 _)) as [d ->], (R_ok (rt w) (land_31 _)) as [t ->], (R_ok (rs w) (land_31 _)) as [s' ->].
  cbn [mbind res_bind]. intros [= <-] n. repeat case_match; reflexivity.
Qed.

(** C34: The address the disassembler prints is where the program goes. dump_ascii(instr, pc) is
    what execute.c shows of an instruction when it traces. If the line it prints ends in an
    address, then the interpreter, executing that instruction at pc in any state, either
    leaves the next program counter as it was (the branch is not taken, or the instruction
    does not jump) or sets it to exactly that address, for the eight branches and jumps that
    have one, wherever in memory they are and whatever the sign of their offset. *)
Theorem disassembler_shows_target unix (w pc a : Z) (s s' : t) (ps : list piece) :
  exec unix w pc s = Done (Next s') → dump_ascii false w pc = Done ps → shown_target ps = Some a →
  npc s' = npc s ∨ npc s' = s32 a.
Proof.
  intros He Hps Ha. unfold dump_ascii in Hps. rewrite opcode_field in Hps. unfold exec in He.
  destruct (Z.eqb_spec w I_NOP) as [->|Hw]; [cbn in Hps; injection Hps as <-; done|].
  destruct (Z.eqb_spec (Z.land (Z.shiftr w 26) 0x3f) I_SPECIAL) as [E0|N0].
  { destruct (aget specialops _) as [n| | | |]; try done. cbn [mbind res_bind] in Hps.
    destruct (special_operands w) as [ops| | | |] eqn:Hops; try done. injection Hps as <-.
    exfalso. enough (Some a = None) by done. rewrite <- Ha. apply (special_no_target w ops Hops n). }
  destruct (Z.eqb_spec (Z.land (Z.shiftr w 26) 0x3f) I_BCOND) as [E1|N1].
  { destruct (R_ok (rs w) (land_31 _)) as [p Hp]. rewrite Hp in Hps. injection Hps as <-. injection Ha as <-.
    unfold bcond in He. repeat case_match; try done; by apply branch_target in He. }
  destruct (aget normalops _) as [n| | | |]; try done. cbn [mbind res_bind] in Hps.
  destruct (normal_operands w pc) as [ops| | | |] eqn:Hops; try done. injection Hps as <-.
  unfold normal_operands in Hops. rewrite opcode_field in Hops.
  destruct (R_ok (rt w) (land_31 _)) as [p Hp], (R_ok (rs w) (land_31 _)) as [q Hq]. rewrite Hp, Hq in Hops.
  cbn [mbind res_bind] in Hops. apply Done_inj in Hops as <-.
  destruct (Z.eqb_spec (Z.land (Z.shiftr w 26) 0x3f) I_J) as [E2|N2].
  { injection Ha as <-. apply next_inj in He as ->. right. rewrite printed_jump. done. }
  destruct (Z.eqb_spec (Z.land (Z.shiftr w 26) 0x3f) I_JAL) as [E3|N3].
  { injection Ha as <-. apply next_inj in He as ->. right. rewrite printed_jump. done. }
  destruct (Z.eqb_spec (Z.land (Z.shiftr w 26) 0x3f) I_BEQ) as [E4|N4].
  { injection Ha as <-. by apply branch_target in He. }
  destruct (Z.eqb_spec (Z.land (Z.shiftr w 26) 0x3f) I_BNE) as [E5|N5].
  { injection Ha as <-. by apply branch_target in He. }
  exfalso. revert Ha. cbn [orb]. by repeat case_match.
Qed.

(** BLTZ r1,-4 at 0x10000010, with r1 negative. *)
Definition demo_branch : Z := encode_I 1 1 0 0xfffc.
Definition demo_state : t := mkE (0 :: -1 :: replicate 30 0) 0 0 ∅ (memoffset + 0x14) (memoffset + 0x18).

Lemma disassembler_shows_target_witness :
  npc (set_npc demo_state (memoffset + 4)) = npc demo_state ∨
  npc (set_npc demo_state (memoffset + 4)) = s32 (memoffset + 4).
Proof.
  apply (disassembler_shows_target (λ _ _ _ _ m, (0, m)) demo_branch (memoffset + 0x10) (memoffset + 4) demo_state
    (set_npc demo_state (memoffset + 4)) [tab; Str "bltz"%string; tab; Str "r1"%string; Str ","%string; Hex8 (memoffset + 4)]).
  - vm_compute. reflexivity.
  - vm_compute. reflexivity.
  - reflexivity.
Defined.

(** ** Where the disassembler misleads *)

(** MFLO r5 and MTHI r5 show the register of the wrong field. *)
Lemma mflo_mthi_fields :
  dump_ascii false (encode_R 0 0 5 0 18) 0 = Done [tab; Str "mflo"%string; tab; Str "0"%string] ∧
  dump_ascii false (encode_R 5 0 0 0 17) 0 = Done [tab; Str "mthi"%string; tab; Str "0"%string].
Proof. split; vm_compute; reflexivity. Qed.

(** The branches that compare with zero show neither register nor target. *)
Lemma blez_bgtz_operands pc s imm :
  0 ≤ s < 32 → 0 < imm < 2 ^ 16 →
  dump_ascii false (encode_I 6 s 0 imm) pc = Done [tab; Str "blez"%string; tab] ∧
  dump_ascii false (encode_I 7 s 0 imm) pc = Done [tab; Str "bgtz"%string; tab].
Proof.
  intros Hs Hi.
  assert (Hop : ∀ op, 0 ≤ op < 64 → Z.shiftr (u32 (encode_I op s 0 imm)) 26 = op).
  { intros op Hop. rewrite opcode_field, field_6 by lia. solve_field. }
  assert (Hz : ∀ op, 0 < op → (encode_I op s 0 imm =? I_NOP) = false).
  { intros op Hop'. apply Z.eqb_neq. unfold encode_I, I_NOP. lia. }
  unfold dump_ascii, normal_operands.
  destruct (R_ok (rt (encode_I 6 s 0 imm)) (land_31 _)) as [a1 E1], (R_ok (rs (encode_I 6 s 0 imm)) (land_31 _)) as [a2 E2].
  destruct (R_ok (rt (encode_I 7 s 0 imm)) (land_31 _)) as [a3 E3], (R_ok (rs (encode_I 7 s 0 imm)) (land_31 _)) as [a4 E4].
  rewrite !Hop, !Hz, E1, E2, E3, E4 by lia. split; reflexivity.
Qed.

(** BEQ r1,r2 shows its registers in the other order. *)
Lemma beq_order :
  dump_ascii false (encode_I 4 1 2 1) 0 =
    Done [tab; Str "beq"%string; tab; Str "r2"%string; Str ","%string; Str "r1"%string; Str ","%string; Hex8 8].
Proof. vm_compute. reflexivity. Qed.

End DisasmSpec.
