(* ===== verification/AddrSpace.v ===== *)
(** AddrSpace: demand-paged address spaces, src/code/userprog/addrspace.{h,cc}.

    The kernel globals the code works on (machine, memMap, pageList, ipt,
    pageLock, stats, swapChoice, currentThread) and the heap of AddrSpace
    objects are the fields of [vm].  The bit map and the page list are used
    through the interfaces of Bitmap.v and Lists.v.  Files are the stub OpenFile
    of src/code/filesys/openfile.h over host files ([HostFiles]); rand() is a
    parameter.  The console output is left out. *)

From S2P Require Import Prelude Bitmap Lists Machine.

(** * Host files

    What the stub file classes rely on of lseek/read/write: a read returns at
    most the bytes asked for; writing one file does not change what another one
    reads.  What a read with a negative count does is not said here: POSIX leaves
    it open (see [negative_reads_fail] in Paging.v). *)
Class HostFiles (F : Type) : Type := {
  h_read : F → Z → Z → Z → option (list Z);
  h_write : F → Z → Z → list Z → F * Z;
  h_read_bound : ∀ f fd pos n bs, 0 ≤ n →
    h_read f fd pos n = Some bs → Z.of_nat (length bs) ≤ n ∧ Forall is_byte bs;
  h_write_other : ∀ f fd pos bs fd' pos' n, fd ≠ fd' →
    h_read (h_write f fd pos bs).1 fd' pos' n = h_read f fd' pos' n
}.

Module StubFile.
Section ops.
Context {F : Type} `{!HostFiles F}.

(** Lseek aborts for a negative position; ReadPartial returns what there is. *)
Definition ReadAt (f : F) (file numBytes position : Z) : res (option (list Z)) :=
  ASSERT (0 <=? position);;
  Done (h_read f file position numBytes).

(** WriteFile aborts unless everything was written. *)
Definition WriteAt (f : F) (file : Z) (from : list Z) (position : Z) : res (F * Z) :=
  ASSERT (0 <=? position);;
  let '(f', n) := h_write f file position from in
  ASSERT (n =? Z.of_nat (length from));;
  Done (f', Z.of_nat (length from)).

End ops.
End StubFile.

Module AddrSpace.
Import Machine.

Definition UserStackSize : Z := 1024.
Definition NOFFMAGIC : Z := 0xbadfad.

Record Segment : Type := mkSeg {
  virtualAddr : Z;
  inFileAddr : Z;
  seg_size : Z
}.

Record NoffHeader : Type := mkNoff {
  noffMagic : Z;
  code : Segment;
  initData : Segment;
  uninitData : Segment
}.

Record t : Type := mkAS {
  file : Z;
  swapFile : Z;
  noffH : NoffHeader;
  as_pageTable : Z;
  numPages : Z;
  startPage : Z;
  space : bool;
  swapped : list bool
}.

Section vm.
Context {B F : Type} `{!BitmapLike B} `{!HostFiles F}.

(** The globals. [ipt] and [thread_space] hold thread and space pointers. *)
Record vm : Type := mkVM {
  machine : Machine.t;
  memMap : B;
  pageList : Queue.queue Z;
  ipt : list Z;
  pageLock : list Z;
  spaces : gmap Z t;
  thread_space : gmap Z Z;
  currentThread : Z;
  swapChoice : Z;
  numPageFaults : Z;
  hostfs : F;
  rand_calls : nat
}.

Definition set_machine (v : vm) x := mkVM x (memMap v) (pageList v) (ipt v) (pageLock v) (spaces v)
  (thread_space v) (currentThread v) (swapChoice v) (numPageFaults v) (hostfs v) (rand_calls v).
Definition set_memMap (v : vm) x := mkVM (machine v) x (pageList v) (ipt v) (pageLock v) (spaces v)
  (thread_space v) (currentThread v) (swapChoice v) (numPageFaults v) (hostfs v) (rand_calls v).
Definition set_pageList (v : vm) x := mkVM (machine v) (memMap v) x (ipt v) (pageLock v) (spaces v)
  (thread_space v) (currentThread v) (swapChoice v) (numPageFaults v) (hostfs v) (rand_calls v).
Definition set_ipt (v : vm) x := mkVM (machine v) (memMap v) (pageList v) x (pageLock v) (spaces v)
  (thread_space v) (currentThread v) (swapChoice v) (numPageFaults v) (hostfs v) (rand_calls v).
Definition set_pageLock (v : vm) x := mkVM (machine v) (memMap v) (pageList v) (ipt v) x (spaces v)
  (thread_space v) (currentThread v) (swapChoice v) (numPageFaults v) (hostfs v) (rand_calls v).
Definition set_spaces (v : vm) x := mkVM (machine v) (memMap v) (pageList v) (ipt v) (pageLock v) x
  (thread_space v) (currentThread v) (swapChoice v) (numPageFaults v) (hostfs v) (rand_calls v).
Definition set_numPageFaults (v : vm) x := mkVM (machine v) (memMap v) (pageList v) (ipt v) (pageLock v) (spaces v)
  (thread_space v) (currentThread v) (swapChoice v) x (hostfs v) (rand_calls v).
Definition set_hostfs (v : vm) x := mkVM (machine v) (memMap v) (pageList v) (ipt v) (pageLock v) (spaces v)
  (thread_space v) (currentThread v) (swapChoice v) (numPageFaults v) x (rand_calls v).
Definition set_rand_calls (v : vm) x := mkVM (machine v) (memMap v) (pageList v) (ipt v) (pageLock v) (spaces v)
  (thread_space v) (currentThread v) (swapChoice v) (numPageFaults v) (hostfs v) x.

(** Dereferencing pointers to spaces and page tables. *)
Definition get_space (v : vm) (s : Z) : res t :=
  match spaces v !! s with Some x => Done x | None => Undef end.
Definition get_table (v : vm) (p : Z) : res (list TranslationEntry) :=
  match tables (machine v) !! p with Some x => Done x | None => Undef end.
Definition put_table (v : vm) (p : Z) (tb : list TranslationEntry) : vm :=
  set_machine v (set_tables (machine v) (<[p := tb]> (tables (machine v)))).
Definition put_mem (v : vm) (mem : list Z) : vm :=
  set_machine v (set_mainMemory (machine v) mem).

(** [pageTable[page] = f(pageTable[page])] of space [s]. *)
Definition update_entry (v : vm) (s page : Z) (f : TranslationEntry → TranslationEntry) : res vm :=
  sp ← get_space v s;
  tb ← get_table v (as_pageTable sp);
  e ← aget tb page;
  tb' ← aset tb page (f e);
  Done (put_table v (as_pageTable sp) tb').

Definition with_phys (p : Z) (e : TranslationEntry) : TranslationEntry :=
  mkTE (virtualPage e) p (valid e) (readOnly e) (use e) (dirty e).
Definition with_valid (b : bool) (e : TranslationEntry) : TranslationEntry :=
  mkTE (virtualPage e) (physicalPage e) b (readOnly e) (use e) (dirty e).
Definition with_dirty (b : bool) (e : TranslationEntry) : TranslationEntry :=
  mkTE (virtualPage e) (physicalPage e) (valid e) (readOnly e) (use e) b.

Definition setDirty (v : vm) (s vpage : Z) (set : bool) : res vm := update_entry v s vpage (with_dirty set).
Definition setValidity (v : vm) (s vpage : Z) (set : bool) : res vm := update_entry v s vpage (with_valid set).
Definition savePageTableEntry (v : vm) (s : Z) (entry : TranslationEntry) (vpage : Z) : res vm :=
  update_entry v s vpage (λ _, entry).

(** The first page of the table mapped to [frame] ([pageTableEntry] and the loop
    of Swapout); -1 if there is none. *)
Fixpoint find_frame (tb : list TranslationEntry) (n : nat) (i frame : Z) : res Z :=
  match n with
  | O => Done (-1)
  | S n => e ← aget tb i; if physicalPage e =? frame then Done i else find_frame tb n (i + 1) frame
  end.

Definition pageTableEntry (v : vm) (s physPage : Z) : res TranslationEntry :=
  sp ← get_space v s;
  tb ← get_table v (as_pageTable sp);
  i ← find_frame tb (Z.to_nat (numPages sp)) 0 physPage;
  if i =? -1 then Assert else aget tb i.

(** The loop returns in its first iteration. *)
Definition getPageNumber (v : vm) (s frame : Z) : res Z :=
  sp ← get_space v s;
  if numPages sp =? 0 then Done (-1)
  else
    tb ← get_table v (as_pageTable sp);
    e ← aget tb 0;
    Done (if (physicalPage e =? frame) && valid e then 0 else -1).

Definition set_swapped (v : vm) (s page : Z) (b : bool) : res vm :=
  sp ← get_space v s;
  sw ← aset (swapped sp) page b;
  Done (set_spaces v (<[s := mkAS (file sp) (swapFile sp) (noffH sp) (as_pageTable sp)
    (numPages sp) (startPage sp) (space sp) sw]> (spaces v))).

(** The bytes of a frame. *)
Definition frame_bytes (v : vm) (frame : Z) : res (list Z) :=
  slice (mainMemory (machine v)) (frame * PageSize) PageSize.

Definition Swapin (v : vm) (s page frame : Z) : res (bool * vm) :=
  ASSERT (0 <=? page);;
  ASSERT ((0 <=? frame) && (frame <? NumPhysPages));;
  sp ← get_space v s;
  r ← StubFile.ReadAt (hostfs v) (swapFile sp) PageSize (page * PageSize);
  v ← match r with
      | Some bs => mem ← blit (mainMemory (machine v)) (frame * PageSize) bs; Done (put_mem v mem)
      | None => Done v
      end;
  let check := match r with Some bs => Z.of_nat (length bs) =? PageSize | None => false end in
  v ← (if check then v ← setValidity v s page true; setDirty v s page false else Done v);
  v ← set_swapped v s page true;
  Done (check, v).

Definition Swapout (v : vm) (s frame : Z) : res (bool * vm) :=
  sp ← get_space v s;
  tb ← get_table v (as_pageTable sp);
  virtPage ← find_frame tb (Z.to_nat (numPages sp)) 0 frame;
  ASSERT (negb (virtPage =? -1));;
  e ← aget tb virtPage;
  v ← (if dirty e then
         data ← frame_bytes v frame;
         '(f, _) ← StubFile.WriteAt (hostfs v) (swapFile sp) data (virtPage * PageSize);
         Done (set_hostfs v f)
       else Done v);
  v ← update_entry v s virtPage (with_valid false);
  v ← update_entry v s virtPage (with_dirty false);
  v ← update_entry v s virtPage (with_phys (-1));
  v ← set_swapped v s virtPage false;
  Done (true, v).

(** The code and the data part of loadPage: what ReadAt stores in the frame. *)
Definition segment_start (seg : Segment) (virtualPage : Z) : Z :=
  if virtualAddr seg <=? s32 (virtualPage * PageSize) then 0
  else u32 (virtualAddr seg - virtualPage * PageSize).
Definition segment_offset (seg : Segment) (virtualPage : Z) : Z :=
  if virtualAddr seg <=? s32 (virtualPage * PageSize) then u32 (virtualPage * PageSize - virtualAddr seg)
  else 0.
Definition segment_length (seg : Segment) (virtualPage : Z) : Z :=
  let size := u32 (PageSize - segment_start seg virtualPage) in
  if s32 (virtualAddr seg + seg_size seg) <? s32 ((virtualPage + 1) * PageSize)
  then u32 (size - (virtualPage * PageSize - (virtualAddr seg + seg_size seg)))
  else size.

Definition load_segment (f : F) (fd : Z) (seg : Segment) (virtualPage physPage : Z) (mem : list Z)
    : res (list Z) :=
  if 0 <? seg_size seg then
    r ← StubFile.ReadAt f fd (s32 (segment_length seg virtualPage))
          (s32 (inFileAddr seg + segment_offset seg virtualPage));
    match r with
    | Some (b :: bs) => blit mem (u32 (PageSize * physPage + segment_start seg virtualPage)) (b :: bs)
    | _ => Done mem
    end
  else Done mem.

(** rand(). *)
Context (rand : nat → Z).

Definition Random (v : vm) : Z * vm := (rand (rand_calls v), set_rand_calls v (S (rand_calls v))).

(** [pageLock[i]->P()] and [V()]: the semaphores count from 1. *)
Definition lock_P (v : vm) (i : Z) : res vm :=
  n ← aget (pageLock v) i;
  if n =? 0 then Blocks else l ← aset (pageLock v) i (n - 1); Done (set_pageLock v l).
Definition lock_V (v : vm) (i : Z) : res vm :=
  n ← aget (pageLock v) i;
  l ← aset (pageLock v) i (n + 1); Done (set_pageLock v l).

(** The frame to use: a free one, or one taken from its owner. [None] is the
    early return after a failed Swapout. *)
Definition choose_frame (v : vm) : res (option Z * vm) :=
  '(physPage, mm) ← bm_Find (memMap v);
  let v := set_memMap v mm in
  if physPage =? -1 then
    '(physPage, v) ←
      (if swapChoice v =? 1 then
         let '(x, q) := Queue.Remove (pageList v) in
         Done (default 0 x, set_pageList v q)
       else if swapChoice v =? 2 then
         let '(r, v) := Random v in Done (cmod r 32, v)
       else Assert);
    owner ← aget (ipt v) physPage;
    s ← match thread_space v !! owner with Some s => Done s | None => Undef end;
    '(ok, v) ← Swapout v s physPage;
    Done (if (ok : bool) then Some physPage else None, v)
  else Done (Some physPage, v).

(** Filling the frame, once it belongs to [virtualPage] of space [s]. *)
Definition fill_frame (v : vm) (s virtualPage physPage : Z) : res vm :=
  sp ← get_space v s;
  sw ← aget (swapped sp) virtualPage;
  if negb sw then
    mem ← blit (mainMemory (machine v)) (PageSize * physPage) (replicate (Z.to_nat PageSize) 0);
    mem ← load_segment (hostfs v) (file sp) (code (noffH sp)) virtualPage physPage mem;
    mem ← load_segment (hostfs v) (file sp) (initData (noffH sp)) virtualPage physPage mem;
    let v := put_mem v mem in
    data ← frame_bytes v physPage;
    '(f, _) ← StubFile.WriteAt (hostfs v) (swapFile sp) data (virtualPage * PageSize);
    let v := set_hostfs v f in
    v ← update_entry v s virtualPage (with_valid true);
    update_entry v s virtualPage (with_dirty false)
  else
    '(_, v) ← Swapin v s virtualPage physPage;
    Done v.

Definition loadPage (v : vm) (s badVAddr : Z) : res vm :=
  let v := set_numPageFaults v (s32 (numPageFaults v + 1)) in
  let virtualPage := cdiv badVAddr PageSize in
  '(frame, v) ← choose_frame v;
  match frame with
  | None => Done v
  | Some physPage =>
      let fifo := swapChoice v =? 1 in
      v ← (if fifo
           then lock_P (set_pageList v (Queue.Append physPage (pageList v))) physPage
           else Done v);
      table ← aset (ipt v) physPage (currentThread v);
      let v := set_ipt v table in
      v ← update_entry v s virtualPage (with_phys physPage);
      v ← fill_frame v s virtualPage physPage;
      if fifo then lock_V v physPage else Done v
  end.

(** The page fault of the exception handler: the faulting address is in BadVAddrReg. *)
Definition PageFault (v : vm) : res vm :=
  invalidPageAddr ← ReadRegister BadVAddrReg (machine v);
  s ← match thread_space v !! currentThread v with Some s => Done s | None => Undef end;
  loadPage v s invalidPageAddr.

(** The destructor, up to the deletion of the files: the frames go back to the
    bit map and the table is freed. *)
Definition release_frames (v : vm) (tb : list TranslationEntry) (n : nat) : res vm :=
  for_up n 0 (λ i v,
    e ← aget tb i;
    if negb (physicalPage e =? -1)
    then mm ← bm_Clear (memMap v) (physicalPage e); Done (set_memMap v mm)
    else Done v) v.

Definition AddrSpace_delete (v : vm) (s : Z) : res vm :=
  sp ← get_space v s;
  v ← (if space sp then
         tb ← get_table v (as_pageTable sp);
         v ← release_frames v tb (Z.to_nat (numPages sp));
         Done (set_machine v (set_tables (machine v) (delete (as_pageTable sp) (tables (machine v)))))
       else Done v);
  Done (set_spaces v (delete s (spaces v))).

(** ** Starting a program *)

Definition InitRegisters (sp : t) (m : Machine.t) : res Machine.t :=
  m ← for_up (Z.to_nat NumTotalRegs) 0 (λ i m, WriteRegister i 0 m) m;
  m ← WriteRegister PCReg 0 m;
  m ← WriteRegister NextPCReg 4 m;
  WriteRegister StackReg (s32 (numPages sp * PageSize - 16)) m.

Definition RestoreState (sp : t) (m : Machine.t) : Machine.t :=
  set_pageTable m (as_pageTable sp) (numPages sp).

End vm.

(** The ten words of the header, as ReadAt fetches them on a little-endian host. *)
Definition header_of_bytes (bs : list Z) : NoffHeader :=
  let w i := s32 (word_of (take 4 (drop (4 * i) bs))) in
  mkNoff (w 0%nat) (mkSeg (w 1%nat) (w 2%nat) (w 3%nat)) (mkSeg (w 4%nat) (w 5%nat) (w 6%nat))
    (mkSeg (w 7%nat) (w 8%nat) (w 9%nat)).

Definition swap_word (be : bool) (x : Z) : Z := s32 (WordToHost be (u32 x)).

Definition SwapHeader (be : bool) (h : NoffHeader) : NoffHeader :=
  let sw := swap_word be in
  let seg s := mkSeg (sw (virtualAddr s)) (sw (inFileAddr s)) (sw (seg_size s)) in
  mkNoff (sw (noffMagic h)) (seg (code h)) (seg (initData h)) (seg (uninitData h)).

(** The constructor: the header check, the sizes and the page table.  [ptr] and
    [swapped0] are what the two [new] expressions return, [start0] the member
    before the search for contiguous free frames, which only sets [startPage];
    [swap_fd] is the swap file that Swap has created and opened. *)
Definition start_search {B} `{!BitmapLike B} (mm : B) (pages start0 : Z) : res Z :=
  '(_, start) ← for_up (Z.to_nat NumPhysPages) 0 (λ i cs,
     let '(counter, start) := cs in
     if counter <? pages then
       used ← bm_Test mm i;
       Done (if negb used then (counter + 1, if counter =? 0 then i else start) else (0, start))
     else Done cs) (0, start0);
  Done start.

Definition AddrSpace {B} `{!BitmapLike B} (be : bool) (h0 : NoffHeader) (executable swap_fd ptr : Z)
    (swapped0 : list bool) (start0 : Z) (mm : B) (m : Machine.t) : res (t * Machine.t) :=
  let h := if negb (noffMagic h0 =? NOFFMAGIC) && (swap_word be (noffMagic h0) =? NOFFMAGIC)
           then SwapHeader be h0 else h0 in
  ASSERT (noffMagic h =? NOFFMAGIC);;
  let size := u32 (seg_size (code h) + seg_size (initData h) + seg_size (uninitData h) + UserStackSize) in
  let pages := divRoundUp size PageSize in
  start ← start_search mm pages start0;
  let entries := (λ i, mkTE i (-1) false false false false) <$> seqZ 0 pages in
  Done (mkAS executable swap_fd h ptr pages start true swapped0,
        set_tables m (<[ptr := entries]> (tables m))).

End AddrSpace.
