(* ===== verification/Paging.v ===== *)
(** Paging: the invariant of demand paging and page replacement.

    [core] is what ties the page tables of all address spaces, the bit map of
    frames, the inverted page table and the page list together.  The theorems
    show that serving a page fault (AddrSpace::loadPage with its Swapout) and
    destroying an address space keep it, what the fault handler loads, and that a process
    cannot reach the resident pages of another through ReadMem and WriteMem. *)

From S2P Require Import Prelude Bitmap Lists Machine AddrSpace.

Module Paging.
Import Machine AddrSpace.

(** ** The invariant, on the level of frames *)

Record core (E : Z → Z → option TranslationEntry) (bit : Z → bool) (ipt : list Z)
    (tsp : gmap Z Z) (pages : list Z) (fifo : bool) : Prop := {
  (** an entry is valid exactly when it has a frame *)
  core_entry : ∀ s vp e, E s vp = Some e →
    (physicalPage e = -1 ∧ valid e = false) ∨
    (0 ≤ physicalPage e < NumPhysPages ∧ valid e = true);
  (** no frame is used twice *)
  core_inj : ∀ s1 v1 e1 s2 v2 e2, E s1 v1 = Some e1 → E s2 v2 = Some e2 →
    valid e1 = true → valid e2 = true → physicalPage e1 = physicalPage e2 → s1 = s2 ∧ v1 = v2;
  (** a frame is marked when a page has it ... *)
  core_marked : ∀ s vp e, E s vp = Some e → valid e = true → bit (physicalPage e) = true;
  (** ... and a marked frame is a page of the thread in the inverted page table *)
  core_owner : ∀ f, 0 ≤ f < NumPhysPages → bit f = true →
    ∃ th s vp e, ipt !! Z.to_nat f = Some th ∧ tsp !! th = Some s ∧
      E s vp = Some e ∧ physicalPage e = f;
  (** the page list has every marked frame *)
  core_fifo : fifo = true → (∀ f, 0 ≤ f < NumPhysPages → bit f = true → f ∈ pages) ∧
    Forall (λ f, 0 ≤ f < NumPhysPages) pages
}.

(** Giving frame [f] to page [vp] of space [s], after taking it from page [vo] of
    space [so] if it was in use. *)
Lemma core_assign E E' bit bit' ipt tsp pages pages' fifo th s vp e e' f :
  core E bit ipt tsp pages fifo → Z.of_nat (length ipt) = NumPhysPages →
  0 ≤ f < NumPhysPages → tsp !! th = Some s →
  E s vp = Some e → valid e = false →
  E' s vp = Some e' → valid e' = true → physicalPage e' = f →
  (∀ s1 v1 e1, (s1, v1) ≠ (s, vp) → E' s1 v1 = Some e1 →
     ∃ e0, E s1 v1 = Some e0 ∧
       ((physicalPage e0 ≠ f ∧ physicalPage e1 = physicalPage e0 ∧ valid e1 = valid e0) ∨
        (physicalPage e0 = f ∧ physicalPage e1 = -1 ∧ valid e1 = false))) →
  (∀ s1 v1 e0, (s1, v1) ≠ (s, vp) → E s1 v1 = Some e0 → is_Some (E' s1 v1)) →
  (∀ j, 0 ≤ j < NumPhysPages → bit' j = if decide (j = f) then true else bit j) →
  (fifo = true → f ∈ pages' ∧ (∀ g, g ∈ pages → g ≠ f → g ∈ pages') ∧
     Forall (λ g, 0 ≤ g < NumPhysPages) pages') →
  core E' bit' (<[Z.to_nat f := th]> ipt) tsp pages' fifo.
Proof.
  intros [C1 C2 C3 C4 C5] Hlen Hf Hth He Hve He' Hve' Hpe' Hold Hkeep Hbit Hpages.
  split.
  - intros s1 v1 e1 H1. destruct (decide ((s1, v1) = (s, vp))) as [[= -> ->]|Hne].
    + rewrite He' in H1. injection H1 as <-. right. by rewrite Hpe'.
    + destruct (Hold _ _ _ Hne H1) as (e0 & H0 & [(Hn & Hp & Hv)|(Hp0 & Hp & Hv)]).
      * rewrite Hp, Hv. by eapply C1.
      * by left.
  - intros s1 v1 e1 s2 v2 e2 H1 H2 V1 V2 Hp.
    destruct (decide ((s1, v1) = (s, vp))) as [[= -> ->]|N1];
      destruct (decide ((s2, v2) = (s, vp))) as [[= -> ->]|N2]; [done|..].
    + rewrite He' in H1. injection H1 as <-.
      destruct (Hold _ _ _ N2 H2) as (e0 & H0 & [(Hn & Hp0 & Hv)|(_ & _ & Hv)]); [|congruence].
      exfalso. congruence.
    + rewrite He' in H2. injection H2 as <-.
      destruct (Hold _ _ _ N1 H1) as (e0 & H0 & [(Hn & Hp0 & Hv)|(_ & _ & Hv)]); [|congruence].
      exfalso. congruence.
    + destruct (Hold _ _ _ N1 H1) as (a & Ha & [(_ & Hpa & Hva)|(_ & _ & Hva)]); [|congruence].
      destruct (Hold _ _ _ N2 H2) as (b & Hb & [(_ & Hpb & Hvb)|(_ & _ & Hvb)]); [|congruence].
      eapply C2; [exact Ha|exact Hb|congruence..].
  - intros s1 v1 e1 H1 V1. destruct (decide ((s1, v1) = (s, vp))) as [[= -> ->]|Hne].
    + rewrite He' in H1. injection H1 as <-. rewrite Hpe', Hbit by done. by rewrite decide_True.
    + destruct (Hold _ _ _ Hne H1) as (e0 & H0 & [(Hn & Hp & Hv)|(_ & _ & Hv)]); [|congruence].
      rewrite Hv in V1. rewrite Hp. destruct (C1 _ _ _ H0) as [[_ ?]|[Hr _]]; [congruence|].
      rewrite Hbit by done. rewrite decide_False by done. by eapply C3.
  - intros g Hg. rewrite Hbit by done. case_decide as Hd.
    + intros _. subst g. exists th, s, vp, e'. rewrite list_lookup_insert_eq by lia. done.
    + intros Hb. destruct (C4 g Hg Hb) as (th1 & s1 & v1 & e1 & Hi & Ht & H1 & Hp1).
      assert (Hne : (s1, v1) ≠ (s, vp)).
      { intros [= -> ->]. rewrite He in H1. injection H1 as <-.
        destruct (C1 _ _ _ He) as [[? _]|[_ ?]]; [lia|congruence]. }
      destruct (Hkeep _ _ _ Hne H1) as [e2 H2].
      destruct (Hold _ _ _ Hne H2) as (e0 & H0 & [(_ & Hp & _)|(Hp0 & _)]); [|congruence].
      exists th1, s1, v1, e2. rewrite list_lookup_insert_ne by lia.
      split; [done|]. split; [done|]. split; [done|]. congruence.
  - intros Hfi. destruct (C5 Hfi) as [Hall Hr]. destruct (Hpages Hfi) as (Hin & Hk & Hr').
    split; [|done]. intros g Hg. rewrite Hbit by done. case_decide as Hd; [by subst|].
    intros Hb. apply Hk; [by apply Hall|done].
Qed.

(** Releasing the frames of a whole space. *)
Lemma core_release E E' bit bit' ipt tsp pages fifo s :
  core E bit ipt tsp pages fifo →
  (∀ s1 v1, s1 ≠ s → E' s1 v1 = E s1 v1) → (∀ v1, E' s v1 = None) →
  (∀ f, 0 ≤ f < NumPhysPages →
     bit' f = true ↔ bit f = true ∧ ¬ ∃ vp e, E s vp = Some e ∧ physicalPage e = f) →
  core E' bit' ipt tsp pages fifo.
Proof.
  intros [C1 C2 C3 C4 C5] Hsame Hgone Hbit.
  assert (Hsub : ∀ s1 v1 e1, E' s1 v1 = Some e1 → s1 ≠ s ∧ E s1 v1 = Some e1).
  { intros s1 v1 e1 H. destruct (decide (s1 = s)) as [->|Hn]; [by rewrite Hgone in H|].
    split; [done|]. by rewrite <- Hsame. }
  split.
  - intros s1 v1 e1 [_ H]%Hsub. by eapply C1.
  - intros s1 v1 e1 s2 v2 e2 [_ H1]%Hsub [_ H2]%Hsub. by eapply C2.
  - intros s1 v1 e1 [Hn H]%Hsub Hv. destruct (C1 _ _ _ H) as [[_ ?]|[Hr _]]; [congruence|].
    apply Hbit; [done|]. split; [by eapply C3|]. intros (v2 & e2 & H2 & Hp).
    apply Hn. destruct (C1 _ _ _ H2) as [[? _]|[_ Hv2]]; [lia|].
    eapply (C2 s1 v1 e1 s v2 e2); [done..|congruence].
  - intros f Hf [Hb Hno]%Hbit; [|done]. destruct (C4 f Hf Hb) as (th & s1 & v1 & e1 & Hi & Ht & H1 & Hp).
    exists th, s1, v1, e1. split; [done|]. split; [done|]. split; [|done].
    rewrite Hsame; [done|]. intros ->. apply Hno. eauto.
  - intros Hfi. destruct (C5 Hfi) as [Hall Hr]. split; [|done].
    intros f Hf [Hb _]%Hbit; [|done]. by apply Hall.
Qed.

(** ** The invariant of the kernel state *)
Section vm.
Context {B F : Type} `{!BitmapLike B} `{!HostFiles F}.
Abbreviation vm := (@AddrSpace.vm B F).

(** Entry [vp] of the page table of space [s]. *)
Definition entry (v : vm) (s vp : Z) : option TranslationEntry :=
  sp ← spaces v !! s;
  tb ← tables (machine v) !! as_pageTable sp;
  if decide (0 ≤ vp < numPages sp) then tb !! Z.to_nat vp else None.

(** Every space has a page table and a swap map of its own, of numPages entries;
    no page is marked as swapped. *)
Record spaces_ok (v : vm) : Prop := {
  so_table : ∀ s sp, spaces v !! s = Some sp →
    0 ≤ numPages sp ∧ ∃ tb, tables (machine v) !! as_pageTable sp = Some tb ∧
      Z.of_nat (length tb) = numPages sp;
  so_swapped : ∀ s sp, spaces v !! s = Some sp →
    Z.of_nat (length (swapped sp)) = numPages sp ∧ Forall (λ b, b = false) (swapped sp);
  so_distinct : ∀ s1 sp1 s2 sp2, spaces v !! s1 = Some sp1 → spaces v !! s2 = Some sp2 →
    as_pageTable sp1 = as_pageTable sp2 → s1 = s2
}.

Record vm_ok (v : vm) : Prop := {
  ok_mem : Z.of_nat (length (mainMemory (machine v))) = MemorySize;
  ok_map : bm_ok (memMap v) ∧ bm_size (memMap v) = NumPhysPages;
  ok_ipt : Z.of_nat (length (ipt v)) = NumPhysPages;
  ok_locks : Z.of_nat (length (pageLock v)) = NumPhysPages ∧ Forall (λ n, n = 1) (pageLock v);
  ok_spaces : spaces_ok v;
  ok_core : core (entry v) (bm_bit (memMap v)) (ipt v) (thread_space v)
              (Queue.contents (pageList v)) (swapChoice v =? 1)
}.

Lemma entry_Some v s vp e :
  entry v s vp = Some e ↔
  ∃ sp tb, spaces v !! s = Some sp ∧ tables (machine v) !! as_pageTable sp = Some tb ∧
    0 ≤ vp < numPages sp ∧ tb !! Z.to_nat vp = Some e.
Proof.
  unfold entry. rewrite bind_Some. setoid_rewrite bind_Some.
  split.
  - intros (sp & Hs & tb & Ht & H). case_decide; [|done]. eauto 10.
  - intros (sp & tb & Hs & Ht & Hr & H). exists sp. split; [done|]. exists tb. split; [done|].
    by rewrite decide_True.
Qed.

(** ** Updating one entry *)

(** [v'] is [v] with other page tables. *)
Definition retabled (v v' : vm) : Prop :=
  ∃ T, v' = set_machine v (set_tables (machine v) T).

Lemma retabled_refl v : retabled v v.
Proof. exists (tables (machine v)). destruct v as [[] ? ? ? ? ? ? ? ? ? ? ?]. done. Qed.

Lemma retabled_trans v1 v2 v3 : retabled v1 v2 → retabled v2 v3 → retabled v1 v3.
Proof. intros [T1 ->] [T2 ->]. by exists T2. Qed.

Lemma update_entry_spec v s vp e f :
  spaces_ok v → entry v s vp = Some e →
  ∃ v', update_entry v s vp f = Done v' ∧ retabled v v' ∧ spaces_ok v' ∧
    ∀ s' vp', entry v' s' vp' = if decide ((s', vp') = (s, vp)) then Some (f e) else entry v s' vp'.
Proof.
  intros [S1 S2 S3] He. apply entry_Some in He as (sp & tb & Hs & Ht & Hr & He).
  destruct (S1 s sp Hs) as (_ & tb' & Ht' & Hl). rewrite Ht in Ht'. injection Ht' as <-.
  unfold update_entry, get_space, get_table. rewrite Hs. simpl. rewrite Ht. simpl.
  rewrite (aget_Some tb vp e) by (done || lia). simpl. rewrite aset_in_range by lia. simpl.
  eexists. split; [done|]. split; [by eexists|]. split.
  - split; simpl; [|exact S2|exact S3]. intros s1 sp1 H1. destruct (S1 s1 sp1 H1) as (Hn & tb1 & Htb1 & Hl1).
    split; [done|]. destruct (decide (as_pageTable sp1 = as_pageTable sp)) as [E|E].
    + rewrite E, lookup_insert_eq. rewrite E, Ht in Htb1. injection Htb1 as <-.
      eexists. split; [done|]. by rewrite length_insert.
    + rewrite lookup_insert_ne by done. eauto.
  - intros s' vp'. unfold entry. simpl. destruct (spaces v !! s') as [sp'|] eqn:Es'; simpl.
    2: { rewrite decide_False; [done|]. intros [= -> ->]. congruence. }
    destruct (decide (as_pageTable sp' = as_pageTable sp)) as [E|E].
    + assert (s' = s) as -> by (by eapply S3). assert (sp' = sp) as -> by congruence.
      rewrite lookup_insert_eq, Ht. simpl. destruct (decide (vp' = vp)) as [->|Hvp].
      * rewrite !decide_True by done. by rewrite list_lookup_insert_eq by lia.
      * rewrite (decide_False (P := (s, vp') = (s, vp))) by congruence.
        case_decide; [|done]. by rewrite list_lookup_insert_ne by lia.
    + rewrite lookup_insert_ne by done. rewrite decide_False; [done|].
      intros [= -> ->]. congruence.
Qed.

Lemma update_entry_frame (v : vm) s vp f v' :
  update_entry v s vp f = Done v' → retabled v v'.
Proof. unfold update_entry. intros H. inv_res. subst. by eexists. Qed.

(** Everything but the page tables, the contents of memory and the host files. *)
Definition same_kernel (v v' : vm) : Prop :=
  memMap v' = memMap v ∧ pageList v' = pageList v ∧ ipt v' = ipt v ∧ pageLock v' = pageLock v ∧
  spaces v' = spaces v ∧ thread_space v' = thread_space v ∧ currentThread v' = currentThread v ∧
  swapChoice v' = swapChoice v ∧
  length (mainMemory (machine v')) = length (mainMemory (machine v)).

Lemma same_kernel_trans v1 v2 v3 : same_kernel v1 v2 → same_kernel v2 v3 → same_kernel v1 v3.
Proof. unfold same_kernel. intuition congruence. Qed.

Lemma retabled_same v v' : retabled v v' → same_kernel v v' ∧ hostfs v' = hostfs v ∧
  mainMemory (machine v') = mainMemory (machine v).
Proof. intros [T ->]. done. Qed.

(** ** Swapout *)

Lemma find_frame_spec tb n i frame :
  0 ≤ i → i + Z.of_nat n ≤ Z.of_nat (length tb) →
  (∃ k e, find_frame tb n i frame = Done k ∧ i ≤ k < i + Z.of_nat n ∧
     tb !! Z.to_nat k = Some e ∧ physicalPage e = frame) ∨
  (find_frame tb n i frame = Done (-1) ∧
   ∀ k e, i ≤ k < i + Z.of_nat n → tb !! Z.to_nat k = Some e → physicalPage e ≠ frame).
Proof.
  revert i. induction n as [|n IH]; intros i Hi Hn; cbn [find_frame].
  - right. split; [done|]. lia.
  - destruct (aget_in_range tb i) as (e & -> & He); [lia|]. cbn [mbind res_bind].
    destruct (physicalPage e =? frame) eqn:E; simplify_tests.
    + left. exists i, e. split; [done|]. split; [lia|done].
    + destruct (IH (i + 1)) as [(k & e' & Hk & Hr & H1 & H2)|[Hk Hno]]; [lia|lia|..].
      * left. exists k, e'. split; [done|]. split; [lia|done].
      * right. split; [done|]. intros k e' Hr He'.
        destruct (decide (k = i)) as [->|]; [congruence|]. apply (Hno k e'); [lia|done].
Qed.

Lemma set_swapped_id v s vp sp :
  spaces_ok v → spaces v !! s = Some sp → 0 ≤ vp < numPages sp →
  set_swapped v s vp false = Done v.
Proof.
  intros [S1 S2 S3] Hs Hr. destruct (S2 s sp Hs) as [Hl Hall].
  unfold set_swapped, get_space. rewrite Hs. simpl. rewrite aset_in_range by lia. simpl.
  destruct (lookup_lt_is_Some_2 (swapped sp) (Z.to_nat vp)) as [b Hb]; [lia|].
  pose proof (Forall_lookup_1 _ _ _ _ Hall Hb) as Hbf. simpl in Hbf. subst b.
  rewrite list_insert_id by done. destruct sp. simpl. rewrite insert_id by done.
  destruct v. done.
Qed.

(** The files other than [fd] read the same. *)
Definition reads_same (fd : Z) (f f' : F) : Prop :=
  ∀ fd' pos n, fd' ≠ fd → h_read f' fd' pos n = h_read f fd' pos n.

(** The host writes everything it is asked to write. *)
Definition host_writes : Prop :=
  ∀ (f : F) fd pos bs, (h_write f fd pos bs).2 = Z.of_nat (length bs).

(** loadPage asks for a negative number of bytes when a page lies before a segment;
    POSIX leaves open what read does then.  Linux, the host of Nachos, refuses it. *)
Definition negative_reads_fail : Prop :=
  ∀ (f : F) fd pos n, n < 0 → h_read f fd pos n = None.

Context (Hwrites : host_writes) (Hneg : negative_reads_fail).

Lemma read_bound (f : F) fd pos n bs :
  h_read f fd pos n = Some bs → Z.of_nat (length bs) ≤ n ∧ Forall is_byte bs.
Proof.
  intros Hr. destruct (decide (0 ≤ n)); [by eapply h_read_bound|]. rewrite Hneg in Hr by lia. done.
Qed.

Lemma WriteAt_ok (f : F) fd bs pos :
  0 ≤ pos → ∃ f', StubFile.WriteAt f fd bs pos = Done (f', Z.of_nat (length bs)) ∧ reads_same fd f f'.
Proof.
  intros Hp. unfold StubFile.WriteAt. rewrite bind_ASSERT by lia.
  pose proof (Hwrites f fd pos bs) as H.
  assert (Hrs : reads_same fd f (h_write f fd pos bs).1).
  { intros fd' pos' n Hne. apply h_write_other. congruence. }
  destruct (h_write f fd pos bs) as [f' n]. simpl in *. rewrite bind_ASSERT by lia. eauto.
Qed.

Lemma frame_bytes_ok (v : vm) f :
  Z.of_nat (length (mainMemory (machine v))) = MemorySize → 0 ≤ f < NumPhysPages →
  ∃ bs, frame_bytes v f = Done bs ∧ Z.of_nat (length bs) = PageSize.
Proof.
  intros Hm Hf. unfold frame_bytes, MemorySize, NumPhysPages, PageSize, SectorSize in *.
  rewrite slice_in_range by lia. eexists. split; [done|]. rewrite length_take, length_drop. lia.
Qed.

Definition evicted (e : TranslationEntry) : TranslationEntry :=
  with_phys (-1) (with_dirty false (with_valid false e)).

Lemma Swapout_spec v so vo eo f :
  spaces_ok v → Z.of_nat (length (mainMemory (machine v))) = MemorySize → 0 ≤ f < NumPhysPages →
  entry v so vo = Some eo → physicalPage eo = f →
  (∀ vp e, entry v so vp = Some e → physicalPage e = f → vp = vo) →
  ∃ v' sp, Swapout v so f = Done (true, v') ∧ same_kernel v v' ∧ spaces_ok v' ∧
    spaces v !! so = Some sp ∧ reads_same (swapFile sp) (hostfs v) (hostfs v') ∧
    mainMemory (machine v') = mainMemory (machine v) ∧
    ∀ s vp, entry v' s vp = if decide ((s, vp) = (so, vo)) then Some (evicted eo) else entry v s vp.
Proof.
  intros Hso Hm Hf He Hp Huniq. pose proof He as He0.
  apply entry_Some in He0 as (sp & tb & Hs & Ht & Hr & Hl).
  pose proof (so_table v Hso so sp Hs) as (Hn & tb' & Ht' & Hlen).
  rewrite Ht in Ht'. injection Ht' as <-.
  unfold Swapout. unfold get_space. rewrite Hs. cbn [mbind res_bind]. unfold get_table. rewrite Ht.
  cbn [mbind res_bind].
  destruct (find_frame_spec tb (Z.to_nat (numPages sp)) 0 f) as [(k & ek & -> & Hk & Hek & Hpk)|[_ Hno]];
    [lia|lia| |].
  2: { exfalso. apply (Hno vo eo); [lia|done|done]. }
  assert (k = vo) as ->.
  { apply (Huniq k ek); [|done]. apply entry_Some. exists sp, tb. split; [done|]. split; [done|].
    split; [lia|done]. }
  rewrite Hl in Hek. injection Hek as <-.
  cbn [mbind res_bind]. rewrite bind_ASSERT by lia. rewrite (aget_Some tb vo eo) by (done || lia).
  cbn [mbind res_bind].
  assert (Hw : ∃ v1, (if dirty eo then data ← frame_bytes v f;
      '(f0, _) ← StubFile.WriteAt (hostfs v) (swapFile sp) data (vo * PageSize);
      Done (set_hostfs v f0) else Done v) = Done v1 ∧
      ∃ g, v1 = set_hostfs v g ∧ reads_same (swapFile sp) (hostfs v) g).
  { destruct (dirty eo).
    - destruct (frame_bytes_ok v f Hm Hf) as (bs & -> & _). cbn [mbind res_bind].
      destruct (WriteAt_ok (hostfs v) (swapFile sp) bs (vo * PageSize)) as (f' & -> & Hrs);
        [unfold PageSize, SectorSize; lia|]. cbn. eauto.
    - exists v. split; [done|]. exists (hostfs v). split; [by destruct v|done]. }
  destruct Hw as (v1 & -> & g & -> & Hrs). cbn [mbind res_bind].
  assert (Hso1 : spaces_ok (set_hostfs v g)) by (destruct Hso; by split).
  destruct (update_entry_spec (set_hostfs v g) so vo eo (with_valid false) Hso1 He)
    as (v2 & -> & Hr2 & Hso2 & He2). cbn [mbind res_bind].
  destruct (update_entry_spec v2 so vo (with_valid false eo) (with_dirty false) Hso2)
    as (v3 & -> & Hr3 & Hso3 & He3); [by rewrite He2, decide_True|]. cbn [mbind res_bind].
  destruct (update_entry_spec v3 so vo (with_dirty false (with_valid false eo)) (with_phys (-1)) Hso3)
    as (v4 & -> & Hr4 & Hso4 & He4); [by rewrite He3, decide_True|]. cbn [mbind res_bind].
  pose proof (retabled_trans _ _ _ (retabled_trans _ _ _ Hr2 Hr3) Hr4) as Hrt.
  destruct (retabled_same _ _ Hrt) as (Hsk & Hhf & Hmem).
  rewrite (set_swapped_id v4 so vo sp Hso4); [|destruct Hrt as [T ->]; done|done].
  cbn [mbind res_bind]. exists v4, sp. split; [done|]. split; [exact Hsk|]. split; [done|]. split; [done|].
  split; [by rewrite Hhf|]. split; [done|].
  intros s1 vp1. rewrite He4. case_decide as Hd; [done|].
  rewrite He3, decide_False by done. rewrite He2, decide_False by done. done.
Qed.

(** ** Filling a frame *)

(** The read of a segment stays inside the page. *)
Definition no_overrun (seg : Segment) (vp : Z) : Prop :=
  s32 (segment_length seg vp) ≤ PageSize - segment_start seg vp.

(** The reads of a page can be done: they stay inside the page, at positions the
    file can be positioned to. *)
Definition loadable (sp : AddrSpace.t) (vp : Z) : Prop :=
  ∀ seg, seg = code (noffH sp) ∨ seg = initData (noffH sp) →
    0 < seg_size seg → no_overrun seg vp ∧ 0 ≤ s32 (inFileAddr seg + segment_offset seg vp).

Lemma segment_start_nonneg seg vp : 0 ≤ segment_start seg vp.
Proof. unfold segment_start. case_match; [done|apply u32_range]. Qed.

(** Memory agrees with [mem] outside frame [f]. *)
Definition outside_frame (f : Z) (mem mem' : list Z) : Prop :=
  ∀ i, ¬ (Z.to_nat (f * PageSize) ≤ i < Z.to_nat (f * PageSize + PageSize))%nat → mem' !! i = mem !! i.

(** Overwriting part of a frame is overwriting part of a page. *)
Lemma blit_in_frame (mem pg bs : list Z) f off :
  Z.of_nat (length mem) = MemorySize → 0 ≤ f < NumPhysPages →
  slice mem (f * PageSize) PageSize = Done pg → 0 ≤ off → off + Z.of_nat (length bs) ≤ PageSize →
  ∃ pg' mem', blit pg off bs = Done pg' ∧ blit mem (f * PageSize + off) bs = Done mem' ∧
    slice mem' (f * PageSize) PageSize = Done pg' ∧ length mem' = length mem ∧ outside_frame f mem mem'.
Proof.
  unfold MemorySize, NumPhysPages, PageSize, SectorSize. intros Hm Hf Hsl Ho Hle.
  pose proof (slice_length _ _ _ _ Hsl) as Hpl.
  destruct (blit pg off bs) as [pg'| | | |] eqn:Hb1; try (rewrite blit_in_range in Hb1 by lia; done).
  destruct (blit mem (f * 256 + off) bs) as [mem'| | | |] eqn:Hb2; try (rewrite blit_in_range in Hb2 by lia; done).
  exists pg', mem'. split; [done|]. split; [done|].
  pose proof (blit_length _ _ _ _ Hb1) as Hl1. pose proof (blit_length _ _ _ _ Hb2) as Hl2.
  split; [|split; [done|]].
  - rewrite slice_in_range by lia. f_equal. apply list_eq. intros i.
    destruct (decide (i < 256)%nat) as [Hi|Hi].
    + rewrite lookup_take_lt, lookup_drop by lia.
      destruct (decide (Z.to_nat off ≤ i < Z.to_nat off + length bs)%nat) as [Hin|Hout].
      * rewrite (blit_lookup_in _ _ _ _ _ Hb1) by lia. rewrite (blit_lookup_in _ _ _ _ _ Hb2) by lia.
        f_equal. lia.
      * rewrite (blit_lookup_out _ _ _ _ _ Hb1) by lia. rewrite (blit_lookup_out _ _ _ _ _ Hb2) by lia.
        rewrite (slice_lookup _ _ _ _ _ Hsl) by lia. done.
    + rewrite !lookup_ge_None_2; [done|lia|rewrite length_take, length_drop; lia].
  - intros i Hi. unfold PageSize, SectorSize in Hi. apply (blit_lookup_out _ _ _ _ _ Hb2). lia.
Qed.

Lemma load_segment_spec (hf : F) fd seg vp f (mem pg : list Z) :
  Z.of_nat (length mem) = MemorySize → 0 ≤ f < NumPhysPages →
  slice mem (f * PageSize) PageSize = Done pg →
  (0 < seg_size seg → no_overrun seg vp ∧ 0 ≤ s32 (inFileAddr seg + segment_offset seg vp)) →
  ∃ pg' mem', load_segment hf fd seg vp 0 pg = Done pg' ∧ load_segment hf fd seg vp f mem = Done mem' ∧
    slice mem' (f * PageSize) PageSize = Done pg' ∧ length mem' = length mem ∧ outside_frame f mem mem'.
Proof.
  intros Hm Hf Hsl Hok. unfold load_segment.
  destruct (0 <? seg_size seg) eqn:Esz; simplify_tests; [|by exists pg, mem].
  destruct (Hok Esz) as [Hno Hpos]. unfold StubFile.ReadAt. rewrite !bind_ASSERT by lia.
  cbn [mbind res_bind].
  destruct (h_read hf fd _ _) as [[|b bs]|] eqn:Er; [by exists pg, mem| |by exists pg, mem].
  destruct (read_bound _ _ _ _ _ Er) as [Hlen _]. unfold no_overrun in Hno.
  pose proof (segment_start_nonneg seg vp) as Hst.
  destruct (blit_in_frame mem pg (b :: bs) f (segment_start seg vp)) as (pg' & mem' & Hb1 & Hb2 & H);
    [done|done|done|done|lia|].
  exists pg', mem'. unfold MemorySize, NumPhysPages, PageSize, SectorSize in *.
  simpl in Hlen. rewrite !u32_id by (unfold is_u32; lia).
  rewrite Z.mul_0_r, Z.add_0_l. split; [done|]. by rewrite (Z.mul_comm 256).
Qed.

(** The page that loadPage builds: zeros, the code, the initialised data. *)
Definition page_image (hf : F) (sp : AddrSpace.t) (vp : Z) : res (list Z) :=
  pg ← load_segment hf (file sp) (code (noffH sp)) vp 0 (replicate (Z.to_nat PageSize) 0);
  load_segment hf (file sp) (initData (noffH sp)) vp 0 pg.

Lemma outside_frame_trans f m1 m2 m3 : outside_frame f m1 m2 → outside_frame f m2 m3 → outside_frame f m1 m3.
Proof. intros H1 H2 i Hi. by rewrite H2, H1. Qed.

Definition loaded (e : TranslationEntry) : TranslationEntry := with_dirty false (with_valid true e).

Lemma fill_frame_spec v s vp f e sp :
  spaces_ok v → Z.of_nat (length (mainMemory (machine v))) = MemorySize → 0 ≤ f < NumPhysPages →
  entry v s vp = Some e → spaces v !! s = Some sp → loadable sp vp →
  ∃ v' img, fill_frame v s vp f = Done v' ∧ same_kernel v v' ∧ spaces_ok v' ∧
    page_image (hostfs v) sp vp = Done img ∧ frame_bytes v' f = Done img ∧
    outside_frame f (mainMemory (machine v)) (mainMemory (machine v')) ∧
    ∀ s1 v1, entry v' s1 v1 = if decide ((s1, v1) = (s, vp)) then Some (loaded e) else entry v s1 v1.
Proof.
  intros Hso Hm Hf He Hs Hld. pose proof He as He0.
  apply entry_Some in He0 as (sp' & tb & Hs' & Ht & Hr & Hl). rewrite Hs in Hs'. injection Hs' as <-.
  destruct (so_swapped v Hso s sp Hs) as [Hsl Hsw].
  destruct (lookup_lt_is_Some_2 (swapped sp) (Z.to_nat vp)) as [b Hb]; [lia|].
  pose proof (Forall_lookup_1 _ _ _ _ Hsw Hb) as Hbf. simpl in Hbf. subst b.
  unfold fill_frame, get_space. rewrite Hs. cbn [mbind res_bind].
  rewrite (aget_Some (swapped sp) vp false) by (done || lia). cbn [mbind res_bind negb].
  set (zeros := replicate (Z.to_nat PageSize) 0).
  assert (Hz : Z.of_nat (length zeros) = PageSize) by (unfold zeros; rewrite length_replicate; done).
  destruct (frame_bytes_ok v f Hm Hf) as (pg0 & Hpg0 & Hlpg0). unfold frame_bytes in Hpg0.
  destruct (blit_in_frame (mainMemory (machine v)) pg0 zeros f 0) as (pg1 & m1 & Hb1 & Hb2 & Hs1 & Hl1 & Ho1);
    [done|done|done|lia|lia|].
  assert (pg1 = zeros) as ->.
  { apply blit_Done in Hb1 as (_ & _ & ->). rewrite drop_ge by lia. by rewrite app_nil_r. }
  rewrite (Z.mul_comm PageSize f). rewrite Z.add_0_r in Hb2. rewrite Hb2. cbn [mbind res_bind].
  destruct (load_segment_spec (hostfs v) (file sp) (code (noffH sp)) vp f m1 zeros)
    as (pg2 & m2 & Hp2 & -> & Hs2 & Hl2 & Ho2); [by rewrite Hl1|done|done|apply Hld; by left|].
  cbn [mbind res_bind].
  destruct (load_segment_spec (hostfs v) (file sp) (initData (noffH sp)) vp f m2 pg2)
    as (pg3 & m3 & Hp3 & -> & Hs3 & Hl3 & Ho3); [by rewrite Hl2, Hl1|done|done|apply Hld; by right|].
  cbn [mbind res_bind]. unfold frame_bytes at 1. simpl. rewrite Hs3. cbn [mbind res_bind].
  destruct (WriteAt_ok (hostfs v) (swapFile sp) pg3 (vp * PageSize)) as (f' & -> & _);
    [unfold PageSize, SectorSize; lia|]. cbn [mbind res_bind].
  set (w := set_hostfs (put_mem v m3) f').
  assert (Hsow : spaces_ok w) by (destruct Hso; by split).
  destruct (update_entry_spec w s vp e (with_valid true) Hsow He) as (w1 & -> & Hr1 & Hso1 & He1).
  cbn [mbind res_bind].
  destruct (update_entry_spec w1 s vp (with_valid true e) (with_dirty false) Hso1)
    as (w2 & -> & Hr2 & Hso2 & He2); [by rewrite He1, decide_True|].
  pose proof (retabled_trans _ _ _ Hr1 Hr2) as Hrt. destruct (retabled_same _ _ Hrt) as (Hsk & Hhf & Hmem).
  exists w2, pg3. split; [done|]. split; [|split; [done|split; [|split; [|split]]]].
  - eapply same_kernel_trans; [|exact Hsk]. repeat (split; [done|]). simpl. congruence.
  - unfold page_image. fold zeros. by rewrite Hp2.
  - unfold frame_bytes. rewrite Hmem. done.
  - rewrite Hmem. simpl. eapply outside_frame_trans; [|done]. by eapply outside_frame_trans.
  - intros s1 v1. rewrite He2. case_decide; [done|]. rewrite He1, decide_False by done. done.
Qed.

(** ** Choosing a frame *)
Context (rand : nat → Z) (Hrand : ∀ n, 0 ≤ rand n).

(** A page replacement scheme was selected, or there is a free frame. *)
Definition can_replace (v : vm) : Prop :=
  swapChoice v = 1 ∨ swapChoice v = 2 ∨ ∃ f, 0 ≤ f < NumPhysPages ∧ bm_bit (memMap v) f = false.

(** [v1] is [v] after frame [f] was taken: the other state is the same, the bit is
    set, and a page that had the frame has lost it. *)
Record taken (v v1 : vm) (f : Z) : Prop := {
  tk_range : 0 ≤ f < NumPhysPages;
  tk_same : ipt v1 = ipt v ∧ pageLock v1 = pageLock v ∧ spaces v1 = spaces v ∧
    thread_space v1 = thread_space v ∧ currentThread v1 = currentThread v ∧
    swapChoice v1 = swapChoice v ∧ mainMemory (machine v1) = mainMemory (machine v);
  tk_spaces : spaces_ok v1;
  tk_map : bm_ok (memMap v1) ∧ bm_size (memMap v1) = NumPhysPages ∧
    ∀ j, 0 ≤ j < NumPhysPages →
      bm_bit (memMap v1) j = if decide (j = f) then true else bm_bit (memMap v) j;
  tk_pages : swapChoice v = 1 →
    (∀ g, g ∈ Queue.contents (pageList v) → g ≠ f → g ∈ Queue.contents (pageList v1)) ∧
    Forall (λ g, 0 ≤ g < NumPhysPages) (Queue.contents (pageList v1));
  tk_files : ∀ fd, (∀ s sp, spaces v !! s = Some sp → swapFile sp ≠ fd) →
    ∀ pos n, h_read (hostfs v1) fd pos n = h_read (hostfs v) fd pos n;
  tk_entry : ∀ s vp, entry v1 s vp =
    (λ e, if decide (physicalPage e = f) then evicted e else e) <$> entry v s vp
}.

(** Taking a frame from its owner. *)
Lemma evict_spec v f mm q n :
  vm_ok v → 0 ≤ f < NumPhysPages →
  (∀ j, 0 ≤ j < NumPhysPages → bm_bit (memMap v) j = true) →
  let v0 := set_rand_calls (set_pageList (set_memMap v mm) q) n in
  ∃ v1, (owner ← aget (ipt v0) f;
         s ← match thread_space v0 !! owner with Some s => Done s | None => Undef end;
         '(ok, v1) ← Swapout v0 s f;
         Done (if (ok : bool) then Some f else None, v1)) = Done (Some f, v1) ∧
    same_kernel v0 v1 ∧ spaces_ok v1 ∧ mainMemory (machine v1) = mainMemory (machine v) ∧
    (∃ s sp, spaces v !! s = Some sp ∧ reads_same (swapFile sp) (hostfs v) (hostfs v1)) ∧
    ∀ s vp, entry v1 s vp = (λ e, if decide (physicalPage e = f) then evicted e else e) <$> entry v s vp.
Proof.
  intros [K1 K2 K3 K4 K5 K6] Hf Hall v0.
  destruct (core_owner _ _ _ _ _ _ K6 f Hf (Hall f Hf)) as (th & so & vo & eo & Hi & Hth & He & Hp).
  simpl. rewrite (aget_Some (ipt v) f th) by (done || lia). cbn [mbind res_bind]. rewrite Hth.
  cbn [mbind res_bind].
  assert (Huq : ∀ s1 v1 e1, entry v s1 v1 = Some e1 → physicalPage e1 = f → s1 = so ∧ v1 = vo).
  { intros s1 v1 e1 H1 Hp1.
    destruct (core_entry _ _ _ _ _ _ K6 _ _ _ H1) as [[? _]|[_ V1]]; [lia|].
    destruct (core_entry _ _ _ _ _ _ K6 _ _ _ He) as [[? _]|[_ V2]]; [lia|].
    eapply (core_inj _ _ _ _ _ _ K6); [exact H1|exact He|done|done|congruence]. }
  destruct (Swapout_spec v0 so vo eo f) as (v1 & sp & -> & Hsk & Hso & Hsp & Hrs & Hmem & Hent);
    [destruct K5; by split|done|done|done|done| |].
  { intros vp e H1 Hp1. by destruct (Huq so vp e H1 Hp1). }
  cbn [mbind res_bind]. exists v1. split; [done|]. split; [done|]. split; [done|]. split; [done|].
  split; [by exists so, sp|]. intros s vp. rewrite Hent. case_decide as Hd.
  - injection Hd as -> ->. rewrite He. simpl. by rewrite decide_True.
  - change (entry v0 s vp) with (entry v s vp). destruct (entry v s vp) as [e|] eqn:E; simpl; [|done].
    rewrite decide_False; [done|]. intros Hpe. apply Hd.
    destruct (Huq s vp e E Hpe) as [-> ->]. done.
Qed.

Lemma choose_frame_spec v :
  vm_ok v → can_replace v → ∃ f v1, choose_frame rand v = Done (Some f, v1) ∧ taken v v1 f.
Proof.
  intros Hok Hcan. pose proof Hok as [K1 [K2 K2s] K3 K4 K5 K6].
  unfold choose_frame. destruct (bm_Find_spec (memMap v) K2) as
    [(k & mm & -> & Hk & Hkf & Hmok & Hms & Hbits)|[-> Hall]]; cbn [mbind res_bind].
  - rewrite K2s in *. replace (k =? -1) with false by lia.
    exists k, (set_memMap v mm). split; [done|]. split; simpl; try done.
    + destruct K5. by split.
    + intros Hsc. split; [done|]. apply (core_fifo _ _ _ _ _ _ K6). lia.
    + intros s vp. change (entry (set_memMap v mm) s vp) with (entry v s vp).
      destruct (entry v s vp) as [e|] eqn:E; simpl; [|done]. case_decide as Hd; [|done].
      exfalso. destruct (core_entry _ _ _ _ _ _ K6 _ _ _ E) as [[? _]|[_ V]]; [lia|].
      pose proof (core_marked _ _ _ _ _ _ K6 _ _ _ E V). congruence.
  - rewrite K2s in Hall. change (-1 =? -1) with true. cbn [negb].
    assert (Hbits : ∀ f j, 0 ≤ j < NumPhysPages →
      bm_bit (memMap v) j = if decide (j = f) then true else bm_bit (memMap v) j).
    { intros f j Hj. case_decide; [by apply Hall|done]. }
    destruct (decide (swapChoice v = 1)) as [H1|H1].
    + simpl. replace (swapChoice v =? 1) with true by lia.
      destruct (core_fifo _ _ _ _ _ _ K6) as [Hin Hrng]; [lia|].
      assert (H0 : 0 ∈ Queue.contents (pageList v)) by (apply Hin; [done|by apply Hall]).
      unfold Queue.contents in *. unfold Queue.Remove, Queue.SortedRemove. simpl.
      destruct (Queue.items (pageList v)) as [|[ky x] xs] eqn:Eq; [by apply elem_of_nil in H0|].
      cbn [fmap list_fmap snd] in *. apply Forall_cons in Hrng as [Hx Hrng]. cbn -[aget].
      destruct (evict_spec v x (memMap v) (Queue.mkQ xs (s32 (Queue.size (pageList v) - 1))) (rand_calls v))
        as (v1 & Hrun & Hsk & Hso & Hmem & (s0 & sp0 & Hs0 & Hrs) & Hent); [done|done|done|].
      exists x, v1. split.
      { destruct v. simpl in *. exact Hrun. }
      destruct Hsk as (S1 & S2 & S3 & S4 & S5 & S6 & S7 & S8 & S9). simpl in *.
      split; [done|by repeat (split; [done|])|done|by rewrite S1; eauto| |by intros fd Hfd pos n; apply Hrs; intros ->; eapply Hfd|done].
      intros _. rewrite S2. unfold Queue.contents. simpl. rewrite Eq. simpl. split; [|done]. intros g Hg Hne.
      apply elem_of_cons in Hg as [->|Hg]; [done|done].
    + destruct Hcan as [?|[H2|(f & Hf & Hb)]]; [done| |exfalso; rewrite Hall in Hb by done; done].
      simpl. replace (swapChoice v =? 1) with false by lia. replace (swapChoice v =? 2) with true by lia.
      cbn -[aget cmod]. pose proof (Hrand (rand_calls v)) as Hr.
      assert (Hx : 0 ≤ cmod (rand (rand_calls v)) 32 < NumPhysPages).
      { rewrite cmod_nonneg by lia. apply Z.mod_pos_bound. done. }
      destruct (evict_spec v (cmod (rand (rand_calls v)) 32) (memMap v) (pageList v) (S (rand_calls v)))
        as (v1 & Hrun & Hsk & Hso & Hmem & (s0 & sp0 & Hs0 & Hrs) & Hent); [done|done|done|].
      exists (cmod (rand (rand_calls v)) 32), v1. split.
      { destruct v. simpl in *. exact Hrun. }
      destruct Hsk as (S1 & S2 & S3 & S4 & S5 & S6 & S7 & S8 & S9). simpl in *.
      split; [done|by repeat (split; [done|])|done|by rewrite S1; eauto|done|by intros fd Hfd pos n; apply Hrs; intros ->; eapply Hfd|done].
Qed.

(** ** Serving a page fault *)

Lemma lock_roundtrip (v : vm) f :
  Z.of_nat (length (pageLock v)) = NumPhysPages → Forall (λ n, n = 1) (pageLock v) → 0 ≤ f < NumPhysPages →
  ∃ l, lock_P v f = Done (set_pageLock v l) ∧
    ∀ w : vm, pageLock w = l → lock_V w f = Done (set_pageLock w (pageLock v)).
Proof.
  intros Hl Hall Hf. unfold lock_P, lock_V.
  destruct (aget_in_range (pageLock v) f) as (n & Hn & Hn'); [lia|]. rewrite Hn.
  pose proof (Forall_lookup_1 _ _ _ _ Hall Hn') as Hn1. simpl in Hn1. subst n.
  cbn [mbind res_bind]. change (1 =? 0) with false. cbv iota. rewrite aset_in_range by lia. cbn [mbind res_bind].
  eexists. split; [done|]. intros w ->. rewrite (aget_Some _ f 0).
  - cbn [mbind res_bind]. rewrite aset_in_range by (rewrite length_insert; lia). cbn [mbind res_bind].
    rewrite list_insert_insert_eq. rewrite list_insert_id by done. done.
  - lia.
  - by rewrite list_lookup_insert_eq by lia.
Qed.

Lemma load_segment_reads (f f' : F) fd seg vp p mem :
  (∀ pos n, h_read f' fd pos n = h_read f fd pos n) →
  load_segment f' fd seg vp p mem = load_segment f fd seg vp p mem.
Proof. intros H. unfold load_segment, StubFile.ReadAt. by rewrite H. Qed.

Lemma page_image_reads (f f' : F) sp vp :
  (∀ pos n, h_read f' (file sp) pos n = h_read f (file sp) pos n) →
  page_image f' sp vp = page_image f sp vp.
Proof.
  intros H. unfold page_image. rewrite (load_segment_reads f f') by done.
  destruct (load_segment f (file sp) (code (noffH sp)) vp 0 _); [|done..].
  cbn [mbind res_bind]. by apply load_segment_reads.
Qed.

(** A fault of the running thread on a page of its space that can be served. *)
Record fault (v : vm) (s bad : Z) (sp : AddrSpace.t) (e : TranslationEntry) : Prop := {
  fl_thread : thread_space v !! currentThread v = Some s;
  fl_space : spaces v !! s = Some sp;
  fl_addr : 0 ≤ bad;
  fl_entry : entry v s (bad / PageSize) = Some e;
  fl_invalid : valid e = false;
  fl_replace : can_replace v;
  fl_load : loadable sp (bad / PageSize);
  fl_files : ∀ s' sp', spaces v !! s' = Some sp' → swapFile sp' ≠ file sp
}.

Lemma loadPage_spec v s bad sp e :
  vm_ok v → fault v s bad sp e →
  ∃ v' f img, loadPage rand v s bad = Done v' ∧ vm_ok v' ∧
    entry v' s (bad / PageSize) = Some (loaded (with_phys f e)) ∧ 0 ≤ f < NumPhysPages ∧
    page_image (hostfs v) sp (bad / PageSize) = Done img ∧ frame_bytes v' f = Done img ∧
    outside_frame f (mainMemory (machine v)) (mainMemory (machine v')) ∧
    ∀ s1 v1, (s1, v1) ≠ (s, bad / PageSize) → entry v' s1 v1 =
      (λ x, if decide (physicalPage x = f) then evicted x else x) <$> entry v s1 v1.
Proof.
  intros Hok [F1 F2 F3 F4 F5 F6 F7 F8]. pose proof Hok as [K1 K2 K3 [K4 K4'] K5 K6].
  unfold loadPage. rewrite cdiv_nonneg by done. set (vp := bad / PageSize) in *.
  set (v0 := set_numPageFaults v (s32 (numPageFaults v + 1))).
  assert (Hok0 : vm_ok v0) by (destruct K5; by split).
  destruct (choose_frame_spec v0 Hok0 F6) as (f & w & -> & [T1 T2 T3 T4 T5 T6 T7]).
  destruct T2 as (Ti & Tl & Ts & Tt & Tc & Tsc & Tm). cbn [mbind res_bind].
  assert (Hlk : ∃ l w1, (if swapChoice w =? 1
      then lock_P (set_pageList w (Queue.Append f (pageList w))) f else Done w) = Done w1 ∧
    w1 = set_pageLock (set_pageList w (if swapChoice w =? 1 then Queue.Append f (pageList w) else pageList w)) l ∧
    ∀ u : vm, pageLock u = l → (if swapChoice w =? 1 then lock_V u f else Done u) = Done (set_pageLock u (pageLock v))).
  { destruct (swapChoice w =? 1).
    - destruct (lock_roundtrip (set_pageList w (Queue.Append f (pageList w))) f) as (l & -> & Hv);
        [simpl; by rewrite Tl|simpl; by rewrite Tl|done|]. eexists l, _. split; [done|]. split; [done|].
      intros u Hu. rewrite (Hv u Hu). simpl. by rewrite Tl.
    - exists (pageLock w), w. split; [done|]. split; [by destruct w|]. intros u Hu.
      change (pageLock v) with (pageLock v0). rewrite <- Tl, <- Hu. by destruct u. }
  destruct Hlk as (l & w1 & -> & -> & HV). cbn [mbind res_bind].
  simpl ipt. simpl currentThread. rewrite aset_in_range by (rewrite Ti; simpl; lia). cbn [mbind res_bind].
  match goal with |- context [update_entry ?x s vp _] => set (w2 := x) end.
  assert (Hso2 : spaces_ok w2) by (destruct T3; by split).
  assert (He2 : entry w2 s vp = Some e).
  { change (entry w2 s vp) with (entry w s vp). rewrite T7. change (entry v0 s vp) with (entry v s vp).
    rewrite F4. simpl. rewrite decide_False; [done|].
    destruct (core_entry _ _ _ _ _ _ K6 _ _ _ F4) as [[-> _]|[_ ?]]; [lia|congruence]. }
  destruct (update_entry_spec w2 s vp e (with_phys f) Hso2 He2) as (w3 & -> & Hr3 & Hso3 & He3).
  cbn [mbind res_bind]. destruct (retabled_same _ _ Hr3) as (Sk3 & Hh3 & Hm3).
  destruct (fill_frame_spec w3 s vp f (with_phys f e) sp) as (w4 & img & -> & Sk4 & Hso4 & Himg & Hfb & Hout & He4).
  { done. }
  { rewrite Hm3. simpl. by rewrite Tm. }
  { done. }
  { by rewrite He3, decide_True. }
  { destruct Sk3 as (_ & _ & _ & _ & Hsp3 & _). rewrite Hsp3. simpl. by rewrite Ts. }
  { done. }
  cbn [mbind res_bind]. pose proof (same_kernel_trans _ _ _ Sk3 Sk4) as Sk.
  destruct Sk as (S1 & S2 & S3 & S4 & S5 & S6 & S7 & S8 & S9). simpl in S1, S2, S3, S4, S5, S6, S7, S8, S9.
  rewrite HV by done. eexists _, f, img. split; [done|].
  assert (Hent : ∀ s1 v1, (s1, v1) ≠ (s, vp) → entry w4 s1 v1 =
    (λ x, if decide (physicalPage x = f) then evicted x else x) <$> entry v s1 v1).
  { intros s1 v1 Hne. rewrite He4, decide_False by done. rewrite He3, decide_False by done.
    change (entry w2 s1 v1) with (entry w s1 v1). by rewrite T7. }
  assert (Hself : entry w4 s vp = Some (loaded (with_phys f e))) by (by rewrite He4, decide_True).
  assert (Hmem : mainMemory (machine w3) = mainMemory (machine v)) by (rewrite Hm3; simpl; exact Tm).
  split; [|split; [exact Hself|split; [done|split; [|split; [exact Hfb|split; [by rewrite <- Hmem|exact Hent]]]]]].
  - destruct T4 as (M1 & M2 & M3). split; simpl.
    + rewrite S9. by rewrite Tm.
    + by rewrite S1.
    + rewrite S3, length_insert. rewrite Ti. exact K3.
    + done.
    + destruct Hso4. by split.
    + rewrite S1, S2, S3, S6, S8. simpl. rewrite Ti, Tt, Tc, Tsc. simpl.
      eapply (core_assign (entry v) _ (bm_bit (memMap v)));
        [exact K6|done|done|exact F1|exact F4|done|exact Hself|done|done|..].
      * intros s1 v1 e1 Hne H1. change (entry w4 s1 v1 = Some e1) in H1. rewrite Hent in H1 by done.
        destruct (entry v s1 v1) as [e0|] eqn:E0; [|done]. simpl in H1. injection H1 as <-.
        exists e0. split; [done|]. case_decide; [by right|by left].
      * intros s1 v1 e0 Hne H0. change (is_Some (entry w4 s1 v1)). rewrite Hent by done. rewrite H0. by eexists.
      * exact M3.
      * intros Hfi. simpl in T5. destruct T5 as [P1 P2]; [lia|]. rewrite Hfi.
        unfold Queue.contents, Queue.Append in *. simpl. rewrite fmap_app. simpl.
        split; [apply elem_of_app; right; by apply list_elem_of_singleton|]. split.
        -- intros g Hg Hne. apply elem_of_app. left. by apply P1.
        -- apply Forall_app. split; [done|]. by constructor.
  - rewrite <- Himg. symmetry. apply page_image_reads. intros pos n. rewrite Hh3. simpl.
    apply (T6 (file sp)). intros s' sp' Hs'. by eapply F8.
Qed.

(** ** Destroying an address space *)

Lemma release_frames_spec (v : vm) tb n :
  bm_ok (memMap v) → bm_size (memMap v) = NumPhysPages → (n ≤ length tb)%nat →
  Forall (λ e, physicalPage e = -1 ∨ 0 ≤ physicalPage e < NumPhysPages) tb →
  ∃ mm, release_frames v tb n = Done (set_memMap v mm) ∧ bm_ok mm ∧ bm_size mm = NumPhysPages ∧
    ∀ f, 0 ≤ f < NumPhysPages →
      bm_bit mm f = true ↔ bm_bit (memMap v) f = true ∧
        ¬ ∃ i e, 0 ≤ i < Z.of_nat n ∧ tb !! Z.to_nat i = Some e ∧ physicalPage e = f.
Proof.
  intros Hok Hsz Hn Hall.
  destruct (for_up_inv (λ i w, ∃ mm, w = set_memMap v mm ∧ bm_ok mm ∧ bm_size mm = NumPhysPages ∧
      ∀ f, 0 ≤ f < NumPhysPages →
      bm_bit mm f = true ↔ bm_bit (memMap v) f = true ∧
        ¬ ∃ k e, 0 ≤ k < i ∧ tb !! Z.to_nat k = Some e ∧ physicalPage e = f)
    (λ i v, e ← aget tb i;
      if negb (physicalPage e =? -1)
      then mm ← bm_Clear (memMap v) (physicalPage e); Done (set_memMap v mm)
      else Done v) n 0 v) as (w & Hw & mm & -> & H1 & H2 & H3).
  - exists (memMap v). split; [by destruct v|]. split; [done|]. split; [done|].
    intros f Hf. split; [|tauto]. intros H. split; [done|]. intros (k & e & Hk & _). lia.
  - intros i w Hi (mm & -> & M1 & M2 & M3). destruct (aget_in_range tb i) as (e & -> & He); [lia|].
    cbn [mbind res_bind]. pose proof (Forall_lookup_1 _ _ _ _ Hall He) as Hpe. simpl in Hpe.
    destruct (physicalPage e =? -1) eqn:E; cbn [negb]; simplify_tests.
    + eexists. split; [done|]. exists mm. split; [done|]. split; [done|]. split; [done|].
      intros f Hf. rewrite M3 by done. apply and_iff_compat_l. apply not_iff_compat. split.
      * intros (k & x & Hk & Hx). exists k, x. split; [lia|done].
      * intros (k & x & Hk & Hx & Hp). exists k, x. split; [|done].
        destruct (decide (k = i)) as [->|]; [|lia]. rewrite He in Hx. injection Hx as <-. lia.
    + destruct Hpe as [?|Hpr]; [done|]. simpl memMap.
      destruct (bm_Clear_spec mm (physicalPage e) M1) as (mm' & -> & C1 & C2 & C3); [by rewrite M2|].
      cbn [mbind res_bind]. eexists. split; [done|]. exists mm'. split; [done|]. split; [done|].
      split; [congruence|]. rewrite M2 in C3. intros f Hf. rewrite C3 by done. case_decide as Hd.
      * split; [done|]. intros [_ Hno]. exfalso. apply Hno. exists i, e. split; [lia|]. by split.
      * rewrite M3 by done. apply and_iff_compat_l. apply not_iff_compat. split.
        -- intros (k & x & Hk & Hx). exists k, x. split; [lia|done].
        -- intros (k & x & Hk & Hx & Hp). exists k, x. split; [|done].
           destruct (decide (k = i)) as [->|]; [|lia]. rewrite He in Hx. injection Hx as <-. congruence.
  - exists mm. split; [exact Hw|]. split; [done|]. split; [done|]. intros f Hf. rewrite H3 by done. done.
Qed.

Lemma AddrSpace_delete_spec v s sp :
  vm_ok v → spaces v !! s = Some sp → space sp = true →
  ∃ v', AddrSpace_delete v s = Done v' ∧ vm_ok v' ∧ spaces v' = delete s (spaces v) ∧
    (∀ s1 v1, s1 ≠ s → entry v' s1 v1 = entry v s1 v1) ∧
    (∀ f, 0 ≤ f < NumPhysPages →
      bm_bit (memMap v') f = true ↔ bm_bit (memMap v) f = true ∧
        ¬ ∃ vp e, entry v s vp = Some e ∧ physicalPage e = f).
Proof.
  intros Hok Hs Hsp. pose proof Hok as [K1 [K2 K2s] K3 K4 K5 K6].
  destruct (so_table v K5 s sp Hs) as (Hn & tb & Ht & Hl).
  assert (Hentry : ∀ i e, 0 ≤ i < numPages sp → tb !! Z.to_nat i = Some e → entry v s i = Some e).
  { intros i e Hi He. apply entry_Some. eauto 10. }
  unfold AddrSpace_delete, get_space. rewrite Hs. cbn [mbind res_bind]. rewrite Hsp.
  unfold get_table. rewrite Ht. cbn [mbind res_bind].
  destruct (release_frames_spec v tb (Z.to_nat (numPages sp)) K2 K2s) as (mm & -> & M1 & M2 & M3); [lia| |].
  { apply list.Forall_forall. intros e [i Hi]%list_elem_of_lookup_1.
    pose proof (lookup_lt_Some _ _ _ Hi).
    destruct (core_entry _ _ _ _ _ _ K6 s (Z.of_nat i) e) as [[? _]|[? _]];
      [apply Hentry; [lia|by rewrite Nat2Z.id]|by left|by right]. }
  cbn [mbind res_bind].
  assert (Hothers : ∀ s1 sp1, spaces v !! s1 = Some sp1 → s1 ≠ s → as_pageTable sp ≠ as_pageTable sp1).
  { intros s1 sp1 H1 Hne Heq. apply Hne. by eapply (so_distinct v K5). }
  assert (Hbit : ∀ f, 0 ≤ f < NumPhysPages →
      bm_bit mm f = true ↔ bm_bit (memMap v) f = true ∧ ¬ ∃ vp e, entry v s vp = Some e ∧ physicalPage e = f).
  { intros f Hf. rewrite M3 by done. apply and_iff_compat_l. apply not_iff_compat. split.
    - intros (i & e & Hi & He & Hp). exists i, e. split; [|done]. apply Hentry; [lia|done].
    - intros (i & e & He & Hp). apply entry_Some in He as (sp' & tb' & Hs' & Ht' & Hr & He).
      rewrite Hs in Hs'. injection Hs' as <-. rewrite Ht in Ht'. injection Ht' as <-.
      exists i, e. split; [lia|done]. }
  eexists. split; [done|].
  match goal with |- vm_ok ?x ∧ _ => set (w := x) end.
  assert (Hsame : ∀ s1 v1, s1 ≠ s → entry w s1 v1 = entry v s1 v1).
  { intros s1 v1 Hne. unfold entry. simpl. rewrite lookup_delete_ne by done.
    destruct (spaces v !! s1) as [sp1|] eqn:E1; [|done]. simpl.
    by rewrite lookup_delete_ne by (by eapply Hothers). }
  split; [|split; [done|split; [done|exact Hbit]]].
  split; simpl; [done|done|done|done|..].
  - destruct K5 as [S1 S2 S3]. split; simpl.
    + intros s1 sp1 [Hne H1]%lookup_delete_Some.
      rewrite lookup_delete_ne by (eapply Hothers; done || congruence). by eapply S1.
    + intros s1 sp1 [Hne H1]%lookup_delete_Some. by eapply S2.
    + intros s1 sp1 s2 sp2 [_ H1]%lookup_delete_Some [_ H2]%lookup_delete_Some. by apply S3.
  - eapply (core_release (entry v) _ (bm_bit (memMap v))); [exact K6|exact Hsame| |exact Hbit].
    intros v1. unfold entry. simpl. by rewrite lookup_delete_eq.
Qed.

(** ** The machine of a running process *)

Lemma running_machine v s sp :
  vm_ok v → spaces v !! s = Some sp → tlb (machine v) = None → as_pageTable sp ≠ NULL →
  mmu_ok (RestoreState sp (machine v)) ∧
  (∀ vp, vpn_ok vp → FlatMemory.mapped (RestoreState sp (machine v)) vp =
     e ← entry v s vp; if valid e then Some (physicalPage e, readOnly e) else None).
Proof.
  intros Hok Hs Ht Hp. pose proof Hok as [K1 K2 K3 K4 K5 K6].
  destruct (so_table v K5 s sp Hs) as (Hn & tb & Htb & Hl). split.
  - unfold mmu_ok. simpl. rewrite Ht. split; [done|]. exists tb. split; [done|lia].
  - intros vp Hvp. unfold FlatMemory.mapped, entry_of. simpl. rewrite Ht, Htb. cbn [mbind option_bind].
    destruct (entry v s vp) as [e|] eqn:E.
    + pose proof E as E0. apply entry_Some in E0 as (sp' & tb' & Hs' & Ht' & Hr & He).
      rewrite Hs in Hs'. injection Hs' as <-. rewrite Htb in Ht'. injection Ht' as <-.
      rewrite decide_True by lia. rewrite He. cbn.
      destruct (core_entry _ _ _ _ _ _ K6 _ _ _ E) as [[_ ->]|[Hpp ->]]; [done|].
      rewrite u32_id by (unfold NumPhysPages in *; unfold is_u32; lia). by rewrite decide_True by lia.
    + cbn. case_decide as Hd; [|done]. unfold vpn_ok in Hvp.
      destruct (tb !! Z.to_nat vp) as [e|] eqn:He; [|done]. exfalso.
      assert (entry v s vp = Some e); [|congruence]. apply entry_Some. exists sp, tb.
      split; [done|]. split; [done|]. split; [lia|done].
Qed.

(** C6: Serving a page fault keeps the paging invariant and repairs the fault.
    The invariant says that a page table entry is valid exactly when it has a
    frame, no two pages of any address spaces share a frame, the frames marked in
    memMap are exactly the frames in use, ipt names the owner of every used
    frame, and in FIFO mode the page list has all of them. If it holds, the
    running thread faults on an invalid page of its space, a replacement scheme is
    selected or a frame is free, and the segment reads stay inside the page, then
    PageFault (loadPage with Swapout under it) returns: no ASSERT fails, no array
    is overrun, no lock blocks. Afterwards the invariant holds, the page is valid
    and clean in some frame whose bytes are the image of the page built from the
    executable, the rest of memory is unchanged, and the only other entry that
    changed is the one that lost the frame. The executable is nobody's swap file, and
    the host writes what it is asked to and refuses to read a negative number of bytes,
    as Linux does. *)
Theorem PageFault_serves (v : vm) (s bad : Z) (sp : AddrSpace.t) (e : TranslationEntry) :
  vm_ok v → fault v s bad sp e → ReadRegister BadVAddrReg (machine v) = Done bad →
  ∃ v' f img, PageFault rand v = Done v' ∧ vm_ok v' ∧
    entry v' s (bad / PageSize) = Some (loaded (with_phys f e)) ∧ 0 ≤ f < NumPhysPages ∧
    page_image (hostfs v) sp (bad / PageSize) = Done img ∧ frame_bytes v' f = Done img ∧
    outside_frame f (mainMemory (machine v)) (mainMemory (machine v')) ∧
    ∀ s1 v1, (s1, v1) ≠ (s, bad / PageSize) → entry v' s1 v1 =
      (λ x, if decide (physicalPage x = f) then evicted x else x) <$> entry v s1 v1.
Proof.
  intros Hok Hf Hreg. unfold PageFault. rewrite Hreg. cbn [mbind res_bind].
  rewrite (fl_thread _ _ _ _ _ Hf). cbn [mbind res_bind]. by apply loadPage_spec.
Qed.

(** Destroying an address space gives back exactly its frames. The loop of
    the destructor clears in memMap the frames its page table held and no others,
    without a failing ASSERT, the paging invariant holds afterwards, and no entry
    of another address space changes. *)
Theorem AddrSpace_delete_releases (v : vm) (s : Z) (sp : AddrSpace.t) :
  vm_ok v → spaces v !! s = Some sp → space sp = true →
  ∃ v', AddrSpace_delete v s = Done v' ∧ vm_ok v' ∧ spaces v' = delete s (spaces v) ∧
    (∀ s1 v1, s1 ≠ s → entry v' s1 v1 = entry v s1 v1) ∧
    (∀ f, 0 ≤ f < NumPhysPages →
      bm_bit (memMap v') f = true ↔ bm_bit (memMap v) f = true ∧
        ¬ ∃ vp e, entry v s vp = Some e ∧ physicalPage e = f).
Proof. apply AddrSpace_delete_spec. Qed.

(** What is read of a segment that covers the whole page. *)
Lemma segment_covers seg vp :
  is_s32 (virtualAddr seg) → is_s32 (virtualAddr seg + seg_size seg) → 0 ≤ vp < 2 ^ 22 →
  0 ≤ virtualAddr seg ≤ vp * PageSize → (vp + 1) * PageSize ≤ virtualAddr seg + seg_size seg →
  segment_start seg vp = 0 ∧ segment_length seg vp = PageSize ∧
  segment_offset seg vp = vp * PageSize - virtualAddr seg.
Proof.
  unfold segment_start, segment_length, segment_offset, segment_start, PageSize, SectorSize.
  intros Ha He Hv Hlo Hhi. change (2 ^ 22) with 4194304 in *.
  rewrite (s32_id (vp * 256)) by (unfold_int; lia). replace (virtualAddr seg <=? vp * 256) with true by lia.
  rewrite (s32_id (virtualAddr seg + seg_size seg)) by done.
  rewrite (s32_id ((vp + 1) * 256)) by (unfold_int; lia).
  replace (virtualAddr seg + seg_size seg <? (vp + 1) * 256) with false by lia.
  split; [done|]. split; [done|]. apply u32_id. unfold_int. lia.
Qed.

(** Nothing is read of a segment that starts behind the page. *)
Lemma segment_behind seg vp :
  is_s32 (virtualAddr seg) → is_s32 (virtualAddr seg + seg_size seg) → 0 ≤ vp < 2 ^ 22 →
  0 < seg_size seg → (vp + 1) * PageSize < virtualAddr seg →
  s32 (segment_length seg vp) = (vp + 1) * PageSize - virtualAddr seg ∧ segment_offset seg vp = 0.
Proof.
  unfold segment_start, segment_length, segment_offset, segment_start, PageSize, SectorSize.
  intros Ha He Hv Hs Hlo. change (2 ^ 22) with 4194304 in *.
  rewrite (s32_id (vp * 256)) by (unfold_int; lia). replace (virtualAddr seg <=? vp * 256) with false by lia.
  rewrite (s32_id (virtualAddr seg + seg_size seg)) by done.
  rewrite (s32_id ((vp + 1) * 256)) by (unfold_int; lia).
  replace (virtualAddr seg + seg_size seg <? (vp + 1) * 256) with false by lia.
  split; [|done]. rewrite s32_u32. rewrite u32_id by (unfold_int; lia). rewrite s32_id by (unfold_int; lia). lia.
Qed.

(** A page inside the code segment, with the data segment, if there is one, behind it. *)
Lemma code_page_image (hf : F) (sp : AddrSpace.t) (vp : Z) (bs : list Z) :
  let c := code (noffH sp) in
  let d := initData (noffH sp) in
  is_s32 (virtualAddr c) → is_s32 (virtualAddr c + seg_size c) →
  0 ≤ vp < 2 ^ 22 → 0 ≤ virtualAddr c ≤ vp * PageSize →
  (vp + 1) * PageSize ≤ virtualAddr c + seg_size c →
  (0 < seg_size d → is_s32 (virtualAddr d) ∧ is_s32 (virtualAddr d + seg_size d) ∧
     (vp + 1) * PageSize < virtualAddr d ∧ 0 ≤ inFileAddr d ≤ INT_MAX) →
  let pos := inFileAddr c + (vp * PageSize - virtualAddr c) in
  0 ≤ pos ≤ INT_MAX →
  h_read hf (file sp) pos PageSize = Some bs → Z.of_nat (length bs) = PageSize →
  page_image hf sp vp = Done bs.
Proof.
  intros c d C1 C2 Hv Hlo Hhi Hd pos Hpos Hrd Hlen.
  destruct (segment_covers c vp) as (E1 & E2 & E3); [done..|].
  unfold page_image, load_segment. fold c d.
  replace (0 <? seg_size c) with true by (unfold PageSize, SectorSize in *; lia).
  rewrite E1, E2, E3. fold pos. unfold StubFile.ReadAt.
  rewrite (s32_id PageSize) by (unfold PageSize, SectorSize; unfold_int; lia).
  rewrite (s32_id pos) by (unfold_int; lia).
  rewrite (bind_ASSERT (0 <=? pos)) by (apply Z.leb_le, Hpos). cbn [mbind res_bind]. rewrite Hrd.
  destruct bs as [|b bs]; [unfold PageSize, SectorSize in Hlen; simpl in Hlen; lia|].
  rewrite Z.mul_0_r, Z.add_0_r. change (u32 0) with 0.
  assert (Hb : blit (replicate (Z.to_nat PageSize) 0) 0 (b :: bs) = Done (b :: bs)).
  { rewrite blit_in_range; [|lia|rewrite length_replicate; lia]. f_equal.
    rewrite drop_ge by (rewrite length_replicate; lia). by rewrite app_nil_r. }
  rewrite Hb. cbn [mbind res_bind]. destruct (0 <? seg_size d) eqn:Ed; [|done]. simplify_tests.
  destruct (Hd Ed) as (D1 & D2 & D3 & Hdpos).
  destruct (segment_behind d vp) as (G1 & G2); [done..|]. rewrite G1, G2, Z.add_0_r.
  rewrite (s32_id (inFileAddr d)) by (unfold_int; lia). rewrite bind_ASSERT by lia. cbn [mbind res_bind].
  rewrite Hneg; [done|]. lia.
Qed.

(** A page inside the code segment is loaded exactly. If the page lies
    completely in the code segment, the data segment starts behind it and the
    executable has the bytes, then the image loadPage builds is exactly the 256
    bytes of the file at the position of that page in the segment: the failing
    read of the data segment (whose computed size is negative) changes nothing. *)
Theorem code_page_exact (hf : F) (sp : AddrSpace.t) (vp : Z) (bs : list Z) :
  let c := code (noffH sp) in
  let d := initData (noffH sp) in
  is_s32 (virtualAddr c) → is_s32 (virtualAddr c + seg_size c) →
  is_s32 (virtualAddr d) → is_s32 (virtualAddr d + seg_size d) →
  0 ≤ vp < 2 ^ 22 → 0 ≤ virtualAddr c ≤ vp * PageSize →
  (vp + 1) * PageSize ≤ virtualAddr c + seg_size c → (vp + 1) * PageSize < virtualAddr d →
  let pos := inFileAddr c + (vp * PageSize - virtualAddr c) in
  0 ≤ pos ≤ INT_MAX → 0 ≤ inFileAddr d ≤ INT_MAX →
  h_read hf (file sp) pos PageSize = Some bs → Z.of_nat (length bs) = PageSize →
  page_image hf sp vp = Done bs.
Proof. intros. apply code_page_image; auto. Qed.

End vm.

(** ** Isolation *)
Section isolation.
Context (be : bool) {K : Type} (setStatus : MachineStatus → K → K).
Context (handler : ExceptionType → K → Machine.t → res (K * Machine.t)).
Abbreviation step := (FlatMemory.step be setStatus handler).

(** What a program does to the machine between two entries into the kernel: any sequence
    of ReadMem and WriteMem that raise no exception. *)
Inductive accesses : Machine.t → Machine.t → Prop :=
| no_access m : accesses m m
| one_access k m c x k' m1 m2 :
    step k m c = Done (Some x, k', m1) → accesses m1 m2 → accesses m m2.

(** The parts of the machine that a process running on the page table at [p] leaves alone. *)
Record kept_by (p : Z) (m m' : Machine.t) : Prop := {
  kb_mmu : mmu_ok m';
  kb_tlb : tlb m' = None;
  kb_table : pageTable m' = p;
  kb_size : pageTableSize m' = pageTableSize m;
  kb_others : ∀ q, q ≠ p → tables m' !! q = tables m !! q;
  kb_length : length (mainMemory m') = length (mainMemory m);
  kb_mapped : ∀ vpn, vpn_ok vpn → FlatMemory.mapped m' vpn = FlatMemory.mapped m vpn
}.

Lemma kept_by_trans p m1 m2 m3 : kept_by p m1 m2 → kept_by p m2 m3 → kept_by p m1 m3.
Proof.
  intros [A1 A2 A3 A4 A5 A6 A7] [B1 B2 B3 B4 B5 B6 B7]. split; try done; try congruence.
  - intros q Hq. by rewrite B5, A5.
  - intros vpn Hv. by rewrite B7, A7.
Qed.

(** What Translate stores are the use and dirty bits of an entry of the current table. *)
Lemma Translate_tables va size w m x pa m' :
  tlb m = None → Translate va size w m = Done (x, pa, m') →
  tlb m' = None ∧ pageTable m' = pageTable m ∧ pageTableSize m' = pageTableSize m ∧
  ∀ q, q ≠ pageTable m → tables m' !! q = tables m !! q.
Proof.
  intros Ht HT. unfold Translate in HT. destruct (Translate_align va size); [by simplify_eq|].
  apply bind_Done in HT as ([] & _ & HT). apply bind_Done in HT as ([] & _ & HT).
  apply bind_Done in HT as (r & Hr & HT). destruct r as [e|[p e]]; [by simplify_eq|].
  destruct (_ && _); [by simplify_eq|]. destruct (_ <=? _); [by simplify_eq|].
  apply bind_Done in HT as (m1 & Hst & HT). apply bind_Done in HT as ([] & _ & HT). injection HT as <- <- <-.
  unfold store_entry in Hst. destruct p as [vpn|i]; [|by rewrite Ht in Hst].
  apply bind_Done in Hst as (tb & _ & Hst). apply bind_Done in Hst as (tb' & _ & Hst). injection Hst as <-.
  split; [done|]. split; [done|]. split; [done|]. intros q Hq. simpl. by rewrite lookup_insert_ne.
Qed.

(** A translation that succeeds: the page, its frame, and a place in the frame. *)
Lemma Translate_success va size w m pa m' :
  mmu_ok m → tlb m = None → good_size size = true → Translate va size w m = Done (NoException, pa, m') →
  kept_by (pageTable m) m m' ∧ mainMemory m' = mainMemory m ∧
  ∃ vpn f ro, vpn_ok vpn ∧ FlatMemory.mapped m vpn = Some (f, ro) ∧ ro && w = false ∧ 0 ≤ f < NumPhysPages ∧
    f * PageSize ≤ pa ∧ pa + size ≤ f * PageSize + PageSize ∧
    phys m va size w = inr pa.
Proof.
  intros Hm Ht Hs HT. pose proof (Translate_spec m va size w Hm Hs) as Hsp.
  destruct (Translate_tables _ _ _ _ _ _ _ Ht HT) as (T1 & T2 & T3 & T4).
  pose proof (vpn_range va) as Hv. pose proof (offset_range va) as Ho.
  destruct (phys m va size w) as [x|pa1] eqn:Hph; [destruct Hsp as [Hx Hsp]; congruence|].
  destruct Hsp as (_ & _ & m1 & Hsp & Hmem & Hregs & Hm1 & (p & e & He & He') & Hoth).
  rewrite Hsp in HT. injection HT as <- <-.
  assert (Hin : Translate_align va size = false ∧ readOnly e && w = false ∧
    u32 (physicalPage e) < NumPhysPages ∧ pa1 = u32 (physicalPage e) * PageSize + cmod (u32 va) PageSize).
  { unfold phys in Hph. rewrite He in Hph. destruct (Translate_align va size); [done|].
    destruct (readOnly e && w); [done|]. case_decide; [|done]. by injection Hph as <-. }
  destruct Hin as (Ha & Hro & Hf & ->). pose proof (aligned_in_page va size Hs Ha) as Hpg.
  pose proof (u32_range (physicalPage e)) as Hu. unfold is_u32 in Hu.
  assert (Hmp : FlatMemory.mapped m (cdiv (u32 va) PageSize) = Some (u32 (physicalPage e), readOnly e))
    by (unfold FlatMemory.mapped; rewrite He; by rewrite decide_True).
  split; [split; try done; [by rewrite Hmem|]|split; [done|]].
  - intros vpn Hvpn. destruct (decide (vpn = cdiv (u32 va) PageSize)) as [->|Hne].
    + by eapply FlatMemory.mapped_touch.
    + unfold FlatMemory.mapped. by rewrite Hoth.
  - exists (cdiv (u32 va) PageSize), (u32 (physicalPage e)), (readOnly e). repeat (split; [done || lia|]). done.
Qed.

(** A successful access: reads store nothing, writes only in the frame of a page that the
    process may write. *)
Lemma step_confined k m c x k' m' :
  mmu_ok m → tlb m = None → step k m c = Done (Some x, k', m') →
  kept_by (pageTable m) m m' ∧
  (mainMemory m' = mainMemory m ∨
   ∃ vpn f, vpn_ok vpn ∧ FlatMemory.mapped m vpn = Some (f, false) ∧ outside_frame f (mainMemory m) (mainMemory m')).
Proof.
  intros Hm Ht. destruct c as [a n|a n w]; cbn [FlatMemory.step].
  - unfold ReadMem. intros Hr. apply bind_Done in Hr as ([[ex pa] m1] & HT & Hr).
    destruct (decide (ex ≠ NoException)) as [_|Hex]; [apply bind_Done in Hr as ([k1 m2] & _ & Hr); discriminate Hr|].
    apply dec_stable in Hex as ->.
    assert (Hgood : good_size n = true ∧ m' = m1).
    { unfold good_size. destruct (n =? 1), (n =? 2), (n =? 4); try discriminate Hr; (split; [done|]);
        apply bind_Done in Hr as (d & _ & Hr); by injection Hr as _ _ <-. }
    destruct Hgood as [Hgood ->].
    destruct (Translate_success _ _ _ _ _ _ Hm Ht Hgood HT) as (Hk & Hmem & _). split; [done|by left].
  - unfold WriteMem. intros Hr. apply bind_Done in Hr as ([[ok k1] m2] & Hr & Hd).
    destruct ok; [|discriminate Hd]. injection Hd as <- <- <-.
    apply bind_Done in Hr as ([[ex pa] m1] & HT & Hr).
    destruct (decide (ex ≠ NoException)) as [_|Hex]; [apply bind_Done in Hr as ([k2 m3] & _ & Hr); discriminate Hr|].
    apply dec_stable in Hex as ->.
    assert (Hgood : good_size n = true ∧ ∃ bs mem, Z.of_nat (length bs) = n ∧
      blit (mainMemory m1) pa bs = Done mem ∧ m2 = set_mainMemory m1 mem).
    { unfold good_size. destruct (Z.eqb_spec n 1) as [->|]; [|destruct (Z.eqb_spec n 2) as [->|];
        [|destruct (Z.eqb_spec n 4) as [->|]; [|discriminate Hr]]]; (split; [done|]);
        apply bind_Done in Hr as (mem & Hb & Hr); injection Hr as _ <-.
      - rewrite aset_blit in Hb. by exists [Z.land w 255], mem.
      - eexists _, mem. split; [|by split]. unfold host_bytes. destruct be; by rewrite ?length_rev, bytes_of_length.
      - eexists _, mem. split; [|by split]. unfold host_bytes. destruct be; by rewrite ?length_rev, bytes_of_length. }
    destruct Hgood as (Hgood & bs & mem & Hlen & Hb & ->).
    destruct (Translate_success _ _ _ _ _ _ Hm Ht Hgood HT) as (Hk & Hmem & vpn & f & ro & Hv & Hmp & Hro & Hf & Hlo & Hhi & _).
    rewrite Hmem in Hb. pose proof (blit_length _ _ _ _ Hb) as Hl. split.
    + destruct Hk as [A1 A2 A3 A4 A5 A6 A7]. split; try done.
    + right. exists vpn, f. rewrite andb_true_r in Hro. subst ro. split; [done|]. split; [done|].
      intros i Hi. simpl. apply (blit_lookup_out _ _ _ _ _ Hb). unfold PageSize, SectorSize in *. lia.
Qed.

Definition in_frame (f : Z) (i : nat) : Prop :=
  (Z.to_nat (f * PageSize) ≤ i < Z.to_nat (f * PageSize + PageSize))%nat.

Lemma slice_agree (l1 l2 : list Z) off n :
  length l2 = length l1 → (∀ i, (Z.to_nat off ≤ i < Z.to_nat off + Z.to_nat n)%nat → l2 !! i = l1 !! i) →
  slice l2 off n = slice l1 off n.
Proof.
  intros Hl Hi. unfold slice. rewrite Hl. destruct (_ && _) eqn:E; [|done]. f_equal. apply list_eq. intros i.
  destruct (decide (i < Z.to_nat n)%nat) as [Hlt|].
  - rewrite !lookup_take_lt, !lookup_drop by done. apply Hi. lia.
  - by rewrite !lookup_take_ge by lia.
Qed.

(** What is read depends on the page table and on the frames it maps, on nothing else. *)
Lemma read_depends k m m2 va size x k' m' :
  mmu_ok m → mmu_ok m2 → tlb m = None → tlb m2 = None →
  pageTable m2 = pageTable m → pageTableSize m2 = pageTableSize m →
  tables m2 !! pageTable m = tables m !! pageTable m →
  length (mainMemory m2) = length (mainMemory m) →
  (∀ vpn f ro i, vpn_ok vpn → FlatMemory.mapped m vpn = Some (f, ro) → in_frame f i →
     mainMemory m2 !! i = mainMemory m !! i) →
  ReadMem be setStatus handler va size k m = Done (Some x, k', m') →
  ∃ m2', ReadMem be setStatus handler va size k m2 = Done (Some x, k', m2').
Proof.
  intros Hm Hm2 Ht Ht2 Hp Hsz Htb Hlen Hmem Hr. unfold ReadMem in Hr.
  apply bind_Done in Hr as ([[ex pa] m1] & HT & Hr).
  destruct (decide (ex ≠ NoException)) as [_|Hex]; [apply bind_Done in Hr as ([k1 m3] & _ & Hr); discriminate Hr|].
  apply dec_stable in Hex as ->.
  assert (Hgood : good_size size = true) by (unfold good_size; destruct (size =? 1), (size =? 2), (size =? 4); done).
  destruct (Translate_success _ _ _ _ _ _ Hm Ht Hgood HT) as (_ & Hmem1 & vpn & f & ro & Hv & Hmp & _ & Hf & Hlo & Hhi & Hph).
  assert (He : ∀ n, entry_of m2 n = entry_of m n) by (intros n; unfold entry_of; by rewrite Ht, Ht2, Hp, Hsz, Htb).
  pose proof (Translate_spec m2 va size false Hm2 Hgood) as Hsp.
  assert (Hph2 : phys m2 va size false = inr pa) by (rewrite <- Hph; unfold phys; by rewrite He).
  rewrite Hph2 in Hsp. destruct Hsp as (_ & _ & m4 & HT2 & Hmem4 & _).
  unfold ReadMem. rewrite HT2. cbn [mbind res_bind]. rewrite decide_False by naive_solver.
  rewrite Hmem1 in Hr. rewrite Hmem4.
  assert (Hin : ∀ i, (Z.to_nat pa ≤ i < Z.to_nat pa + Z.to_nat size)%nat → mainMemory m2 !! i = mainMemory m !! i).
  { intros i Hi. apply (Hmem vpn f ro); [done|done|]. unfold in_frame, PageSize, SectorSize in *. lia. }
  destruct (Z.eqb_spec size 1) as [->|]; [|destruct (Z.eqb_spec size 2) as [->|];
    [|destruct (Z.eqb_spec size 4) as [->|]; [|discriminate Hr]]].
  - unfold aget in *. rewrite (Hin (Z.to_nat pa)) by lia. apply bind_Done in Hr as (d & -> & Hr).
    injection Hr as <- <- _. by eexists.
  - rewrite (slice_agree (mainMemory m)) by done. apply bind_Done in Hr as (d & -> & Hr).
    injection Hr as <- <- _. by eexists.
  - rewrite (slice_agree (mainMemory m)) by done. apply bind_Done in Hr as (d & -> & Hr).
    injection Hr as <- <- _. by eexists.
Qed.

(** A sequence of accesses. *)
Lemma accesses_confined m m' :
  mmu_ok m → tlb m = None → accesses m m' →
  kept_by (pageTable m) m m' ∧
  ∀ i, mainMemory m' !! i ≠ mainMemory m !! i →
    ∃ vpn f, vpn_ok vpn ∧ FlatMemory.mapped m vpn = Some (f, false) ∧ in_frame f i.
Proof.
  intros Hm Ht Ha. induction Ha as [m|m k c x k' m1 m2 Hs _ IH]; [by split|].
  destruct (step_confined _ _ _ _ _ _ Hm Ht Hs) as [Hk Hw].
  destruct IH as [Hk2 Hw2]; [apply Hk|apply Hk|]. rewrite (kb_table _ _ _ Hk) in Hk2.
  split; [by eapply kept_by_trans|]. intros i Hi.
  destruct (decide (mainMemory m2 !! i = mainMemory m1 !! i)) as [E|E].
  - destruct Hw as [Hw|(vpn & f & Hv & Hmp & Ho)]; [congruence|]. exists vpn, f. split; [done|]. split; [done|].
    unfold in_frame. destruct (decide (Z.to_nat (f * PageSize) ≤ i < Z.to_nat (f * PageSize + PageSize))%nat) as [|Hn]; [done|].
    exfalso. apply Hi. rewrite E. by apply Ho.
  - destruct (Hw2 i E) as (vpn & f & Hv & Hmp & Hin). exists vpn, f. split; [done|]. split; [|done].
    by rewrite <- (kb_mapped _ _ _ Hk).
Qed.

Section vm.
Context {B F : Type} `{!BitmapLike B} `{!HostFiles F}.
Abbreviation vm := (@AddrSpace.vm B F).

(** The bytes of the resident pages of a space, and those of the pages it may write. *)
Definition resident_byte (v : vm) (s : Z) (i : nat) : Prop :=
  ∃ vp e, entry v s vp = Some e ∧ valid e = true ∧ in_frame (physicalPage e) i.
Definition writable_byte (v : vm) (s : Z) (i : nat) : Prop :=
  ∃ vp e, entry v s vp = Some e ∧ valid e = true ∧ readOnly e = false ∧ in_frame (physicalPage e) i.

(** A machine that differs from that of [v] in memory bytes that satisfy [P]. *)
Definition differs_in (P : nat → Prop) (mem mem' : list Z) : Prop :=
  length mem' = length mem ∧ ∀ i, mem' !! i ≠ mem !! i → P i.

Lemma resident_private (v : vm) s1 s2 i :
  vm_ok v → resident_byte v s1 i → resident_byte v s2 i → s1 = s2.
Proof.
  intros Hok (vp1 & e1 & E1 & V1 & I1) (vp2 & e2 & E2 & V2 & I2). pose proof (ok_core v Hok) as Hc.
  apply (core_inj _ _ _ _ _ _ Hc s1 vp1 e1 s2 vp2 e2 E1 E2 V1 V2).
  destruct (core_entry _ _ _ _ _ _ Hc _ _ _ E1) as [[_ ?]|[R1 _]]; [congruence|].
  destruct (core_entry _ _ _ _ _ _ Hc _ _ _ E2) as [[_ ?]|[R2 _]]; [congruence|].
  unfold in_frame, NumPhysPages, PageSize, SectorSize in *. lia.
Qed.

(** The frame of a page of the running process. *)
Lemma mapped_resident (v : vm) s sp vpn f ro i :
  vm_ok v → spaces v !! s = Some sp → tlb (machine v) = None → as_pageTable sp ≠ NULL → vpn_ok vpn →
  FlatMemory.mapped (RestoreState sp (machine v)) vpn = Some (f, ro) → in_frame f i →
  resident_byte v s i ∧ (ro = false → writable_byte v s i).
Proof.
  intros Hok Hs Ht Hp Hv Hmp Hi. destruct (running_machine v s sp Hok Hs Ht Hp) as [_ M].
  rewrite M in Hmp by done. apply bind_Some in Hmp as (e & E & Hmp). destruct (valid e) eqn:V; [|done].
  injection Hmp as <- <-. split; [by exists vpn, e|]. intros Hro. by exists vpn, e.
Qed.

(** C18: Address spaces are isolated.  While the paging invariant holds and there is no
    TLB, let a process run on its page table and make any sequence of memory accesses
    through ReadMem and WriteMem that raise no exception.  (1) The bytes of memory it
    changes are bytes of resident, writable pages of its own.  (2) Every read that any
    other process could do without an exception before gives the same value afterwards.
    (3) Every read of the process itself gives the same value whatever the bytes of the
    other process's resident pages are.  So it can neither change nor read another
    process's resident pages. *)
Theorem processes_isolated (v : vm) (s1 s2 : Z) (sp1 sp2 : AddrSpace.t) (m' : Machine.t) :
  vm_ok v → tlb (machine v) = None →
  spaces v !! s1 = Some sp1 → as_pageTable sp1 ≠ NULL →
  spaces v !! s2 = Some sp2 → as_pageTable sp2 ≠ NULL → s1 ≠ s2 →
  accesses (RestoreState sp1 (machine v)) m' →
  differs_in (writable_byte v s1) (mainMemory (machine v)) (mainMemory m') ∧
  (∀ va size k k' x m2,
     ReadMem be setStatus handler va size k (RestoreState sp2 (machine v)) = Done (Some x, k', m2) →
     ∃ m2', ReadMem be setStatus handler va size k (RestoreState sp2 m') = Done (Some x, k', m2')) ∧
  (∀ mem va size k k' x m2,
     differs_in (resident_byte v s2) (mainMemory m') mem →
     ReadMem be setStatus handler va size k m' = Done (Some x, k', m2) →
     ∃ m2', ReadMem be setStatus handler va size k (set_mainMemory m' mem) = Done (Some x, k', m2')).
Proof.
  intros Hok Ht Hs1 Hp1 Hs2 Hp2 Hne Ha.
  destruct (running_machine v s1 sp1 Hok Hs1 Ht Hp1) as [M1 _].
  destruct (running_machine v s2 sp2 Hok Hs2 Ht Hp2) as [M2 _].
  destruct (accesses_confined _ _ M1 Ht Ha) as [[K1 K2 K3 K4 K5 K6 K7] Hw]. cbn [RestoreState set_pageTable] in *.
  assert (Hdiff : ∀ i, mainMemory m' !! i ≠ mainMemory (machine v) !! i → writable_byte v s1 i).
  { intros i Hi. destruct (Hw i Hi) as (vpn & f & Hv & Hmp & Hin).
    by apply (mapped_resident v s1 sp1 vpn f false i Hok Hs1 Ht Hp1 Hv Hmp Hin). }
  assert (Hptr : as_pageTable sp2 ≠ as_pageTable sp1).
  { intros E. apply Hne. symmetry. by apply (so_distinct v (ok_spaces v Hok) s2 sp2 s1 sp1). }
  split; [by split|]. split.
  - intros va size k k' x m2. apply read_depends; try done.
    + unfold mmu_ok in *. simpl in *. rewrite K2. rewrite Ht in M2. destruct M2 as (_ & tb & Htb & Hl).
      split; [done|]. exists tb. by rewrite (K5 _ Hptr).
    + apply (K5 _ Hptr).
    + intros vpn f ro i Hv Hmp Hi. simpl.
      destruct (decide (mainMemory m' !! i = mainMemory (machine v) !! i)) as [|Hn]; [done|]. exfalso.
      destruct (mapped_resident v s2 sp2 vpn f ro i Hok Hs2 Ht Hp2 Hv Hmp Hi) as [Hr2 _].
      destruct (Hdiff i Hn) as (vp & e & E & V & _ & In). apply Hne. apply (resident_private v s1 s2 i); [done| |done].
      by exists vp, e.
  - intros mem va size k k' x m2 [Hl Hm]. apply read_depends; try done.
    intros vpn f ro i Hv Hmp Hi. simpl.
    destruct (decide (mem !! i = mainMemory m' !! i)) as [|Hn]; [done|]. exfalso. rewrite K7 in Hmp by done.
    destruct (mapped_resident v s1 sp1 vpn f ro i Hok Hs1 Ht Hp1 Hv Hmp Hi) as [Hr1 _].
    apply Hne. by apply (resident_private v s1 s2 i); [| |apply Hm].
Qed.

End vm.
End isolation.

(** ** Host files in memory *)

Abbreviation mem_files := (gmap Z (list Z)).

Definition mf_read (f : mem_files) (fd pos n : Z) : option (list Z) :=
  if n <? 0 then None
  else Some (u8 <$> take (Z.to_nat n) (drop (Z.to_nat pos) (default [] (f !! fd)))).

Definition mf_write (f : mem_files) (fd pos : Z) (bs : list Z) : mem_files * Z :=
  let c := default [] (f !! fd) in
  let p := Z.to_nat pos in
  (<[fd := take p (c ++ replicate (p - length c) 0) ++ bs ++ drop (p + length bs) c]> f,
   Z.of_nat (length bs)).

#[export] Program Instance MemFiles : HostFiles mem_files := {
  h_read := mf_read;
  h_write := mf_write
}.
Next Obligation.
  intros f fd pos n bs Hn. unfold mf_read. destruct (n <? 0) eqn:E; [done|]. simplify_tests.
  intros [= <-]. rewrite length_fmap, length_take. split; [lia|].
  apply Forall_fmap, list.Forall_forall. intros x _. apply u8_range.
Qed.
Next Obligation. intros f fd pos bs fd' pos' n Hne. unfold mf_read, mf_write. simpl. by rewrite lookup_insert_ne. Qed.

Lemma MemFiles_writes : host_writes (F := mem_files).
Proof. done. Qed.

Lemma MemFiles_negative : negative_reads_fail (F := mem_files).
Proof. intros f fd pos n Hn. simpl. unfold mf_read. by replace (n <? 0) with true by lia. Qed.

(** ** A process of two code pages that faults on its second page *)

Definition demo_entry (i : Z) : TranslationEntry := mkTE i (-1) false false false false.
Definition demo_space : AddrSpace.t :=
  mkAS 3 4 (mkNoff NOFFMAGIC (mkSeg 0 40 512) (mkSeg 0 0 0) (mkSeg 0 0 0)) 70 2 0 true [false; false].
Definition demo_space2 : AddrSpace.t :=
  mkAS 3 6 (mkNoff NOFFMAGIC (mkSeg 0 40 512) (mkSeg 0 0 0) (mkSeg 0 0 0)) 71 1 0 true [false].
Definition demo_vm : @AddrSpace.vm BitMap.t mem_files :=
  mkVM (mk (replicate (Z.to_nat MemorySize) 9) (<[39%nat := 258]> (replicate 40 0)) None {[ 70 := [demo_entry 0; demo_entry 1]; 71 := [demo_entry 0] ]} 70 2 false 0)
    (BitMap.mk 32 1 [0]) Queue.empty (replicate 32 0) (replicate 32 1)
    {[ 5 := demo_space; 6 := demo_space2 ]} {[ 8 := 5; 9 := 6 ]} 8 1 0 {[ 3 := seqZ 0 552 ]} 0.

Lemma demo_spaces s sp :
  spaces demo_vm !! s = Some sp → (s = 5 ∧ sp = demo_space) ∨ (s = 6 ∧ sp = demo_space2).
Proof.
  simpl. intros [[<- <-]|[Hne H]]%lookup_insert_Some; [by left|].
  apply lookup_singleton_Some in H as [<- <-]. by right.
Qed.

Lemma demo_entry_inv s vp e : entry demo_vm s vp = Some e → physicalPage e = -1 ∧ valid e = false.
Proof.
  intros (sp & tb & [[-> ->]|[-> ->]]%demo_spaces & Ht & Hr & He)%entry_Some; simpl in *;
    vm_compute in Ht; injection Ht as <-.
  - assert (vp = 0 ∨ vp = 1) as [->| ->] by lia; simpl in He; injection He as <-; done.
  - assert (vp = 0) as -> by lia. simpl in He. by injection He as <-.
Qed.

Lemma demo_map_ok : BitMap.wf (BitMap.mk 32 1 [0]).
Proof. split; simpl; [lia|done|done|ranges]. Qed.

Lemma demo_bits f : 0 ≤ f < NumPhysPages → BitMap.bit (BitMap.mk 32 1 [0]) f = false.
Proof.
  unfold NumPhysPages. intros Hf. unfold BitMap.bit, BitMap.BitsInWord. simpl.
  rewrite Z.div_small by lia. simpl. apply Z.bits_0.
Qed.

Lemma demo_ok : vm_ok demo_vm.
Proof.
  split.
  - done.
  - split; [apply demo_map_ok|done].
  - done.
  - split; [done|]. by apply Forall_replicate.
  - split.
    + intros s sp [[-> ->]|[-> ->]]%demo_spaces; (split; [done|by eexists]).
    + intros s sp [[-> ->]|[-> ->]]%demo_spaces; (split; [done|by repeat constructor]).
    + intros s1 sp1 s2 sp2 [[-> ->]|[-> ->]]%demo_spaces [[-> ->]|[-> ->]]%demo_spaces; done.
  - split.
    + intros s vp e [-> ->]%demo_entry_inv. by left.
    + intros s1 v1 e1 s2 v2 e2 [_ ->]%demo_entry_inv. done.
    + intros s vp e [_ ->]%demo_entry_inv. done.
    + intros f Hf Hb. change (BitMap.bit (BitMap.mk 32 1 [0]) f = true) in Hb. by rewrite demo_bits in Hb.
    + intros _. split; [|constructor]. intros f Hf Hb.
      change (BitMap.bit (BitMap.mk 32 1 [0]) f = true) in Hb. by rewrite demo_bits in Hb.
Qed.

Lemma demo_fault : fault demo_vm 5 258 demo_space (demo_entry 1).
Proof.
  split; try done.
  - by left.
  - intros seg [->| ->] Hs; [|done]. by vm_compute.
  - intros s' sp' [[-> ->]|[-> ->]]%demo_spaces; done.
Qed.

Lemma PageFault_serves_witness :
  ∃ v' f img, PageFault (λ _, 0) demo_vm = Done v' ∧ vm_ok v' ∧
    entry v' 5 1 = Some (loaded (with_phys f (demo_entry 1))) ∧ 0 ≤ f < NumPhysPages ∧
    page_image (hostfs demo_vm) demo_space 1 = Done img ∧ frame_bytes v' f = Done img.
Proof.
  destruct (PageFault_serves MemFiles_writes MemFiles_negative (λ _, 0) (λ _, Z.le_refl 0) demo_vm 5 258 demo_space (demo_entry 1)
    demo_ok demo_fault eq_refl) as (v' & f & img & H1 & H2 & H3 & H4 & H5 & H6 & _).
  exists v', f, img. split; [exact H1|]. split; [exact H2|]. split; [exact H3|]. split; [exact H4|].
  split; [exact H5|exact H6].
Defined.

Lemma AddrSpace_delete_releases_witness :
  ∃ v', AddrSpace_delete demo_vm 5 = Done v' ∧ vm_ok v' ∧ spaces v' = {[ 6 := demo_space2 ]}.
Proof.
  destruct (AddrSpace_delete_releases demo_vm 5 demo_space demo_ok eq_refl eq_refl) as (v' & H1 & H2 & H3 & _).
  exists v'. split; [exact H1|]. split; [exact H2|]. rewrite H3. reflexivity.
Defined.

(** The same kernel when the page has been loaded, and a store of the process to it. *)
Definition demo_loaded : @AddrSpace.vm BitMap.t mem_files :=
  match loadPage (λ _, 0) demo_vm 5 258 with Done v => v | _ => demo_vm end.

Lemma demo_loaded_ok : vm_ok demo_loaded.
Proof.
  destruct (loadPage_spec MemFiles_writes MemFiles_negative (λ _, 0) (λ _, Z.le_refl 0) demo_vm 5 258 demo_space
    (demo_entry 1) demo_ok demo_fault) as (v' & _ & _ & Hl & Hok & _).
  unfold demo_loaded. by rewrite Hl.
Qed.

Definition demo_handler (_ : ExceptionType) (k : ()) (m : Machine.t) : res (() * Machine.t) := Done (k, m).
Abbreviation demo_step := (FlatMemory.step false (λ _ k, k) demo_handler ()).
Definition demo_store := demo_step (RestoreState demo_space (machine demo_loaded)) (FlatMemory.Wr 260 4 77).
Definition demo_stored : Machine.t := match demo_store with Done (_, _, m) => m | _ => machine demo_loaded end.

Lemma demo_store_ok : demo_store = Done (Some 1, (), demo_stored).
Proof.
  unfold demo_stored.
  assert (Hok : match demo_store with Done (Some x, _, _) => x =? 1 | _ => false end = true) by (vm_compute; reflexivity).
  destruct demo_store as [[[[x|] []] m]| | | |]; try discriminate Hok. simplify_tests. by subst.
Qed.

(** The store is done, and changes bytes of the process's own page only. *)
Lemma processes_isolated_witness :
  (λ i, mainMemory demo_stored !! i) <$> [4; 5]%nat = [Some 77; Some 0] ∧
  differs_in (writable_byte demo_loaded 5) (mainMemory (machine demo_loaded)) (mainMemory demo_stored).
Proof.
  split; [vm_compute; reflexivity|].
  apply (processes_isolated false (λ _ k, k) demo_handler demo_loaded 5 6 demo_space demo_space2 demo_stored
    demo_loaded_ok).
  - vm_compute. reflexivity.
  - vm_compute. reflexivity.
  - discriminate.
  - vm_compute. reflexivity.
  - discriminate.
  - discriminate.
  - eapply one_access; [exact demo_store_ok|apply no_access].
Defined.

Lemma code_page_exact_witness :
  page_image ({[ 3 := seqZ 0 640 ]} : mem_files)
    (mkAS 3 4 (mkNoff NOFFMAGIC (mkSeg 0 40 512) (mkSeg 768 600 40) (mkSeg 0 0 0)) 70 4 0 true []) 1 =
  Done (u8 <$> seqZ 296 256).
Proof.
  apply (code_page_exact MemFiles_negative); try (unfold_int; unfold PageSize, SectorSize; simpl; lia); reflexivity.
Defined.

(** ** What goes wrong *)

(** A 400-byte code segment: the second page holds 144 bytes of it, but loadPage
    computes a size of 400 and reads 144 bytes past the end of the frame. *)
Lemma partial_page_overruns : segment_length (mkSeg 0 40 400) 1 = 400 ∧ ¬ no_overrun (mkSeg 0 40 400) 1.
Proof. split; [reflexivity|]. by vm_compute. Qed.

(** Such a page in the last frame is read past the end of mainMemory. *)
Lemma partial_page_leaves_memory :
  load_segment ({[ 3 := seqZ 0 1024 ]} : mem_files) 3 (mkSeg 0 40 400) 1 31 (replicate (Z.to_nat MemorySize) 0) = Undef.
Proof. vm_compute. reflexivity. Qed.

(** A page written by the process (its frame 0 holds 9s and is dirty) is swapped
    out and faulted in again: it holds the bytes of the executable, the 9s are
    lost although Swapout has saved them. *)
Definition dirty_vm : @AddrSpace.vm BitMap.t mem_files :=
  set_machine demo_vm (set_tables (machine demo_vm)
    {[ 70 := [mkTE 0 0 true false true true; demo_entry 1]; 71 := [demo_entry 0] ]}).

Lemma swapped_page_is_lost :
  (v ← Swapout dirty_vm 5 0; v ← fill_frame v.2 5 0 0; bs ← frame_bytes v 0; Done (take 4 bs)) = Done [40; 41; 42; 43] ∧
  (v ← Swapout dirty_vm 5 0; Done (mf_read (hostfs v.2) 4 0 4)) = Done (Some [9; 9; 9; 9]).
Proof. split; vm_compute; reflexivity. Qed.

End Paging.
