(* ===== verification/Coff2noff.v ===== *)
(** Coff2noff: the converter src/code/bin/coff2noff.c, which turns the output of the MIPS
    linker (COFF, bin/coff.h) into the executables that the kernel loads (NOFF, bin/noff.h).

    The program is modelled as its Makefile compiles it, for a little-endian host with
    32-bit longs.  A run works on the bytes of the input file and of the output file and ends
    with an exit code; malloc is taken to succeed, and the messages are left out.  [CoffSpec]
    shows what a run that exits with 0 has written, under the rule for .bss and .sbss that
    the comment gives and under the one that the code tests ([bss_rule]), that well-formed input is converted, and
    what the kernel then loads (with AddrSpace.v and Paging.v). *)
From S2P Require Import Prelude Bitmap Lists Machine AddrSpace Paging.

Module Coff.
Import AddrSpace.

(** * The formats of coff.h *)
Definition MIPSELMAGIC : Z := 0x0162.
Definition OMAGIC : Z := 263.

Record filehdr := mkFilehdr { f_magic : Z; f_nscns : Z }.
Record aouthdr := mkAouthdr { magic : Z }.
Record scnhdr := mkScnhdr {
  s_name : list Z;
  s_paddr : Z;
  s_size : Z;
  s_scnptr : Z
}.

(** [sizeof] of the three structures and of NoffHeader. *)
Definition sizeof_filehdr : Z := 20.
Definition sizeof_aouthdr : Z := 56.
Definition sizeof_scnhdr : Z := 40.
Definition sizeof_NoffHeader : Z := 40.

(** The members the program uses; the others are read and ignored. *)
Definition word_at (bs : list Z) (off n : nat) : Z := word_of (take n (drop off bs)).

Definition filehdr_of (bs : list Z) : filehdr := mkFilehdr (word_at bs 0 2) (word_at bs 2 2).
Definition aouthdr_of (bs : list Z) : aouthdr := mkAouthdr (word_at bs 0 2).
Definition scnhdr_of (bs : list Z) : scnhdr :=
  mkScnhdr (take 8 bs) (s32 (word_at bs 8 4)) (s32 (word_at bs 16 4)) (s32 (word_at bs 20 4)).

(** No conversion on a little-endian host. *)
Definition WordToHost (word : Z) : Z := word.
Definition ShortToHost (shortword : Z) : Z := shortword.

(** The ten ints of a NoffHeader in memory. *)
Definition header_bytes (h : NoffHeader) : list Z :=
  let seg s := bytes_of 4 (virtualAddr s) ++ bytes_of 4 (inFileAddr s) ++ bytes_of 4 (seg_size s) in
  bytes_of 4 (noffMagic h) ++ seg (code h) ++ seg (initData h) ++ seg (uninitData h).

(** * Effects

    The input file, the position in it, the output file ([None]: unlinked) and the position
    in it; [writable] is whether the output file could be opened. *)
Record io := mkIO {
  input : list Z;
  in_pos : Z;
  writable : bool;
  output : option (list Z);
  out_pos : Z
}.

(** A step goes on, leaves with exit, or asks read for a negative number of bytes, which
    POSIX leaves open. *)
Inductive result (A : Type) :=
| Ok (a : A) (s : io)
| Exit (status : Z) (s : io)
| Unspecified.
Arguments Ok {A} a s.
Arguments Exit {A} status s.
Arguments Unspecified {A}.

Definition M (A : Type) := io → result A.
Definition ret {A} (a : A) : M A := λ s, Ok a s.
Definition bind {A B} (m : M A) (f : A → M B) : M B := λ s,
  match m s with
  | Ok a s => f a s
  | Exit c s => Exit c s
  | Unspecified => Unspecified
  end.
Notation "x <~ m ; k" := (bind m (λ x, k)) (at level 100, m at next level, right associativity).

Definition exit {A} (status : Z) : M A := λ s, Exit status s.
Definition unlink : M () := λ s, Ok () (mkIO (input s) (in_pos s) (writable s) None (out_pos s)).

(** [unlink(noffFileName); exit(1);] *)
Definition fail {A} : M A := _ <~ unlink; exit 1.

(** lseek from the start; a negative position is refused and the result is not looked at. *)
Definition seek_in (pos : Z) : M () := λ s,
  Ok () (mkIO (input s) (if pos <? 0 then in_pos s else pos) (writable s) (output s) (out_pos s)).
Definition seek_out (pos : Z) : M () := λ s,
  Ok () (mkIO (input s) (in_pos s) (writable s) (output s) (if pos <? 0 then out_pos s else pos)).

(** [Read]: fails unless all the bytes are there. *)
Definition Read (nBytes : Z) : M (list Z) := λ s,
  if nBytes <? 0 then Unspecified else
  let buf := take (Z.to_nat nBytes) (drop (Z.to_nat (in_pos s)) (input s)) in
  let s := mkIO (input s) (in_pos s + Z.of_nat (length buf)) (writable s) (output s) (out_pos s) in
  if Z.of_nat (length buf) =? nBytes then Ok buf s else fail s.

(** Storing at a position: a gap before it is filled with zeros.  Writing nothing changes
    nothing. *)
Definition put (file : list Z) (pos : nat) (bs : list Z) : list Z :=
  match bs with
  | [] => file
  | _ => take pos (file ++ replicate (pos - length file) 0) ++ bs ++ drop (pos + length bs) file
  end.

(** [Write]: fails unless the file is open. *)
Definition Write (buf : list Z) : M () := λ s,
  if writable s then
    Ok () (mkIO (input s) (in_pos s) (writable s)
             ((λ file, put file (Z.to_nat (out_pos s)) buf) <$> output s)
             (out_pos s + Z.of_nat (length buf)))
  else fail s.

(** * The program *)

(** strcmp with a name of at most seven characters looks at no more than the eight of
    [s_name]. *)
Definition text : list Z := [46; 116; 101; 120; 116].
Definition data : list Z := [46; 100; 97; 116; 97].
Definition rdata : list Z := [46; 114; 100; 97; 116; 97].
Definition bss : list Z := [46; 98; 115; 115].
Definition sbss : list Z := [46; 115; 98; 115; 115].

Fixpoint strcmp_eq (a b : list Z) : bool :=
  match a, b with
  | [], [] => true
  | [], _ :: _ => false
  | x :: a, [] => x =? 0
  | x :: a, y :: b => (x =? y) && strcmp_eq a b
  end.

Definition is_named (sec : scnhdr) (name : list Z) : bool := strcmp_eq (s_name sec) name.

(** Copies the bytes of a section to the current end of the output file. *)
Definition copy_section (sec : scnhdr) : M () :=
  _ <~ seek_in (s_scnptr sec);
  buffer <~ Read (s_size sec);
  Write buffer.

(** The body of the loop over the sections. *)
Definition load_section (sec : scnhdr) (st : NoffHeader * Z) : M (NoffHeader * Z) :=
  let '(noffH, inNoffFile) := st in
  if s_size sec =? 0 then ret (noffH, inNoffFile)
  else if is_named sec text then
    let noffH := mkNoff (noffMagic noffH) (mkSeg (s_paddr sec) inNoffFile (s_size sec))
                   (initData noffH) (uninitData noffH) in
    _ <~ copy_section sec;
    ret (noffH, s32 (inNoffFile + s_size sec))
  else if is_named sec data || is_named sec rdata then
    if negb (seg_size (initData noffH) =? 0) then fail
    else
      let noffH := mkNoff (noffMagic noffH) (code noffH)
                     (mkSeg (s_paddr sec) inNoffFile (s_size sec)) (uninitData noffH) in
      _ <~ copy_section sec;
      ret (noffH, s32 (inNoffFile + s_size sec))
  else if is_named sec bss || is_named sec sbss then
    let u := uninitData noffH in
    if negb (seg_size u =? 0) then
      if s_paddr sec =? s32 (virtualAddr u + seg_size u) then fail
      else ret (mkNoff (noffMagic noffH) (code noffH) (initData noffH)
                  (mkSeg (virtualAddr u) (inFileAddr u) (s32 (seg_size u + s_size sec))), inNoffFile)
    else ret (mkNoff (noffMagic noffH) (code noffH) (initData noffH)
                (mkSeg (s_paddr sec) (inFileAddr u) (s_size sec)), inNoffFile)
  else fail.

Fixpoint load_sections (secs : list scnhdr) (st : NoffHeader * Z) : M (NoffHeader * Z) :=
  match secs with
  | [] => ret st
  | sec :: secs => st <~ load_section sec st; load_sections secs st
  end.

Definition convert_section (sec : scnhdr) : scnhdr :=
  mkScnhdr (s_name sec) (WordToHost (s_paddr sec)) (WordToHost (s_size sec)) (WordToHost (s_scnptr sec)).

(** The array of section headers. *)
Definition sections_of (n : nat) (bs : list Z) : list scnhdr :=
  (λ i, scnhdr_of (take 40 (drop (40 * i) bs))) <$> seq 0 n.

(** The header before the loop: what the stack held, with the magic number and the sizes
    set. *)
Definition initial_header (stack : NoffHeader) : NoffHeader :=
  let clear s := mkSeg (virtualAddr s) (inFileAddr s) 0 in
  mkNoff NOFFMAGIC (clear (code stack)) (clear (initData stack)) (clear (uninitData stack)).

(** From the first Read on. *)
Definition convert (stack : NoffHeader) : M () :=
  fileh <~ Read sizeof_filehdr;
  let fileh := filehdr_of fileh in
  if negb (ShortToHost (f_magic fileh) =? MIPSELMAGIC) then fail
  else
    systemh <~ Read sizeof_aouthdr;
    if negb (ShortToHost (magic (aouthdr_of systemh)) =? OMAGIC) then fail
    else
      let numsections := ShortToHost (f_nscns fileh) in
      buf <~ Read (numsections * sizeof_scnhdr);
      let sections := convert_section <$> sections_of (Z.to_nat numsections) buf in
      let inNoffFile := sizeof_NoffHeader in
      _ <~ seek_out inNoffFile;
      st <~ load_sections sections (initial_header stack, inNoffFile);
      _ <~ seek_out 0;
      _ <~ Write (header_bytes st.1);
      exit 0.

(** main: [infile] is the contents of argv[1], if it can be opened, [writable] whether
    argv[2] can be.  The result is the exit code and the output file. *)
Definition main (argc : Z) (infile : option (list Z)) (writable : bool) (stack : NoffHeader) :
    option (Z * option (list Z)) :=
  if argc <? 2 then Some (1, None)
  else
    match infile with
    | None => Some (1, None)
    | Some bs =>
        match convert stack (mkIO bs 0 writable (if writable then Some [] else None) 0) with
        | Ok _ s => Some (0, output s)
        | Exit c s => Some (c, output s)
        | Unspecified => None
        end
    end.

End Coff.

Module CoffSpec.
Import AddrSpace Coff.

(** * The conversion without files

    What becomes of each section, given the bytes that were loaded so far. *)
Definition data_of (file : list Z) (sec : scnhdr) : list Z :=
  take (Z.to_nat (s_size sec)) (drop (Z.to_nat (s_scnptr sec)) file).

Inductive kind := Empty | Text | Data | Bss | Unknown.

#[export] Instance kind_eq_dec : EqDecision kind.
Proof. solve_decision. Defined.

Definition kind_of (sec : scnhdr) : kind :=
  if s_size sec =? 0 then Empty
  else if is_named sec text then Text
  else if is_named sec data || is_named sec rdata then Data
  else if is_named sec bss || is_named sec sbss then Bss
  else Unknown.

Definition set_code x (h : NoffHeader) := mkNoff (noffMagic h) x (initData h) (uninitData h).
Definition set_initData x (h : NoffHeader) := mkNoff (noffMagic h) (code h) x (uninitData h).
Definition set_uninitData x (h : NoffHeader) := mkNoff (noffMagic h) (code h) (initData h) x.

Definition in_file (file : list Z) (sec : scnhdr) : bool :=
  s_scnptr sec + s_size sec <=? Z.of_nat (length file).

Definition segment_at (sec : scnhdr) (body : list Z) : Segment :=
  mkSeg (s_paddr sec) (40 + Z.of_nat (length body)) (s_size sec).

(** Which bss sections may be joined to one segment: those that are contiguous, as the
    comment in the program has it, or only those that are not. *)
Inductive bss_rule := Contiguous | Apart.

Definition may_join (r : bss_rule) (contiguous : bool) : bool :=
  match r with Contiguous => contiguous | Apart => negb contiguous end.

Definition place (r : bss_rule) (file : list Z) (sec : scnhdr) (st : NoffHeader * list Z) :
    option (NoffHeader * list Z) :=
  let '(h, body) := st in
  let u := uninitData h in
  match kind_of sec with
  | Empty => Some st
  | Text =>
      if in_file file sec then Some (set_code (segment_at sec body) h, body ++ data_of file sec) else None
  | Data =>
      if (seg_size (initData h) =? 0) && in_file file sec
      then Some (set_initData (segment_at sec body) h, body ++ data_of file sec) else None
  | Bss =>
      if seg_size u =? 0 then
        Some (set_uninitData (mkSeg (s_paddr sec) (inFileAddr u) (s_size sec)) h, body)
      else if may_join r (s_paddr sec =? s32 (virtualAddr u + seg_size u)) then
        Some (set_uninitData (mkSeg (virtualAddr u) (inFileAddr u) (s32 (seg_size u + s_size sec))) h, body)
      else None
  | Unknown => None
  end.

Fixpoint layout (r : bss_rule) (file : list Z) (secs : list scnhdr) (st : NoffHeader * list Z) :
    option (NoffHeader * list Z) :=
  match secs with
  | [] => Some st
  | sec :: secs => st ← place r file sec st; layout r file secs st
  end.

(** The section headers of a file with the right magic numbers. *)
Definition coff_sections (file : list Z) : option (list scnhdr) :=
  let n := word_at file 2 2 in
  if (76 <=? Z.of_nat (length file)) && (word_at file 0 2 =? MIPSELMAGIC) &&
     (word_at file 20 2 =? OMAGIC) && (76 + 40 * n <=? Z.of_nat (length file))
  then Some (sections_of (Z.to_nat n) (take (40 * Z.to_nat n) (drop 76 file)))
  else None.

(** Sizes and positions that can be told to read and lseek, and a total that is an int. *)
Definition readable (secs : list scnhdr) : Prop :=
  Forall (λ sec, 0 ≤ s_size sec ∧ 0 ≤ s_scnptr sec) secs ∧
  40 + Z.of_nat (sum_list_with (λ sec, Z.to_nat (s_size sec)) secs) ≤ INT_MAX.

(** * The files *)

(** The output file when [body] has been written behind the room for the header. *)
Definition disk (body : list Z) : list Z :=
  match body with [] => [] | _ => replicate 40 0 ++ body end.

Record at_body (file body : list Z) (s : io) : Prop := {
  ab_input : input s = file;
  ab_writable : writable s = true;
  ab_output : output s = Some (disk body);
  ab_pos : out_pos s = 40 + Z.of_nat (length body)
}.

Lemma put_disk body bs : put (disk body) (40 + length body) bs = disk (body ++ bs).
Proof.
  destruct bs as [|b bs]; [by rewrite app_nil_r|]. unfold put, disk. destruct body as [|c body].
  - cbn [length app Nat.add]. by rewrite drop_nil, app_nil_r.
  - cbn [app]. rewrite (drop_ge _ (40 + _ + _)), app_nil_r.
    2: { rewrite length_app, length_replicate. cbn [length]. lia. }
    rewrite length_app, length_replicate, Nat.sub_diag, app_nil_r.
    rewrite take_ge by (rewrite length_app, length_replicate; lia).
    rewrite <- app_assoc. done.
Qed.

Lemma put_header body h : put (disk body) 0 (header_bytes h) = header_bytes h ++ body.
Proof.
  unfold put. destruct (header_bytes h) as [|b l] eqn:Hh; [done|]. rewrite <- Hh.
  rewrite take_0. cbn [app Nat.add]. f_equal. change (length (header_bytes h)) with 40%nat.
  destruct body; [done|]. unfold disk. by rewrite drop_app_length' by (by rewrite length_replicate).
Qed.

(** One copied section. *)
Lemma copy_section_spec file body sec s :
  at_body file body s → 0 < s_size sec → 0 ≤ s_scnptr sec →
  if in_file file sec
  then ∃ s', copy_section sec s = Ok () s' ∧ at_body file (body ++ data_of file sec) s'
  else ∃ s', copy_section sec s = Exit 1 s' ∧ output s' = None.
Proof.
  intros [Hi Hw Ho Hp] Hsz Hptr.
  unfold copy_section, bind, seek_in, Read. cbn [input in_pos].
  rewrite (proj2 (Z.ltb_ge (s_size sec) 0)) by lia. rewrite (proj2 (Z.ltb_ge (s_scnptr sec) 0)) by lia.
  rewrite Hi. fold (data_of file sec).
  assert (Hlen : Z.of_nat (length (data_of file sec)) =
                 Z.min (s_size sec) (Z.max 0 (Z.of_nat (length file) - s_scnptr sec)))
    by (unfold data_of; rewrite length_take, length_drop; lia).
  unfold in_file. destruct (_ <=? _) eqn:Hin; simplify_tests.
  - rewrite (proj2 (Z.eqb_eq _ (s_size sec))) by lia. unfold Write. cbn [writable]. rewrite Hw.
    eexists. split; [reflexivity|]. split; cbn [input writable output out_pos]; try done.
    + rewrite Ho. cbn [fmap option_fmap option_map]. f_equal. rewrite Hp.
      replace (Z.to_nat (40 + Z.of_nat (length body))) with (40 + length body)%nat by lia. apply put_disk.
    + rewrite Hp, length_app. lia.
  - rewrite (proj2 (Z.eqb_neq _ (s_size sec))) by lia. eexists. by split.
Qed.

(** What a step of the program does, given what [place] or [layout] returns. *)
Definition simulates (file : list Z) (r : option (NoffHeader * list Z))
    (m : result (NoffHeader * Z)) : Prop :=
  match r with
  | Some (h, body) => ∃ s, m = Ok (h, 40 + Z.of_nat (length body)) s ∧ at_body file body s
  | None => ∃ s, m = Exit 1 s ∧ output s = None
  end.

(** The two kinds of section that are copied differ only in the segment they set. *)
Lemma copied_section file sec body s (h : NoffHeader) :
  at_body file body s → 0 < s_size sec → 0 ≤ s_scnptr sec →
  40 + Z.of_nat (length body) + s_size sec ≤ INT_MAX →
  simulates file (if in_file file sec then Some (h, body ++ data_of file sec) else None)
    (bind (copy_section sec) (λ _, ret (h, s32 (40 + Z.of_nat (length body) + s_size sec))) s).
Proof.
  intros Hab Hsz Hptr Hmax. pose proof (copy_section_spec file body sec s Hab Hsz Hptr) as Hc.
  unfold bind. destruct (in_file file sec) eqn:Hin; destruct Hc as (s' & -> & Hs'); cbn.
  - exists s'. split; [|done]. unfold ret. do 3 f_equal. unfold in_file in Hin. simplify_tests.
    rewrite s32_id by (unfold_int; lia). rewrite length_app. unfold data_of.
    rewrite length_take, length_drop. lia.
  - by exists s'.
Qed.

Lemma load_section_simulates file sec h body s :
  at_body file body s → 0 ≤ s_size sec → 0 ≤ s_scnptr sec →
  40 + Z.of_nat (length body) + s_size sec ≤ INT_MAX →
  simulates file (place Apart file sec (h, body)) (load_section sec (h, 40 + Z.of_nat (length body)) s).
Proof.
  intros Hab Hsz Hptr Hmax. unfold place, load_section, kind_of.
  destruct (s_size sec =? 0) eqn:H0; simplify_tests; [by exists s|].
  destruct (is_named sec text); [apply copied_section; lia || done|].
  destruct (_ || _).
  { destruct (seg_size (initData h) =? 0); cbn [negb andb];
      [apply copied_section; lia || done|eexists; split; done]. }
  destruct (_ || _); [|eexists; split; done].
  destruct (seg_size (uninitData h) =? 0); cbn [negb]; [by exists s|].
  unfold may_join. destruct (_ =? s32 _); cbn [negb]; [eexists; split; done|by exists s].
Qed.

Lemma place_length file sec h body h' body' :
  place Apart file sec (h, body) = Some (h', body') → 0 ≤ s_size sec →
  (length body' ≤ length body + Z.to_nat (s_size sec))%nat.
Proof.
  unfold place. intros Hp Hs.
  assert (Hd : (length (body ++ data_of file sec) ≤ length body + Z.to_nat (s_size sec))%nat)
    by (unfold data_of; rewrite length_app, length_take; lia).
  repeat case_match; simplify_eq; lia || done.
Qed.

Lemma load_sections_simulates file secs h body s :
  at_body file body s → Forall (λ sec, 0 ≤ s_size sec ∧ 0 ≤ s_scnptr sec) secs →
  40 + Z.of_nat (length body + sum_list_with (λ sec, Z.to_nat (s_size sec)) secs) ≤ INT_MAX →
  simulates file (layout Apart file secs (h, body)) (load_sections secs (h, 40 + Z.of_nat (length body)) s).
Proof.
  intros Hab Hall. revert h body s Hab.
  induction Hall as [|sec secs [Hsz Hptr] _ IH]; intros h body s Hab Hmax; [by exists s|].
  cbn [layout load_sections sum_list_with] in *.
  pose proof (load_section_simulates file sec h body s Hab Hsz Hptr ltac:(lia)) as Hs.
  unfold bind. destruct (place Apart file sec (h, body)) as [[h' body']|] eqn:Hp.
  - destruct Hs as (s' & -> & Hab'). cbn [mbind option_bind]. apply IH; [done|].
    pose proof (place_length _ _ _ _ _ _ Hp Hsz). lia.
  - destruct Hs as (s' & -> & Hout). by exists s'.
Qed.

(** ** The headers *)

Lemma word_at_take k bs off n : (off + n ≤ k)%nat → word_at (take k bs) off n = word_at bs off n.
Proof.
  intros Hk. unfold word_at. rewrite skipn_firstn_comm, take_take. by rewrite Nat.min_l by lia.
Qed.

Lemma word_at_drop j bs off n : word_at (drop j bs) off n = word_at bs (j + off) n.
Proof. unfold word_at. by rewrite drop_drop. Qed.

Definition advance (n : Z) (s : io) : io :=
  mkIO (input s) (in_pos s + n) (writable s) (output s) (out_pos s).

Definition end_of_run (m : result ()) : option (Z * option (list Z)) :=
  match m with Ok _ s => Some (0, output s) | Exit c s => Some (c, output s) | Unspecified => None end.

(** A read either delivers all the bytes or ends the program. *)
Lemma bind_Read {A} n (k : list Z → M A) s :
  0 ≤ n → 0 ≤ in_pos s → in_pos s + n ≤ Z.of_nat (length (input s)) →
  bind (Read n) k s = k (take (Z.to_nat n) (drop (Z.to_nat (in_pos s)) (input s))) (advance n s).
Proof.
  intros Hn Hp Hl. unfold bind, Read. rewrite (proj2 (Z.ltb_ge n 0)) by lia.
  rewrite (proj2 (Z.eqb_eq _ n)) by (rewrite length_take, length_drop; lia).
  unfold advance. do 2 f_equal. rewrite length_take, length_drop. lia.
Qed.

Lemma bind_Read_short n (k : list Z → M ()) s :
  0 < n → 0 ≤ in_pos s → Z.of_nat (length (input s)) < in_pos s + n →
  end_of_run (bind (Read n) k s) = Some (1, None).
Proof.
  intros Hn Hp Hl. unfold bind, Read. rewrite (proj2 (Z.ltb_ge n 0)) by lia.
  by rewrite (proj2 (Z.eqb_neq _ n)) by (rewrite length_take, length_drop; lia).
Qed.

(** From the section headers on. *)
Lemma convert_sections file secs h s :
  readable secs → input s = file → writable s = true → output s = Some [] →
  end_of_run ((_ <~ seek_out sizeof_NoffHeader;
               st <~ load_sections secs (h, sizeof_NoffHeader);
               _ <~ seek_out 0; _ <~ Write (header_bytes st.1); exit 0) s) =
  Some match layout Apart file secs (h, []) with
       | Some (h, body) => (0, Some (header_bytes h ++ body))
       | None => (1, None)
       end.
Proof.
  intros [Hall Hmax] Hi Hw Ho.
  set (s1 := mkIO (input s) (in_pos s) (writable s) (output s) 40).
  assert (Hab : at_body file [] s1) by (by split).
  pose proof (load_sections_simulates file secs h [] s1 Hab Hall Hmax) as Hs.
  unfold bind at 1. change (seek_out sizeof_NoffHeader s) with (Ok () s1).
  unfold bind at 1. change sizeof_NoffHeader with (40 + Z.of_nat (length (@nil Z))).
  destruct (layout Apart file secs (h, [])) as [[h' body]|].
  - destruct Hs as (s2 & -> & [_ Hw2 Ho2 _]). unfold bind, seek_out, Write, exit. cbn [writable output out_pos].
    rewrite Hw2, Ho2. cbn [fst end_of_run output fmap option_fmap option_map]. do 3 f_equal. apply put_header.
  - destruct Hs as (s2 & -> & Ho2). cbn. by rewrite Ho2.
Qed.

Lemma convert_section_id (secs : list scnhdr) : convert_section <$> secs = secs.
Proof. induction secs as [|[? ? ? ?] secs IH]; [done|]. rewrite fmap_cons, IH. done. Qed.

Lemma word_at_range bs off n : Forall is_byte bs → 0 ≤ word_at bs off n < 256 ^ Z.of_nat n.
Proof.
  intros Hb. assert (Hb' : Forall is_byte (take n (drop off bs))) by (by apply Forall_take, Forall_drop).
  pose proof (word_of_range _ Hb') as Hr. unfold word_at.
  assert (256 ^ Z.of_nat (length (take n (drop off bs))) ≤ 256 ^ Z.of_nat n); [|lia].
  apply Z.pow_le_mono_r; [lia|]. rewrite length_take. lia.
Qed.

Lemma convert_spec file stack :
  Forall is_byte file → (∀ secs, coff_sections file = Some secs → readable secs) →
  end_of_run (convert stack (mkIO file 0 true (Some []) 0)) =
  Some match secs ← coff_sections file; layout Apart file secs (initial_header stack, []) with
       | Some (h, body) => (0, Some (header_bytes h ++ body))
       | None => (1, None)
       end.
Proof.
  intros Hby Hread. unfold convert, sizeof_filehdr, sizeof_aouthdr, sizeof_scnhdr.
  pose proof (word_at_range file 2 2 Hby) as Hn. unfold coff_sections in *.
  set (s0 := mkIO file 0 true (Some []) 0).
  destruct (decide (20 ≤ Z.of_nat (length file))).
  2: { rewrite (proj2 (Z.leb_gt 76 _)) by lia. by apply bind_Read_short; cbn; lia. }
  rewrite bind_Read by (cbn; lia). unfold ShortToHost. cbn [f_magic f_nscns filehdr_of].
  cbn [s0 in_pos input]. rewrite !word_at_take, !word_at_drop by (cbn; lia).
  change (Z.to_nat 0 + 0)%nat with 0%nat. change (Z.to_nat 0 + 2)%nat with 2%nat.
  destruct (word_at file 0 2 =? MIPSELMAGIC); cbn [negb]; [|by rewrite andb_false_r].
  destruct (decide (76 ≤ Z.of_nat (length file))).
  2: { rewrite (proj2 (Z.leb_gt 76 _)) by lia. by apply bind_Read_short; cbn; lia. }
  rewrite (proj2 (Z.leb_le 76 _)) in * by lia. rewrite bind_Read by (cbn; lia).
  unfold aouthdr_of. cbn [magic advance s0 in_pos input]. rewrite word_at_take, word_at_drop by (cbn; lia).
  change (Z.to_nat (0 + 20) + 0)%nat with 20%nat.
  destruct (word_at file 20 2 =? OMAGIC); cbn [negb andb] in *; [|done].
  set (n := word_at file 2 2) in *.
  destruct (decide (76 + 40 * n ≤ Z.of_nat (length file))).
  2: { rewrite (proj2 (Z.leb_gt (76 + _) _)) by lia. apply bind_Read_short; cbn; lia. }
  rewrite (proj2 (Z.leb_le (76 + _) _)) in * by lia. rewrite bind_Read by (cbn; lia).
  cbn [advance in_pos input]. change (Z.to_nat (0 + 20 + 56)) with 76%nat.
  replace (Z.to_nat (n * 40)) with (40 * Z.to_nat n)%nat by lia. rewrite convert_section_id.
  cbn [mbind option_bind]. apply convert_sections; try done. by apply Hread.
Qed.

(** ** The two rules *)

Definition bss_sections (secs : list scnhdr) : list scnhdr :=
  filter (λ sec, kind_of sec = Bss) secs.

Lemma place_other r r' file sec st :
  kind_of sec ≠ Bss → place r file sec st = place r' file sec st ∧
  ∀ st', place r file sec st = Some st' → uninitData st'.1 = uninitData st.1.
Proof.
  destruct st as [h body]. unfold place. intros Hk. destruct (kind_of sec); try done;
    (split; [done|]); intros st' Hp; repeat case_match; by simplify_eq.
Qed.

Lemma layout_no_bss r r' file secs st :
  bss_sections secs = [] → layout r file secs st = layout r' file secs st.
Proof.
  revert st. induction secs as [|sec secs IH]; intros st Hb; [done|]. unfold bss_sections in *.
  rewrite filter_cons in Hb. case_decide as Hk; [done|]. cbn [layout].
  rewrite (proj1 (place_other r r' file sec st Hk)).
  destruct (place r' file sec st) as [st'|]; [|done]. by apply IH.
Qed.

(** With one bss section there is nothing to join. *)
Lemma layout_one_bss r r' file secs st :
  (length (bss_sections secs) ≤ 1)%nat → seg_size (uninitData st.1) = 0 →
  layout r file secs st = layout r' file secs st.
Proof.
  revert st. induction secs as [|sec secs IH]; intros st Hb Hu; [done|]. unfold bss_sections in *.
  rewrite filter_cons in Hb. cbn [layout]. case_decide as Hk.
  - cbn [length] in Hb. assert (E : place r file sec st = place r' file sec st).
    { destruct st as [h body]. unfold place. rewrite Hk. cbn [fst] in Hu. by rewrite Hu. }
    rewrite E. destruct (place r' file sec st) as [st'|]; [|done].
    apply layout_no_bss. apply length_zero_iff_nil. unfold bss_sections. lia.
  - destruct (place_other r r' file sec st Hk) as [E Hsame]. rewrite <- E.
    destruct (place r file sec st) as [st'|]; [|done]. apply IH; [done|]. by rewrite (Hsame st').
Qed.

(** What a run leaves behind if the sections are laid out by the rule [r]. *)
Definition laid_out (r : bss_rule) (file : list Z) (stack : NoffHeader) : option (Z * option (list Z)) :=
  Some match secs ← coff_sections file; layout r file secs (initial_header stack, []) with
       | Some (h, body) => (0, Some (header_bytes h ++ body))
       | None => (1, None)
       end.

(** C21: coff2noff lays out the executable that the pure description [layout] gives.  On a
    file whose sizes and offsets are non-negative and whose total fits an int, the program -
    its reads, seeks, writes and early exits - either writes exactly the header and the bytes
    of the layout and exits with 0, or finds the input unacceptable (too short, a wrong magic
    number, an unknown section, two data segments, bss sections it cannot join), removes the
    output file and exits with 1.  With at most one .bss or .sbss section that is not empty,
    which is all there is to join, the layout is the documented one, in which bss sections
    are joined if they are contiguous.  With several, the program does the contrary of what
    the comment in it asks for: it refuses a contiguous one and joins the others. *)
Theorem coff2noff_is_layout argc file stack :
  2 ≤ argc → Forall is_byte file → (∀ secs, coff_sections file = Some secs → readable secs) →
  ((∀ secs, coff_sections file = Some secs → (length (bss_sections secs) ≤ 1)%nat) →
   main argc (Some file) true stack = laid_out Contiguous file stack) ∧
  main argc (Some file) true stack = laid_out Apart file stack.
Proof.
  intros Ha Hby Hread.
  assert (Hm : main argc (Some file) true stack = laid_out Apart file stack).
  { unfold main. rewrite (proj2 (Z.ltb_ge argc 2)) by lia. by apply convert_spec. }
  split; [|done]. intros Hone. rewrite Hm. unfold laid_out. f_equal.
  destruct (coff_sections file) as [secs|]; [|done]. cbn [mbind option_bind].
  by rewrite (layout_one_bss Apart Contiguous) by auto.
Qed.

(** * What the kernel finds in the executable *)

Definition seg_fields (x : Segment) : list Z := [virtualAddr x; inFileAddr x; seg_size x].
Definition header_ok (h : NoffHeader) : Prop :=
  Forall is_s32 (noffMagic h :: seg_fields (code h) ++ seg_fields (initData h) ++ seg_fields (uninitData h)).

Lemma int_of_bytes z : is_s32 z → s32 (word_of (bytes_of 4 z)) = z.
Proof.
  intros Hz. rewrite word_of_bytes_of. change (256 ^ Z.of_nat 4) with (2 ^ 32). fold (u32 z).
  by rewrite s32_u32, s32_id.
Qed.

(** The constructor of AddrSpace reads back the header that was written. *)
Lemma header_roundtrip h body : header_ok h → header_of_bytes (header_bytes h ++ body) = h.
Proof.
  destruct h as [m [a1 a2 a3] [b1 b2 b3] [c1 c2 c3]]. unfold header_ok, seg_fields. cbn [app].
  cbn [noffMagic code initData uninitData virtualAddr inFileAddr seg_size].
  rewrite !Forall_cons. intros (? & ? & ? & ? & ? & ? & ? & ? & ? & ? & _).
  set (w z := s32 (word_of (bytes_of 4 z))).
  transitivity (mkNoff (w m) (mkSeg (w a1) (w a2) (w a3)) (mkSeg (w b1) (w b2) (w b3))
                  (mkSeg (w c1) (w c2) (w c3))); [reflexivity|].
  unfold w. by rewrite !int_of_bytes.
Qed.

(** The last section of a kind: the one whose segment the header describes. *)
Fixpoint last_of (k : kind) (acc : option scnhdr) (secs : list scnhdr) : option scnhdr :=
  match secs with
  | [] => acc
  | sec :: secs => last_of k (if decide (kind_of sec = k) then Some sec else acc) secs
  end.

(** The segment [seg] of the executable is the section [sec] of the input. *)
Definition holds (file body : list Z) (sec : option scnhdr) (seg : Segment) : Prop :=
  match sec with
  | None => seg_size seg = 0
  | Some sec => in_file file sec = true ∧
      ∃ pre post, body = pre ++ data_of file sec ++ post ∧ seg = segment_at sec pre
  end.

Record placed (file : list Z) (t d : option scnhdr) (st : NoffHeader * list Z) : Prop := {
  p_magic : noffMagic st.1 = NOFFMAGIC;
  p_code : holds file st.2 t (code st.1);
  p_data : holds file st.2 d (initData st.1);
  p_ok : header_ok st.1
}.

Lemma holds_app file body more t seg : holds file body t seg → holds file (body ++ more) t seg.
Proof.
  destruct t; [|done]. intros (Hin & pre & post & -> & ->). split; [done|].
  exists pre, (post ++ more). by rewrite <- !app_assoc.
Qed.

Lemma holds_last file body sec :
  in_file file sec = true → holds file (body ++ data_of file sec) (Some sec) (segment_at sec body).
Proof. intros Hin. split; [done|]. exists body, []. by rewrite app_nil_r. Qed.

Lemma header_ok_set h x :
  header_ok h → Forall is_s32 (seg_fields x) →
  header_ok (set_code x h) ∧ header_ok (set_initData x h) ∧ header_ok (set_uninitData x h).
Proof.
  unfold header_ok, set_code, set_initData, set_uninitData.
  cbn [noffMagic code initData uninitData]. rewrite !Forall_cons, !Forall_app. tauto.
Qed.

Definition sec_ok (sec : scnhdr) : Prop := is_s32 (s_paddr sec) ∧ is_s32 (s_size sec).

Lemma place_placed file sec t d st st' :
  placed file t d st → sec_ok sec → 40 + Z.of_nat (length st.2) ≤ INT_MAX →
  place Apart file sec st = Some st' →
  placed file (if decide (kind_of sec = Text) then Some sec else t)
    (if decide (kind_of sec = Data) then Some sec else d) st'.
Proof.
  destruct st as [h body]. intros [Hm Hc Hd Hok] [Hpa Hsz] Hmax Hp. unfold place in Hp. cbn [fst snd] in *.
  assert (Hu : Forall is_s32 (seg_fields (uninitData h))).
  { unfold header_ok in Hok. rewrite Forall_cons, !Forall_app in Hok. tauto. }
  unfold seg_fields in Hu. rewrite !Forall_cons in Hu. destruct Hu as (Hu1 & Hu2 & Hu3 & _).
  assert (Hseg : Forall is_s32 (seg_fields (segment_at sec body))).
  { unfold seg_fields, segment_at. repeat (constructor; [assumption || (cbn; unfold_int; lia)|]). done. }
  assert (Hbss : ∀ a n, is_s32 a → is_s32 n → Forall is_s32 (seg_fields (mkSeg a (inFileAddr (uninitData h)) n))).
  { intros. unfold seg_fields. rewrite !Forall_cons. by split_and!. }
  destruct (kind_of sec); try discriminate; repeat case_match; simplify_eq; simplify_tests;
    (split; cbn [fst snd]; [done|..]); try done;
    try (by apply holds_app); try (by apply holds_last);
    apply header_ok_set; auto using s32_range.
Qed.

Lemma layout_placed file secs t d st st' :
  placed file t d st → Forall sec_ok secs → Forall (λ sec, 0 ≤ s_size sec ∧ 0 ≤ s_scnptr sec) secs →
  40 + Z.of_nat (length st.2 + sum_list_with (λ sec, Z.to_nat (s_size sec)) secs) ≤ INT_MAX →
  layout Apart file secs st = Some st' →
  placed file (last_of Text t secs) (last_of Data d secs) st' ∧
  40 + Z.of_nat (length st'.2) ≤ INT_MAX.
Proof.
  revert t d st. induction secs as [|sec secs IH]; intros t d st Hp Hok Hr Hmax Hl; cbn [layout last_of] in *.
  - injection Hl as <-. cbn in Hmax. split; [done|lia].
  - apply bind_Some in Hl as (st1 & Hp1 & Hl). apply Forall_cons in Hok as [Hs Hok], Hr as [[Hsz _] Hr].
    cbn [sum_list_with] in Hmax. apply (IH _ _ st1); try done.
    + eapply place_placed; [done|done|lia|done].
    + destruct st as [h body], st1 as [h1 body1]. cbn [snd] in *.
      pose proof (place_length _ _ _ _ _ _ Hp1 Hsz). lia.
Qed.

Lemma sections_ok file secs : coff_sections file = Some secs → Forall sec_ok secs.
Proof.
  unfold coff_sections. destruct (_ && _); [|done]. intros [= <-]. unfold sections_of.
  apply Forall_fmap, list.Forall_forall. intros i _. split; apply s32_range.
Qed.

Lemma last_of_elem k secs sec : last_of k None secs = Some sec → sec ∈ secs.
Proof.
  assert (Hg : ∀ acc, last_of k acc secs = Some sec → acc = Some sec ∨ sec ∈ secs).
  { induction secs as [|x secs IH]; intros acc; cbn [last_of]; [auto|]. intros Hl.
    destruct (IH _ Hl) as [Hx|Hx]; [|right; by right]. case_decide; [|auto].
    injection Hx as ->. right. by left. }
  intros Hl. by destruct (Hg None Hl).
Qed.

(** The executable that a successful run has written. *)
Lemma written argc file stack secs out :
  2 ≤ argc → Forall is_byte file → header_ok stack →
  coff_sections file = Some secs → readable secs →
  main argc (Some file) true stack = Some (0, Some out) →
  ∃ h body, out = header_bytes h ++ body ∧ header_of_bytes out = h ∧
    placed file (last_of Text None secs) (last_of Data None secs) (h, body) ∧
    40 + Z.of_nat (length body) ≤ INT_MAX.
Proof.
  intros Ha Hby Hst Hs Hr Hm. unfold main in Hm. rewrite (proj2 (Z.ltb_ge argc 2)) in Hm by lia.
  fold (end_of_run (convert stack (mkIO file 0 true (Some []) 0))) in Hm.
  rewrite convert_spec in Hm; [|done|intros ?; rewrite Hs; by intros [= <-]].
  rewrite Hs in Hm. cbn [mbind option_bind] in Hm.
  destruct (layout Apart file secs (initial_header stack, [])) as [[h body]|] eqn:Hl; [|done].
  injection Hm as <-. destruct Hr as [Hr Hmax].
  destruct (layout_placed file secs None None (initial_header stack, []) (h, body)) as [Hp Hb]; try done.
  - split; cbn [fst snd]; try done. unfold header_ok, initial_header, seg_fields in *.
    cbn [app] in *. rewrite !Forall_cons in *. cbn [noffMagic code initData uninitData virtualAddr inFileAddr seg_size] in *.
    assert (is_s32 0) by (by unfold_int). assert (is_s32 NOFFMAGIC) by (by unfold_int).
    destruct Hst as (_ & ? & ? & _ & ? & ? & _ & ? & ? & _ & _). by split_and!.
  - by eapply sections_ok.
  - exists h, body. split_and!; try done. apply header_roundtrip. by apply Hp.
Qed.

(** The constructor accepts a header with the right magic number. *)
Lemma AddrSpace_accepts {B} `{!BitmapLike B} (mm : B) be h fd swap_fd ptr sw start0 m :
  bm_ok mm → bm_size mm = Machine.NumPhysPages → noffMagic h = NOFFMAGIC →
  ∃ sp m', AddrSpace.AddrSpace be h fd swap_fd ptr sw start0 mm m = Done (sp, m') ∧
           noffH sp = h ∧ AddrSpace.file sp = fd.
Proof.
  intros Hmm Hsz Hmag. unfold AddrSpace.AddrSpace. rewrite Hmag, Z.eqb_refl. cbn [negb andb].
  rewrite bind_ASSERT by (by rewrite Hmag, Z.eqb_refl).
  unfold start_search.
  match goal with |- context [for_up ?n ?lo ?body ?s] =>
    destruct (for_up_inv (λ _ _, True) body n lo s) as (cs & -> & _); [done| |] end.
  { intros i [counter start] Hi _. destruct (_ <? _); [|by eexists].
    rewrite bm_Test_spec; [by eexists|done|]. rewrite Hsz. unfold Machine.NumPhysPages in *. lia. }
  cbn [mbind res_bind]. destruct cs. eexists _, _. by split_and!.
Qed.

(** C29: the code of a COFF file reaches the memory of the process.  Take a run of coff2noff
    that exits with 0, and let the kernel start a process on the file it wrote.  The
    constructor of AddrSpace accepts the header, and a page that lies in the code section and
    before the data section is loaded with exactly the 256 bytes that the COFF file holds for
    its addresses.  The kernel then also asks the host for a negative number of bytes of the
    data section, which POSIX leaves open; this is for hosts that refuse it, as Linux does. *)
Theorem coff_code_reaches_memory {B F} `{!BitmapLike B} `{!HostFiles F} (hf : F) (mm : B)
    argc file stack secs out sec vp fd swap_fd ptr sw start0 m :
  2 ≤ argc → Forall is_byte file → header_ok stack →
  coff_sections file = Some secs → readable secs →
  main argc (Some file) true stack = Some (0, Some out) →
  Paging.negative_reads_fail (F := F) →
  (∀ pos n, 0 ≤ pos → 0 ≤ n → pos + n ≤ Z.of_nat (length out) →
     h_read hf fd pos n = Some (take (Z.to_nat n) (drop (Z.to_nat pos) out))) →
  bm_ok mm → bm_size mm = Machine.NumPhysPages →
  last_of Text None secs = Some sec →
  0 ≤ vp < 2 ^ 22 → 0 ≤ s_paddr sec ≤ vp * 256 → (vp + 1) * 256 ≤ s_paddr sec + s_size sec ≤ INT_MAX →
  (∀ d, last_of Data None secs = Some d → (vp + 1) * 256 < s_paddr d ∧ s_paddr d + s_size d ≤ INT_MAX) →
  ∃ sp m', AddrSpace.AddrSpace false (header_of_bytes out) fd swap_fd ptr sw start0 mm m = Done (sp, m') ∧
    Paging.page_image hf sp vp =
    Done (take 256 (drop (Z.to_nat (s_scnptr sec + (vp * 256 - s_paddr sec))) file)).
Proof.
  intros Ha Hby Hst Hs Hr Hm Hneg Hrd Hmm Hsz Hsec Hvp Hlo Hhi Hdata.
  destruct (written argc file stack secs out Ha Hby Hst Hs Hr Hm) as (h & body & Hout & Hh & Hp & Hmax).
  rewrite Hh. destruct Hp as [Hmag Hc Hd Hok]. rewrite Hsec in Hc. cbn [fst snd] in *.
  destruct (AddrSpace_accepts mm false h fd swap_fd ptr sw start0 m Hmm Hsz Hmag) as (sp & m' & Hsp & Hspn & Hfd).
  exists sp, m'. split; [exact Hsp|].
  destruct Hc as (Hin & pre & post & Hbody & Hcode). unfold in_file in Hin. simplify_tests.
  destruct Hr as [Hr _]. rewrite list.Forall_forall in Hr.
  destruct (Hr sec (last_of_elem _ _ _ Hsec)) as [Hsz0 Hptr0].
  assert (Hd40 : length (header_bytes h) = 40%nat) by done.
  assert (Hds : length (data_of file sec) = Z.to_nat (s_size sec))
    by (unfold data_of; rewrite length_take, length_drop; lia).
  assert (Hol : length out = (40 + length body)%nat) by (by rewrite Hout, length_app, Hd40).
  assert (Hbl : length body = (length pre + (Z.to_nat (s_size sec) + length post))%nat)
    by (by rewrite Hbody, !length_app, Hds).
  set (off := vp * 256 - s_paddr sec) in *.
  assert (Hoff : 0 ≤ off ∧ off + 256 ≤ s_size sec) by lia.
  apply Paging.code_page_image; [exact Hneg|..]; rewrite ?Hspn, ?Hcode; cbn [virtualAddr seg_size inFileAddr segment_at];
    unfold Machine.PageSize, Machine.SectorSize; try (unfold_int; lia).
  - intros Hpos. destruct (last_of Data None secs) as [d|] eqn:Hl; [|cbn in Hd; lia].
    destruct (Hdata d eq_refl) as [Hd1 Hd2]. destruct Hd as (_ & dpre & dpost & Hdb & Hde). rewrite Hde in *.
    cbn [virtualAddr seg_size inFileAddr segment_at] in *.
    rewrite Hdb, !length_app in Hmax. unfold_int. lia.
  - rewrite Hfd, Hrd; [|lia|lia|lia]. f_equal. rewrite Hout, Hbody.
    replace (Z.to_nat (40 + Z.of_nat (length pre) + (vp * 256 - s_paddr sec)))
      with (length (header_bytes h) + (length pre + Z.to_nat off))%nat by lia.
    rewrite <- drop_drop, drop_app_length, <- drop_drop, drop_app_length.
    unfold data_of. rewrite drop_app_le by (rewrite length_take, length_drop; lia).
    rewrite take_app_le by (rewrite length_drop, length_take, length_drop; lia).
    change (Z.to_nat 256) with 256%nat. rewrite skipn_firstn_comm, take_take, drop_drop.
    rewrite Nat.min_l by lia. f_equal. f_equal. lia.
  - rewrite length_take, length_drop. lia.
Qed.

End CoffSpec.

(** * Concrete files *)
Module CoffDemo.
Import AddrSpace Paging.Paging Coff CoffSpec.

(** A COFF file with the given sections: name, address and contents ([None]: a size only). *)
Definition section_header (name : list Z) (paddr size ptr : Z) : list Z :=
  name ++ replicate (8 - length name) 0 ++ bytes_of 4 paddr ++ bytes_of 4 paddr ++
  bytes_of 4 size ++ bytes_of 4 ptr ++ replicate 16 0.

Definition coff_header (nscns : Z) : list Z :=
  bytes_of 2 MIPSELMAGIC ++ bytes_of 2 nscns ++ replicate 16 0 ++ bytes_of 2 OMAGIC ++ replicate 54 0.

(** 512 bytes of code at 0, 8 bytes of data at 1024 and 100 bytes of bss. *)
Definition demo_code : list Z := u8 <$> seqZ 7 512.
Definition demo_file : list Z :=
  coff_header 3 ++ section_header text 0 512 196 ++ section_header data 1024 8 708 ++
  section_header bss 1032 100 0 ++ demo_code ++ [1; 2; 3; 4; 5; 6; 7; 8].

Definition garbage : NoffHeader := mkNoff 1 (mkSeg 2 3 4) (mkSeg 5 6 7) (mkSeg 8 9 10).

Definition demo_sections : list scnhdr := default [] (coff_sections demo_file).
Definition demo_out : list Z :=
  match main 3 (Some demo_file) true garbage with Some (_, Some out) => out | _ => [] end.

Lemma is_byteb l : forallb (λ b, (0 <=? b) && (b <? 256)) l = true → Forall is_byte l.
Proof.
  intros Hb. rewrite forallb_forall in Hb. apply list.Forall_forall. intros x Hx%list_elem_of_In.
  specialize (Hb x Hx). simplify_tests. done.
Qed.

Lemma demo_sections_ok : coff_sections demo_file = Some demo_sections.
Proof. vm_compute. reflexivity. Qed.

Lemma demo_readable : readable demo_sections.
Proof.
  split; [|vm_compute; congruence].
  apply (bool_decide_unpack _). vm_compute. exact I.
Qed.

Lemma coff2noff_is_layout_witness :
  main 3 (Some demo_file) true garbage =
  Some (0, Some (header_bytes (mkNoff NOFFMAGIC (mkSeg 0 40 512) (mkSeg 1024 552 8) (mkSeg 1032 9 100)) ++
                 demo_code ++ [1; 2; 3; 4; 5; 6; 7; 8])).
Proof.
  destruct (coff2noff_is_layout 3 demo_file garbage) as [Hm _].
  - lia.
  - apply is_byteb. vm_compute. reflexivity.
  - intros secs Hs. rewrite demo_sections_ok in Hs. injection Hs as <-. exact demo_readable.
  - rewrite Hm.
    + vm_compute. reflexivity.
    + intros secs Hs. rewrite demo_sections_ok in Hs. injection Hs as <-. vm_compute. lia.
Defined.

Lemma u8_bytes l : Forall is_byte l → u8 <$> l = l.
Proof.
  induction 1 as [|b l Hb _ IH]; [done|]. rewrite fmap_cons, IH. f_equal.
  unfold is_byte in Hb. unfold u8. apply Z.mod_small. lia.
Qed.

Lemma demo_out_bytes : Forall is_byte demo_out.
Proof. apply is_byteb. vm_compute. reflexivity. Qed.

Lemma coff_code_reaches_memory_witness :
  ∃ sp m', AddrSpace.AddrSpace false (header_of_bytes demo_out) 3 4 70 [] 0
             (BitMap.mk 32 1 [0]) (machine Paging.demo_vm) = Done (sp, m') ∧
    Paging.page_image ({[ 3 := demo_out ]} : Paging.mem_files) sp 1 =
    Done (take 256 (drop 452 demo_file)).
Proof.
  apply (coff_code_reaches_memory ({[ 3 := demo_out ]} : Paging.mem_files) (BitMap.mk 32 1 [0])
           3 demo_file garbage demo_sections demo_out (mkScnhdr (text ++ [0; 0; 0]) 0 512 196) 1).
  - lia.
  - apply is_byteb. vm_compute. reflexivity.
  - apply (bool_decide_unpack _). vm_compute. exact I.
  - exact demo_sections_ok.
  - exact demo_readable.
  - vm_compute. reflexivity.
  - exact Paging.MemFiles_negative.
  - intros pos n Hp Hn Hl. change (h_read ?f) with (Paging.mf_read f). unfold Paging.mf_read.
    rewrite (proj2 (Z.ltb_ge n 0)) by lia. rewrite lookup_singleton_eq. cbn [default].
    f_equal. apply u8_bytes, Forall_take, Forall_drop, demo_out_bytes.
  - split; [done|reflexivity|reflexivity|cbn; ranges].
  - reflexivity.
  - vm_compute. reflexivity.
  - lia.
  - cbn. lia.
  - cbn. unfold_int. lia.
  - intros d Hd. vm_compute in Hd. injection Hd as <-. cbn. unfold_int. lia.
Defined.

(** What the check on .bss and .sbss does: contiguous sections are refused, sections with a
    gap between them are accepted and described as if there were none. *)
Definition bss_file (paddr : Z) : list Z :=
  coff_header 2 ++ section_header bss 100 20 0 ++ section_header sbss paddr 8 0.

Example adjacent_bss_refused : main 3 (Some (bss_file 120)) true garbage = Some (1, None).
Proof. vm_compute. reflexivity. Qed.

Example apart_bss_accepted :
  match main 3 (Some (bss_file 500)) true garbage with
  | Some (0, Some out) => uninitData (header_of_bytes out) = mkSeg 100 9 28
  | _ => False
  end.
Proof. vm_compute. reflexivity. Qed.

(** When the output file cannot be opened the input is read all the same; the first Write
    ends the program. *)
Example unwritable_output : main 3 (Some demo_file) false garbage = Some (1, None).
Proof. vm_compute. reflexivity. Qed.

End CoffDemo.
