(* ===== verification/Coff2flat.v ===== *)
(** Coff2flat: the converter src/code/bin/coff2flat.c, which turns a COFF executable into a
    flat image of memory.

    It works on the two files of Coff2noff.v, but leaves the output file alone when it gives
    up.  The structures of its system headers (filehdr.h, aouthdr.h, scnhdr.h) are not in the
    repository and are a parameter, [CoffHeaders]; bin/coff.h is an instance. *)
From S2P Require Import Prelude Bitmap Lists Machine AddrSpace Coff2noff.

(** Sizes and members of the structures, and the two magic numbers. *)
Class CoffHeaders : Type := {
  MIPSELMAGIC : Z;
  OMAGIC : Z;
  size_filehdr : Z;
  size_aouthdr : Z;
  size_scnhdr : Z;
  filehdr_at : list Z → Coff.filehdr;
  aouthdr_at : list Z → Coff.aouthdr;
  scnhdr_at : list Z → Coff.scnhdr;
  size_filehdr_pos : 0 < size_filehdr;
  size_aouthdr_pos : 0 < size_aouthdr;
  size_scnhdr_pos : 0 < size_scnhdr;
  f_nscns_unsigned : ∀ bs, 0 ≤ Coff.f_nscns (filehdr_at bs)
}.

Module Flat.
Import Coff(io, mkIO, input, in_pos, writable, output, out_pos, result, Ok, Exit, Unspecified, M, ret, bind, exit,
  seek_in, seek_out, put, scnhdr, s_paddr, s_size, s_scnptr, is_named, bss, sbss, f_magic, f_nscns, magic).
Notation "x <~ m ; k" := (bind m (λ x, k)) (at level 100, m at next level, right associativity).

Definition StackSize : Z := 1024.

Definition Read (nBytes : Z) : M (list Z) := λ s,
  if nBytes <? 0 then Unspecified else
  let buf := take (Z.to_nat nBytes) (drop (Z.to_nat (in_pos s)) (input s)) in
  let s := mkIO (input s) (in_pos s + Z.of_nat (length buf)) (writable s) (output s) (out_pos s) in
  if Z.of_nat (length buf) =? nBytes then Ok buf s else exit 1 s.

Definition Write (buf : list Z) : M () := λ s,
  if writable s then
    Ok () (mkIO (input s) (in_pos s) (writable s)
             ((λ file, put file (Z.to_nat (out_pos s)) buf) <$> output s)
             (out_pos s + Z.of_nat (length buf)))
  else exit 1 s.

Section program.
Context `{!CoffHeaders}.

(** The body of the loop over the sections. *)
Definition load_section (sec : scnhdr) (top : Z) : M Z :=
  let top := if top <? s32 (s_paddr sec + s_size sec) then s32 (s_paddr sec + s_size sec) else top in
  if negb (is_named sec bss) && negb (is_named sec sbss) then
    _ <~ seek_in (s_scnptr sec);
    buffer <~ Read (s_size sec);
    _ <~ Write buffer;
    ret top
  else ret top.

Fixpoint load_sections (secs : list scnhdr) (top : Z) : M Z :=
  match secs with
  | [] => ret top
  | sec :: secs => top <~ load_section sec top; load_sections secs top
  end.

(** The array of section headers. *)
Definition sections_of (n : nat) (bs : list Z) : list scnhdr :=
  (λ i, scnhdr_at (take (Z.to_nat size_scnhdr) (drop (Z.to_nat size_scnhdr * i) bs))) <$> seq 0 n.

(** From the first Read on. *)
Definition convert : M () :=
  fileh <~ Read size_filehdr;
  let fileh := filehdr_at fileh in
  if negb (f_magic fileh =? MIPSELMAGIC) then exit 1
  else
    systemh <~ Read size_aouthdr;
    if negb (magic (aouthdr_at systemh) =? OMAGIC) then exit 1
    else
      buf <~ Read (f_nscns fileh * size_scnhdr);
      top <~ load_sections (sections_of (Z.to_nat (f_nscns fileh)) buf) 0;
      _ <~ seek_out (s32 (s32 (top + StackSize) - 4));
      Write (bytes_of 4 0).

(** main: [infile] is the contents of argv[1], if it can be opened, [writable] whether
    argv[2] can be.  [Ok] is the end of main, which returns no value. *)
Definition main (argc : Z) (infile : option (list Z)) (writable : bool) : result () :=
  let start file output := mkIO file 0 writable output 0 in
  if argc <? 2 then Exit 1 (start [] None)
  else
    match infile with
    | None => Exit 1 (start [] None)
    | Some bs => convert (start bs (if writable then Some [] else None))
    end.

End program.
End Flat.

Module FlatSpec.
Import Coff(io, mkIO, input, in_pos, writable, output, out_pos, result, Ok, Exit, Unspecified, M, ret, bind, exit,
  seek_in, seek_out, put, scnhdr, s_paddr, s_size, s_scnptr, is_named, bss, sbss, f_magic, f_nscns, magic).
Import CoffSpec(data_of, in_file).
Import Flat.

(** The sections that are copied, what is written for them, and the end of the image. *)
Definition copied (sec : scnhdr) : bool := negb (is_named sec bss) && negb (is_named sec sbss).
Definition body_of (file : list Z) (secs : list scnhdr) : list Z := concat (data_of file <$> secs).
Definition end_of (sec : scnhdr) : Z := s_paddr sec + s_size sec.
Definition top_of (secs : list scnhdr) (top : Z) : Z := foldl (λ t sec, Z.max t (end_of sec)) top secs.

(** Sizes, addresses and offsets that are numbers of bytes. *)
Record sound (file : list Z) (sec : scnhdr) : Prop := {
  sd_size : 0 ≤ s_size sec;
  sd_ptr : 0 ≤ s_scnptr sec;
  sd_addr : 0 ≤ s_paddr sec;
  sd_end : end_of sec + 1024 ≤ INT_MAX;
  sd_file : copied sec = true → in_file file sec = true
}.

Lemma data_length file sec :
  0 ≤ s_size sec → 0 ≤ s_scnptr sec → in_file file sec = true →
  Z.of_nat (length (data_of file sec)) = s_size sec.
Proof.
  unfold in_file, data_of. intros Hs Hp Hin. simplify_tests. rewrite length_take, length_drop. lia.
Qed.

Lemma put_end (l bs : list Z) : put l (length l) bs = l ++ bs.
Proof.
  unfold put. destruct bs as [|b bs]; [by rewrite app_nil_r|].
  rewrite Nat.sub_diag, app_nil_r, take_ge by lia. rewrite drop_ge by (cbn; lia). by rewrite app_nil_r.
Qed.

Section program.
Context `{!CoffHeaders}.

Record at_end (file body : list Z) (s : io) : Prop := {
  ae_input : input s = file;
  ae_writable : writable s = true;
  ae_output : output s = Some body;
  ae_pos : out_pos s = Z.of_nat (length body)
}.

Lemma load_section_copies file body sec top s :
  at_end file body s → sound file sec → 0 ≤ top →
  ∃ s', load_section sec top s = Ok (Z.max top (end_of sec)) s' ∧
        at_end file (if copied sec then body ++ data_of file sec else body) s'.
Proof.
  intros [Hi Hw Ho Hp] [Hsz Hptr Hpa Hend Hin] Htop. unfold load_section, end_of in *.
  rewrite s32_id by (unfold_int; lia).
  assert (Hmax : (if top <? s_paddr sec + s_size sec then s_paddr sec + s_size sec else top) =
    Z.max top (s_paddr sec + s_size sec)) by (destruct (Z.ltb_spec top (s_paddr sec + s_size sec)); lia).
  rewrite Hmax. fold (copied sec). destruct (copied sec); [|by exists s].
  specialize (Hin eq_refl). pose proof (data_length file sec Hsz Hptr Hin) as Hlen.
  unfold bind, seek_in, Read. rewrite (proj2 (Z.ltb_ge (s_size sec) 0)), (proj2 (Z.ltb_ge (s_scnptr sec) 0)) by lia.
  cbn [input in_pos]. rewrite Hi. fold (data_of file sec). rewrite Hlen, Z.eqb_refl.
  unfold Write. cbn [writable output out_pos input in_pos]. rewrite Hw. eexists. split; [reflexivity|].
  split; cbn [input writable output out_pos]; [done|done|..].
  - rewrite Ho, Hp, Nat2Z.id. cbn. by rewrite put_end.
  - rewrite Hp, length_app. lia.
Qed.

Lemma load_sections_copies file body secs top s :
  at_end file body s → Forall (sound file) secs → 0 ≤ top →
  ∃ s', load_sections secs top s = Ok (top_of secs top) s' ∧
        at_end file (body ++ body_of file (filter copied secs)) s'.
Proof.
  intros Hs Hall. revert body top s Hs.
  induction Hall as [|sec secs Hsec _ IH]; intros body top s Hs Htop; cbn [load_sections top_of foldl].
  { exists s. split; [done|]. unfold body_of. cbn. by rewrite app_nil_r. }
  destruct (load_section_copies file body sec top s Hs Hsec Htop) as (s1 & H1 & Hs1).
  unfold bind. rewrite H1. destruct (IH _ (Z.max top (end_of sec)) s1 Hs1) as (s2 & H2 & Hs2); [lia|].
  exists s2. split; [exact H2|]. rewrite filter_cons. destruct (copied sec); cbn [Is_true].
  - rewrite decide_True by done. unfold body_of. cbn. by rewrite app_assoc.
  - by rewrite decide_False by (intros []).
Qed.

Lemma top_of_bound secs top file :
  Forall (sound file) secs → 0 ≤ top → top + 1024 ≤ INT_MAX → 0 ≤ top_of secs top ∧ top_of secs top + 1024 ≤ INT_MAX.
Proof.
  intros Hall. revert top. induction Hall as [|sec secs [? ? ? ? ?] _ IH]; intros top H0 Hm; cbn [top_of foldl]; [lia|].
  apply IH; unfold end_of in *; lia.
Qed.

(** The section headers of a file with the right magic numbers. *)
Definition flat_sections (file : list Z) : option (list scnhdr) :=
  let fileh := filehdr_at (take (Z.to_nat size_filehdr) file) in
  let n := f_nscns fileh in
  let headers := size_filehdr + size_aouthdr in
  if (headers + n * size_scnhdr <=? Z.of_nat (length file)) && (f_magic fileh =? MIPSELMAGIC) &&
     (magic (aouthdr_at (take (Z.to_nat size_aouthdr) (drop (Z.to_nat size_filehdr) file))) =? OMAGIC)
  then Some (sections_of (Z.to_nat n) (take (Z.to_nat (n * size_scnhdr)) (drop (Z.to_nat headers) file)))
  else None.

Lemma bind_flat_Read {A} n (k : list Z → M A) s :
  0 ≤ n → 0 ≤ in_pos s → in_pos s + n ≤ Z.of_nat (length (input s)) →
  bind (Read n) k s =
  k (take (Z.to_nat n) (drop (Z.to_nat (in_pos s)) (input s)))
    (mkIO (input s) (in_pos s + n) (writable s) (output s) (out_pos s)).
Proof.
  intros Hn Hp Hl. unfold bind, Read. rewrite (proj2 (Z.ltb_ge n 0)) by lia.
  rewrite (proj2 (Z.eqb_eq _ n)) by (rewrite length_take, length_drop; lia).
  do 2 f_equal. rewrite length_take, length_drop. lia.
Qed.

Lemma convert_writes file secs :
  flat_sections file = Some secs → Forall (sound file) secs →
  ∃ s, convert (mkIO file 0 true (Some []) 0) = Ok () s ∧
       output s = Some (put (body_of file (filter copied secs)) (Z.to_nat (top_of secs 0 + 1020)) [0; 0; 0; 0]).
Proof.
  unfold flat_sections, convert. intros Hf Hall.
  pose proof size_filehdr_pos. pose proof size_aouthdr_pos. pose proof size_scnhdr_pos.
  set (fileh := filehdr_at (take (Z.to_nat size_filehdr) file)) in *. pose proof (f_nscns_unsigned (take (Z.to_nat size_filehdr) file)) as Hn.
  fold fileh in Hn. set (n := f_nscns fileh) in *.
  destruct (_ && _) eqn:E; [|done]. injection Hf as Hsecs. apply andb_true_iff in E as [E Em2].
  apply andb_true_iff in E as [E Em1]. apply Z.leb_le in E.
  assert (0 ≤ n * size_scnhdr) by (apply Z.mul_nonneg_nonneg; lia).
  rewrite bind_flat_Read by (cbn [in_pos input]; lia). cbn [in_pos input writable output out_pos]. rewrite drop_0. fold fileh.
  rewrite Em1. cbn [negb]. rewrite bind_flat_Read by (cbn [in_pos input]; lia).
  cbn [in_pos input writable output out_pos]. rewrite Z.add_0_l, Em2. cbn [negb]. fold n.
  rewrite bind_flat_Read by (cbn [in_pos input]; lia). cbn [in_pos input writable output out_pos]. rewrite Hsecs.
  match goal with |- context [bind (load_sections secs 0) _ ?x] => set (s1 := x) end.
  destruct (load_sections_copies file [] secs 0 s1) as (s2 & Hld & [_ Hw Ho _]); [by split|done|lia|].
  destruct (top_of_bound secs 0 file Hall) as [Ht0 Htm]; [lia|unfold_int; lia|].
  unfold bind at 1. rewrite Hld. unfold bind, seek_out, Write, StackSize. cbn [writable output out_pos].
  rewrite !s32_id by (rewrite ?s32_id; unfold_int; lia). rewrite Hw.
  rewrite (proj2 (Z.ltb_ge _ 0)) by lia.
  eexists. split; [reflexivity|]. cbn [output]. rewrite Ho. cbn [fmap option_fmap option_map app].
  do 2 f_equal. lia.
Qed.

Lemma body_split file pre sec post :
  body_of file (pre ++ sec :: post) = body_of file pre ++ data_of file sec ++ body_of file post.
Proof. unfold body_of. by rewrite fmap_app, fmap_cons, concat_app. Qed.

Lemma put_beyond (l bs : list Z) pos :
  bs ≠ [] → (length l ≤ pos)%nat → put l pos bs = l ++ replicate (pos - length l) 0 ++ bs.
Proof.
  intros Hbs Hl. unfold put. destruct bs as [|b bs]; [done|].
  rewrite take_ge by (rewrite length_app, length_replicate; lia). rewrite drop_ge by (cbn; lia).
  by rewrite app_nil_r, <- app_assoc.
Qed.

(** What coff2flat writes. For an input with the right magic numbers and sections that
    lie in it, the program comes to its end. If what it copies ends before the word it puts
    at the end of the stack, the output is as long as the highest address of a section plus
    the 1024 bytes of stack, a copied section lies where the copied sections before it end,
    and everything behind the last one is 0. So the file is an image of memory exactly if
    each copied section is linked to the address where the one before it ends: nothing moves
    the output to the address of a section. *)
Theorem coff2flat_image file secs :
  flat_sections file = Some secs → Forall (sound file) secs →
  Z.of_nat (length (body_of file (filter copied secs))) ≤ top_of secs 0 + 1020 →
  ∃ s out, main 3 (Some file) true = Ok () s ∧ output s = Some out ∧
    Z.of_nat (length out) = top_of secs 0 + StackSize ∧
    (∀ pre sec post, filter copied secs = pre ++ sec :: post →
       take (Z.to_nat (s_size sec)) (drop (length (body_of file pre)) out) = data_of file sec) ∧
    (∀ k b, (length (body_of file (filter copied secs)) ≤ k)%nat → out !! k = Some b → b = 0).
Proof.
  intros Hf Hall Hlen. destruct (convert_writes file secs Hf Hall) as (s & Hs & Ho).
  destruct (top_of_bound secs 0 file Hall) as [Ht0 Htm]; [lia|unfold_int; lia|].
  rewrite put_beyond in Ho by (done || lia). exists s. eexists. split; [exact Hs|]. split; [exact Ho|].
  split; [rewrite !length_app, length_replicate; unfold StackSize; cbn; lia|]. split.
  - intros pre sec post Hsplit. rewrite Hsplit, body_split, <- !app_assoc, drop_app_length.
    assert (Hin : sec ∈ filter copied secs) by (rewrite Hsplit; apply elem_of_app; right; apply list_elem_of_here).
    apply list_elem_of_filter in Hin as [Hc Hin]. pose proof (proj1 (list.Forall_forall _ _) Hall sec Hin) as [? ? _ _ Hfile].
    pose proof (data_length file sec) as Hd. specialize (Hd ltac:(done) ltac:(done) (Hfile (Is_true_eq_true _ Hc))).
    apply take_app_length'. lia.
  - intros k b Hk Hb. rewrite lookup_app_r in Hb by done.
    assert (Hz : Forall (λ b, b = 0) (replicate (Z.to_nat (top_of secs 0 + 1020) - length (body_of file (filter copied secs))) 0 ++ [0; 0; 0; 0])).
    { apply Forall_app. split; [by apply Forall_replicate|by repeat constructor]. }
    exact (Forall_lookup_1 _ _ _ _ Hz Hb).
Qed.

End program.
End FlatSpec.

(** * The layout of bin/coff.h *)
Module FlatDemo.
Import Coff(io, output, result, Ok, scnhdr, mkScnhdr, text, data, bss).
Import Flat FlatSpec.

#[local] Instance coff_h : CoffHeaders.
Proof.
  refine {| MIPSELMAGIC := Coff.MIPSELMAGIC; OMAGIC := Coff.OMAGIC; size_filehdr := Coff.sizeof_filehdr;
    size_aouthdr := Coff.sizeof_aouthdr; size_scnhdr := Coff.sizeof_scnhdr;
    filehdr_at bs := Coff.mkFilehdr (Coff.word_at bs 0 2) (Z.abs (Coff.word_at bs 2 2));
    aouthdr_at := Coff.aouthdr_of; scnhdr_at := Coff.scnhdr_of |}; try done.
  intros bs. cbn. lia.
Defined.

Definition section (name : list Z) (paddr size scnptr : Z) : list Z :=
  name ++ replicate (8 - length name) 0 ++ bytes_of 4 paddr ++ bytes_of 4 paddr ++ bytes_of 4 size ++ bytes_of 4 scnptr ++
  replicate 16 0.

(** Four bytes of text, then data at [where_data], and a bss section. *)
Definition file (where_data : Z) : list Z :=
  [98; 1; 3; 0] ++ replicate 16 0 ++ [7; 1] ++ replicate 54 0 ++
  section text 0 4 196 ++ section data where_data 2 200 ++ section bss (where_data + 2) 8 0 ++ [1; 2; 3; 4; 5; 6].

Definition sections (where_data : Z) : list scnhdr := default [] (flat_sections (file where_data)).

Lemma sections_sound a : a = 4 ∨ a = 256 → Forall (sound (file a)) (sections a).
Proof. by intros [-> | ->]; repeat constructor. Qed.

Lemma coff2flat_image_witness :
  ∃ s out, main 3 (Some (file 4)) true = Ok () s ∧ output s = Some out ∧ length out = 1038%nat ∧
    take 2 (drop 4 out) = [5; 6].
Proof.
  destruct (coff2flat_image (file 4) (sections 4)) as (s & out & Hm & Ho & Hl & Hd & _).
  - vm_compute. reflexivity.
  - apply sections_sound. by left.
  - by vm_compute.
  - exists s, out. split; [exact Hm|]. split; [exact Ho|]. split.
    + apply Nat2Z.inj. rewrite Hl. vm_compute. reflexivity.
    + exact (Hd [mkScnhdr (text ++ [0; 0; 0]) 0 4 196] (mkScnhdr (data ++ [0; 0; 0]) 4 2 200) [] eq_refl).
Defined.

(** Linked to address 256, the data are at address 4 of the image all the same. *)
Lemma gap_is_lost :
  ∃ s out, main 3 (Some (file 256)) true = Ok () s ∧ output s = Some out ∧
    take 6 out = [1; 2; 3; 4; 5; 6] ∧ take 2 (drop 256 out) = [0; 0].
Proof. do 2 eexists. vm_compute. by split_and!. Qed.

End FlatDemo.
