(* ===== verification/Interrupt.v ===== *)
(** Interrupt: simulated time and hardware interrupts, src/code/machine/
    interrupt.{h,cc}, stats.{h,cc} and timer.{h,cc}.

    A handler is a value of a type [H] (the function pointer with its argument);
    what calling it does to the rest of the system is the parameter [call].  The
    rest of the system, [D], is a parameter too, and so is the machine's
    [DelayedLoad(0, 0)].  The pending list is used through the interface of
    Lists.v.  The debug output is left out.  The part of [OneTick] and [SetLevel]
    after the handlers have run may switch threads; it is in Threads.v. *)

From S2P Require Import Prelude Lists Machine.

(** * Statistics *)
Module Statistics.

Definition UserTick : Z := 1.
Definition SystemTick : Z := 10.
Definition RotationTime : Z := 500.
Definition SeekTime : Z := 500.
Definition ConsoleTime : Z := 100.
Definition NetworkTime : Z := 100.
Definition TimerTicks : Z := 100.

Record t : Type := mk {
  totalTicks : Z;
  idleTicks : Z;
  systemTicks : Z;
  userTicks : Z;
  numDiskReads : Z;
  numDiskWrites : Z;
  numConsoleCharsRead : Z;
  numConsoleCharsWritten : Z;
  numPageFaults : Z;
  numPacketsSent : Z;
  numPacketsRecvd : Z
}.

Definition Statistics : t := mk 0 0 0 0 0 0 0 0 0 0 0.

(** [++] and [+=] on the members. *)
Definition system_tick (s : t) : t :=
  mk (s32 (totalTicks s + SystemTick)) (idleTicks s) (s32 (systemTicks s + SystemTick)) (userTicks s)
     (numDiskReads s) (numDiskWrites s) (numConsoleCharsRead s) (numConsoleCharsWritten s)
     (numPageFaults s) (numPacketsSent s) (numPacketsRecvd s).
Definition user_tick (s : t) : t :=
  mk (s32 (totalTicks s + UserTick)) (idleTicks s) (systemTicks s) (s32 (userTicks s + UserTick))
     (numDiskReads s) (numDiskWrites s) (numConsoleCharsRead s) (numConsoleCharsWritten s)
     (numPageFaults s) (numPacketsSent s) (numPacketsRecvd s).
Definition advance_to (when : Z) (s : t) : t :=
  mk when (s32 (idleTicks s + s32 (when - totalTicks s))) (systemTicks s) (userTicks s)
     (numDiskReads s) (numDiskWrites s) (numConsoleCharsRead s) (numConsoleCharsWritten s)
     (numPageFaults s) (numPacketsSent s) (numPacketsRecvd s).
Definition disk_read (s : t) : t :=
  mk (totalTicks s) (idleTicks s) (systemTicks s) (userTicks s)
     (s32 (numDiskReads s + 1)) (numDiskWrites s) (numConsoleCharsRead s) (numConsoleCharsWritten s)
     (numPageFaults s) (numPacketsSent s) (numPacketsRecvd s).
Definition disk_write (s : t) : t :=
  mk (totalTicks s) (idleTicks s) (systemTicks s) (userTicks s)
     (numDiskReads s) (s32 (numDiskWrites s + 1)) (numConsoleCharsRead s) (numConsoleCharsWritten s)
     (numPageFaults s) (numPacketsSent s) (numPacketsRecvd s).
Definition char_read (s : t) : t :=
  mk (totalTicks s) (idleTicks s) (systemTicks s) (userTicks s)
     (numDiskReads s) (numDiskWrites s) (s32 (numConsoleCharsRead s + 1)) (numConsoleCharsWritten s)
     (numPageFaults s) (numPacketsSent s) (numPacketsRecvd s).
Definition char_written (s : t) : t :=
  mk (totalTicks s) (idleTicks s) (systemTicks s) (userTicks s)
     (numDiskReads s) (numDiskWrites s) (numConsoleCharsRead s) (s32 (numConsoleCharsWritten s + 1))
     (numPageFaults s) (numPacketsSent s) (numPacketsRecvd s).
Definition packet_sent (s : t) : t :=
  mk (totalTicks s) (idleTicks s) (systemTicks s) (userTicks s)
     (numDiskReads s) (numDiskWrites s) (numConsoleCharsRead s) (numConsoleCharsWritten s)
     (numPageFaults s) (s32 (numPacketsSent s + 1)) (numPacketsRecvd s).
Definition packet_recvd (s : t) : t :=
  mk (totalTicks s) (idleTicks s) (systemTicks s) (userTicks s)
     (numDiskReads s) (numDiskWrites s) (numConsoleCharsRead s) (numConsoleCharsWritten s)
     (numPageFaults s) (numPacketsSent s) (s32 (numPacketsRecvd s + 1)).

(** Every tick of simulated time is an idle, a system or a user tick. *)
Definition accounted (s : t) : Prop :=
  is_s32 (totalTicks s) ∧ is_s32 (idleTicks s) ∧ is_s32 (systemTicks s) ∧ is_s32 (userTicks s) ∧
  totalTicks s = s32 (idleTicks s + systemTicks s + userTicks s).

Lemma system_tick_accounted s : accounted s → accounted (system_tick s).
Proof. unfold accounted, system_tick, SystemTick. simpl. intros. split_and!; int_lia. Qed.
Lemma user_tick_accounted s : accounted s → accounted (user_tick s).
Proof. unfold accounted, user_tick, UserTick. simpl. intros. split_and!; int_lia. Qed.
Lemma advance_to_accounted w s : is_s32 w → accounted s → accounted (advance_to w s).
Proof. unfold accounted, advance_to. simpl. intros. split_and!; int_lia. Qed.

End Statistics.

(** * The interrupt simulation *)
Module Interrupt.
Import Machine.

Inductive IntStatus : Type := IntOff | IntOn.
Inductive IntType : Type :=
| TimerInt | DiskInt | ConsoleWriteInt | ConsoleReadInt | NetworkSendInt | NetworkRecvInt.

#[export] Instance IntStatus_eq_dec : EqDecision IntStatus.
Proof. solve_decision. Defined.
#[export] Instance IntType_eq_dec : EqDecision IntType.
Proof. solve_decision. Defined.
#[export] Instance MachineStatus_eq_dec : EqDecision MachineStatus.
Proof. solve_decision. Defined.

(** A function pointer with its argument is one value of [H]. *)
Record PendingInterrupt (H : Type) : Type := mkPI {
  handler : H;
  when : Z;
  type : IntType
}.
Arguments mkPI {H}.
Arguments handler {H}.
Arguments when {H}.
Arguments type {H}.

Record t (H : Type) : Type := mk {
  level : IntStatus;
  pending : Queue.queue (PendingInterrupt H);
  inHandler : bool;
  yieldOnReturn : bool;
  status : MachineStatus
}.
Arguments mk {H}.
Arguments level {H}.
Arguments pending {H}.
Arguments inHandler {H}.
Arguments yieldOnReturn {H}.
Arguments status {H}.

(** The interrupt hardware, the statistics and the rest of the system. *)
Record sys (H D : Type) : Type := mkSys {
  intr : t H;
  stats : Statistics.t;
  dev : D
}.
Arguments mkSys {H D}.
Arguments intr {H D}.
Arguments stats {H D}.
Arguments dev {H D}.

Section setters.
Context {H D : Type}.
Implicit Types s : sys H D.

Definition set_intr s i : sys H D := mkSys i (stats s) (dev s).
Definition set_stats s x : sys H D := mkSys (intr s) x (dev s).
Definition set_dev s d : sys H D := mkSys (intr s) (stats s) d.
Definition set_level s l : sys H D :=
  let i := intr s in set_intr s (mk l (pending i) (inHandler i) (yieldOnReturn i) (status i)).
Definition set_pending s p : sys H D :=
  let i := intr s in set_intr s (mk (level i) p (inHandler i) (yieldOnReturn i) (status i)).
Definition set_inHandler s b : sys H D :=
  let i := intr s in set_intr s (mk (level i) (pending i) b (yieldOnReturn i) (status i)).
Definition set_yieldOnReturn s b : sys H D :=
  let i := intr s in set_intr s (mk (level i) (pending i) (inHandler i) b (status i)).
Definition setStatus s st : sys H D :=
  let i := intr s in set_intr s (mk (level i) (pending i) (inHandler i) (yieldOnReturn i) st).

End setters.

Definition Interrupt {H} : t H := mk IntOff Queue.empty false false SystemMode.

Section ops.
Context {H D : Type}.
Context (call : H → sys H D → res (sys H D)).
Context (machine_DelayedLoad : D → res D).
Implicit Types s : sys H D.

Definition totalTicks s : Z := Statistics.totalTicks (stats s).
Definition items s : list (Z * PendingInterrupt H) := Queue.items (pending (intr s)).

Definition ChangeLevel (now : IntStatus) s : sys H D := set_level s now.

(** [SetLevel] up to the call of [OneTick]: the state, the old level, and whether
    [OneTick] is to be called. *)
Definition SetLevel_enter (now : IntStatus) s : res (sys H D * IntStatus * bool) :=
  let old := level (intr s) in
  ASSERT (bool_decide (now = IntOff) || bool_decide (inHandler (intr s) = false));;
  let s := ChangeLevel now s in
  Done (s, old, bool_decide (now = IntOn) && bool_decide (old = IntOff)).

Definition YieldOnReturn s : res (sys H D) :=
  ASSERT (inHandler (intr s));;
  Done (set_yieldOnReturn s true).

Definition Schedule (h : H) (fromNow : Z) (ty : IntType) s : res (sys H D) :=
  let w := s32 (totalTicks s + fromNow) in
  ASSERT (0 <? fromNow);;
  Done (set_pending s (Queue.SortedInsert (mkPI h w ty) w (pending (intr s)))).

(** The calls around the handler of an interrupt that has come. *)
Definition invoke (p : PendingInterrupt H) s : res (sys H D) :=
  let old := status (intr s) in
  d ← machine_DelayedLoad (dev s);
  let s := set_dev s d in
  let s := set_inHandler s true in
  let s := setStatus s SystemMode in
  s ← call (handler p) s;
  let s := setStatus s old in
  Done (set_inHandler s false).

Definition CheckIfDue (advanceClock : bool) s : res (bool * sys H D) :=
  ASSERT (bool_decide (level (intr s) = IntOff));;
  match Queue.SortedRemove (pending (intr s)) with
  | (None, _) => Done (false, s)
  | (Some (w, toOccur), rest) =>
      let put_back := λ s, set_pending s (Queue.SortedInsert toOccur w (pending (intr s))) in
      let s := set_pending s rest in
      if negb advanceClock && (totalTicks s <? w) then Done (false, put_back s) else
      let s := if advanceClock && (totalTicks s <? w)
               then set_stats s (Statistics.advance_to w (stats s)) else s in
      if bool_decide (status (intr s) = IdleMode) && bool_decide (type toOccur = TimerInt)
         && Queue.IsEmpty (pending (intr s))
      then Done (false, put_back s) else
      s ← invoke toOccur s;
      Done (true, s)
  end.

(** [while (CheckIfDue(FALSE)) ;] *)
Fixpoint fire_loop (fuel : nat) s : res (sys H D) :=
  match fuel with
  | O => Fuel
  | S fuel =>
      '(fired, s) ← CheckIfDue false s;
      if fired : bool then fire_loop fuel s else Done s
  end.

(** Fuel: a loop iteration fires one of the interrupts that are due now, and
    handlers only add interrupts for later. *)
Definition fire_fuel s : nat := S (length (items s)).

(** [OneTick] up to the test of [yieldOnReturn]. *)
Definition OneTick_enter s : res (sys H D) :=
  let s := set_stats s
    (match status (intr s) with
     | SystemMode => Statistics.system_tick (stats s)
     | _ => Statistics.user_tick (stats s)
     end) in
  let s := ChangeLevel IntOff s in
  s ← fire_loop (fire_fuel s) s;
  Done (ChangeLevel IntOn s).

(** [None]: there was nothing to wait for, and the machine halts. *)
Definition Idle s : res (option (sys H D)) :=
  let s := setStatus s IdleMode in
  '(fired, s) ← CheckIfDue true s;
  if fired : bool then
    s ← fire_loop (fire_fuel s) s;
    let s := set_yieldOnReturn s false in
    Done (Some (setStatus s SystemMode))
  else Done None.

End ops.
End Interrupt.

(** * What the interrupt hardware relies on of the device handlers

    A handler runs with interrupts off.  It returns, leaves the clock and the
    interrupt level alone, and changes the pending list only by scheduling
    interrupts for later.  [h_inv] is what the handlers need of the rest of the
    system, [h_delay] the longest delay they schedule with. *)
Section quiet.
Import Interrupt.
Context {H D : Type}.
Implicit Types s : sys H D.

Definition due (now : Z) : Z * PendingInterrupt H → Prop := λ p, p.1 ≤ now.

#[export] Instance due_dec now p : Decision (due now p).
Proof. unfold due. apply _. Defined.

Definition same_clock (a b : Statistics.t) : Prop :=
  Statistics.totalTicks a = Statistics.totalTicks b ∧
  Statistics.idleTicks a = Statistics.idleTicks b ∧
  Statistics.systemTicks a = Statistics.systemTicks b ∧
  Statistics.userTicks a = Statistics.userTicks b.

Record quiet s s' : Prop := {
  q_level : level (intr s') = level (intr s);
  q_inHandler : inHandler (intr s') = inHandler (intr s);
  q_status : status (intr s') = status (intr s);
  q_clock : same_clock (stats s') (stats s);
  q_sorted : Queue.sorted (items s) → Queue.sorted (items s');
  q_due : Queue.sorted (items s) →
          filter (due (totalTicks s)) (items s') = filter (due (totalTicks s)) (items s);
  q_grows : ∀ p, p ∈ items s → p ∈ items s'
}.

Lemma quiet_refl s : quiet s s.
Proof. by split. Qed.

Lemma quiet_now s s' : quiet s s' → totalTicks s' = totalTicks s.
Proof. intros Hq. apply (q_clock _ _ Hq). Qed.

Lemma quiet_trans s1 s2 s3 : quiet s1 s2 → quiet s2 s3 → quiet s1 s3.
Proof.
  intros H12 H23. pose proof (quiet_now _ _ H12) as Hn. destruct H12, H23. split.
  - congruence.
  - congruence.
  - congruence.
  - unfold same_clock in *. intuition congruence.
  - auto.
  - intros Hs. rewrite <- q_due0, <- Hn by done. auto.
  - auto.
Qed.

Lemma filter_insert_sorted (P : Z * PendingInterrupt H → Prop)
    `{!∀ p, Decision (P p)} k x xs :
  ¬ P (k, x) → filter P (Queue.insert_sorted k x xs) = filter P xs.
Proof.
  intros HP. induction xs as [|[k' x'] xs IH]; simpl.
  - by rewrite filter_cons, decide_False.
  - destruct (k <? k').
    + by rewrite (filter_cons _ (k, x)), decide_False by done.
    + rewrite !filter_cons, IH. done.
Qed.

(** [Schedule] is what makes a handler quiet: the new interrupt is in the future. *)
Lemma Schedule_quiet h fromNow ty s :
  0 < fromNow → 0 ≤ totalTicks s → totalTicks s + fromNow ≤ INT_MAX →
  ∃ s', Schedule h fromNow ty s = Done s' ∧ quiet s s' ∧ dev s' = dev s ∧
        stats s' = stats s ∧ yieldOnReturn (intr s') = yieldOnReturn (intr s) ∧
        items s' = Queue.insert_sorted (totalTicks s + fromNow)
                     (mkPI h (totalTicks s + fromNow) ty) (items s).
Proof.
  intros Hf Hn Hmax. unfold Schedule. rewrite bind_ASSERT by lia.
  rewrite s32_id by int_lia. eexists. split; [done|].
  split_and!; [|done..]. split; simpl; try done.
  - intros Hs. by apply Queue.insert_sorted_sorted.
  - intros Hs. unfold items. simpl. apply filter_insert_sorted. unfold due. simpl. lia.
  - intros p Hp. unfold items. simpl. rewrite Queue.insert_sorted_perm. set_solver.
Qed.

End quiet.

Class Handlers {H D : Type} (call : H → Interrupt.sys H D → res (Interrupt.sys H D))
    (machine_DelayedLoad : D → res D) : Type := {
  h_inv : D → Prop;
  h_delay : Z;
  h_delay_nonneg : 0 ≤ h_delay;
  h_load : ∀ d, h_inv d → ∃ d', machine_DelayedLoad d = Done d' ∧ h_inv d';
  h_call : ∀ h s, h_inv (Interrupt.dev s) →
    Interrupt.level (Interrupt.intr s) = Interrupt.IntOff →
    Interrupt.inHandler (Interrupt.intr s) = true →
    0 ≤ Interrupt.totalTicks s → Interrupt.totalTicks s + h_delay ≤ INT_MAX →
    ∃ s', call h s = Done s' ∧ quiet s s' ∧ h_inv (Interrupt.dev s')
}.

Module InterruptSpec.
Import Interrupt Machine.

Section with_handlers.
Context {H D : Type} (call : H → sys H D → res (sys H D)) (dl : D → res D).
Context `{!Handlers call dl}.
Implicit Types s : sys H D.

(** Between two instructions: no handler is running and the clock has not run
    out of its 31 bits. *)
Record ready s : Prop := {
  rd_level : level (intr s) = IntOff;
  rd_inHandler : inHandler (intr s) = false;
  rd_inv : h_inv (dev s);
  rd_sorted : Queue.sorted (items s);
  rd_low : 0 ≤ totalTicks s;
  rd_high : totalTicks s + h_delay ≤ INT_MAX
}.

Lemma invoke_spec p s :
  ready s →
  ∃ s', invoke call dl p s = Done s' ∧ ready s' ∧ quiet s s' ∧
        status (intr s') = status (intr s).
Proof.
  intros [Hl Hi Hinv Hs Hlo Hhi]. unfold invoke.
  destruct (h_load _ Hinv) as (d & -> & Hd). cbn [mbind res_bind].
  set (s1 := setStatus _ SystemMode).
  destruct (h_call (handler p) s1) as (s2 & -> & Hq & Hinv2); try done.
  cbn [mbind res_bind]. pose proof (quiet_now _ _ Hq) as Hn. destruct Hq.
  exists (set_inHandler (setStatus s2 (status (intr s))) false).
  split_and!; [done| | |done].
  - split; try done.
    + simpl. by rewrite q_level0.
    + by apply q_sorted0.
    + rewrite <- (Hn : totalTicks s2 = totalTicks s) in Hlo. exact Hlo.
    + rewrite <- (Hn : totalTicks s2 = totalTicks s) in Hhi. exact Hhi.
  - split; try done.
Qed.

(** What the loop is to do: the handlers of the given interrupts, each taken off
    the front of the pending list, in this order. *)
Fixpoint fire_seq (ps : list (PendingInterrupt H)) s : res (sys H D) :=
  match ps with
  | [] => Done s
  | p :: ps =>
      s ← invoke call dl p (set_pending s (snd (Queue.SortedRemove (pending (intr s)))));
      fire_seq ps s
  end.

Definition due_now s : list (PendingInterrupt H) :=
  snd <$> filter (due (totalTicks s)) (items s).

(** States that differ in the order of the pending interrupts of one time. *)
Record same_but_order s s' : Prop := {
  so_level : level (intr s') = level (intr s);
  so_inHandler : inHandler (intr s') = inHandler (intr s);
  so_yield : yieldOnReturn (intr s') = yieldOnReturn (intr s);
  so_status : status (intr s') = status (intr s);
  so_stats : stats s' = stats s;
  so_dev : dev s' = dev s;
  so_items : items s' ≡ₚ items s
}.

Lemma sorted_cons_inv kx (xs : list (Z * PendingInterrupt H)) :
  Queue.sorted (kx :: xs) → Queue.sorted xs ∧ ∀ p, p ∈ xs → kx.1 ≤ p.1.
Proof.
  unfold Queue.sorted. intros Hs. apply Sorted_StronglySorted in Hs; [|apply _].
  simpl in Hs. inversion Hs as [|? ? Hs' Hall]; subst. split.
  - by apply StronglySorted_Sorted.
  - intros p Hp. rewrite list.Forall_forall in Hall. apply Hall.
    apply list_elem_of_fmap. by exists p.
Qed.

Lemma none_due_before now kx (xs : list (Z * PendingInterrupt H)) :
  Queue.sorted (kx :: xs) → now < kx.1 → filter (due now) (kx :: xs) = [].
Proof.
  intros Hs Hk. apply sorted_cons_inv in Hs as [_ Hle].
  apply filter_none. intros p [->|Hp]%elem_of_cons; unfold due; [lia|].
  specialize (Hle p Hp). lia.
Qed.

Lemma fire_seq_ready ps s :
  ready s → ∃ s', fire_seq ps s = Done s' ∧ ready s' ∧ totalTicks s' = totalTicks s ∧
                  status (intr s') = status (intr s) ∧ same_clock (stats s') (stats s).
Proof.
  revert s. induction ps as [|p ps IH]; intros s Hr; cbn [fire_seq].
  - exists s. by split_and!.
  - set (s0 := set_pending s _).
    assert (Hr0 : ready s0).
    { destruct Hr. split; try done. unfold s0, items, Queue.SortedRemove in *.
      destruct (pending (intr s)) as [[|kx xs] n]; simpl; [done|].
      by apply sorted_cons_inv in rd_sorted0 as [? _]. }
    destruct (invoke_spec p s0 Hr0) as (s1 & -> & Hr1 & Hq & Hst). cbn [mbind res_bind].
    destruct (IH s1 Hr1) as (s2 & -> & Hr2 & Ht & Hst2 & Hc). exists s2.
    split_and!; try done.
    + rewrite Ht. by apply quiet_now in Hq.
    + by rewrite Hst2.
    + destruct Hq as [_ _ _ Hc' _ _ _]. unfold same_clock in *. simpl in Hc'.
      intuition congruence.
Qed.

(** The branches of [CheckIfDue]. *)
Lemma CheckIfDue_empty b s :
  level (intr s) = IntOff → items s = [] → CheckIfDue call dl b s = Done (false, s).
Proof.
  unfold CheckIfDue, items, Queue.SortedRemove. intros Hl Hp.
  rewrite bind_ASSERT by (by rewrite bool_decide_true). by rewrite Hp.
Qed.

Lemma CheckIfDue_later s w p xs n :
  level (intr s) = IntOff → pending (intr s) = Queue.mkQ ((w, p) :: xs) n →
  totalTicks s < w →
  CheckIfDue call dl false s =
  Done (false, set_pending s (Queue.SortedInsert p w (Queue.mkQ xs n))).
Proof.
  unfold CheckIfDue, Queue.SortedRemove. intros Hl Hp Hw.
  rewrite bind_ASSERT by (by rewrite bool_decide_true). rewrite Hp. simpl.
  by rewrite (proj2 (Z.ltb_lt (totalTicks (set_pending _ _)) w)) by exact Hw.
Qed.

Lemma CheckIfDue_fires s w p xs n :
  level (intr s) = IntOff → pending (intr s) = Queue.mkQ ((w, p) :: xs) n →
  w ≤ totalTicks s → ¬ (status (intr s) = IdleMode ∧ type p = TimerInt ∧ xs = []) →
  CheckIfDue call dl false s =
  (s ← invoke call dl p (set_pending s (Queue.mkQ xs n)); Done (true, s)).
Proof.
  unfold CheckIfDue, Queue.SortedRemove. intros Hl Hp Hw Hne.
  rewrite bind_ASSERT by (by rewrite bool_decide_true). rewrite Hp. simpl.
  rewrite (proj2 (Z.ltb_ge (totalTicks (set_pending _ _)) w)) by exact Hw.
  repeat case_bool_decide; try done. destruct xs; [|done]. naive_solver.
Qed.

Lemma CheckIfDue_lone_timer s w p n :
  level (intr s) = IntOff → pending (intr s) = Queue.mkQ [(w, p)] n →
  w ≤ totalTicks s → status (intr s) = IdleMode → type p = TimerInt →
  CheckIfDue call dl false s = Done (false, set_pending s (Queue.mkQ [(w, p)] n)).
Proof.
  unfold CheckIfDue, Queue.SortedRemove. intros Hl Hp Hw Hst Ht.
  rewrite bind_ASSERT by (by rewrite bool_decide_true). rewrite Hp. simpl.
  rewrite (proj2 (Z.ltb_ge (totalTicks (set_pending _ _)) w)) by exact Hw.
  by rewrite !bool_decide_true.
Qed.

(** The clock once [CheckIfDue(TRUE)] has advanced it to an interrupt at [w]. *)
Definition waited (w : Z) s : sys H D :=
  if totalTicks s <? w then set_stats s (Statistics.advance_to w (stats s)) else s.

Lemma CheckIfDue_waits s w p xs n :
  level (intr s) = IntOff → pending (intr s) = Queue.mkQ ((w, p) :: xs) n →
  ¬ (type p = TimerInt ∧ xs = []) →
  CheckIfDue call dl true s =
  (s ← invoke call dl p (waited w (set_pending s (Queue.mkQ xs n))); Done (true, s)).
Proof.
  unfold CheckIfDue, Queue.SortedRemove. intros Hl Hp Hne.
  rewrite bind_ASSERT by (by rewrite bool_decide_true). rewrite Hp. cbn [Queue.items negb andb].
  cbn zeta. fold (waited w (set_pending s (Queue.mkQ xs n))).
  replace (Queue.size _) with n by done.
  replace (_ && Queue.IsEmpty _) with false; [done|].
  symmetry. apply not_true_iff_false. intros [[? Ht]%andb_true_iff He]%andb_true_iff.
  apply bool_decide_eq_true in Ht. apply Hne. split; [done|].
  unfold waited in He. destruct (_ <? _), xs; done.
Qed.

Lemma CheckIfDue_only_timer s w p n :
  level (intr s) = IntOff → pending (intr s) = Queue.mkQ [(w, p)] n →
  type p = TimerInt → status (intr s) = IdleMode →
  ∃ s', CheckIfDue call dl true s = Done (false, s').
Proof.
  unfold CheckIfDue, Queue.SortedRemove. intros Hl Hp Ht Hst.
  rewrite bind_ASSERT by (by rewrite bool_decide_true). rewrite Hp. cbn [Queue.items negb andb].
  cbn zeta. rewrite (bool_decide_true (type p = _)) by done.
  destruct (_ <? _); rewrite bool_decide_true by done; simpl; eauto.
Qed.

Lemma fire_loop_spec fuel s :
  ready s → status (intr s) ≠ IdleMode →
  (length (filter (due (totalTicks s)) (items s)) < fuel)%nat →
  ∃ s1 s2, fire_seq (due_now s) s = Done s1 ∧ fire_loop call dl fuel s = Done s2 ∧
           same_but_order s1 s2 ∧ Queue.sorted (items s2) ∧ due_now s2 = [].
Proof.
  revert s. induction fuel as [|fuel IH]; intros s Hr Hst Hf; [lia|].
  cbn [fire_loop]. unfold due_now, items in *.
  pose proof (rd_sorted s Hr) as Hs. unfold items in Hs.
  destruct (pending (intr s)) as [[|[w p] xs] n] eqn:Hp; cbn [Queue.items] in *.
  - rewrite CheckIfDue_empty by (apply Hr || unfold items; by rewrite Hp).
    exists s, s. rewrite Hp. by split_and!.
  - destruct (sorted_cons_inv _ _ Hs) as [Hsx Hle]. simpl in Hle.
    destruct (decide (totalTicks s < w)) as [Hw|Hw].
    + rewrite (CheckIfDue_later _ _ _ _ _ (rd_level _ Hr) Hp Hw).
      rewrite none_due_before in * by done. cbn [mbind res_bind].
      eexists s, _. split; [done|]. split; [done|]. split_and!.
      * split; try done. unfold items. simpl. rewrite Hp. apply Queue.insert_sorted_perm.
      * by apply Queue.insert_sorted_sorted.
      * simpl. change (totalTicks _) with (totalTicks s).
        rewrite filter_insert_sorted by (unfold due; simpl; lia).
        rewrite filter_none; [done|]. intros q Hq. specialize (Hle q Hq). unfold due. lia.
    + rewrite (CheckIfDue_fires _ _ _ _ _ (rd_level _ Hr) Hp) by (lia || naive_solver).
      set (s0 := set_pending s (Queue.mkQ xs n)).
      assert (Hr0 : ready s0) by (destruct Hr; split; done).
      destruct (invoke_spec p s0 Hr0) as (s1 & Hinv & Hr1 & Hq & Hst1).
      rewrite filter_cons, decide_True in * by (unfold due; simpl; lia).
      cbn [length fmap list_fmap fire_seq snd] in *.
      unfold Queue.SortedRemove. rewrite Hp. cbn [Queue.items snd Queue.size]. fold s0.
      rewrite Hinv. cbn [mbind res_bind].
      pose proof (q_due _ _ Hq Hsx) as Hd. unfold items in Hd. simpl in Hd.
      pose proof (quiet_now _ _ Hq) as Hn.
      change (totalTicks s0) with (totalTicks s) in *.
      rewrite <- Hd, <- Hn. apply IH; [done|by rewrite Hst1|].
      rewrite Hn, Hd. lia.
Qed.

(** The state in which [OneTick] looks for interrupts. *)
Definition ticked s : sys H D :=
  ChangeLevel IntOff
    (set_stats s (match status (intr s) with
                  | SystemMode => Statistics.system_tick (stats s)
                  | _ => Statistics.user_tick (stats s)
                  end)).

Lemma same_clock_accounted a b :
  same_clock a b → Statistics.accounted b → Statistics.accounted a.
Proof. unfold same_clock, Statistics.accounted. intros (-> & -> & -> & ->). done. Qed.

Lemma same_clock_now s s' : same_clock (stats s) (stats s') → totalTicks s = totalTicks s'.
Proof. by intros (? & _). Qed.

Lemma fire_fuel_enough s :
  (length (filter (due (totalTicks s)) (items s)) < fire_fuel s)%nat.
Proof. unfold fire_fuel. pose proof (length_filter (due (totalTicks s)) (items s)). lia. Qed.

Lemma ticked_accounted s :
  Statistics.accounted (stats s) → Statistics.accounted (stats (ticked s)).
Proof.
  intros Ha. unfold ticked. simpl.
  destruct (status _); auto using Statistics.system_tick_accounted, Statistics.user_tick_accounted.
Qed.

(** [OneTick] invokes exactly the handlers that are due at the new time, each
    once and in order of time (interrupts for one time in the order in which they
    are pending), and returns with interrupts on and nothing due left; every tick
    stays accounted for. *)
Theorem OneTick_fires_due s :
  ready (ticked s) → status (intr s) ≠ IdleMode → Statistics.accounted (stats s) →
  ∃ s1 s', fire_seq (due_now (ticked s)) (ticked s) = Done s1 ∧
           OneTick_enter call dl s = Done s' ∧
           same_but_order (ChangeLevel IntOn s1) s' ∧
           due_now s' = [] ∧ Queue.sorted (items s') ∧
           totalTicks s' = totalTicks (ticked s) ∧ Statistics.accounted (stats s').
Proof.
  intros Hr Hst Ha. unfold OneTick_enter. fold (ticked s).
  destruct (fire_loop_spec (fire_fuel (ticked s)) (ticked s)) as (s1 & s2 & Hf & -> & Hso & Hs & Hd);
    try done.
  { apply fire_fuel_enough. }
  destruct (fire_seq_ready (due_now (ticked s)) _ Hr) as (s1' & Hf' & _ & Ht & _ & Hc).
  assert (s1' = s1) as -> by congruence. clear Hf'.
  exists s1, (ChangeLevel IntOn s2). pose proof (so_stats _ _ Hso) as Hst2.
  split_and!; try done.
  - destruct Hso. by split.
  - unfold totalTicks in *. simpl. by rewrite Hst2.
  - simpl. rewrite Hst2. eapply same_clock_accounted; [done|]. by apply ticked_accounted.
Qed.

Lemma waited_ready w s :
  ready s → w + h_delay ≤ INT_MAX → Statistics.accounted (stats s) →
  ready (waited w s) ∧ totalTicks (waited w s) = Z.max (totalTicks s) w ∧
  Statistics.accounted (stats (waited w s)).
Proof.
  intros Hr Hw Ha. pose proof (rd_low _ Hr). pose proof h_delay_nonneg. unfold waited.
  destruct (totalTicks s <? w) eqn:E; simplify_tests; [|by split_and!; try lia].
  split_and!.
  - destruct Hr. split; try done. unfold totalTicks. simpl. lia.
  - unfold totalTicks in *. simpl. lia.
  - simpl. apply Statistics.advance_to_accounted; [int_lia|done].
Qed.

(** The loop of [Idle] runs in idle mode, where a lone timer interrupt is left. *)
Lemma fire_loop_idle fuel s :
  ready s → (length (filter (due (totalTicks s)) (items s)) < fuel)%nat →
  ∃ s', fire_loop call dl fuel s = Done s' ∧ ready s' ∧ same_clock (stats s') (stats s) ∧
        (due_now s' = [] ∨ ∃ w p, items s' = [(w, p)] ∧ type p = TimerInt).
Proof.
  revert s. induction fuel as [|fuel IH]; intros s Hr Hf; [lia|]. cbn [fire_loop].
  destruct (pending (intr s)) as [[|[w p] xs] n] eqn:Hp.
  { rewrite CheckIfDue_empty by (apply Hr || unfold items; by rewrite Hp).
    exists s. split_and!; try done. left. unfold due_now, items. by rewrite Hp. }
  pose proof (rd_sorted s Hr) as Hs. unfold items in Hs, Hf. rewrite Hp in Hs, Hf.
  cbn [Queue.items] in Hs, Hf. destruct (sorted_cons_inv _ _ Hs) as [Hsx Hle]. simpl in Hle.
  destruct (decide (totalTicks s < w)) as [Hw|Hw].
  - rewrite (CheckIfDue_later _ _ _ _ _ (rd_level _ Hr) Hp Hw). eexists. split; [done|].
    split_and!; try done.
    + destruct Hr. split; try done. by apply Queue.insert_sorted_sorted.
    + left. unfold due_now, items. simpl. change (totalTicks _) with (totalTicks s).
      rewrite filter_insert_sorted by (unfold due; simpl; lia).
      rewrite filter_none; [done|]. intros q Hq. specialize (Hle q Hq). unfold due. lia.
  - destruct (decide (status (intr s) = IdleMode ∧ type p = TimerInt ∧ xs = [])) as [(Hst&Ht&->)|Hn].
    + rewrite (CheckIfDue_lone_timer s w p n) by (apply Hr || done || lia).
      eexists. split; [done|]. split_and!; try done.
      * destruct Hr. by split.
      * right. by exists w, p.
    + rewrite (CheckIfDue_fires _ _ _ _ _ (rd_level _ Hr) Hp) by (done || lia).
      set (s0 := set_pending s (Queue.mkQ xs n)).
      assert (Hr0 : ready s0) by (destruct Hr; split; done).
      destruct (invoke_spec p s0 Hr0) as (s1 & -> & Hr1 & Hq & Hst1). cbn [mbind res_bind].
      rewrite filter_cons, decide_True in Hf by (unfold due; simpl; lia). simpl in Hf.
      pose proof (q_due _ _ Hq Hsx) as Hd. pose proof (quiet_now _ _ Hq) as Hn'.
      change (totalTicks s0) with (totalTicks s) in *. change (items s0) with xs in *.
      destruct (IH s1) as (s2 & -> & Hr2 & Hc2 & Hd2); [done|rewrite Hn', Hd; lia|].
      exists s2. split_and!; try done. destruct Hq as [_ _ _ Hc' _ _ _].
      unfold same_clock in *. simpl in Hc'. intuition congruence.
Qed.

(** when no thread can run, [Idle] halts exactly if nothing is pending or
    only the timer is; otherwise it moves the clock to the first interrupt (never
    back), runs that handler and the others due by then, and returns in system
    mode with the pending yield dropped; every tick stays accounted for. *)
Theorem Idle_advances_clock s :
  ready s → Statistics.accounted (stats s) →
  (∀ w p, (w, p) ∈ items s → w + h_delay ≤ INT_MAX) →
  match items s with
  | [] => Idle call dl s = Done None
  | (w, p) :: rest =>
      if decide (type p = TimerInt ∧ rest = []) then Idle call dl s = Done None
      else ∃ s1 s', invoke call dl p (waited w (set_pending (setStatus s IdleMode)
                      (Queue.mkQ rest (Queue.size (pending (intr s)))))) = Done s1 ∧
        Idle call dl s = Done (Some s') ∧
        totalTicks s' = Z.max (totalTicks s) w ∧
        status (intr s') = SystemMode ∧ yieldOnReturn (intr s') = false ∧
        (due_now s' = [] ∨ ∃ w' p', items s' = [(w', p')] ∧ type p' = TimerInt) ∧
        Statistics.accounted (stats s')
  end.
Proof.
  intros Hr Ha Hmax. unfold items in *. unfold Idle.
  pose proof (rd_sorted s Hr) as Hs. unfold items in Hs.
  destruct (pending (intr s)) as [[|[w p] xs] n] eqn:Hp; cbn [Queue.items Queue.size] in *.
  { rewrite CheckIfDue_empty; [done|apply Hr|]. unfold items. simpl. by rewrite Hp. }
  case_decide as Ht.
  { destruct Ht as [Ht ->].
    destruct (CheckIfDue_only_timer (setStatus s IdleMode) w p n) as [s' ->]; try done. apply Hr. }
  rewrite (CheckIfDue_waits (setStatus s IdleMode) w p xs n) by (apply Hr || done).
  set (s0 := set_pending _ _).
  assert (Hm : w + h_delay ≤ INT_MAX) by (apply (Hmax w p); set_solver).
  destruct (waited_ready w s0) as (Hr0 & Hn0 & Ha0); [destruct Hr; split; try done; by apply sorted_cons_inv in Hs as [? _]|done..|].
  destruct (invoke_spec p _ Hr0) as (s1 & Hi & Hr1 & Hq & Hst1). rewrite Hi. cbn [mbind res_bind].
  destruct (fire_loop_idle (fire_fuel s1) s1) as (s2 & -> & Hr2 & Hc2 & Hd); [done|apply fire_fuel_enough|].
  cbn [mbind res_bind]. eexists s1, _. split; [done|]. split; [done|].
  pose proof (same_clock_now _ _ Hc2) as Ht2. pose proof (quiet_now _ _ Hq) as Ht1.
  split_and!; try done.
  - change (totalTicks s2 = Z.max (totalTicks s0) w). by rewrite Ht2, Ht1.
  - eapply same_clock_accounted; [exact Hc2|]. eapply same_clock_accounted; [exact (q_clock _ _ Hq)|]. done.
Qed.

(** What the kernel needs of the two: they return, in a state that is fit for the
    next call. *)
Lemma OneTick_returns s :
  ready (ticked s) →
  ∃ s', OneTick_enter call dl s = Done s' ∧ ready (ChangeLevel IntOff s') ∧
        level (intr s') = IntOn ∧ same_clock (stats s') (stats (ticked s)).
Proof.
  intros Hr. unfold OneTick_enter. fold (ticked s).
  destruct (fire_loop_idle (fire_fuel (ticked s)) (ticked s)) as (s2 & -> & Hr2 & Hc & _);
    [done|apply fire_fuel_enough|].
  eexists. split; [done|]. split; [destruct Hr2; by split|].
  split; [done|]. exact Hc.
Qed.

Lemma Idle_returns s :
  ready s → (∀ w p, (w, p) ∈ items s → w + h_delay ≤ INT_MAX) → Statistics.accounted (stats s) →
  Idle call dl s = Done None ∨
  ∃ s', Idle call dl s = Done (Some s') ∧ ready s' ∧ status (intr s') = SystemMode ∧
        Statistics.accounted (stats s').
Proof.
  intros Hr Hmax Ha. unfold Idle.
  pose proof (rd_sorted s Hr) as Hs. unfold items in Hs, Hmax.
  destruct (pending (intr s)) as [[|[w p] xs] n] eqn:Hp; cbn [Queue.items] in *.
  { left. rewrite CheckIfDue_empty; [done|apply Hr|]. unfold items. simpl. by rewrite Hp. }
  destruct (decide (type p = TimerInt ∧ xs = [])) as [[Ht ->]|Ht].
  { left. destruct (CheckIfDue_only_timer (setStatus s IdleMode) w p n) as [s' ->]; try done.
    apply Hr. }
  right. rewrite (CheckIfDue_waits (setStatus s IdleMode) w p xs n) by (apply Hr || done).
  set (s0 := set_pending _ _).
  destruct (waited_ready w s0) as (Hr0 & Hn0 & Ha0);
    [destruct Hr; split; try done; by apply sorted_cons_inv in Hs as [? _]
    |apply (Hmax w p), list_elem_of_here|done|].
  destruct (invoke_spec p _ Hr0) as (s1 & -> & Hr1 & Hq & Hst1). cbn [mbind res_bind].
  destruct (fire_loop_idle (fire_fuel s1) s1) as (s2 & -> & Hr2 & Hc2 & Hd); [done|apply fire_fuel_enough|].
  cbn [mbind res_bind]. eexists. split; [done|].
  split; [destruct Hr2; by split|]. split; [done|].
  eapply same_clock_accounted; [exact Hc2|]. eapply same_clock_accounted; [exact (q_clock _ _ Hq)|]. done.
Qed.

End with_handlers.
End InterruptSpec.

(** * The timer device and the time-slice handler of threads/system.cc *)
Module Timer.
Import Interrupt Machine.
Import Statistics(TimerTicks).

Section ops.
Context {H D : Type}.
Implicit Types s : sys H D.

(** [TimerHandler] with the timer as its argument. *)
Context (TimerHandler : H).

(** [Random()] returns [r]. *)
Definition TimeOfNextInterrupt (randomize : bool) (r : Z) : Z :=
  if randomize then 1 + cmod r (TimerTicks * 2) else TimerTicks.

Definition Timer (randomize : bool) (r : Z) s : res (sys H D) :=
  Schedule TimerHandler (TimeOfNextInterrupt randomize r) TimerInt s.

Definition TimerExpired (randomize : bool) (r : Z) (timer_handler : sys H D → res (sys H D)) s :
    res (sys H D) :=
  s ← Schedule TimerHandler (TimeOfNextInterrupt randomize r) TimerInt s;
  timer_handler s.

Definition TimerInterruptHandler s : res (sys H D) :=
  if bool_decide (status (intr s) ≠ IdleMode) then YieldOnReturn s else Done s.

Lemma TimeOfNextInterrupt_range randomize r :
  0 ≤ r → 0 < TimeOfNextInterrupt randomize r ≤ 2 * TimerTicks.
Proof.
  unfold TimeOfNextInterrupt, TimerTicks. destruct randomize; [|lia]. intros Hr.
  rewrite cmod_nonneg by lia. pose proof (Z.mod_pos_bound r (100 * 2)). lia.
Qed.

(** The timer never stops: its interrupt schedules the next one, 1 to 200
    ticks later (100 without randomisation), before it asks for the time slice to
    end; no assertion fails, and nothing else pending is touched. *)
Theorem timer_keeps_ticking randomize r s :
  0 ≤ r → inHandler (intr s) = true → status (intr s) = SystemMode →
  0 ≤ totalTicks s → totalTicks s + 2 * TimerTicks ≤ INT_MAX →
  ∃ s' w, TimerExpired randomize r TimerInterruptHandler s = Done s' ∧
    items s' = Queue.insert_sorted w (mkPI TimerHandler w TimerInt) (items s) ∧
    totalTicks s < w ≤ totalTicks s + 2 * TimerTicks ∧
    (randomize = false → w = totalTicks s + TimerTicks) ∧
    yieldOnReturn (intr s') = true ∧ quiet s s' ∧ dev s' = dev s.
Proof.
  intros Hr Hi Hst Hlo Hhi. unfold TimerExpired.
  pose proof (TimeOfNextInterrupt_range randomize r Hr) as Ht.
  destruct (Schedule_quiet TimerHandler (TimeOfNextInterrupt randomize r) TimerInt s)
    as (s1 & -> & Hq & Hd & _ & _ & Hit); try lia.
  cbn [mbind res_bind]. unfold TimerInterruptHandler, YieldOnReturn.
  rewrite (q_status _ _ Hq), Hst, (q_inHandler _ _ Hq), Hi, bool_decide_true by done.
  eexists _, (totalTicks s + TimeOfNextInterrupt randomize r). split; [done|].
  split_and!; try done; try lia.
  - intros ->. done.
  - by destruct Hq.
Qed.

End ops.
End Timer.

(** * A concrete system: the timer and a device that logs its interrupts *)
Module InterruptDemo.
Import Machine Interrupt InterruptSpec.

Inductive handlers : Type := HTimer | HLog (n : Z).

Definition call (h : handlers) (s : sys handlers (list Z)) : res (sys handlers (list Z)) :=
  match h with
  | HTimer => Timer.TimerExpired HTimer false 0 Timer.TimerInterruptHandler s
  | HLog n => Done (set_dev s (dev s ++ [n]))
  end.

#[export] Program Instance demo_handlers : Handlers call (@Done (list Z)) := {
  h_inv _ := True;
  h_delay := 2 * Statistics.TimerTicks
}.
Next Obligation. done. Qed.
Next Obligation. eauto. Qed.
Next Obligation.
  intros [|n] s _ Hl Hi Hlo Hhi.
  - cbn [call]. unfold Timer.TimerExpired, Timer.TimeOfNextInterrupt.
    destruct (Schedule_quiet HTimer Statistics.TimerTicks TimerInt s)
      as (s1 & -> & Hq & _); [done|done|unfold Statistics.TimerTicks in *; lia|].
    cbn [mbind res_bind]. unfold Timer.TimerInterruptHandler, YieldOnReturn.
    rewrite (q_inHandler _ _ Hq), Hi. destruct (bool_decide _); eexists; split_and!; try done.
    by destruct Hq.
  - eexists. split_and!; [done| |done]. by split.
Qed.

(** At time 90: a disk and a console interrupt for time 100, and the timer. *)
Definition demo : sys handlers (list Z) :=
  mkSys (mk IntOff
           (Queue.mkQ [(100, mkPI (HLog 1) 100 DiskInt); (100, mkPI HTimer 100 TimerInt);
                       (100, mkPI (HLog 2) 100 ConsoleReadInt); (150, mkPI (HLog 3) 150 DiskInt)] 0)
           false false SystemMode)
        (Statistics.mk 90 50 30 10 0 0 0 0 0 0 0) [].

Lemma demo_ready : ready call Done demo.
Proof. split; try done; try (by compute). repeat constructor; simpl; lia. Qed.

Lemma demo_ticked_ready : ready call Done (ticked demo).
Proof. split; try done; try (by compute). repeat constructor; simpl; lia. Qed.

Lemma demo_accounted : Statistics.accounted (stats demo).
Proof. unfold Statistics.accounted. simpl. split_and!; unfold_int; lia || done. Qed.

Lemma OneTick_fires_due_witness :
  dev <$> OneTick_enter call Done demo = Done [1; 2] ∧
  ∃ s', OneTick_enter call Done demo = Done s' ∧ due_now s' = [].
Proof.
  split; [reflexivity|].
  destruct (OneTick_fires_due call Done demo demo_ticked_ready) as (s1 & s' & _ & H & _ & H' & _).
  - discriminate.
  - apply demo_accounted.
  - exists s'. split; assumption.
Defined.

Lemma Idle_advances_clock_witness :
  ∃ s', Idle call Done demo = Done (Some s') ∧ totalTicks s' = 100.
Proof.
  destruct (Idle_advances_clock call Done demo demo_ready demo_accounted)
    as (s1 & s' & _ & H & H' & _).
  - intros w p Hin. cut (w ≤ 150); [change (h_delay) with 200; unfold_int; lia|].
    repeat (apply elem_of_cons in Hin as [[= -> ->]|Hin]; [lia|]). by apply elem_of_nil in Hin.
  - exists s'. split; [exact H|]. rewrite H'. reflexivity.
Defined.

Lemma timer_keeps_ticking_witness :
  ∃ s' w, Timer.TimerExpired HTimer true 1234567 Timer.TimerInterruptHandler
            (set_inHandler demo true) = Done s' ∧ 90 < w ≤ 290 ∧ yieldOnReturn (intr s') = true.
Proof.
  destruct (Timer.timer_keeps_ticking HTimer true 1234567 (set_inHandler demo true))
    as (s' & w & H & _ & Hw & _ & Hy & _); try (compute; done || lia).
  exists s', w. split; [exact H|]. split; [exact Hw|exact Hy].
Defined.

(** An interrupt that is checked before its time goes behind the others of the
    same time, so interrupts of one time do not fire in the order of their
    scheduling. *)
Lemma put_back_reorders_ties :
  (λ r, (λ q, handler q.2) <$> items r.2) <$> CheckIfDue call Done false demo =
  Done [HTimer; HLog 2; HLog 1; HLog 3].
Proof. reflexivity. Qed.

End InterruptDemo.
