(* ===== verification/Disk.v ===== *)
(** Disk: the simulated disk of src/code/machine/disk.{h,cc} with its timing, and
    the synchronous disk of src/code/filesys/synchdisk.{h,cc}.

    The UNIX file that backs the disk is its list of bytes ([hostfile], with the
    behaviour of the sysdep.cc routines).  Requests go through the interrupt
    hardware of Interrupt.v.  [SynchDisk] is used by one thread: while it waits
    for the disk no other thread is ready, so [Sleep] idles the machine.  The
    class [BlockDev] is what the file system relies on, and [SynchDisk]
    implements it. *)

From S2P Require Import Prelude Lists Machine Interrupt.

(** * The UNIX file behind the disk (machine/sysdep.cc) *)
Module HostFile.

(** [Lseek] to [pos] and [Read] of [nBytes]: a short read fails the assertion. *)
Definition Read (f : list Z) (pos nBytes : Z) : res (list Z) :=
  ASSERT (0 <=? pos);;
  ASSERT (pos + nBytes <=? Z.of_nat (length f));;
  slice f pos nBytes.

(** [Lseek] to [pos] and [WriteFile]: beyond the end the file grows, a gap
    reads as zeros. *)
Definition WriteFile (f : list Z) (pos : Z) (bs : list Z) : res (list Z) :=
  ASSERT (0 <=? pos);;
  blit (f ++ replicate (Z.to_nat (pos + Z.of_nat (length bs)) - length f) 0) pos bs.

Lemma Read_in_range f pos n :
  0 ≤ pos → 0 ≤ n → pos + n ≤ Z.of_nat (length f) →
  Read f pos n = slice f pos n.
Proof. intros. unfold Read. rewrite !bind_ASSERT by lia. done. Qed.

Lemma WriteFile_in_range f pos bs :
  0 ≤ pos → pos + Z.of_nat (length bs) ≤ Z.of_nat (length f) →
  WriteFile f pos bs = blit f pos bs.
Proof.
  intros. unfold WriteFile. rewrite bind_ASSERT by lia.
  replace (Z.to_nat _ - length f)%nat with O by lia. by rewrite app_nil_r.
Qed.

End HostFile.

(** * The disk *)
Module Disk.
Import Statistics(RotationTime, SeekTime).

Definition SectorSize : Z := Machine.SectorSize.
Definition SectorsPerTrack : Z := 32.
Definition NumTracks : Z := 32.
Definition NumSectors : Z := SectorsPerTrack * NumTracks.
Definition MagicNumber : Z := 0x456789ab.
Definition MagicSize : Z := 4.
Definition DiskSize : Z := MagicSize + NumSectors * SectorSize.

Record t : Type := mk {
  hostfile : list Z;
  active : bool;
  lastSector : Z;
  bufferInit : Z
}.

Definition set_hostfile (d : t) x : t := mk x (active d) (lastSector d) (bufferInit d).
Definition set_active (d : t) x : t := mk (hostfile d) x (lastSector d) (bufferInit d).

(** The constructor: [file] is the UNIX file of that name, if there is one. *)
Definition Disk (file : option (list Z)) : res t :=
  match file with
  | Some f =>
      magicNum ← HostFile.Read f 0 MagicSize;
      ASSERT (word_of magicNum =? MagicNumber);;
      Done (mk f false 0 0)
  | None =>
      f ← HostFile.WriteFile [] 0 (bytes_of 4 MagicNumber);
      f ← HostFile.WriteFile f (DiskSize - 4) (bytes_of 4 0);
      Done (mk f false 0 0)
  end.

(** The seek time, and [*rotation]. *)
Definition TimeToSeek (d : t) (now newSector : Z) : Z * Z :=
  let newTrack := cdiv newSector SectorsPerTrack in
  let oldTrack := cdiv (lastSector d) SectorsPerTrack in
  let seek := Z.abs (newTrack - oldTrack) * SeekTime in
  let over := cmod (s32 (now + seek)) RotationTime in
  (seek, if 0 <? over then RotationTime - over else 0).

Definition ModuloDiff (to from : Z) : Z :=
  let toOffset := cmod to SectorsPerTrack in
  let fromOffset := cmod from SectorsPerTrack in
  cmod ((toOffset - fromOffset) + SectorsPerTrack) SectorsPerTrack.

(** Whether a read is served from the track buffer. *)
Definition track_buffer_hit (d : t) (timeAfter seek newSector : Z) : bool :=
  (seek =? 0) &&
  (ModuloDiff newSector (cdiv (bufferInit d) RotationTime) <?
     cdiv (s32 (timeAfter - bufferInit d)) RotationTime).

Definition ComputeLatency (d : t) (now newSector : Z) (writing : bool) : Z :=
  let '(seek, rotation) := TimeToSeek d now newSector in
  let timeAfter := s32 (now + seek + rotation) in
  if negb writing && track_buffer_hit d timeAfter seek newSector then RotationTime
  else
    let rotation := rotation + ModuloDiff newSector (cdiv timeAfter RotationTime) * RotationTime in
    seek + rotation + RotationTime.

Definition UpdateLast (d : t) (now newSector : Z) : t :=
  let '(seek, rotate) := TimeToSeek d now newSector in
  mk (hostfile d) (active d) newSector
     (if negb (seek =? 0) then s32 (now + seek + rotate) else bufferInit d).

(** The words [PrintSector] prints. *)
Definition PrintSector (data : list Z) : res (list Z) :=
  for_up (Z.to_nat (SectorSize / 4)) 0
    (λ i acc, w ← slice data (i * 4) 4; Done (acc ++ [word_of w])) [].

Section requests.
Context {H D : Type} (DiskDone : H).
Implicit Types s : Interrupt.sys H D.

Definition in_disk (sectorNumber : Z) : bool :=
  (0 <=? sectorNumber) && (sectorNumber <? NumSectors).

Definition ReadRequest (sectorNumber : Z) (d : t) s : res (list Z * t * Interrupt.sys H D) :=
  let now := Interrupt.totalTicks s in
  let ticks := ComputeLatency d now sectorNumber false in
  ASSERT (negb (active d));;
  ASSERT (in_disk sectorNumber);;
  data ← HostFile.Read (hostfile d) (SectorSize * sectorNumber + MagicSize) SectorSize;
  let d := set_active d true in
  let d := UpdateLast d now sectorNumber in
  let s := Interrupt.set_stats s (Statistics.disk_read (Interrupt.stats s)) in
  s ← Interrupt.Schedule DiskDone ticks Interrupt.DiskInt s;
  Done (data, d, s).

Definition WriteRequest (sectorNumber : Z) (data : list Z) (d : t) s : res (t * Interrupt.sys H D) :=
  let now := Interrupt.totalTicks s in
  let ticks := ComputeLatency d now sectorNumber true in
  ASSERT (negb (active d));;
  ASSERT (in_disk sectorNumber);;
  bytes ← slice data 0 SectorSize;
  f ← HostFile.WriteFile (hostfile d) (SectorSize * sectorNumber + MagicSize) bytes;
  let d := set_hostfile d f in
  let d := set_active d true in
  let d := UpdateLast d now sectorNumber in
  let s := Interrupt.set_stats s (Statistics.disk_write (Interrupt.stats s)) in
  s ← Interrupt.Schedule DiskDone ticks Interrupt.DiskInt s;
  Done (d, s).

End requests.

(** [active = FALSE], before the handler given to the constructor is called. *)
Definition HandleInterrupt (d : t) : t := set_active d false.

End Disk.

(** * Timing *)
Module DiskTiming.
Import Disk.
Import Statistics(RotationTime, SeekTime).

(** The sector number within its track that passes under the head during the
    [RotationTime] ticks that end at time [t]. *)
Definition just_passed (time : Z) : Z := (time / RotationTime - 1) mod SectorsPerTrack.

Definition seek_time (d : t) (newSector : Z) : Z :=
  Z.abs (newSector / SectorsPerTrack - lastSector d / SectorsPerTrack) * SeekTime.

(** A transfer of [newSector] can end at [time]: a sector boundary, at which the
    sector has just gone past the head in full, after the seek. *)
Definition transfer_ends (d : t) (now newSector time : Z) : Prop :=
  time mod RotationTime = 0 ∧ just_passed time = newSector mod SectorsPerTrack ∧
  now + seek_time d newSector + RotationTime ≤ time.

Lemma TimeToSeek_spec d now newSector :
  0 ≤ newSector < NumSectors → 0 ≤ lastSector d < NumSectors →
  0 ≤ now → now + 32000 ≤ INT_MAX →
  ∃ rot, TimeToSeek d now newSector = (seek_time d newSector, rot) ∧ 0 ≤ rot < RotationTime ∧
         (now + seek_time d newSector + rot) mod RotationTime = 0 ∧
         0 ≤ seek_time d newSector ≤ 31 * SeekTime.
Proof.
  unfold NumSectors, SectorsPerTrack, NumTracks, TimeToSeek, seek_time, RotationTime, SeekTime, SectorsPerTrack.
  intros Hn Hl Hlo Hhi. rewrite !cdiv_nonneg by lia.
  assert (Hs : 0 ≤ Z.abs (newSector / 32 - lastSector d / 32) * 500 ≤ 31 * 500)
    by (Z.div_mod_to_equations; lia).
  set (seek := Z.abs _ * _) in *. rewrite s32_id by int_lia.
  rewrite cmod_nonneg by lia. eexists. split; [done|].
  destruct (0 <? _) eqn:E; simplify_tests; Z.div_mod_to_equations; lia.
Qed.

Lemma ModuloDiff_spec to from :
  0 ≤ to → 0 ≤ from →
  0 ≤ ModuloDiff to from < SectorsPerTrack ∧
  (from + ModuloDiff to from) mod SectorsPerTrack = to mod SectorsPerTrack.
Proof.
  unfold ModuloDiff, SectorsPerTrack. intros. rewrite (cmod_nonneg to), (cmod_nonneg from) by lia.
  rewrite cmod_nonneg by (Z.div_mod_to_equations; lia).
  split; Z.div_mod_to_equations; lia.
Qed.

(** Without the track buffer, the request ends at the first possible time. *)
Lemma mechanical_latency d now newSector writing :
  0 ≤ newSector < NumSectors → 0 ≤ lastSector d < NumSectors →
  0 ≤ now → now + 32000 ≤ INT_MAX →
  (writing = true ∨ track_buffer_hit d (s32 (now + seek_time d newSector + (TimeToSeek d now newSector).2))
                      (seek_time d newSector) newSector = false) →
  let L := ComputeLatency d now newSector writing in
  transfer_ends d now newSector (now + L) ∧
  (∀ time, transfer_ends d now newSector time → now + L ≤ time) ∧
  L < seek_time d newSector + (1 + SectorsPerTrack) * RotationTime.
Proof.
  intros Hn Hl Hlo Hhi Hb. unfold ComputeLatency.
  destruct (TimeToSeek_spec d now newSector) as (rot & HT & Hr & Hm & Hs); try done.
  rewrite HT in *. cbn [snd] in Hb.
  replace (negb writing && _) with false by (destruct Hb as [->| ->]; [done|by rewrite andb_false_r]).
  set (seek := seek_time d newSector) in *.
  unfold NumSectors, SectorsPerTrack, NumTracks, RotationTime, SeekTime, transfer_ends, just_passed in *.
  rewrite s32_id by int_lia. rewrite cdiv_nonneg by lia.
  destruct (ModuloDiff_spec newSector ((now + seek + rot) / 500)) as [Hd1 Hd2];
    [lia|Z.div_mod_to_equations; lia|].
  fold seek. set (diff := ModuloDiff _ _) in *. unfold SectorsPerTrack, RotationTime in *.
  assert (Hk : ∃ k, now + seek + rot = 500 * k) by (exists ((now + seek + rot) / 500); Z.div_mod_to_equations; lia).
  destruct Hk as [k Hk]. rewrite Hk in *.
  replace (500 * k / 500) with k in * by (Z.div_mod_to_equations; lia).
  replace (now + (seek + (rot + diff * 500) + 500)) with (500 * (k + diff + 1)) by lia.
  split_and!; try lia; [Z.div_mod_to_equations; lia|..].
  { replace (500 * (k + diff + 1) / 500 - 1) with (k + diff) by (Z.div_mod_to_equations; lia). done. }
  intros time (H1 & H2 & H3). fold seek in H3.
  assert (Hj : ∃ j, time = 500 * (j + 1)) by (exists (time / 500 - 1); Z.div_mod_to_equations; lia).
  destruct Hj as [j ->]. replace (500 * (j + 1) / 500 - 1) with j in H2 by (Z.div_mod_to_equations; lia).
  rewrite <- Hd2 in H2. Z.div_mod_to_equations. lia.
Qed.

(** The track buffer holds [newSector]: the head has not left the track, and the
    sector has gone past it in full since the buffer started to be loaded. *)
Definition in_buffer (d : t) (now newSector : Z) : Prop :=
  newSector / SectorsPerTrack = lastSector d / SectorsPerTrack ∧
  ∃ time, time mod RotationTime = 0 ∧ just_passed time = newSector mod SectorsPerTrack ∧
          bufferInit d + RotationTime ≤ time < now + RotationTime.

(** The head is over a sector, and the buffer started at a sector boundary. *)
Definition timing_ok (d : t) : Prop :=
  0 ≤ lastSector d < NumSectors ∧ 0 ≤ bufferInit d ≤ INT_MAX ∧ bufferInit d mod RotationTime = 0.

Lemma seek_time_zero d newSector :
  seek_time d newSector = 0 ↔ newSector / SectorsPerTrack = lastSector d / SectorsPerTrack.
Proof. unfold seek_time, SeekTime. lia. Qed.

Lemma track_buffer_hit_spec d now newSector :
  timing_ok d → 0 ≤ newSector < NumSectors → 0 ≤ now → now + 32000 ≤ INT_MAX →
  track_buffer_hit d (s32 (now + seek_time d newSector + (TimeToSeek d now newSector).2))
    (seek_time d newSector) newSector = true ↔ in_buffer d now newSector.
Proof.
  intros (Hl & Hb & Hbm) Hn Hlo Hhi. unfold in_buffer, track_buffer_hit.
  rewrite andb_true_iff, Z.eqb_eq, Z.ltb_lt, <- seek_time_zero.
  destruct (TimeToSeek_spec d now newSector) as (rot & -> & Hr & Hm & _); try done. cbn [snd].
  destruct (decide (seek_time d newSector = 0)) as [Hz|Hz]; [|naive_solver].
  rewrite Hz, Z.add_0_r in *.
  unfold just_passed, NumSectors, SectorsPerTrack, NumTracks, RotationTime, SeekTime in *.
  assert (∃ k, now + rot = 500 * k) as [k Hk]
    by (exists ((now + rot) / 500); Z.div_mod_to_equations; lia).
  assert (∃ b, bufferInit d = 500 * b) as [b Hb']
    by (exists (bufferInit d / 500); Z.div_mod_to_equations; lia).
  rewrite Hk, Hb' in *. rewrite cdiv_nonneg by lia.
  replace (500 * b / 500) with b by (Z.div_mod_to_equations; lia).
  rewrite !s32_id by (rewrite ?s32_id; int_lia).
  replace (cdiv (500 * k - 500 * b) 500) with (k - b)
    by (unfold cdiv; rewrite <- Z.mul_sub_distr_l, Z.mul_comm, Z.quot_mul; lia).
  destruct (ModuloDiff_spec newSector b) as [Hd1 Hd2]; [lia..|].
  set (diff := ModuloDiff _ _) in *. unfold SectorsPerTrack in *.
  split; intros [_ H]; (split; [done|]).
  - exists (500 * (b + diff + 1)).
    replace (500 * (b + diff + 1) / 500 - 1) with (b + diff) by (Z.div_mod_to_equations; lia).
    split_and!; [Z.div_mod_to_equations; lia|done|lia|lia].
  - destruct H as (time & H1 & H2 & H3).
    assert (∃ j, time = 500 * (j + 1)) as [j ->]
      by (exists (time / 500 - 1); Z.div_mod_to_equations; lia).
    replace (500 * (j + 1) / 500 - 1) with j in H2 by (Z.div_mod_to_equations; lia).
    rewrite <- Hd2 in H2. Z.div_mod_to_equations. lia.
Qed.

(** the latency of a request is exact: a read of a sector that the track
    buffer holds takes one [RotationTime]; every other request ends at the first
    sector boundary, after the seek, at which the sector has just gone past the
    head in full. *)
Theorem disk_latency_exact d now newSector writing :
  timing_ok d → 0 ≤ newSector < NumSectors → 0 ≤ now → now + 32000 ≤ INT_MAX →
  let L := ComputeLatency d now newSector writing in
  (writing = false ∧ in_buffer d now newSector ∧ L = RotationTime) ∨
  ((writing = true ∨ ¬ in_buffer d now newSector) ∧
   transfer_ends d now newSector (now + L) ∧
   (∀ time, transfer_ends d now newSector time → now + L ≤ time) ∧
   L < seek_time d newSector + (1 + SectorsPerTrack) * RotationTime).
Proof.
  intros Hok Hn Hlo Hhi L. pose proof (track_buffer_hit_spec d now newSector Hok Hn Hlo Hhi) as Hhit.
  destruct Hok as (Hl & _). destruct writing.
  - right. split; [by left|]. apply mechanical_latency; auto.
  - destruct (track_buffer_hit _ _ _ _) eqn:E.
    + left. split_and!; [done|by apply Hhit|]. unfold L, ComputeLatency.
      destruct (TimeToSeek_spec d now newSector) as (rot & HT & _); try done.
      rewrite HT in *. cbn [snd] in E. by rewrite E.
    + right. split; [right; intros H%Hhit; congruence|]. apply mechanical_latency; auto.
Qed.

(** Every request leaves the timing state well-formed. *)
Lemma UpdateLast_timing_ok d now newSector :
  timing_ok d → 0 ≤ newSector < NumSectors → 0 ≤ now → now + 32000 ≤ INT_MAX →
  timing_ok (UpdateLast d now newSector).
Proof.
  intros (Hl & Hb & Hm) Hn Hlo Hhi. unfold UpdateLast.
  destruct (TimeToSeek_spec d now newSector) as (rot & -> & Hr & Hm' & Hs); try done.
  unfold timing_ok, RotationTime, SeekTime in *. simpl.
  destruct (negb _); [|done]. rewrite s32_id by int_lia. split_and!; lia || done.
Qed.

(** Sector 37 from sector 3 at time 1000: one track further; the transfer ends
    when the sector has passed, at 1000 + 2000. *)
Lemma disk_latency_exact_witness :
  let d := mk [] false 3 0 in
  ComputeLatency d 1000 37 true = 2000 ∧ transfer_ends d 1000 37 (1000 + 2000).
Proof.
  split; [reflexivity|].
  destruct (disk_latency_exact (mk [] false 3 0) 1000 37 true) as [(H & _)|(_ & H & _)];
    [by compute|by compute|done|by compute|discriminate|exact H].
Defined.

End DiskTiming.

(** * What the file system relies on of the disk *)
Class BlockDev (S : Type) : Type := {
  bd_read : Z → S → res (list Z * S);
  bd_write : Z → list Z → S → res S;
  bd_ok : S → Prop;
  bd_get : S → Z → list Z;
  bd_get_bytes : ∀ s i, bd_ok s → 0 ≤ i < Disk.NumSectors →
    length (bd_get s i) = Z.to_nat Disk.SectorSize ∧ Forall is_byte (bd_get s i);
  bd_read_spec : ∀ s i, bd_ok s → 0 ≤ i < Disk.NumSectors →
    ∃ s', bd_read i s = Done (bd_get s i, s') ∧ bd_ok s' ∧
          ∀ j, 0 ≤ j < Disk.NumSectors → bd_get s' j = bd_get s j;
  bd_write_spec : ∀ s i data, bd_ok s → 0 ≤ i < Disk.NumSectors →
    length data = Z.to_nat Disk.SectorSize → Forall is_byte data →
    ∃ s', bd_write i data s = Done s' ∧ bd_ok s' ∧
          ∀ j, 0 ≤ j < Disk.NumSectors → bd_get s' j = if decide (j = i) then data else bd_get s j
}.

(** * The synchronous disk, used by one thread *)
Module SynchDisk.
Import Machine Interrupt.

(** The disk, and the semaphore: its value, whether the thread is on its queue,
    and whether the thread is on the ready list.  The lock of the code does
    nothing (Lock::Acquire and Lock::Release are empty). *)
Record t : Type := mk {
  disk : Disk.t;
  value : Z;
  queued : bool;
  runnable : bool
}.

Inductive handlers : Type := DiskDone.
Definition state : Type := sys handlers t.

Definition set_disk (d : t) x : t := mk x (value d) (queued d) (runnable d).

Definition SynchDisk (file : option (list Z)) : res t :=
  d ← Disk.Disk file;
  Done (mk d 0 false false).

(** [semaphore->V()].  Interrupt handlers run with interrupts off, so
    [SetLevel(oldLevel)] does not tick. *)
Definition RequestDone (s : state) : res state :=
  '(s, oldLevel, _) ← SetLevel_enter IntOff s;
  let d := dev s in
  let d := if queued d then mk (disk d) (value d) false true else d in
  let d := mk (disk d) (s32 (value d + 1)) (queued d) (runnable d) in
  '(s, _, _) ← SetLevel_enter oldLevel (set_dev s d);
  Done s.

(** The disk's interrupt: [HandleInterrupt], which calls [DiskRequestDone]. *)
Definition call (h : handlers) (s : state) : res state :=
  match h with
  | DiskDone => RequestDone (set_dev s (set_disk (dev s) (Disk.HandleInterrupt (disk (dev s)))))
  end.

(** [while ((nextThread = FindNextToRun()) == NULL) Idle();] and the switch back
    to the only thread.  When the machine halts the call does not return. *)
Fixpoint Sleep_loop (fuel : nat) (s : state) : res state :=
  match fuel with
  | O => Fuel
  | S fuel =>
      let d := dev s in
      if runnable d then Done (set_dev s (mk (disk d) (value d) (queued d) false))
      else
        r ← Idle call Done s;
        match r with
        | None => Blocks
        | Some s => Sleep_loop fuel s
        end
  end.

Definition Sleep (s : state) : res state :=
  ASSERT (bool_decide (level (intr s) = IntOff));;
  Sleep_loop 2 s.

(** [OneTick] and [Yield] call each other; no other thread is ready. *)
Fixpoint OneTick (fuel : nat) (s : state) : res state :=
  match fuel with
  | O => Fuel
  | S fuel =>
      let old := status (intr s) in
      s ← OneTick_enter call Done s;
      if yieldOnReturn (intr s) then
        let s := setStatus (set_yieldOnReturn s false) SystemMode in
        '(s, oldLevel, _) ← SetLevel_enter IntOff s;
        '(s, _, tick) ← SetLevel_enter oldLevel s;
        s ← (if tick : bool then OneTick fuel s else Done s);
        Done (setStatus s old)
      else Done s
  end.

Definition SetLevel (now : IntStatus) (s : state) : res state :=
  '(s, _, tick) ← SetLevel_enter now s;
  if tick : bool then OneTick 2 s else Done s.

Fixpoint P_loop (fuel : nat) (s : state) : res state :=
  match fuel with
  | O => Fuel
  | S fuel =>
      let d := dev s in
      if value d =? 0 then
        s ← Sleep (set_dev s (mk (disk d) (value d) true (runnable d)));
        P_loop fuel s
      else Done (set_dev s (mk (disk d) (s32 (value d - 1)) (queued d) (runnable d)))
  end.

(** [semaphore->P()]. *)
Definition P (s : state) : res state :=
  '(s, oldLevel, _) ← SetLevel_enter IntOff s;
  s ← P_loop 2 s;
  SetLevel oldLevel s.

Definition ReadSector (sectorNumber : Z) (s : state) : res (list Z * state) :=
  '(data, d, s) ← Disk.ReadRequest DiskDone sectorNumber (disk (dev s)) s;
  s ← P (set_dev s (set_disk (dev s) d));
  Done (data, s).

Definition WriteSector (sectorNumber : Z) (data : list Z) (s : state) : res state :=
  '(d, s) ← Disk.WriteRequest DiskDone sectorNumber data (disk (dev s)) s;
  P (set_dev s (set_disk (dev s) d)).

(** ** Nothing is going on *)
Record idle (s : state) : Prop := {
  id_items : items s = [];
  id_handler : inHandler (intr s) = false;
  id_yield : yieldOnReturn (intr s) = false;
  id_status : status (intr s) = SystemMode;
  id_active : Disk.active (disk (dev s)) = false;
  id_value : value (dev s) = 0;
  id_queued : queued (dev s) = false;
  id_runnable : runnable (dev s) = false
}.

Lemma ModuloDiff_nonneg to from : 0 ≤ to → 0 ≤ Disk.ModuloDiff to from.
Proof.
  intros Ht. unfold Disk.ModuloDiff, cmod, Disk.SectorsPerTrack.
  apply Z.rem_nonneg; [lia|].
  pose proof (Z.rem_bound_abs from 32). pose proof (Z.rem_nonneg to 32). lia.
Qed.

(** A request always takes time, also when the clock has wrapped around. *)
Lemma ComputeLatency_pos d now sec w : 0 ≤ sec → 0 < Disk.ComputeLatency d now sec w.
Proof.
  intros Hs. unfold Disk.ComputeLatency, Disk.TimeToSeek.
  set (seek := Z.abs _ * _). assert (0 ≤ seek) by (unfold seek, Statistics.SeekTime; lia).
  set (over := cmod _ Statistics.RotationTime).
  assert (over < 500) by (unfold over, cmod, Statistics.RotationTime;
    pose proof (Z.rem_bound_abs (s32 (now + seek)) 500); lia).
  unfold Statistics.RotationTime. destruct (_ && _); [lia|].
  pose proof (ModuloDiff_nonneg sec
    (cdiv (s32 (now + seek + (if 0 <? over then 500 - over else 0))) 500) Hs).
  destruct (0 <? over) eqn:E; simplify_tests; lia.
Qed.

(** The thread waits for its request: the interrupt comes, and [P] returns. *)
Lemma P_waits (s : state) w n l st d :
  s = mkSys (Interrupt.mk l (Queue.mkQ [(w, mkPI DiskDone w DiskInt)] n) false false SystemMode)
        st (mk d 0 false false) →
  ∃ s', P s = Done s' ∧ idle s' ∧ disk (dev s') = Disk.HandleInterrupt d ∧
        level (intr s') = l.
Proof.
  intros ->. unfold P, SetLevel_enter. simpl.
  idtac.
  unfold Sleep. rewrite bind_ASSERT by done. cbn [Sleep_loop dev set_dev runnable].
  unfold Idle. erewrite InterruptSpec.CheckIfDue_waits; [|done|done|naive_solver].
  unfold InterruptSpec.waited.
  destruct (_ <? _); unfold invoke; simpl; destruct l; simpl; eexists; (split; [done|]); by split_and!.
Qed.

Definition sector_offset (i : Z) : Z := Disk.SectorSize * i + Disk.MagicSize.

Definition sector (s : state) (i : Z) : list Z :=
  take (Z.to_nat Disk.SectorSize) (drop (Z.to_nat (sector_offset i)) (Disk.hostfile (disk (dev s)))).

(** The disk between two requests. *)
Record ok (s : state) : Prop := {
  ok_idle : idle s;
  ok_length : Z.of_nat (length (Disk.hostfile (disk (dev s)))) = Disk.DiskSize;
  ok_bytes : Forall is_byte (Disk.hostfile (disk (dev s)));
  ok_magic : slice (Disk.hostfile (disk (dev s))) 0 Disk.MagicSize = Done (bytes_of 4 Disk.MagicNumber)
}.

Lemma sector_offset_range i :
  0 ≤ i < Disk.NumSectors →
  0 ≤ sector_offset i ∧ sector_offset i + Disk.SectorSize ≤ Disk.DiskSize.
Proof.
  unfold sector_offset, Disk.NumSectors, Disk.DiskSize, Disk.SectorSize, Disk.MagicSize,
    Disk.NumSectors, Disk.SectorsPerTrack, Disk.NumTracks, Machine.SectorSize. lia.
Qed.

Lemma sector_length s i :
  ok s → 0 ≤ i < Disk.NumSectors →
  length (sector s i) = Z.to_nat Disk.SectorSize ∧ Forall is_byte (sector s i).
Proof.
  intros [_ Hl Hb _] Hi. apply sector_offset_range in Hi. unfold sector. split.
  - rewrite length_take, length_drop. lia.
  - by apply Forall_take, Forall_drop.
Qed.

Lemma UpdateLast_hostfile d now i :
  Disk.hostfile (Disk.UpdateLast d now i) = Disk.hostfile d ∧
  Disk.active (Disk.UpdateLast d now i) = Disk.active d.
Proof. unfold Disk.UpdateLast. by destruct (Disk.TimeToSeek d now i). Qed.

Lemma in_disk_true i : 0 ≤ i < Disk.NumSectors → Disk.in_disk i = true.
Proof. unfold Disk.in_disk. lia. Qed.

(** Issuing a request from an idle system and waiting for it. *)
Lemma Schedule_and_wait (s : state) d' L :
  idle s → 0 < L →
  ∃ s1 s', Schedule DiskDone L DiskInt s = Done s1 ∧ P (set_dev s1 (set_disk (dev s1) d')) = Done s' ∧
           idle s' ∧ disk (dev s') = Disk.HandleInterrupt d' ∧ level (intr s') = level (intr s).
Proof.
  intros [Hi ? ? ? ? ? ? ?] HL. unfold Schedule. rewrite bind_ASSERT by lia.
  destruct s as [[l [q n] h y st] stt [d v qd rn]]. unfold items in Hi. simpl in *. subst.
  eexists. destruct (P_waits (mkSys (Interrupt.mk l (Queue.mkQ
    [(s32 (Statistics.totalTicks stt + L), mkPI DiskDone (s32 (Statistics.totalTicks stt + L)) DiskInt)] n)
    false false SystemMode) stt (mk d' 0 false false)) _ n l stt d' eq_refl) as (s' & HP & ? & ? & ?).
  exists s'. split; [done|]. by split_and!.
Qed.

Lemma ReadSector_spec s i :
  ok s → 0 ≤ i < Disk.NumSectors →
  ∃ s', ReadSector i s = Done (sector s i, s') ∧ ok s' ∧
        Disk.hostfile (disk (dev s')) = Disk.hostfile (disk (dev s)) ∧
        level (intr s') = level (intr s).
Proof.
  intros [Hid Hl Hb Hm] Hi. pose proof (sector_offset_range i Hi) as Ho. unfold ReadSector, Disk.ReadRequest.
  rewrite (id_active _ Hid), bind_ASSERT, bind_ASSERT by (done || by apply in_disk_true).
  fold (sector_offset i).
  rewrite HostFile.Read_in_range, slice_in_range by (done || lia). cbn [mbind res_bind].
  set (d1 := Disk.UpdateLast _ _ _). set (s1 := set_stats s _).
  destruct (Schedule_and_wait s1 d1 (Disk.ComputeLatency (disk (dev s)) (totalTicks s) i false))
    as (s2 & s3 & -> & HP & Hid3 & Hd3 & Hlv); [by destruct Hid|apply ComputeLatency_pos; lia|].
  cbn [mbind res_bind]. rewrite HP. cbn [mbind res_bind]. exists s3.
  destruct (UpdateLast_hostfile (Disk.set_active (disk (dev s)) true) (totalTicks s) i) as [Hf _].
  fold d1 in Hf. assert (Hh : Disk.hostfile (disk (dev s3)) = Disk.hostfile (disk (dev s)))
    by (by rewrite Hd3).
  split_and!; try done. split; [done|by rewrite Hh..].
Qed.

Lemma WriteSector_spec s i data :
  ok s → 0 ≤ i < Disk.NumSectors → length data = Z.to_nat Disk.SectorSize → Forall is_byte data →
  ∃ s', WriteSector i data s = Done s' ∧ ok s' ∧ level (intr s') = level (intr s) ∧
        blit (Disk.hostfile (disk (dev s))) (sector_offset i) data = Done (Disk.hostfile (disk (dev s'))).
Proof.
  intros [Hid Hl Hb Hm] Hi Hlen Hbytes. pose proof (sector_offset_range i Hi) as Ho.
  assert (HSS : Disk.SectorSize = 256) by done.
  unfold WriteSector, Disk.WriteRequest.
  rewrite (id_active _ Hid), bind_ASSERT, bind_ASSERT by (done || by apply in_disk_true).
  rewrite slice_in_range by lia. cbn [mbind res_bind]. rewrite drop_0, take_ge by lia.
  fold (sector_offset i).
  destruct (blit (Disk.hostfile (disk (dev s))) (sector_offset i) data) as [f'| | | |] eqn:Hbl;
    try (exfalso; rewrite blit_in_range in Hbl by lia; discriminate).
  rewrite HostFile.WriteFile_in_range, Hbl by lia. cbn [mbind res_bind].
  set (d1 := Disk.UpdateLast _ _ _). set (s1 := set_stats s _).
  destruct (Schedule_and_wait s1 d1 (Disk.ComputeLatency (disk (dev s)) (totalTicks s) i true))
    as (s2 & s3 & -> & HP & Hid3 & Hd3 & Hlv); [by destruct Hid|apply ComputeLatency_pos; lia|].
  cbn [mbind res_bind]. rewrite HP. exists s3.
  destruct (UpdateLast_hostfile (Disk.set_active (Disk.set_hostfile (disk (dev s)) f') true) (totalTicks s) i) as [Hf _].
  fold d1 in Hf. assert (Hh : Disk.hostfile (disk (dev s3)) = f') by (by rewrite Hd3).
  split_and!; try done; [|by rewrite Hh]. split; [done|..]; rewrite Hh.
  - by rewrite (blit_length _ _ _ _ Hbl).
  - apply blit_Done in Hbl as (_ & _ & ->).
    apply Forall_app; split; [by apply Forall_take|]. apply Forall_app; split; [done|by apply Forall_drop].
  - rewrite (slice_blit_disjoint _ _ _ _ _ _ Hbl); [done..|].
    left. unfold sector_offset, Disk.MagicSize. lia.
Qed.

Lemma sector_slice s i :
  ok s → 0 ≤ i < Disk.NumSectors →
  slice (Disk.hostfile (disk (dev s))) (sector_offset i) Disk.SectorSize = Done (sector s i).
Proof.
  intros [_ Hl _ _] Hi. apply sector_offset_range in Hi.
  apply slice_in_range; [lia|done|lia].
Qed.

Lemma sector_after_write s s' i j data :
  ok s → ok s' → 0 ≤ i < Disk.NumSectors → 0 ≤ j < Disk.NumSectors →
  length data = Z.to_nat Disk.SectorSize →
  blit (Disk.hostfile (disk (dev s))) (sector_offset i) data = Done (Disk.hostfile (disk (dev s'))) →
  sector s' j = if decide (j = i) then data else sector s j.
Proof.
  intros Hs Hs' Hi Hj Hlen Hb. pose proof (sector_slice s' j Hs' Hj) as H'.
  case_decide as Hji.
  - subst j. pose proof (slice_blit_same _ _ _ _ Hb) as Hsame.
    replace (Z.of_nat (length data)) with Disk.SectorSize in Hsame by (rewrite Hlen; done).
    congruence.
  - pose proof (sector_slice s j Hs Hj) as H.
    rewrite (slice_blit_disjoint _ _ _ _ _ _ Hb) in H'; [congruence|by apply sector_offset_range|done|].
    rewrite Hlen. unfold sector_offset, Disk.SectorSize, Machine.SectorSize. lia.
Qed.

#[global] Program Instance SynchDisk_BlockDev : BlockDev state := {
  bd_read := ReadSector;
  bd_write := WriteSector;
  bd_ok := ok;
  bd_get := sector
}.
Next Obligation. intros s i. apply sector_length. Qed.
Next Obligation.
  intros s i Hs Hi. destruct (ReadSector_spec s i Hs Hi) as (s' & ? & ? & Hh & _).
  exists s'. split_and!; try done. intros j _. unfold sector. by rewrite Hh.
Qed.
Next Obligation.
  intros s i data Hs Hi Hl Hb. destruct (WriteSector_spec s i data Hs Hi Hl Hb) as (s' & ? & Hs' & _ & Hh).
  exists s'. split_and!; try done. intros j Hj. by eapply sector_after_write.
Qed.

(** ** The disk as an array of sectors *)
Inductive request : Type :=
| CRead (sectorNumber : Z)
| CWrite (sectorNumber : Z) (data : list Z).

Definition valid (c : request) : Prop :=
  match c with
  | CRead i => 0 ≤ i < Disk.NumSectors
  | CWrite i data => 0 ≤ i < Disk.NumSectors ∧ length data = Z.to_nat Disk.SectorSize ∧ Forall is_byte data
  end.

(** What the reads return. *)
Fixpoint run (cs : list request) (s : state) : res (list (list Z) * state) :=
  match cs with
  | [] => Done ([], s)
  | CRead i :: cs =>
      '(data, s) ← ReadSector i s;
      '(out, s) ← run cs s;
      Done (data :: out, s)
  | CWrite i data :: cs =>
      s ← WriteSector i data s;
      run cs s
  end.

Fixpoint spec_run (cs : list request) (a : Z → list Z) : list (list Z) * (Z → list Z) :=
  match cs with
  | [] => ([], a)
  | CRead i :: cs => let '(out, a') := spec_run cs a in (a i :: out, a')
  | CWrite i data :: cs => spec_run cs (λ j, if decide (j = i) then data else a j)
  end.

(** A machine that has just started, with this UNIX file behind its disk. *)
Definition start (l : IntStatus) (d : t) : state :=
  mkSys (Interrupt.mk l Queue.empty false false SystemMode) Statistics.Statistics d.

(** Writing zeros at the end of a file fills it with zeros. *)
Lemma extend_with_zeros bs n :
  Z.of_nat (length bs) ≤ n - 4 →
  HostFile.WriteFile bs (n - 4) (bytes_of 4 0) =
  Done (bs ++ replicate (Z.to_nat n - length bs) 0).
Proof.
  intros Hn. unfold HostFile.WriteFile. rewrite bind_ASSERT by lia.
  change (bytes_of 4 0) with (replicate 4 0). rewrite length_replicate.
  replace (n - 4 + Z.of_nat 4) with n by lia.
  rewrite blit_in_range by (rewrite ?length_app, ?length_replicate; lia). f_equal.
  rewrite take_app_ge, drop_app_ge by (rewrite ?length_replicate; lia).
  rewrite take_replicate, drop_replicate, <- app_assoc, length_replicate, <- !replicate_add.
  do 2 f_equal. lia.
Qed.

Lemma write_magic :
  HostFile.WriteFile [] 0 (bytes_of 4 Disk.MagicNumber) = Done (bytes_of 4 Disk.MagicNumber).
Proof. reflexivity. Qed.

Lemma DiskSize_value : Disk.DiskSize = 262148.
Proof. reflexivity. Qed.

Lemma Disk_new file :
  file = None →
  Disk.Disk file = (f ← HostFile.WriteFile [] 0 (bytes_of 4 Disk.MagicNumber);
                    f ← HostFile.WriteFile f (Disk.DiskSize - 4) (bytes_of 4 0);
                    Done (Disk.mk f false 0 0)).
Proof. by intros ->. Qed.

Lemma SynchDisk_new file :
  SynchDisk file = (d ← Disk.Disk file; Done (mk d 0 false false)).
Proof. reflexivity. Qed.

Lemma fresh_file :
  ∃ n, Z.of_nat n = Disk.DiskSize - 4 ∧
    SynchDisk None = Done (mk (Disk.mk (bytes_of 4 Disk.MagicNumber ++ replicate n 0) false 0 0) 0 false false).
Proof.
  pose proof DiskSize_value as HD.
  exists (Z.to_nat Disk.DiskSize - 4)%nat. split; [lia|].
  rewrite SynchDisk_new, Disk_new, write_magic, bind_of_Done by reflexivity.
  rewrite extend_with_zeros by (rewrite bytes_of_length; lia). by rewrite bytes_of_length.
Qed.

Lemma fresh_ok l :
  ∃ d, SynchDisk None = Done d ∧ ok (start l d) ∧
       ∀ i, 0 ≤ i < Disk.NumSectors → sector (start l d) i = replicate (Z.to_nat Disk.SectorSize) 0.
Proof.
  destruct fresh_file as (n & Hn & ->).
  pose proof DiskSize_value as HD.
  eexists. split; [reflexivity|]. set (f := bytes_of 4 Disk.MagicNumber ++ replicate n 0).
  assert (Hlen : Z.of_nat (length f) = Disk.DiskSize)
    by (unfold f; rewrite length_app, bytes_of_length, length_replicate; lia).
  split.
  - split; [by split|exact Hlen|..].
    + apply Forall_app; split; [apply bytes_of_bytes|]. apply Forall_replicate. unfold is_byte. lia.
    + change (slice f 0 Disk.MagicSize = Done (bytes_of 4 Disk.MagicNumber)).
      rewrite slice_in_range by (unfold Disk.MagicSize; lia). reflexivity.
  - intros i Hi. apply sector_offset_range in Hi as Ho.
    change (take (Z.to_nat Disk.SectorSize) (drop (Z.to_nat (sector_offset i)) f)
            = replicate (Z.to_nat Disk.SectorSize) 0).
    unfold sector_offset, Disk.MagicSize, Disk.SectorSize, Machine.SectorSize in *.
    unfold f. rewrite drop_app_ge by (rewrite bytes_of_length; lia).
    rewrite bytes_of_length, drop_replicate, take_replicate. f_equal. lia.
Qed.

Lemma run_refines cs s a :
  ok s → Forall valid cs → (∀ i, 0 ≤ i < Disk.NumSectors → sector s i = a i) →
  ∃ s', run cs s = Done ((spec_run cs a).1, s') ∧ ok s' ∧
        ∀ i, 0 ≤ i < Disk.NumSectors → sector s' i = (spec_run cs a).2 i.
Proof.
  intros Hs Hv. revert s a Hs. induction Hv as [|[i|i data] cs Hc _ IH]; intros s a Hs Ha; simpl.
  - by exists s.
  - destruct (@bd_read_spec _ SynchDisk_BlockDev s i Hs Hc) as (s1 & Hr & Hs1 & Hg). simpl in Hr, Hg. rewrite Hr. cbn [mbind res_bind].
    destruct (IH s1 a Hs1) as (s2 & -> & Hs2 & Hg2); [intros j Hj; by rewrite Hg, Ha|].
    cbn [mbind res_bind]. destruct (spec_run cs a) eqn:E. exists s2. rewrite Ha by done. done.
  - destruct Hc as (Hi & Hl & Hb).
    destruct (@bd_write_spec _ SynchDisk_BlockDev s i data Hs Hi Hl Hb) as (s1 & Hw & Hs1 & Hg). simpl in Hw, Hg. rewrite Hw.
    cbn [mbind res_bind]. apply IH; [done|]. intros j Hj. rewrite Hg by done. case_decide; auto.
Qed.

Lemma Disk_reopen f :
  Z.of_nat (length f) = Disk.DiskSize →
  slice f 0 Disk.MagicSize = Done (bytes_of 4 Disk.MagicNumber) →
  (d ← Disk.Disk (Some f); Done (mk d 0 false false)) = Done (mk (Disk.mk f false 0 0) 0 false false).
Proof.
  intros Hl Hm. pose proof DiskSize_value. cbn [Disk.Disk].
  rewrite HostFile.Read_in_range, Hm by (unfold Disk.MagicSize; lia). reflexivity.
Qed.

(** C14: the disk is an array of 1024 sectors: whatever sectors a thread reads and
    writes, from a new disk every read returns what was last written there (zeros
    at first), no request fails or waits forever, and a machine that is started
    on the resulting UNIX file sees the same sectors. *)
Theorem SynchDisk_refines_sectors (l : IntStatus) (cs : list request) :
  Forall valid cs →
  ∃ d s' d', SynchDisk None = Done d ∧
    run cs (start l d) = Done ((spec_run cs (λ _, replicate (Z.to_nat Disk.SectorSize) 0)).1, s') ∧
    SynchDisk (Some (Disk.hostfile (disk (dev s')))) = Done d' ∧ ok (start l d') ∧
    ∀ i, 0 ≤ i < Disk.NumSectors →
      sector (start l d') i = (spec_run cs (λ _, replicate (Z.to_nat Disk.SectorSize) 0)).2 i.
Proof.
  intros Hv. destruct (fresh_ok l) as (d & Hd & Hok & Hz).
  destruct (run_refines cs (start l d) (λ _, replicate (Z.to_nat Disk.SectorSize) 0) Hok Hv Hz)
    as (s' & Hr & [_ Hl Hb Hm] & Hg).
  exists d, s', (mk (Disk.mk (Disk.hostfile (disk (dev s'))) false 0 0) 0 false false).
  split; [exact Hd|]. split; [exact Hr|]. split; [|split; [|exact Hg]].
  - rewrite SynchDisk_new. by apply Disk_reopen.
  - split; [by split|exact Hl|exact Hb|exact Hm].
Qed.

Lemma SynchDisk_refines_sectors_witness :
  ∃ d s', SynchDisk None = Done d ∧
    run [CWrite 7 (replicate 256 65); CRead 7; CRead 1023] (start IntOn d) =
    Done ([replicate 256 65; replicate 256 0], s').
Proof.
  destruct (SynchDisk_refines_sectors IntOn [CWrite 7 (replicate 256 65); CRead 7; CRead 1023])
    as (d & s' & d' & H & H' & _).
  - repeat constructor; try (by compute).
  - exists d, s'. split; [exact H|exact H'].
Defined.

(** The lock of the code does not keep a second thread out: while the first one waits for
    its request, any other request fails the assertion of the disk. *)
Lemma second_request_fails (s s' : state) i j data bs d :
  Disk.ReadRequest DiskDone i (disk (dev s)) s = Done (data, d, s') →
  Disk.ReadRequest DiskDone j d s' = Assert ∧ Disk.WriteRequest DiskDone j bs d s' = Assert.
Proof.
  intros Hr. unfold Disk.ReadRequest at 1 in Hr.
  apply bind_Done in Hr as ([] & _ & Hr). apply bind_Done in Hr as ([] & _ & Hr).
  apply bind_Done in Hr as (x & _ & Hr). apply bind_Done in Hr as (s1 & _ & Hr). injection Hr as _ <- _.
  unfold Disk.ReadRequest, Disk.WriteRequest. rewrite (proj2 (UpdateLast_hostfile _ _ _)). done.
Qed.

End SynchDisk.
