(* ===== verification/FileHdr.v ===== *)
(** FileHdr: file headers and open files of the file system,
    src/code/filesys/filehdr.{h,cc} and openfile.{h,cc} (the version that is
    compiled without FILESYS_STUB).

    The disk is used through [BlockDev], the free map through [BitmapLike].  What
    [operator new] returns is not initialised ([FreshMemory] of Prelude.v).  The
    theorems of [OpenFileSpec] show that an open file is an array of bytes of
    fixed length. *)

From S2P Require Import Prelude Bitmap Lists Machine Interrupt Disk.

Module FileHeader.
Import Disk(SectorSize, NumSectors).

Definition NumDirect : Z := (SectorSize - 2 * 4) / 4.
Definition MaxFileSize : Z := NumDirect * SectorSize.

Record t : Type := mk {
  numBytes : Z;
  numSectors : Z;
  dataSectors : list Z
}.

(** The object in memory: 64 little-endian words. *)
Definition of_bytes (bs : list Z) : t :=
  let words := s32 <$> BitMap.words_of_bytes 64 bs in
  mk (default 0 (words !! 0%nat)) (default 0 (words !! 1%nat)) (drop 2 words).

Definition to_bytes (h : t) : list Z :=
  concat (bytes_of 4 <$> numBytes h :: numSectors h :: dataSectors h).

(** [new FileHeader] *)
Definition new `{!FreshMemory} : t := of_bytes (fresh_bytes SectorSize).

Section alloc.
Context {B : Type} `{!BitmapLike B}.

(** The result, the header and the free map. *)
Definition Allocate (h : t) (freeMap : B) (fileSize : Z) : res (bool * t * B) :=
  let h := mk fileSize (divRoundUp fileSize SectorSize) (dataSectors h) in
  clear ← bm_NumClear freeMap;
  if clear <? numSectors h then Done (false, h, freeMap)
  else
    '(sectors, freeMap) ← for_up (Z.to_nat (numSectors h)) 0
      (λ i '(sectors, freeMap),
         '(k, freeMap) ← bm_Find freeMap;
         sectors ← aset sectors i k;
         Done (sectors, freeMap)) (dataSectors h, freeMap);
    Done (true, mk (numBytes h) (numSectors h) sectors, freeMap).

Definition Deallocate (h : t) (freeMap : B) : res B :=
  for_up (Z.to_nat (numSectors h)) 0
    (λ i freeMap,
       k ← aget (dataSectors h) i;
       used ← bm_Test freeMap k;
       ASSERT used;;
       bm_Clear freeMap k) freeMap.

End alloc.

Section disk.
Context {S : Type} `{!BlockDev S}.

Definition FetchFrom (sector : Z) (s : S) : res (t * S) :=
  '(bs, s) ← bd_read sector s;
  Done (of_bytes bs, s).

Definition WriteBack (h : t) (sector : Z) (s : S) : res S :=
  bd_write sector (to_bytes h) s.

Definition ByteToSector (h : t) (offset : Z) : res Z :=
  aget (dataSectors h) (cdiv offset SectorSize).

Definition FileLength (h : t) : Z := numBytes h.

(** A character of the dump: itself when printable, else a backslash (92) and its
    hexadecimal digits. *)
Definition hex_digit (d : Z) : Z := if d <? 10 then 48 + d else 87 + d.
Definition escape (b : Z) : list Z :=
  if (32 <=? b) && (b <=? 126) then [b]
  else 92 :: (if b <? 16 then [hex_digit b] else [hex_digit (b / 16); hex_digit (b mod 16)]).

(** The lines that [Print] writes of the file contents; [k] counts the bytes. *)
Definition Print (h : t) (s : S) : res (list (list Z) * S) :=
  '(lines, k, s) ← for_up (Z.to_nat (numSectors h)) 0
    (λ i '(lines, k, s),
       sector ← aget (dataSectors h) i;
       '(data, s) ← bd_read sector s;
       let data := take (Z.to_nat (numBytes h - k)) data in
       Done (lines ++ [concat (escape <$> data)], k + Z.of_nat (length data), s)) ([], 0, s);
  Done (lines, s).

End disk.
End FileHeader.

Module OpenFile.
Import Disk(SectorSize, NumSectors).

Record t : Type := mk {
  hdr : FileHeader.t;
  seekPosition : Z
}.

Section ops.
Context {S : Type} `{!BlockDev S} `{!FreshMemory}.

Definition OpenFile (sector : Z) (s : S) : res (t * S) :=
  '(h, s) ← FileHeader.FetchFrom sector s;
  Done (mk h 0, s).

Definition Seek (position : Z) (f : t) : t := mk (hdr f) position.

(** The bytes copied to [into]; the code returns how many. *)
Definition ReadAt (f : t) (numBytes position : Z) (s : S) : res (list Z * S) :=
  let fileLength := FileHeader.FileLength (hdr f) in
  if (numBytes <=? 0) || (fileLength <=? position) then Done ([], s) else
  let numBytes := if fileLength <? s32 (position + numBytes)
                  then fileLength - position else numBytes in
  let firstSector := divRoundDown position SectorSize in
  let lastSector := divRoundDown (position + numBytes - 1) SectorSize in
  let numSectors := 1 + lastSector - firstSector in
  '(buf, s) ← for_up (Z.to_nat numSectors) firstSector
    (λ i '(buf, s),
       sector ← FileHeader.ByteToSector (hdr f) (i * SectorSize);
       '(data, s) ← bd_read sector s;
       buf ← blit buf ((i - firstSector) * SectorSize) data;
       Done (buf, s)) (fresh_bytes (numSectors * SectorSize), s);
  into ← slice buf (position - firstSector * SectorSize) numBytes;
  Done (into, s).

(** Read in the first and last sector, if they are to be partially modified. *)
Definition read_partial (f : t) (buf : list Z) (firstSector lastSector : Z)
    (firstAligned lastAligned : bool) (s : S) : res (list Z * S) :=
  '(buf, s) ← (if negb firstAligned then
                 '(data, s) ← ReadAt f SectorSize (firstSector * SectorSize) s;
                 buf ← blit buf 0 data;
                 Done (buf, s)
               else Done (buf, s));
  if negb lastAligned && (negb (firstSector =? lastSector) || firstAligned) then
    '(data, s) ← ReadAt f SectorSize (lastSector * SectorSize) s;
    buf ← blit buf ((lastSector - firstSector) * SectorSize) data;
    Done (buf, s)
  else Done (buf, s).

(** The number of bytes written; [from] is the caller's buffer. *)
Definition WriteAt (f : t) (from : list Z) (numBytes position : Z) (s : S) : res (Z * S) :=
  let fileLength := FileHeader.FileLength (hdr f) in
  if (numBytes <=? 0) || (fileLength <=? position) then Done (0, s) else
  let numBytes := if fileLength <? s32 (position + numBytes)
                  then fileLength - position else numBytes in
  let firstSector := divRoundDown position SectorSize in
  let lastSector := divRoundDown (position + numBytes - 1) SectorSize in
  let numSectors := 1 + lastSector - firstSector in
  let buf := fresh_bytes (numSectors * SectorSize) in
  let firstAligned := position =? firstSector * SectorSize in
  let lastAligned := position + numBytes =? (lastSector + 1) * SectorSize in
  '(buf, s) ← read_partial f buf firstSector lastSector firstAligned lastAligned s;
  src ← slice from 0 numBytes;
  buf ← blit buf (position - firstSector * SectorSize) src;
  s ← for_up (Z.to_nat numSectors) firstSector
    (λ i s,
       sector ← FileHeader.ByteToSector (hdr f) (i * SectorSize);
       data ← slice buf ((i - firstSector) * SectorSize) SectorSize;
       bd_write sector data s) s;
  Done (numBytes, s).

Definition Read (f : t) (numBytes : Z) (s : S) : res (list Z * t * S) :=
  '(into, s) ← ReadAt f numBytes (seekPosition f) s;
  Done (into, mk (hdr f) (s32 (seekPosition f + Z.of_nat (length into))), s).

Definition Write (f : t) (from : list Z) (numBytes : Z) (s : S) : res (Z * t * S) :=
  '(n, s) ← WriteAt f from numBytes (seekPosition f) s;
  Done (n, mk (hdr f) (s32 (seekPosition f + n)), s).

Definition Length (f : t) : Z := FileHeader.FileLength (hdr f).

End ops.
End OpenFile.

(** * An open file is an array of bytes *)
Module OpenFileSpec.
Import Disk(SectorSize, NumSectors).
Import FileHeader OpenFile.

(** The data sectors of a file. *)
Definition blocks (h : FileHeader.t) : list Z := take (Z.to_nat (numSectors h)) (dataSectors h).

Record hdr_ok (h : FileHeader.t) : Prop := {
  ho_bytes : 0 ≤ numBytes h ≤ MaxFileSize;
  ho_sectors : numSectors h = divRoundUp (numBytes h) SectorSize;
  ho_length : Z.of_nat (length (dataSectors h)) = NumDirect;
  ho_range : ∀ b, b ∈ blocks h → 0 ≤ b < NumSectors;
  ho_NoDup : NoDup (blocks h)
}.

Section spec.
Context {S : Type} `{!BlockDev S} `{!FreshMemory}.
Implicit Types (s : S) (h : FileHeader.t) (f : OpenFile.t).

Definition same_sectors s s' : Prop := ∀ j, 0 ≤ j < NumSectors → bd_get s' j = bd_get s j.

Lemma same_sectors_refl s : same_sectors s s.
Proof. by intros j _. Qed.
Lemma same_sectors_trans s1 s2 s3 : same_sectors s1 s2 → same_sectors s2 s3 → same_sectors s1 s3.
Proof. intros H1 H2 j Hj. rewrite H2, H1; done. Qed.

(** All the bytes of the data sectors, and those of the file. *)
Definition file_data s h : list Z := concat (bd_get s <$> blocks h).
Definition contents s h : list Z := take (Z.to_nat (numBytes h)) (file_data s h).

Lemma SectorSize_value : SectorSize = 256.
Proof. reflexivity. Qed.

Lemma numSectors_bounds h :
  hdr_ok h → 0 ≤ numSectors h ≤ NumDirect ∧
  (numSectors h - 1) * SectorSize < numBytes h ≤ numSectors h * SectorSize.
Proof.
  intros [Hb Hs _ _ _]. pose proof (divRoundUp_spec (numBytes h) SectorSize).
  pose proof (divRoundUp_nonneg (numBytes h) SectorSize). rewrite <- Hs in *.
  unfold MaxFileSize in Hb. rewrite SectorSize_value in *. lia.
Qed.

Lemma blocks_length h : hdr_ok h → length (blocks h) = Z.to_nat (numSectors h).
Proof.
  intros Hh. pose proof (numSectors_bounds h Hh). pose proof (ho_length h Hh).
  unfold blocks. rewrite length_take. lia.
Qed.

Lemma block_at h i :
  hdr_ok h → 0 ≤ i < numSectors h →
  ∃ b, blocks h !! Z.to_nat i = Some b ∧ 0 ≤ b < NumSectors ∧
       ByteToSector h (i * SectorSize) = Done b.
Proof.
  intros Hh Hi. pose proof (blocks_length h Hh) as Hl.
  destruct (lookup_lt_is_Some_2 (blocks h) (Z.to_nat i)) as [b Hb]; [lia|].
  exists b. split_and!; try (eapply ho_range; [done|]; by eapply list_elem_of_lookup_2).
  - done.
  - unfold ByteToSector. rewrite cdiv_nonneg by (rewrite SectorSize_value; lia).
    rewrite Z.div_mul by done. apply aget_Some; [lia|].
    unfold blocks in Hb. by apply lookup_take_Some in Hb as [? _].
Qed.

Lemma blocks_fmap_length s h :
  hdr_ok h → bd_ok s → Forall (λ l, length l = 256%nat) (bd_get s <$> blocks h).
Proof.
  intros Hh Hs. apply list.Forall_forall. intros l (b & -> & Hb)%list_elem_of_fmap.
  destruct (bd_get_bytes s b Hs) as [-> _]; [by apply (ho_range h Hh)|]. by rewrite SectorSize_value.
Qed.

Lemma file_data_length s h :
  hdr_ok h → bd_ok s → length (file_data s h) = Z.to_nat (numSectors h * SectorSize).
Proof.
  intros Hh Hs. pose proof (numSectors_bounds h Hh). unfold file_data.
  rewrite (concat_length 256) by (by apply blocks_fmap_length).
  rewrite length_fmap, blocks_length by done. rewrite SectorSize_value. lia.
Qed.

Lemma contents_length s h : hdr_ok h → bd_ok s → length (contents s h) = Z.to_nat (numBytes h).
Proof.
  intros Hh Hs. unfold contents. rewrite length_take, file_data_length by done.
  pose proof (numSectors_bounds h Hh). lia.
Qed.

Lemma file_data_bytes s h : hdr_ok h → bd_ok s → Forall is_byte (file_data s h).
Proof.
  intros Hh Hs. unfold file_data. apply Forall_concat, list.Forall_forall.
  intros l (b & -> & Hb)%list_elem_of_fmap. apply bd_get_bytes; [done|]. by apply (ho_range h Hh).
Qed.

Lemma contents_bytes s h : hdr_ok h → bd_ok s → Forall is_byte (contents s h).
Proof. intros. by apply Forall_take, file_data_bytes. Qed.

(** Byte [k] of block [i]. *)
Lemma file_data_lookup s h i b (k : nat) :
  hdr_ok h → bd_ok s → 0 ≤ i → blocks h !! Z.to_nat i = Some b → (k < 256)%nat →
  file_data s h !! (Z.to_nat (i * SectorSize) + k)%nat = bd_get s b !! k.
Proof.
  intros Hh Hs Hi Hb Hk. unfold file_data. rewrite (concat_lookup 256);
    [|lia|by apply blocks_fmap_length].
  replace (Z.to_nat (i * SectorSize) + k)%nat with (k + Z.to_nat i * 256)%nat
    by (rewrite SectorSize_value; lia).
  rewrite Nat.div_add, Nat.Div0.mod_add, Nat.div_small, Nat.mod_small by lia.
  rewrite Nat.add_0_l, list_lookup_fmap, Hb. done.
Qed.

Lemma file_data_same s s' h : hdr_ok h → same_sectors s s' → file_data s' h = file_data s h.
Proof.
  intros Hh Hss. unfold file_data. f_equal. apply list_fmap_ext.
  intros i b Hb. apply Hss. apply (ho_range h Hh). by eapply list_elem_of_lookup_2.
Qed.

Lemma contents_same s s' h : hdr_ok h → same_sectors s s' → contents s' h = contents s h.
Proof. intros. unfold contents. by rewrite file_data_same with (s := s). Qed.

(** ** Reading *)

(** The loop of [ReadAt] gathers the sectors [first .. first + n - 1]. *)
Lemma read_loop_spec h (n : nat) first buf s :
  hdr_ok h → bd_ok s → 0 ≤ first → first + Z.of_nat n ≤ numSectors h →
  length buf = (n * 256)%nat →
  ∃ s', for_up n first
    (λ i '(buf, s),
       sector ← ByteToSector h (i * SectorSize);
       '(data, s) ← bd_read sector s;
       buf ← blit buf ((i - first) * SectorSize) data;
       Done (buf, s)) (buf, s) =
    Done (take (n * 256) (drop (Z.to_nat (first * SectorSize)) (file_data s h)), s') ∧
    bd_ok s' ∧ same_sectors s s'.
Proof.
  intros Hh Hs Hf Hn Hlen.
  destruct (for_up_inv (λ i '(b, s'), length b = (n * 256)%nat ∧ bd_ok s' ∧ same_sectors s s' ∧
      ∀ k, (k < Z.to_nat ((i - first) * SectorSize))%nat →
        b !! k = file_data s h !! (Z.to_nat (first * SectorSize) + k)%nat)
    (λ i '(buf, s),
       sector ← ByteToSector h (i * SectorSize);
       '(data, s) ← bd_read sector s;
       buf ← blit buf ((i - first) * SectorSize) data;
       Done (buf, s)) n first (buf, s)) as ([b' s'] & -> & Hl' & Hs' & Hss & Hk).
  - split_and!; [done|done|apply same_sectors_refl|]. intros k Hk. rewrite SectorSize_value in Hk. lia.
  - intros i [b1 s1] Hi (Hl1 & Hs1 & Hss1 & Hk1).
    destruct (block_at h i Hh) as (sec & Hb & Hr & ->); [lia|]. cbn [mbind res_bind].
    destruct (bd_read_spec s1 sec Hs1 Hr) as (s2 & -> & Hs2 & Hg). cbn [mbind res_bind].
    destruct (bd_get_bytes s1 sec Hs1 Hr) as [Hlen1 _]. rewrite SectorSize_value in *.
    destruct (blit b1 ((i - first) * 256) (bd_get s1 sec)) as [b2| | | |] eqn:Hbl;
      try (rewrite blit_in_range in Hbl by lia; discriminate).
    cbn [mbind res_bind]. eexists. split; [reflexivity|].
    split_and!; [by rewrite (blit_length _ _ _ _ Hbl)|done|by eapply same_sectors_trans|].
    intros k Hk. destruct (decide (k < Z.to_nat ((i - first) * 256))%nat).
    + rewrite (blit_lookup_out _ _ _ _ _ Hbl) by lia. by apply Hk1.
    + rewrite (blit_lookup_in _ _ _ _ _ Hbl) by lia.
      rewrite Hss1 by done.
      rewrite <- (file_data_lookup s h i sec) by (done || lia). rewrite SectorSize_value. f_equal. lia.
  - exists s'. split_and!; try done. do 2 f_equal. apply list_eq. intros k.
    pose proof (file_data_length s h Hh Hs) as Hfl. rewrite SectorSize_value in *.
    destruct (decide (k < n * 256)%nat).
    + rewrite lookup_take_lt, lookup_drop by done. apply Hk. lia.
    + rewrite !lookup_ge_None_2; [done| |lia]. rewrite length_take. lia.
Qed.

(** What is read of a request: at most up to the end of the file. *)
Definition clip (c : list Z) (position n : Z) : list Z :=
  take (Z.to_nat n) (drop (Z.to_nat position) c).

(** [n] bytes of a window of a list. *)
Lemma take_drop_window {A} (l : list A) (a m c n : nat) :
  (a + n ≤ m)%nat → take n (drop a (take m (drop c l))) = take n (drop (c + a) l).
Proof.
  intros. replace m with (a + (m - a))%nat by lia.
  rewrite <- take_drop_commute, take_take, drop_drop. f_equal. lia.
Qed.

Lemma ReadAt_spec f n position s :
  hdr_ok (hdr f) → bd_ok s → 0 ≤ position → position + n ≤ INT_MAX →
  ∃ s', ReadAt f n position s = Done (clip (contents s (hdr f)) position n, s') ∧
        bd_ok s' ∧ same_sectors s s'.
Proof.
  intros Hh Hs Hp Hmax. unfold ReadAt, FileLength.
  pose proof (numSectors_bounds _ Hh) as [Hns Hnb]. pose proof (contents_length s _ Hh Hs) as Hcl.
  destruct (_ || _) eqn:Hc.
  { exists s. split_and!; [|done|apply same_sectors_refl]. do 2 f_equal. unfold clip. symmetry.
    apply nil_length_inv. rewrite length_take, length_drop, Hcl.
    apply orb_true_iff in Hc as [Hc|Hc]; simplify_tests; lia. }
  simplify_tests. rewrite s32_id by int_lia.
  set (n' := if _ <? _ then _ else n).
  assert (Hn' : n' = Z.min n (numBytes (hdr f) - position))
    by (unfold n'; destruct (_ <? _) eqn:?; simplify_tests; lia). clearbody n'.
  unfold divRoundDown. rewrite !cdiv_nonneg by (rewrite ?SectorSize_value; lia).
  set (first := position / SectorSize). set (last := (position + n' - 1) / SectorSize).
  assert (Hfl : 0 ≤ first ≤ last ∧ last < numSectors (hdr f) ∧ first * 256 ≤ position < (first + 1) * 256 ∧
                last * 256 ≤ position + n' - 1 < (last + 1) * 256)
    by (unfold first, last; rewrite SectorSize_value in *; Z.div_mod_to_equations; lia).
  clearbody first last.
  destruct (read_loop_spec (hdr f) (Z.to_nat (1 + last - first)) first
    (fresh_bytes ((1 + last - first) * SectorSize)) s) as (s' & -> & Hs' & Hss); try (done || lia).
  { rewrite fresh_length; rewrite SectorSize_value; lia. }
  cbn [mbind res_bind]. pose proof (file_data_length s _ Hh Hs) as Hfd. rewrite SectorSize_value in *.
  rewrite slice_in_range by (rewrite ?length_take, ?length_drop, ?Hfd; lia).
  cbn [mbind res_bind]. exists s'. split_and!; try done. do 2 f_equal. unfold clip, contents.
  rewrite take_drop_window by lia.
  replace (Z.to_nat (numBytes (hdr f))) with
    (Z.to_nat position + (Z.to_nat (numBytes (hdr f)) - Z.to_nat position))%nat by lia.
  rewrite <- take_drop_commute, take_take. f_equal; [lia|]. f_equal. lia.
Qed.

(** ** Writing *)

Definition other_sectors s s' h : Prop :=
  ∀ j, 0 ≤ j < NumSectors → j ∉ blocks h → bd_get s' j = bd_get s j.

(** The loop of [WriteAt] stores [buf] in the sectors [first .. first + n - 1]. *)
Lemma write_loop_sectors h (n : nat) first buf s :
  hdr_ok h → bd_ok s → 0 ≤ first → first + Z.of_nat n ≤ numSectors h →
  length buf = (n * 256)%nat → Forall is_byte buf →
  ∃ s', for_up n first
    (λ i s,
       sector ← ByteToSector h (i * SectorSize);
       data ← slice buf ((i - first) * SectorSize) SectorSize;
       bd_write sector data s) s = Done s' ∧ bd_ok s' ∧ other_sectors s s' h ∧
    ∀ i b, 0 ≤ i → blocks h !! Z.to_nat i = Some b →
      bd_get s' b = if decide (first ≤ i < first + Z.of_nat n)
                    then take 256 (drop (Z.to_nat ((i - first) * 256)) buf) else bd_get s b.
Proof.
  intros Hh Hs Hf Hn Hlen Hby.
  destruct (for_up_inv (λ m s', bd_ok s' ∧ other_sectors s s' h ∧
      ∀ i b, 0 ≤ i → blocks h !! Z.to_nat i = Some b →
        bd_get s' b = if decide (first ≤ i < m)
                      then take 256 (drop (Z.to_nat ((i - first) * 256)) buf) else bd_get s b)
    (λ i s,
       sector ← ByteToSector h (i * SectorSize);
       data ← slice buf ((i - first) * SectorSize) SectorSize;
       bd_write sector data s) n first s) as (s' & -> & ?); [..|by exists s'].
  - split_and!; [done|by intros j|]. intros i b Hi Hb. rewrite decide_False by lia. done.
  - intros m s1 Hm (Hs1 & Ho & Hg).
    destruct (block_at h m Hh) as (sec & Hb & Hr & ->); [lia|]. cbn [mbind res_bind].
    rewrite SectorSize_value. rewrite slice_in_range by lia. cbn [mbind res_bind].
    change (Z.to_nat 256) with 256%nat. set (data := take 256 _).
    destruct (bd_write_spec s1 sec data Hs1 Hr) as (s2 & -> & Hs2 & Hg2).
    { unfold data. rewrite length_take, length_drop, SectorSize_value. lia. }
    { by apply Forall_take, Forall_drop. }
    eexists. split; [reflexivity|]. split_and!; [done|..].
    + intros j Hj Hnb. rewrite Hg2 by done.
      rewrite decide_False; [by apply Ho|]. intros ->. apply Hnb. by eapply list_elem_of_lookup_2.
    + intros i b Hi Hib. rewrite Hg2 by (apply (ho_range h Hh); by eapply list_elem_of_lookup_2).
      destruct (decide (i = m)) as [->|Hne].
      * assert (b = sec) as -> by congruence. rewrite !decide_True by lia. done.
      * assert (b ≠ sec). { intros ->. apply Hne.
          pose proof (NoDup_lookup _ _ _ _ (ho_NoDup h Hh) Hib Hb). lia. }
        rewrite decide_False by done. rewrite (Hg i b Hi Hib).
        destruct (decide (first ≤ i < m)), (decide (first ≤ i < m + 1)); done || lia.
Qed.

Lemma write_loop_spec h (n : nat) first buf s :
  hdr_ok h → bd_ok s → 0 ≤ first → first + Z.of_nat n ≤ numSectors h →
  length buf = (n * 256)%nat → Forall is_byte buf →
  ∃ s', for_up n first
    (λ i s,
       sector ← ByteToSector h (i * SectorSize);
       data ← slice buf ((i - first) * SectorSize) SectorSize;
       bd_write sector data s) s = Done s' ∧ bd_ok s' ∧ other_sectors s s' h ∧
    ∀ o : nat, file_data s' h !! o =
      if decide (Z.to_nat first * 256 ≤ o < Z.to_nat first * 256 + n * 256)%nat
      then buf !! (o - Z.to_nat first * 256)%nat else file_data s h !! o.
Proof.
  intros Hh Hs Hf Hn Hlen Hby.
  destruct (write_loop_sectors h n first buf s) as (s' & Hl & Hs' & Ho & Hg); try done.
  exists s'. split_and!; try done. intros o.
  destruct (decide (o < Z.to_nat (numSectors h * SectorSize))%nat) as [Hlt|Hge].
  2: { rewrite (lookup_ge_None_2 (file_data s' h)), (lookup_ge_None_2 (file_data s h))
         by (rewrite file_data_length by done; lia).
       rewrite SectorSize_value in *. by rewrite decide_False by lia. }
  rewrite SectorSize_value in *.
  set (i := Z.of_nat o / 256). set (k := (o - Z.to_nat (i * 256))%nat).
  assert (Hi : 0 ≤ i < numSectors h ∧ o = (Z.to_nat (i * 256) + k)%nat ∧ (k < 256)%nat)
    by (unfold k, i; Z.div_mod_to_equations; lia).
  destruct Hi as (Hi & Hok & Hk). clearbody i k. subst o.
  destruct (block_at h i Hh Hi) as (b & Hb & Hr & _).
  pose proof (file_data_lookup s h i b k) as F1. pose proof (file_data_lookup s' h i b k) as F2.
  rewrite SectorSize_value in *. rewrite F1, F2 by (done || lia). clear F1 F2.
  rewrite (Hg i b) by (done || lia).
  destruct (decide (first ≤ i < _)), (decide (_ ≤ _ < _)%nat); try (done || lia).
  rewrite lookup_take_lt, lookup_drop by done. f_equal. lia.
Qed.

(** One sector read back into the buffer. *)
Lemma read_one_sector f buf idx off s :
  hdr_ok (hdr f) → bd_ok s → 0 ≤ idx < numSectors (hdr f) →
  0 ≤ off → off + 256 ≤ Z.of_nat (length buf) → Forall is_byte buf →
  ∃ buf' s', ('(data, s) ← ReadAt f SectorSize (idx * SectorSize) s;
              buf ← blit buf off data; Done (buf, s)) = Done (buf', s') ∧
    bd_ok s' ∧ same_sectors s s' ∧ length buf' = length buf ∧ Forall is_byte buf' ∧
    (∀ k : nat, ¬ (Z.to_nat off ≤ k < Z.to_nat off + 256)%nat → buf' !! k = buf !! k) ∧
    (∀ k : nat, (k < 256)%nat → (Z.to_nat idx * 256 + k < Z.to_nat (numBytes (hdr f)))%nat →
       buf' !! (Z.to_nat off + k)%nat = contents s (hdr f) !! (Z.to_nat idx * 256 + k)%nat).
Proof.
  intros Hh Hs Hi Ho Hl Hb. pose proof (numSectors_bounds _ Hh) as [Hns _].
  assert (NumDirect = 62) as HND by reflexivity.
  destruct (ReadAt_spec f SectorSize (idx * SectorSize) s) as (s' & -> & Hs' & Hss); try done;
    try (rewrite SectorSize_value; unfold_int; lia).
  cbn [mbind res_bind]. set (data := clip _ _ _).
  pose proof (contents_length s _ Hh Hs) as Hcl.
  assert (Hdl : (length data ≤ 256)%nat)
    by (unfold data, clip; rewrite length_take, SectorSize_value; lia).
  destruct (blit buf off data) as [buf'| | | |] eqn:Hbl;
    try (rewrite blit_in_range in Hbl by lia; discriminate).
  cbn [mbind res_bind]. exists buf', s'. split_and!; try done.
  - by rewrite (blit_length _ _ _ _ Hbl).
  - apply blit_Done in Hbl as (_ & _ & ->). apply Forall_app; split; [by apply Forall_take|].
    apply Forall_app; split; [|by apply Forall_drop]. unfold data, clip.
    apply Forall_take, Forall_drop. by apply contents_bytes.
  - intros k Hk. apply (blit_lookup_out _ _ _ _ _ Hbl). lia.
  - intros k Hk Hkl. rewrite (blit_lookup_in _ _ _ _ _ Hbl).
    + unfold data, clip. rewrite SectorSize_value. rewrite lookup_take_lt, lookup_drop by lia.
      f_equal. lia.
    + unfold data, clip. rewrite length_take, length_drop, SectorSize_value. lia.
Qed.

(** After [read_partial] the buffer holds every byte of the file in the sectors
    concerned that the write does not replace. *)
Lemma read_partial_spec f buf first last pos n s :
  hdr_ok (hdr f) → bd_ok s → 0 ≤ first ≤ last → last < numSectors (hdr f) →
  first * 256 ≤ pos < (first + 1) * 256 → last * 256 ≤ pos + n - 1 < (last + 1) * 256 → 0 < n →
  length buf = Z.to_nat ((1 + last - first) * 256) → Forall is_byte buf →
  ∃ buf' s', read_partial f buf first last (pos =? first * SectorSize)
               (pos + n =? (last + 1) * SectorSize) s = Done (buf', s') ∧
    bd_ok s' ∧ same_sectors s s' ∧ length buf' = length buf ∧ Forall is_byte buf' ∧
    ∀ o : nat, (Z.to_nat first * 256 ≤ o < Z.to_nat (numBytes (hdr f)))%nat →
      (o < Z.to_nat (last + 1) * 256)%nat → (o < Z.to_nat pos ∨ Z.to_nat (pos + n) ≤ o)%nat →
      buf' !! (o - Z.to_nat first * 256)%nat = contents s (hdr f) !! o.
Proof.
  intros Hh Hs Hfl Hln Hp Hl Hn Hlen Hb. unfold read_partial.
  set (fa := pos =? _). set (la := pos + n =? _).
  assert (∃ b1 s1, (if negb fa then '(data, s) ← ReadAt f SectorSize (first * SectorSize) s;
      buf ← blit buf 0 data; Done (buf, s) else Done (buf, s)) = Done (b1, s1) ∧
      bd_ok s1 ∧ same_sectors s s1 ∧ length b1 = length buf ∧ Forall is_byte b1 ∧
      (fa = false → ∀ k : nat, (k < 256)%nat →
         (Z.to_nat first * 256 + k < Z.to_nat (numBytes (hdr f)))%nat →
         b1 !! k = contents s (hdr f) !! (Z.to_nat first * 256 + k)%nat))
    as (b1 & s1 & -> & Hs1 & Hss1 & Hl1 & Hb1 & Hk1).
  { destruct (negb fa) eqn:Hfa; simplify_tests.
    - destruct (read_one_sector f buf first 0 s) as (b1 & s1 & -> & ? & ? & ? & ? & _ & Hk); try (done || lia).
      exists b1, s1. by split_and!.
    - exists buf, s. split_and!; try done; congruence. }
  cbn [mbind res_bind]. rewrite <- (contents_same s s1) by done.
  destruct (negb la && _) eqn:Hc.
  - destruct (read_one_sector f b1 last ((last - first) * 256) s1)
      as (b2 & s2 & Hrd & Hs2 & Hss2 & Hl2 & Hb2 & Hout & Hin); try (done || lia).
    rewrite SectorSize_value in *. rewrite Hrd. exists b2, s2.
    split_and!; try done; [by eapply same_sectors_trans|lia|]. intros o Ho Ho2 Hor.
    destruct (decide (Z.to_nat last * 256 ≤ o)%nat).
    + specialize (Hin (o - Z.to_nat last * 256)%nat).
      replace (Z.to_nat last * 256 + (o - Z.to_nat last * 256))%nat with o in Hin by lia.
      rewrite <- Hin by lia. f_equal. lia.
    + rewrite Hout by lia. destruct Hor; [|lia].
      rewrite Hk1; [rewrite (contents_same s s1) by done; f_equal; lia| |lia..].
      unfold fa. rewrite ?SectorSize_value. apply Z.eqb_neq. lia.
  - exists b1, s1. split_and!; try done. intros o Ho Ho2 Hor.
    assert (fa = false ∧ (o < Z.to_nat (first + 1) * 256)%nat) as [Hfa Ho3].
    { apply andb_false_iff in Hc as [Hc|Hc]; unfold fa, la in *; rewrite SectorSize_value in *;
        [|apply orb_false_iff in Hc as [Hc1 Hc2]]; simplify_tests; split; try lia.
      all: apply Z.eqb_neq; lia. }
    rewrite Hk1 by (done || lia). rewrite (contents_same s s1) by done. f_equal. lia.
Qed.

(** The array with [bs] at [position]. *)
Definition overwrite (c : list Z) (position : Z) (bs : list Z) : list Z :=
  take (Z.to_nat position) c ++ bs ++ drop (Z.to_nat position + length bs) c.

Lemma overwrite_nil c position : overwrite c position [] = c.
Proof. unfold overwrite. simpl. rewrite Nat.add_0_r. apply take_drop. Qed.

Lemma overwrite_lookup c position bs (o : nat) :
  (Z.to_nat position + length bs ≤ length c)%nat →
  overwrite c position bs !! o =
  if decide (Z.to_nat position ≤ o < Z.to_nat position + length bs)%nat
  then bs !! (o - Z.to_nat position)%nat else c !! o.
Proof.
  intros Hl. set (p := Z.of_nat (Z.to_nat position)).
  assert (Hb : blit c p bs = Done (overwrite c position bs))
    by (unfold p; rewrite blit_in_range by lia; by rewrite Nat2Z.id).
  assert (Hp : Z.to_nat p = Z.to_nat position) by (unfold p; lia).
  case_decide as Hd; rewrite <- Hp in *.
  - apply (blit_lookup_in _ _ _ _ _ Hb). lia.
  - apply (blit_lookup_out _ _ _ _ _ Hb). lia.
Qed.

(** How many bytes a request at [position] gets of a file of [len] bytes. *)
Definition granted (len position n : Z) : Z := Z.max 0 (Z.min n (len - position)).

Lemma other_sectors_trans s1 s2 s3 h :
  same_sectors s1 s2 → other_sectors s2 s3 h → other_sectors s1 s3 h.
Proof. intros H1 H2 j Hj Hn. rewrite H2 by done. by apply H1. Qed.

(** The contents after the sectors have been written. *)
Lemma write_result h s s1 s2 b1 b2 src first last position n :
  hdr_ok h → bd_ok s → bd_ok s2 → same_sectors s s1 →
  0 ≤ first ≤ last → last < numSectors h →
  first * 256 ≤ position < (first + 1) * 256 → last * 256 ≤ position + n - 1 < (last + 1) * 256 →
  0 < n → position + n ≤ numBytes h →
  length src = Z.to_nat n → blit b1 (position - first * 256) src = Done b2 →
  (∀ o : nat, (Z.to_nat first * 256 ≤ o < Z.to_nat (numBytes h))%nat →
     (o < Z.to_nat (last + 1) * 256)%nat → (o < Z.to_nat position ∨ Z.to_nat (position + n) ≤ o)%nat →
     b1 !! (o - Z.to_nat first * 256)%nat = contents s h !! o) →
  (∀ o : nat, file_data s2 h !! o =
      if decide (Z.to_nat first * 256 ≤ o < Z.to_nat first * 256 + Z.to_nat (1 + last - first) * 256)%nat
      then b2 !! (o - Z.to_nat first * 256)%nat else file_data s1 h !! o) →
  contents s2 h = overwrite (contents s h) position src.
Proof.
  intros Hh Hs Hs2 Hss1 Hfl Hln Hp Hl Hn Hnb Hsl Hbl Hk1 Hfd.
  pose proof (contents_length s h Hh Hs) as Hcl. pose proof (contents_length s2 h Hh Hs2) as Hcl2.
  apply list_eq. intros o. rewrite overwrite_lookup by lia.
  destruct (decide (o < Z.to_nat (numBytes h))%nat) as [Ho|Ho].
  - unfold contents at 1. rewrite lookup_take_lt, Hfd by done.
    rewrite (file_data_same s s1) by done.
    assert (Hc : file_data s h !! o = contents s h !! o)
      by (unfold contents; by rewrite lookup_take_lt). rewrite Hc.
    destruct (decide (Z.to_nat position ≤ o < _)%nat) as [Hin|Hin].
    + rewrite decide_True by lia. rewrite (blit_lookup_in _ _ _ _ _ Hbl) by lia. f_equal. lia.
    + case_decide as Hw; [|done]. rewrite (blit_lookup_out _ _ _ _ _ Hbl) by lia. apply Hk1; lia.
  - rewrite (lookup_ge_None_2 (contents s2 h)), (lookup_ge_None_2 (contents s h)) by lia.
    by rewrite decide_False by lia.
Qed.

Lemma WriteAt_spec f from n position s :
  hdr_ok (hdr f) → bd_ok s → 0 ≤ position → position + n ≤ INT_MAX →
  n ≤ Z.of_nat (length from) → Forall is_byte from →
  ∃ s', WriteAt f from n position s = Done (granted (numBytes (hdr f)) position n, s') ∧
        bd_ok s' ∧ other_sectors s s' (hdr f) ∧
        contents s' (hdr f) = overwrite (contents s (hdr f)) position
          (take (Z.to_nat (granted (numBytes (hdr f)) position n)) from).
Proof.
  intros Hh Hs Hp Hmax Hfrom Hby. unfold WriteAt, FileLength.
  pose proof (numSectors_bounds _ Hh) as [Hns Hnb]. pose proof (contents_length s _ Hh Hs) as Hcl.
  destruct (_ || _) eqn:Hc.
  { exists s. assert (granted (numBytes (hdr f)) position n = 0) as ->
      by (unfold granted; apply orb_true_iff in Hc as [Hc|Hc]; simplify_tests; lia).
    split_and!; [done|done|by intros j|]. by rewrite overwrite_nil. }
  simplify_tests. rewrite s32_id by int_lia.
  set (n' := if _ <? _ then _ else n).
  assert (Hn' : n' = granted (numBytes (hdr f)) position n ∧ 0 < n' ≤ n ∧ position + n' ≤ numBytes (hdr f))
    by (unfold n', granted; destruct (_ <? _) eqn:?; simplify_tests; lia).
  destruct Hn' as [<- Hn']. clearbody n'.
  unfold divRoundDown. rewrite !cdiv_nonneg by (rewrite ?SectorSize_value; lia).
  set (first := position / SectorSize). set (last := (position + n' - 1) / SectorSize).
  assert (Hfl : 0 ≤ first ≤ last ∧ last < numSectors (hdr f) ∧ first * 256 ≤ position < (first + 1) * 256 ∧
                last * 256 ≤ position + n' - 1 < (last + 1) * 256)
    by (unfold first, last; rewrite SectorSize_value in *; Z.div_mod_to_equations; lia).
  clearbody first last.
  destruct (read_partial_spec f (fresh_bytes ((1 + last - first) * SectorSize)) first last position n' s)
    as (b1 & s1 & -> & Hs1 & Hss1 & Hl1 & Hb1 & Hk1); try (done || lia || apply fresh_is_byte).
  { rewrite SectorSize_value. apply fresh_length. lia. }
  rewrite fresh_length in Hl1 by (rewrite SectorSize_value; lia). rewrite SectorSize_value in Hl1.
  cbn [mbind res_bind]. rewrite slice_in_range by lia. cbn [mbind res_bind]. rewrite drop_0.
  set (src := take (Z.to_nat n') from). assert (Hsl : length src = Z.to_nat n')
    by (unfold src; rewrite length_take; lia).
  replace (position - first * SectorSize) with (position - first * 256) by (by rewrite SectorSize_value).
  destruct (blit b1 (position - first * 256) src) as [b2| | | |] eqn:Hbl;
    try (rewrite blit_in_range in Hbl by lia; discriminate).
  cbn [mbind res_bind].
  destruct (write_loop_spec (hdr f) (Z.to_nat (1 + last - first)) first b2 s1)
    as (s2 & -> & Hs2 & Ho2 & Hfd); try (done || lia).
  { rewrite (blit_length _ _ _ _ Hbl). lia. }
  { apply blit_Done in Hbl as (_ & _ & ->). apply Forall_app; split; [by apply Forall_take|].
    apply Forall_app; split; [by apply Forall_take|by apply Forall_drop]. }
  cbn [mbind res_bind]. exists s2. split_and!; [done|done|by eapply other_sectors_trans|].
  eapply (write_result (hdr f) s s1 s2 b1 b2 src first last position n'); done || lia || exact Hfd || apply Hfl.
Qed.

(** ** Sequences of calls on an open file *)
Inductive fcall : Type :=
| CSeek (position : Z)
| CRead (numBytes : Z)
| CReadAt (numBytes position : Z)
| CWrite (from : list Z)
| CWriteAt (from : list Z) (position : Z)
| CLength.

(** Positions and sizes whose sum is an [int]. *)
Definition legal (c : fcall) : Prop :=
  match c with
  | CSeek p => 0 ≤ p ≤ 2 ^ 30
  | CRead n => n < 2 ^ 30
  | CReadAt n p => 0 ≤ p ∧ p + n ≤ INT_MAX
  | CWrite bs => Z.of_nat (length bs) < 2 ^ 30 ∧ Forall is_byte bs
  | CWriteAt bs p => 0 ≤ p ∧ p + Z.of_nat (length bs) ≤ INT_MAX ∧ Forall is_byte bs
  | CLength => True
  end.

(** What a call returns: the bytes read, or the number it returns. *)
Definition fstep (c : fcall) f s : res (list Z * OpenFile.t * S) :=
  match c with
  | CSeek p => Done ([], Seek p f, s)
  | CRead n => Read f n s
  | CReadAt n p => '(bs, s) ← ReadAt f n p s; Done (bs, f, s)
  | CWrite bs => '(n, f, s) ← Write f bs (Z.of_nat (length bs)) s; Done ([n], f, s)
  | CWriteAt bs p => '(n, s) ← WriteAt f bs (Z.of_nat (length bs)) p s; Done ([n], f, s)
  | CLength => Done ([Length f], f, s)
  end.

Fixpoint frun (cs : list fcall) f s : res (list (list Z) * OpenFile.t * S) :=
  match cs with
  | [] => Done ([], f, s)
  | c :: cs =>
      '(r, f, s) ← fstep c f s;
      '(rs, f, s) ← frun cs f s;
      Done (r :: rs, f, s)
  end.

(** The same calls on an array of bytes with a position. *)
Definition write_array (a : list Z) (p : Z) (bs : list Z) : Z * list Z :=
  let n := granted (Z.of_nat (length a)) p (Z.of_nat (length bs)) in
  (n, overwrite a p (take (Z.to_nat n) bs)).

Definition array_step (c : fcall) (a : list Z) (pos : Z) : list Z * list Z * Z :=
  match c with
  | CSeek p => ([], a, p)
  | CRead n => let bs := clip a pos n in (bs, a, pos + Z.of_nat (length bs))
  | CReadAt n p => (clip a p n, a, pos)
  | CWrite bs => let '(n, a) := write_array a pos bs in ([n], a, pos + n)
  | CWriteAt bs p => let '(n, a) := write_array a p bs in ([n], a, pos)
  | CLength => ([Z.of_nat (length a)], a, pos)
  end.

Fixpoint array_run (cs : list fcall) (a : list Z) (pos : Z) : list (list Z) * list Z * Z :=
  match cs with
  | [] => ([], a, pos)
  | c :: cs =>
      let '(r, a, pos) := array_step c a pos in
      let '(rs, a, pos) := array_run cs a pos in
      (r :: rs, a, pos)
  end.

Lemma clip_length c p n : 0 ≤ p → Z.of_nat (length (clip c p n)) = granted (Z.of_nat (length c)) p n.
Proof. intros. unfold clip, granted. rewrite length_take, length_drop. lia. Qed.

Lemma MaxFileSize_value : MaxFileSize = 15872.
Proof. reflexivity. Qed.

(** One call: the abstract step is what the code does. *)
Lemma fstep_refines c f s :
  hdr_ok (hdr f) → bd_ok s → 0 ≤ seekPosition f ≤ 2 ^ 30 → legal c →
  ∃ r f' s', fstep c f s = Done (r, f', s') ∧ hdr f' = hdr f ∧ bd_ok s' ∧
    0 ≤ seekPosition f' ≤ 2 ^ 30 ∧ other_sectors s s' (hdr f) ∧
    array_step c (contents s (hdr f)) (seekPosition f) = (r, contents s' (hdr f), seekPosition f').
Proof.
  intros Hh Hs Hp Hl. pose proof (contents_length s _ Hh Hs) as Hcl.
  pose proof (ho_bytes _ Hh) as Hnb. rewrite MaxFileSize_value in Hnb.
  assert (Hlen : Z.of_nat (length (contents s (hdr f))) = numBytes (hdr f)) by lia.
  assert (Hgr : ∀ n, 0 ≤ seekPosition f + granted (numBytes (hdr f)) (seekPosition f) n ≤ 2 ^ 30)
    by (intros n; unfold granted; lia).
  destruct c as [p|n|n p|bs|bs p|]; cbn [fstep array_step legal] in *.
  - exists [], (Seek p f), s. split_and!; simpl; done || lia || by intros j.
  - unfold Read. destruct (ReadAt_spec f n (seekPosition f) s) as (s' & -> & Hs' & Hss);
      [done|done|lia|unfold_int; lia|].
    cbn [mbind res_bind]. eexists _, _, s'. split; [done|]. cbn [hdr seekPosition].
    rewrite clip_length, Hlen by lia. specialize (Hgr n). rewrite s32_id by (unfold_int; lia).
    split_and!; try done; try lia; [by intros j Hj _; apply Hss|]. by rewrite (contents_same s s').
  - destruct Hl as [Hp' Hmax]. destruct (ReadAt_spec f n p s) as (s' & -> & Hs' & Hss); [done..|].
    cbn [mbind res_bind]. eexists _, _, s'. split; [done|].
    split_and!; try done; try lia; [by intros j Hj _; apply Hss|]. by rewrite (contents_same s s').
  - destruct Hl as [Hl Hby]. unfold Write.
    destruct (WriteAt_spec f bs (Z.of_nat (length bs)) (seekPosition f) s) as (s' & -> & Hs' & Ho & Hc);
      [done|done|lia|unfold_int; lia|lia|done|].
    cbn [mbind res_bind]. eexists _, _, s'. split; [done|]. cbn [hdr seekPosition].
    unfold write_array. specialize (Hgr (Z.of_nat (length bs))).
    rewrite Hlen, Hc, s32_id by (unfold_int; lia). split_and!; done || lia.
  - destruct Hl as (Hp' & Hl & Hby).
    destruct (WriteAt_spec f bs (Z.of_nat (length bs)) p s) as (s' & -> & Hs' & Ho & Hc);
      [done|done|lia|lia|lia|done|].
    cbn [mbind res_bind]. eexists _, _, s'. split; [done|].
    unfold write_array. rewrite Hlen, Hc. split_and!; done || lia.
  - eexists _, f, s. split; [done|]. rewrite Hlen. split_and!; done || lia || by intros j.
Qed.

(** C13: an open file is an array of bytes of fixed length with a position: any
    sequence of Seek, Read, ReadAt, Write, WriteAt and Length returns what the
    same calls return on the array, requests past the end are cut off there, the
    bytes of the sectors around a partial write survive, and no sector outside
    the file is touched. *)
Theorem OpenFile_refines_array (cs : list fcall) f s :
  hdr_ok (hdr f) → bd_ok s → 0 ≤ seekPosition f ≤ 2 ^ 30 → Forall legal cs →
  ∃ rs f' s', frun cs f s = Done (rs, f', s') ∧ bd_ok s' ∧ other_sectors s s' (hdr f) ∧
    array_run cs (contents s (hdr f)) (seekPosition f) = (rs, contents s' (hdr f), seekPosition f').
Proof.
  intros Hh Hs Hp Hl. revert f s Hh Hs Hp. induction Hl as [|c cs Hc _ IH]; intros f s Hh Hs Hp.
  - exists [], f, s. by split_and!.
  - destruct (fstep_refines c f s) as (r & f1 & s1 & Hst & Hf1 & Hs1 & Hp1 & Ho1 & Ha1); try done.
    destruct (IH f1 s1) as (rs & f2 & s2 & Hr & Hs2 & Ho2 & Ha2); try done; [by rewrite Hf1|].
    rewrite Hf1 in *. cbn [frun array_run]. rewrite Hst, Ha1. cbn [mbind res_bind].
    rewrite Hr, Ha2. eexists _, f2, s2. split; [done|]. split_and!; try done.
    intros j Hj Hn. rewrite Ho2 by done. by apply Ho1.
Qed.

End spec.
End OpenFileSpec.

(** * Headers: the disk format, allocation and release *)
Module FileHeaderSpec.
Import Disk(SectorSize, NumSectors).
Import FileHeader OpenFileSpec.

(** A header as [int]s of the machine. *)
Record int_ok (h : FileHeader.t) : Prop := {
  io_bytes : is_s32 (numBytes h);
  io_sectors : is_s32 (numSectors h);
  io_data : Forall is_s32 (dataSectors h);
  io_length : length (dataSectors h) = 62%nat
}.

Lemma concat_words_u32 ws : concat (bytes_of 4 <$> ws) = concat (bytes_of 4 <$> (u32 <$> ws)).
Proof.
  rewrite <- list_fmap_compose. f_equal. apply list_fmap_ext. intros i w _. simpl.
  symmetry. apply (bytes_of_mod 4).
Qed.

Lemma to_bytes_length h : length (dataSectors h) = 62%nat → length (to_bytes h) = Z.to_nat SectorSize.
Proof.
  intros Hl. unfold to_bytes. rewrite (concat_length 4).
  - rewrite length_fmap. simpl. by rewrite Hl.
  - apply list.Forall_forall. intros l (w & -> & _)%list_elem_of_fmap. apply bytes_of_length.
Qed.

Lemma to_bytes_bytes h : Forall is_byte (to_bytes h).
Proof.
  apply Forall_concat, list.Forall_forall. intros l (w & -> & _)%list_elem_of_fmap. apply bytes_of_bytes.
Qed.

Lemma of_bytes_to_bytes h : int_ok h → of_bytes (to_bytes h) = h.
Proof.
  intros [Hb Hs Hd Hl]. unfold of_bytes, to_bytes.
  rewrite concat_words_u32, <- (app_nil_r (concat _)).
  replace 64%nat with (length (u32 <$> numBytes h :: numSectors h :: dataSectors h))
    by (rewrite length_fmap; simpl; by rewrite Hl).
  rewrite BitMap.words_of_bytes_concat.
  - rewrite <- list_fmap_compose.
    assert (s32 ∘ u32 <$> numBytes h :: numSectors h :: dataSectors h = numBytes h :: numSectors h :: dataSectors h)
      as ->; [|by destruct h].
    assert (Hall : Forall is_s32 (numBytes h :: numSectors h :: dataSectors h)) by (do 2 (constructor; [done|]); done).
    induction Hall as [|w ws Hw _ IH]; [done|]. simpl. f_equal; [|exact IH].
    rewrite s32_u32. by apply s32_id.
  - apply list.Forall_forall. intros w (v & -> & _)%list_elem_of_fmap. apply u32_range.
Qed.

Lemma hdr_ok_int_ok h :
  hdr_ok h → Forall is_s32 (dataSectors h) → int_ok h.
Proof.
  intros Hh Hd. pose proof (numSectors_bounds h Hh) as [Hns _]. destruct Hh as [Hb _ Hl _ _].
  rewrite MaxFileSize_value in Hb. change NumDirect with 62 in *.
  split; [unfold_int; lia|unfold_int; lia|done|lia].
Qed.

Section alloc.
Context {B : Type} `{!BitmapLike B}.
Implicit Types b : B.

(** The numbers that are free, as the map counts them. *)
Definition free b : list Z := filter (λ i, bm_bit b i = false) (seqZ 0 (bm_size b)).

Lemma free_NoDup b : NoDup (free b).
Proof. apply NoDup_filter, NoDup_seqZ. Qed.

Lemma elem_of_free b j : j ∈ free b ↔ 0 ≤ j < bm_size b ∧ bm_bit b j = false.
Proof. unfold free. rewrite list_elem_of_filter, elem_of_seqZ. intuition lia. Qed.

(** [b'] is [b] with the numbers in [ks] taken. *)
Definition taken b b' (ks : list Z) : Prop :=
  bm_ok b' ∧ bm_size b' = bm_size b ∧
  ∀ j, 0 ≤ j < bm_size b → (bm_bit b' j = true ↔ bm_bit b j = true ∨ j ∈ ks).

(** The map is not full while fewer than its free numbers have been taken. *)
Lemma Find_after b b1 ks :
  taken b b1 ks → (length ks < length (free b))%nat → (∀ k, k ∈ ks → k ∈ free b) →
  ∃ k b2, bm_Find b1 = Done (k, b2) ∧ k ∈ free b ∧ (k ∉ ks) ∧ taken b b2 (ks ++ [k]).
Proof.
  intros (Hok & Hsz & Hbit) Hlen Hin.
  destruct (bm_Find_spec b1 Hok) as [(k & b2 & Hf & Hk & Hkb & Hok2 & Hsz2 & Hb2)|[_ Hall]].
  - rewrite Hsz in *. exists k, b2.
    assert (Hnk : ¬ (bm_bit b k = true ∨ k ∈ ks)) by (rewrite <- Hbit, Hkb by done; done).
    split_and!; [done| |naive_solver|].
    + apply elem_of_free. split; [done|]. destruct (bm_bit b k); naive_solver.
    + split; [done|]. split; [congruence|]. intros j Hj. rewrite Hb2 by done. rewrite elem_of_app, list_elem_of_singleton.
      case_decide; [naive_solver|]. rewrite Hbit by done. naive_solver.
  - exfalso. assert (Hsub : free b ⊆+ ks).
    { apply NoDup_submseteq; [apply free_NoDup|]. intros j [Hj Hjb]%elem_of_free.
      rewrite Hsz in Hall.
      specialize (Hall j Hj). apply (Hbit j Hj) in Hall as [?|?]; congruence. }
    apply submseteq_length in Hsub. lia.
Qed.

Lemma take_insert_last (l : list Z) i x :
  (i < length l)%nat → take (S i) (<[i := x]> l) = take i l ++ [x].
Proof.
  intros Hi. rewrite (take_S_r _ _ x) by (by apply list_lookup_insert_eq).
  by rewrite take_insert_ge by lia.
Qed.

(** The loop of Allocate, as long as the header has room. *)
Definition allocate_body (i : Z) (x : list Z * B) : res (list Z * B) :=
  let '(sectors, freeMap) := x in
  '(k, freeMap) ← bm_Find freeMap;
  sectors ← aset sectors i k;
  Done (sectors, freeMap).

Lemma allocate_loop n (sectors0 : list Z) b :
  bm_ok b → bm_size b = NumSectors → length sectors0 = 62%nat →
  0 ≤ n ≤ 62 → n ≤ Z.of_nat (length (free b)) →
  ∃ sectors b', for_up (Z.to_nat n) 0 allocate_body (sectors0, b) = Done (sectors, b') ∧
    length sectors = 62%nat ∧ NoDup (take (Z.to_nat n) sectors) ∧
    (∀ k, k ∈ take (Z.to_nat n) sectors → k ∈ free b) ∧ taken b b' (take (Z.to_nat n) sectors) ∧
    (Forall is_s32 sectors0 → Forall is_s32 sectors).
Proof.
  intros Hok Hsz Hlen Hn Hc.
  destruct (for_up_inv (λ i '(sectors, b1), length sectors = 62%nat ∧
      NoDup (take (Z.to_nat i) sectors) ∧ (∀ k, k ∈ take (Z.to_nat i) sectors → k ∈ free b) ∧
      taken b b1 (take (Z.to_nat i) sectors) ∧ (Forall is_s32 sectors0 → Forall is_s32 sectors))
    allocate_body (Z.to_nat n) 0 (sectors0, b)) as ([sectors b'] & -> & HI).
  - change (Z.to_nat 0) with 0%nat. rewrite take_0.
    split_and!; [done|constructor|set_solver| |done]. split_and!; [done|done|]. intros j Hj. set_solver.
  - intros i [sectors b1] Hi (Hl1 & Hnd1 & Hfr1 & Htk1 & H321).
    destruct (Find_after b b1 (take (Z.to_nat i) sectors)) as (k & b2 & Hf & Hk & Hkn & Htk2);
      [done|rewrite length_take; lia|done|].
    unfold allocate_body. rewrite Hf. cbn [mbind res_bind]. rewrite aset_in_range by lia. cbn [mbind res_bind].
    eexists. split; [reflexivity|].
    replace (Z.to_nat (i + 1)) with (S (Z.to_nat i)) by lia. rewrite take_insert_last by lia.
    split_and!; [by rewrite length_insert|..].
    + apply list.NoDup_app. split_and!; [done| |apply NoDup_singleton]. intros x Hx ->%list_elem_of_singleton. done.
    + intros x [?| ->%list_elem_of_singleton]%elem_of_app; auto.
    + done.
    + intros H. apply Forall_insert; [auto|]. apply elem_of_free in Hk. rewrite Hsz in Hk.
      unfold NumSectors, Disk.SectorsPerTrack, Disk.NumTracks in Hk. unfold_int. lia.
  - rewrite Z.add_0_l, Z2Nat.id in HI by lia. by exists sectors, b'.
Qed.

(** One turn more overruns the header. *)
Lemma allocate_overruns n (sectors0 : list Z) b :
  bm_ok b → bm_size b = NumSectors → length sectors0 = 62%nat →
  62 < n → n ≤ Z.of_nat (length (free b)) → for_up (Z.to_nat n) 0 allocate_body (sectors0, b) = Undef.
Proof.
  intros Hok Hsz Hlen Hn Hc. replace (Z.to_nat n) with (Z.to_nat 62 + S (Z.to_nat n - 63))%nat by lia.
  destruct (allocate_loop 62 sectors0 b) as (sectors & b1 & Hl & Hl1 & _ & Hfr & Htk & _); [done..|lia|lia|].
  rewrite for_up_app, Hl. cbn [mbind res_bind for_up].
  destruct (Find_after b b1 (take (Z.to_nat 62) sectors)) as (k & b2 & Hf & _); [done|rewrite length_take; lia|done|].
  enough (allocate_body (0 + Z.of_nat (Z.to_nat 62)) (sectors, b1) = Undef) as -> by done.
  unfold allocate_body. rewrite Hf. cbn [mbind res_bind]. unfold aset. by rewrite Hl1.
Qed.

(** Allocation fails exactly when there are too few free sectors, leaving the map
    as it is; otherwise the header lists distinct sectors that were free, and
    exactly these are taken, if the file is not larger than a header can say: then
    the header is overrun. *)
Lemma Allocate_cases h b fileSize :
  bm_ok b → bm_size b = NumSectors → length (dataSectors h) = 62%nat → 0 ≤ fileSize →
  if decide (Z.of_nat (length (free b)) < divRoundUp fileSize SectorSize)
  then ∃ h', Allocate h b fileSize = Done (false, h', b)
  else if decide (fileSize ≤ MaxFileSize)
  then ∃ h' b', Allocate h b fileSize = Done (true, h', b') ∧ hdr_ok h' ∧ numBytes h' = fileSize ∧
         (∀ k, k ∈ blocks h' → k ∈ free b) ∧ taken b b' (blocks h') ∧
         (Forall is_s32 (dataSectors h) → Forall is_s32 (dataSectors h'))
  else Allocate h b fileSize = Undef.
Proof.
  intros Hok Hsz Hlen Hfs. unfold Allocate. cbn [numSectors numBytes dataSectors].
  rewrite bm_NumClear_spec by done. cbn [mbind res_bind]. fold (free b).
  pose proof (divRoundUp_nonneg fileSize SectorSize ltac:(lia) ltac:(done)) as Hn0.
  assert (Hn62 : divRoundUp fileSize SectorSize ≤ 62 ↔ fileSize ≤ MaxFileSize).
  { pose proof (divRoundUp_spec fileSize SectorSize ltac:(lia) ltac:(done)).
    rewrite MaxFileSize_value. rewrite SectorSize_value in *. lia. }
  set (n := divRoundUp fileSize SectorSize) in *. fold allocate_body.
  case_decide as Hc.
  { rewrite (proj2 (Z.ltb_lt _ _) Hc). eauto. }
  rewrite (proj2 (Z.ltb_ge _ _)) by lia. case_decide as Hmax.
  - destruct (allocate_loop n (dataSectors h) b) as (sectors & b' & -> & Hl & Hnd & Hfr & Htk & H32); [done..|lia|lia|].
    cbn [mbind res_bind]. eexists _, b'. split; [done|].
    split_and!; try done. split; unfold blocks; simpl; try done; [change NumDirect with 62; lia|].
    intros k [Hk _]%Hfr%elem_of_free. by rewrite <- Hsz.
  - rewrite allocate_overruns by (done || lia). done.
Qed.

Lemma Allocate_spec h b fileSize :
  bm_ok b → bm_size b = NumSectors → length (dataSectors h) = 62%nat →
  0 ≤ fileSize ≤ MaxFileSize →
  if decide (Z.of_nat (length (free b)) < divRoundUp fileSize SectorSize)
  then ∃ h', Allocate h b fileSize = Done (false, h', b)
  else ∃ h' b', Allocate h b fileSize = Done (true, h', b') ∧ hdr_ok h' ∧ numBytes h' = fileSize ∧
         (∀ k, k ∈ blocks h' → k ∈ free b) ∧ taken b b' (blocks h') ∧
         (Forall is_s32 (dataSectors h) → Forall is_s32 (dataSectors h')).
Proof.
  intros Hok Hsz Hlen [Hlo Hmax]. pose proof (Allocate_cases h b fileSize Hok Hsz Hlen Hlo) as H.
  by rewrite (decide_True (P := fileSize ≤ MaxFileSize)) in H.
Qed.

Lemma Deallocate_spec h b :
  hdr_ok h → bm_ok b → bm_size b = NumSectors → (∀ k, k ∈ blocks h → bm_bit b k = true) →
  ∃ b', Deallocate h b = Done b' ∧ bm_ok b' ∧ bm_size b' = bm_size b ∧
        ∀ j, 0 ≤ j < bm_size b → (bm_bit b' j = true ↔ bm_bit b j = true ∧ j ∉ blocks h).
Proof.
  intros Hh Hok Hsz Hm. unfold Deallocate. pose proof (numSectors_bounds h Hh) as [Hns _].
  destruct (for_up_inv (λ i b1, bm_ok b1 ∧ bm_size b1 = bm_size b ∧
      ∀ j, 0 ≤ j < bm_size b → (bm_bit b1 j = true ↔ bm_bit b j = true ∧ j ∉ take (Z.to_nat i) (blocks h)))
    (λ i freeMap, k ← aget (dataSectors h) i; used ← bm_Test freeMap k; ASSERT used;; bm_Clear freeMap k)
    (Z.to_nat (numSectors h)) 0 b) as (b' & -> & Hok' & Hsz' & Hb').
  - split_and!; try done. intros j Hj. set_solver.
  - intros i b1 Hi (Hok1 & Hsz1 & Hb1). destruct (block_at h i Hh) as (k & Hk & Hr & Hbs); [lia|].
    assert (Hka : aget (dataSectors h) i = Done k).
    { apply aget_Some; [lia|]. unfold blocks in Hk. by apply lookup_take_Some in Hk as [? _]. }
    rewrite Hka. cbn [mbind res_bind]. rewrite Hsz in *.
    rewrite bm_Test_spec by (done || lia). cbn [mbind res_bind].
    assert (Hki : k ∉ take (Z.to_nat i) (blocks h)).
    { intros (m & Hmk)%list_elem_of_lookup. apply lookup_take_Some in Hmk as [Hmk ?].
      pose proof (NoDup_lookup _ _ _ _ (ho_NoDup h Hh) Hmk Hk). lia. }
    rewrite bind_ASSERT.
    2: { apply Hb1; [done|]. split; [|done]. apply Hm. by eapply list_elem_of_lookup_2. }
    destruct (bm_Clear_spec b1 k Hok1) as (b2 & -> & Hok2 & Hsz2 & Hb2); [by rewrite Hsz1|].
    exists b2. split_and!; [done|done|congruence|]. intros j Hj. rewrite Hsz1 in Hb2. rewrite Hb2 by done.
    replace (Z.to_nat (i + 1)) with (S (Z.to_nat i)) by lia. rewrite (take_S_r _ _ _ Hk).
    rewrite elem_of_app, list_elem_of_singleton. case_decide; [naive_solver|]. rewrite Hb1 by done. naive_solver.
  - exists b'. split_and!; try done. intros j Hj. rewrite Hb' by done.
    rewrite Z.add_0_l, Z2Nat.id by lia. rewrite take_ge by (rewrite blocks_length by done; lia). done.
Qed.

(** Allocating a file's sectors and releasing them again gives the free map
    back, bit for bit; in between the header lists exactly the sectors that were
    taken, all of them free before and no sector twice.  A file that does not fit
    is refused, with the map unchanged. *)
Theorem Allocate_Deallocate_restores h b fileSize :
  bm_ok b → bm_size b = NumSectors → length (dataSectors h) = 62%nat →
  0 ≤ fileSize ≤ MaxFileSize →
  (Z.of_nat (length (free b)) < divRoundUp fileSize SectorSize ∧
   ∃ h', Allocate h b fileSize = Done (false, h', b)) ∨
  (∃ h' b1 b2, Allocate h b fileSize = Done (true, h', b1) ∧ NoDup (blocks h') ∧
     Z.of_nat (length (blocks h')) = divRoundUp fileSize SectorSize ∧
     (∀ j, 0 ≤ j < NumSectors → bm_bit b1 j = bm_bit b j || bool_decide (j ∈ blocks h')) ∧
     (∀ j, j ∈ blocks h' → bm_bit b j = false) ∧
     Deallocate h' b1 = Done b2 ∧ ∀ j, 0 ≤ j < NumSectors → bm_bit b2 j = bm_bit b j).
Proof.
  intros Hok Hsz Hlen Hfs. pose proof (Allocate_spec h b fileSize Hok Hsz Hlen Hfs) as Ha.
  case_decide; [left; auto|right]. destruct Ha as (h' & b1 & Ha & Hh' & Hnb & Hfr & (Hok1 & Hsz1 & Hb1) & _).
  destruct (Deallocate_spec h' b1) as (b2 & Hd & Hok2 & Hsz2 & Hb2); [done|done|congruence|..].
  { intros k Hk. apply Hb1; [|by right]. by apply Hfr, elem_of_free in Hk as [? _]. }
  exists h', b1, b2. rewrite Hsz1, Hsz in *. split_and!; [done|apply Hh'|..].
  - rewrite blocks_length, Z2Nat.id by (done || apply numSectors_bounds; done).
    rewrite (ho_sectors h' Hh'). by rewrite Hnb.
  - intros j Hj. apply eq_true_iff_eq. rewrite Hb1, orb_true_iff, bool_decide_eq_true by done. done.
  - intros j Hj%Hfr. by apply elem_of_free in Hj as [_ ?].
  - done.
  - intros j Hj. apply eq_true_iff_eq. rewrite Hb2, Hb1 by done.
    split; [intros [[?|?] ?]; [done|contradiction]|]. intros Hj1. split; [by left|].
    intros Hj2%Hfr. apply elem_of_free in Hj2 as [_ ?]. congruence.
Qed.

End alloc.

Section disk.
Context {S : Type} `{!BlockDev S}.
Implicit Types s : S.

(** A header survives the disk: [WriteBack] and then [FetchFrom] of the same
    sector return the header, word for word, and no other sector changes. *)
Theorem FileHeader_disk_roundtrip h sector s :
  int_ok h → bd_ok s → 0 ≤ sector < NumSectors →
  ∃ s1 s2, WriteBack h sector s = Done s1 ∧ FetchFrom sector s1 = Done (h, s2) ∧ bd_ok s2 ∧
    ∀ j, 0 ≤ j < NumSectors → j ≠ sector → bd_get s2 j = bd_get s j.
Proof.
  intros Hh Hs Hr. unfold WriteBack, FetchFrom.
  destruct (bd_write_spec s sector (to_bytes h) Hs Hr) as (s1 & -> & Hs1 & Hg1);
    [apply to_bytes_length, Hh|apply to_bytes_bytes|].
  destruct (bd_read_spec s1 sector Hs1 Hr) as (s2 & Hrd & Hs2 & Hg2). exists s1, s2.
  rewrite Hrd. cbn [mbind res_bind]. rewrite Hg1, decide_True, of_bytes_to_bytes by done.
  split_and!; try done. intros j Hj Hne. by rewrite Hg2, Hg1, decide_False.
Qed.

End disk.

(** A size above [MaxFileSize] is not refused: the header is overrun. *)
Lemma Allocate_overruns_header :
  Allocate (FileHeader.mk 0 0 (replicate 62 0)) (BitMap.mk 64 2 [0; 0]) (MaxFileSize + 1) = Undef.
Proof. vm_compute. reflexivity. Qed.

End FileHeaderSpec.

(** * Witnesses: the synchronous disk, and memory full of 170s *)
Module FileDemo.
Import FileHeader OpenFile OpenFileSpec FileHeaderSpec.

#[export] Program Instance demo_memory : FreshMemory := {
  fresh_bytes n := replicate (Z.to_nat n) 170
}.
Next Obligation. intros n _. apply length_replicate. Qed.
Next Obligation. intros n. apply Forall_replicate. unfold is_byte. lia. Qed.

(** A file of 700 bytes in the sectors 5, 9 and 6. *)
Definition demo_hdr : FileHeader.t := FileHeader.mk 700 3 ([5; 9; 6] ++ replicate 59 0).

Lemma demo_hdr_ok : hdr_ok demo_hdr.
Proof.
  split; try (by compute).
  - change (blocks demo_hdr) with [5; 9; 6]. change Disk.NumSectors with 1024. intros b Hb.
    repeat (apply elem_of_cons in Hb as [->|Hb]; [lia|]). by apply elem_of_nil in Hb.
  - change (blocks demo_hdr) with [5; 9; 6]. apply (bool_decide_unpack _). by vm_compute.
Qed.

Definition demo_calls : list fcall :=
  [CSeek 250; CWrite (replicate 10 65); CReadAt 4 248; CRead 1000; CLength].

Lemma demo_calls_legal : Forall legal demo_calls.
Proof.
  unfold demo_calls. constructor; [simpl; lia|]. constructor; [split; [simpl; lia|simpl; ranges]|].
  constructor; [split; unfold_int; lia|]. constructor; [simpl; lia|]. constructor; [exact I|constructor].
Qed.

Lemma OpenFile_refines_array_witness :
  ∃ d, SynchDisk.SynchDisk None = Done d ∧
  ∃ rs f' s', frun demo_calls
    (OpenFile.mk demo_hdr 0) (SynchDisk.start Interrupt.IntOn d) = Done (rs, f', s') ∧
    Z.of_nat (length rs) = 5 ∧ seekPosition f' = 700.
Proof.
  destruct (SynchDisk.fresh_ok Interrupt.IntOn) as (d & H & Hok & _).
  exists d. split; [exact H|].
  destruct (OpenFile_refines_array demo_calls
    (OpenFile.mk demo_hdr 0) (SynchDisk.start Interrupt.IntOn d)) as (rs & f' & s' & Hr & _ & _ & Ha).
  - apply demo_hdr_ok.
  - exact Hok.
  - simpl. lia.
  - apply demo_calls_legal.
  - exists rs, f', s'. split; [exact Hr|]. cbn -[contents overwrite clip granted] in Ha.
    injection Ha as Hrs _ Hpos. rewrite <- Hrs, <- Hpos. split; [reflexivity|].
    rewrite clip_length by (unfold granted; lia).
    assert (Hl : length (contents (SynchDisk.start Interrupt.IntOn d) demo_hdr) = 700%nat)
      by (apply contents_length; [apply demo_hdr_ok|exact Hok]).
    unfold overwrite. rewrite !length_app, !length_take, !length_drop, !Hl. unfold granted. simpl. lia.
Defined.

Lemma Allocate_Deallocate_restores_witness :
  ∃ h' b1 b2, Allocate demo_hdr (BitMap.mk 1024 32 (3 :: replicate 31 0)) 700 = Done (true, h', b1) ∧
    blocks h' = [2; 3; 4] ∧ Deallocate h' b1 = Done b2 ∧ bm_bit b2 3 = false.
Proof.
  destruct (Allocate_Deallocate_restores demo_hdr (BitMap.mk 1024 32 (3 :: replicate 31 0)) 700)
    as [[H _]|(h' & b1 & b2 & H & _ & _ & _ & _ & Hd & Hb)].
  - split; [simpl; lia|reflexivity|reflexivity|ranges].
  - reflexivity.
  - reflexivity.
  - by compute.
  - vm_compute in H. discriminate.
  - exists h', b1, b2. vm_compute in H. injection H as <- <-.
    split; [reflexivity|]. split; [reflexivity|]. split; [exact Hd|]. rewrite Hb by (by compute). reflexivity.
Defined.

Lemma FileHeader_disk_roundtrip_witness :
  ∃ d, SynchDisk.SynchDisk None = Done d ∧
  ∃ s1 s2, WriteBack demo_hdr 17 (SynchDisk.start Interrupt.IntOn d) = Done s1 ∧
           FetchFrom 17 s1 = Done (demo_hdr, s2).
Proof.
  destruct (SynchDisk.fresh_ok Interrupt.IntOn) as (d & H & Hok & _).
  exists d. split; [exact H|].
  destruct (FileHeader_disk_roundtrip demo_hdr 17 (SynchDisk.start Interrupt.IntOn d))
    as (s1 & s2 & H1 & H2 & _).
  - split; [unfold_int; simpl; lia|unfold_int; simpl; lia| |reflexivity]. simpl. ranges.
  - exact Hok.
  - change Disk.NumSectors with 1024. lia.
  - exists s1, s2. split; assumption.
Defined.

End FileDemo.
