(* ===== verification/Directory.v ===== *)
(** Directory: the directory of the file system, src/code/filesys/directory.{h,cc}.

    The table is the array of the code; an entry has the 20 bytes the compiler
    gives it (the flag, three bytes of padding, the sector, the ten characters of
    the name, two bytes of padding), so that the table can be read from and
    written to its file byte by byte.  A C string is the list of its characters
    before the terminating 0.  [DirectorySpec] shows that a directory is a finite
    map from names of at most nine characters, with room for [tableSize] names. *)

From S2P Require Import Prelude Bitmap Lists Machine Interrupt Disk FileHdr.

Module Directory.

Definition FileNameMaxLen : Z := 9.

Record DirectoryEntry : Type := mkEntry {
  inUse : Z;
  sector : Z;
  name : list Z;
  padding : list Z
}.

Definition entry_size : Z := 20.

Definition entry_bytes (e : DirectoryEntry) : list Z :=
  inUse e :: take 3 (padding e) ++ bytes_of 4 (sector e) ++ name e ++ drop 3 (padding e).

Definition entry_of_bytes (bs : list Z) : DirectoryEntry :=
  mkEntry (default 0 (bs !! 0%nat)) (s32 (word_of (take 4 (drop 4 bs))))
          (take 10 (drop 8 bs)) (take 3 (drop 1 bs) ++ take 2 (drop 18 bs)).

Fixpoint entries_of_bytes (n : nat) (bs : list Z) : list DirectoryEntry :=
  match n with
  | O => []
  | S n => entry_of_bytes (take 20 bs) :: entries_of_bytes n (drop 20 bs)
  end.

Record t : Type := mk {
  tableSize : Z;
  table : list DirectoryEntry
}.

Definition set_inUse (e : DirectoryEntry) (b : Z) : DirectoryEntry :=
  mkEntry b (sector e) (name e) (padding e).

(** [if (table[i].inUse)] *)
Definition in_use (e : DirectoryEntry) : bool := negb (inUse e =? 0).

(** ** The C string functions *)

(** [!strncmp(a, b, n)] *)
Fixpoint strncmp_eq (n : nat) (a b : list Z) : bool :=
  match n with
  | O => true
  | S n =>
      let x := default 0 (head a) in
      let y := default 0 (head b) in
      if negb (x =? y) then false
      else if x =? 0 then true
      else strncmp_eq n (tail a) (tail b)
  end.

(** [strncpy(dst, src, n)]: the string, then zeros up to [n] characters. *)
Definition strncpy (n : nat) (dst src : list Z) : list Z :=
  take n (src ++ replicate n 0) ++ drop n dst.

(** What [printf("%s")] prints: the characters before the first 0, which has to
    be in the array. *)
Fixpoint cstr (l : list Z) : list Z :=
  match l with
  | [] => []
  | c :: l => if c =? 0 then [] else c :: cstr l
  end.
Definition print_name (l : list Z) : res (list Z) :=
  if decide (0 ∈ l) then Done (cstr l) else Undef.

Section ops.
Context {V : Type} `{!BlockDev V} `{!FreshMemory}.

Definition table_bytes (d : t) : list Z := concat (entry_bytes <$> table d).

Definition Directory (size : Z) : t :=
  mk size ((λ e, set_inUse e 0) <$>
           entries_of_bytes (Z.to_nat size) (fresh_bytes (size * entry_size))).

Definition FetchFrom (d : t) (file : OpenFile.t) (s : V) : res (t * V) :=
  '(bs, s) ← OpenFile.ReadAt file (tableSize d * entry_size) 0 s;
  bytes ← blit (table_bytes d) 0 bs;
  Done (mk (tableSize d) (entries_of_bytes (length (table d)) bytes), s).

Definition WriteBack (d : t) (file : OpenFile.t) (s : V) : res V :=
  '(_, s) ← OpenFile.WriteAt file (table_bytes d) (tableSize d * entry_size) 0 s;
  Done s.

Fixpoint FindIndex_loop (n : nat) (i : Z) (d : t) (nm : list Z) : res Z :=
  match n with
  | O => Done (-1)
  | S n =>
      e ← aget (table d) i;
      if in_use e && strncmp_eq (Z.to_nat FileNameMaxLen) (name e) nm then Done i
      else FindIndex_loop n (i + 1) d nm
  end.

Definition FindIndex (d : t) (nm : list Z) : res Z :=
  FindIndex_loop (Z.to_nat (tableSize d)) 0 d nm.

Definition Find (d : t) (nm : list Z) : res Z :=
  i ← FindIndex d nm;
  if negb (i =? -1) then e ← aget (table d) i; Done (sector e)
  else Done (-1).

Fixpoint Add_loop (n : nat) (i : Z) (d : t) (nm : list Z) (newSector : Z) : res (bool * t) :=
  match n with
  | O => Done (false, d)
  | S n =>
      e ← aget (table d) i;
      if negb (in_use e) then
        let e := mkEntry 1 newSector (strncpy (Z.to_nat FileNameMaxLen) (name e) nm) (padding e) in
        tbl ← aset (table d) i e;
        Done (true, mk (tableSize d) tbl)
      else Add_loop n (i + 1) d nm newSector
  end.

Definition Add (d : t) (nm : list Z) (newSector : Z) : res (bool * t) :=
  i ← FindIndex d nm;
  if negb (i =? -1) then Done (false, d)
  else Add_loop (Z.to_nat (tableSize d)) 0 d nm newSector.

Definition Remove (d : t) (nm : list Z) : res (bool * t) :=
  i ← FindIndex d nm;
  if i =? -1 then Done (false, d)
  else
    e ← aget (table d) i;
    tbl ← aset (table d) i (set_inUse e 0);
    Done (true, mk (tableSize d) tbl).

(** The names [List] prints. *)
Definition List (d : t) : res (list (list Z)) :=
  for_up (Z.to_nat (tableSize d)) 0
    (λ i out,
       e ← aget (table d) i;
       if in_use e then nm ← print_name (name e); Done (out ++ [nm])
       else Done out) [].

(** The names, sectors and dumps [Print] prints. *)
Definition Print (d : t) (s : V) : res (list (list Z * Z * list (list Z)) * V) :=
  for_up (Z.to_nat (tableSize d)) 0
    (λ i '(out, s),
       e ← aget (table d) i;
       if in_use e then
         nm ← print_name (name e);
         '(h, s) ← FileHeader.FetchFrom (sector e) s;
         '(lines, s) ← FileHeader.Print h s;
         Done (out ++ [(nm, sector e, lines)], s)
       else Done (out, s)) ([], s).

End ops.
End Directory.

Module DirectorySpec.
Import Directory.

#[local] Arguments Z.eqb : simpl never.

(** The part of a name that the directory looks at. *)
Definition key (nm : list Z) : list Z := cstr (take 9 nm).

Record entry_ok (e : DirectoryEntry) : Prop := {
  eo_inUse : is_byte (inUse e);
  eo_sector : is_s32 (sector e);
  eo_name : length (name e) = 10%nat ∧ Forall is_byte (name e);
  eo_padding : length (padding e) = 5%nat ∧ Forall is_byte (padding e)
}.

(** The names in use, with their sectors, in the order of the table. *)
Definition used (d : t) : list (list Z * Z) :=
  (λ e, (key (name e), sector e)) <$> filter (λ e, in_use e = true) (table d).

Record dir_ok (d : t) : Prop := {
  do_size : Z.of_nat (length (table d)) = tableSize d;
  do_entries : Forall entry_ok (table d);
  do_names : NoDup (fst <$> used d)
}.

(** ** Strings *)

Lemma strncmp_eq_cstr n a b : strncmp_eq n a b = bool_decide (cstr (take n a) = cstr (take n b)).
Proof.
  revert a b. induction n as [|n IH]; intros a b; [done|].
  destruct a as [|x a], b as [|y b];
    cbn [strncmp_eq head tail from_option take cstr default negb]; unfold id.
  - by rewrite bool_decide_true.
  - destruct (y =? 0) eqn:E; simplify_tests.
    + subst. by rewrite bool_decide_true.
    + rewrite (proj2 (Z.eqb_neq 0 y)) by lia. by rewrite bool_decide_false.
  - destruct (x =? 0) eqn:E; cbn [negb]; [by rewrite bool_decide_true|by rewrite bool_decide_false].
  - destruct (x =? y) eqn:E; simplify_tests; cbn [negb].
    + subst y. destruct (x =? 0); [by rewrite bool_decide_true|].
      rewrite IH. apply bool_decide_ext. split; congruence.
    + rewrite bool_decide_false; [done|].
      destruct (x =? 0) eqn:?, (y =? 0) eqn:?; simplify_tests; naive_solver.
Qed.

Lemma name_matches e nm :
  strncmp_eq (Z.to_nat FileNameMaxLen) (name e) nm = bool_decide (key (name e) = key nm).
Proof. apply strncmp_eq_cstr. Qed.

Lemma cstr_app_zero a b : Forall (λ c, c ≠ 0) a → cstr (a ++ 0 :: b) = a.
Proof.
  induction 1 as [|c a Hc _ IH]; simpl; [done|].
  by rewrite (proj2 (Z.eqb_neq c 0)), IH.
Qed.

Lemma cstr_nonzero a : Forall (λ c, c ≠ 0) a → cstr a = a.
Proof.
  induction 1 as [|c a Hc _ IH]; simpl; [done|]. by rewrite (proj2 (Z.eqb_neq c 0)), IH.
Qed.

(** The stored name is looked up by the name it was stored under. *)
Lemma key_strncpy dst nm :
  Forall (λ c, c ≠ 0) nm → key (strncpy (Z.to_nat FileNameMaxLen) dst nm) = key nm.
Proof.
  intros Hz. unfold key, strncpy. change (Z.to_nat FileNameMaxLen) with 9%nat.
  rewrite take_app_le by (rewrite length_take, length_app, length_replicate; lia).
  rewrite take_take, Nat.min_id, take_app. rewrite (cstr_nonzero (take 9 nm)) by (by apply Forall_take).
  destruct (decide (9 ≤ length nm)%nat).
  - replace (9 - length nm)%nat with 0%nat by lia. rewrite take_0, app_nil_r.
    apply cstr_nonzero. by apply Forall_take.
  - rewrite take_replicate. replace ((9 - length nm) `min` 9)%nat with (S (8 - length nm)) by lia.
    simpl replicate. apply cstr_app_zero. by apply Forall_take.
Qed.

(** ** The operations on the table *)

Definition entry_use (e : DirectoryEntry) : list (list Z * Z) :=
  if in_use e then [(key (name e), sector e)] else [].

Lemma used_alt d : used d = concat (entry_use <$> table d).
Proof.
  unfold used. induction (table d) as [|e l IH]; [done|]. rewrite filter_cons.
  cbn [fmap list_fmap concat]. unfold entry_use at 1. destruct (in_use e).
  - rewrite decide_True by done. cbn [fmap list_fmap app]. f_equal. exact IH.
  - rewrite decide_False by done. exact IH.
Qed.

(** Replacing one entry. *)
Lemma used_insert d (i : nat) e e' :
  table d !! i = Some e →
  ∃ rest, used d ≡ₚ entry_use e ++ rest ∧
          used (mk (tableSize d) (<[i := e']> (table d))) ≡ₚ entry_use e' ++ rest.
Proof.
  intros Hi. exists (concat (entry_use <$> take i (table d)) ++ concat (entry_use <$> drop (S i) (table d))).
  rewrite !used_alt. cbn [table]. rewrite insert_take_drop by (by eapply lookup_lt_Some).
  rewrite <- (take_drop_middle _ _ _ Hi) at 1.
  rewrite !fmap_app, !concat_app. cbn [fmap list_fmap concat].
  rewrite !(Permutation_app_comm (concat (entry_use <$> take i (table d)))), <- !app_assoc.
  split; f_equiv; apply Permutation_app_comm.
Qed.

Lemma elem_of_used d k sec :
  (k, sec) ∈ used d ↔ ∃ e, e ∈ table d ∧ in_use e = true ∧ key (name e) = k ∧ sector e = sec.
Proof.
  unfold used. rewrite list_elem_of_fmap. split.
  - intros (e & [= -> ->] & [He Hin]%list_elem_of_filter). eauto.
  - intros (e & Hin & He & <- & <-). exists e. split; [done|]. by apply list_elem_of_filter.
Qed.

Lemma elem_of_used_keys d k :
  k ∈ (fst <$> used d) ↔ ∃ e, e ∈ table d ∧ in_use e = true ∧ key (name e) = k.
Proof.
  rewrite list_elem_of_fmap. split.
  - intros ([k' sec] & -> & (e & ? & ? & ? & _)%elem_of_used). eauto.
  - intros (e & ? & ? & ?). exists (k, sector e). split; [done|]. apply elem_of_used. eauto.
Qed.

Lemma FindIndex_loop_spec n i d nm :
  0 ≤ i → i + Z.of_nat n = Z.of_nat (length (table d)) →
  (∃ j e, FindIndex_loop n i d nm = Done j ∧ 0 ≤ j ∧ table d !! Z.to_nat j = Some e ∧
          in_use e = true ∧ key (name e) = key nm) ∨
  (FindIndex_loop n i d nm = Done (-1) ∧
   ∀ j e, (Z.to_nat i ≤ j)%nat → table d !! j = Some e → in_use e = true → key (name e) ≠ key nm).
Proof.
  revert i. induction n as [|n IH]; intros i Hi Hn; cbn [FindIndex_loop].
  - right. split; [done|]. intros j e Hj He. apply lookup_lt_Some in He. lia.
  - destruct (aget_in_range (table d) i) as (e & -> & He); [lia|]. cbn [mbind res_bind].
    rewrite name_matches. destruct (in_use e && _) eqn:Hm; simplify_tests.
    + left. exists i, e. split_and!; try done. by eapply bool_decide_eq_true_1.
    + destruct (IH (i + 1)) as [?|[Hf Hno]]; [lia|lia|by left|]. right. split; [done|].
      intros j e' Hj He' Hu. destruct (decide (j = Z.to_nat i)) as [->|Hne].
      * assert (e' = e) as -> by congruence. rewrite Hu in Hm. simpl in Hm.
        by apply bool_decide_eq_false in Hm.
      * apply (Hno j e'); [lia|done|done].
Qed.

Lemma FindIndex_spec d nm :
  dir_ok d →
  (∃ j e, FindIndex d nm = Done j ∧ 0 ≤ j ∧ table d !! Z.to_nat j = Some e ∧
          in_use e = true ∧ key (name e) = key nm) ∨
  (FindIndex d nm = Done (-1) ∧ key nm ∉ (fst <$> used d)).
Proof.
  intros [Hsz _ _]. destruct (FindIndex_loop_spec (Z.to_nat (tableSize d)) 0 d nm) as [?|[Hf Hno]];
    [lia|lia|by left|]. right. split; [exact Hf|].
  intros (e & [j He]%list_elem_of_lookup & Hu & Hk)%elem_of_used_keys. apply (Hno j e); [lia|done..].
Qed.

(** The directory as a map from names to sectors. *)
Definition dmap (d : t) : gmap (list Z) Z := list_to_map (used d).

Lemma Dir_Find_spec d nm : dir_ok d → Find d nm = Done (default (-1) (dmap d !! key nm)).
Proof.
  intros Hd. unfold Find. destruct (FindIndex_spec d nm Hd) as [(j & e & -> & Hj & He & Hu & Hk)|[-> Hno]].
  - cbn [mbind res_bind]. rewrite (proj2 (Z.eqb_neq j (-1))) by lia. cbn [negb].
    rewrite (aget_Some _ _ _ Hj He). cbn [mbind res_bind].
    assert (Hl : dmap d !! key nm = Some (sector e)).
    { apply elem_of_list_to_map_1; [apply Hd|]. apply elem_of_used.
      exists e. split_and!; try done. by eapply list_elem_of_lookup_2. }
    by rewrite Hl.
  - cbn [mbind res_bind]. change (-1 =? -1) with true. cbn [negb].
    unfold dmap. by rewrite not_elem_of_list_to_map_1.
Qed.

Lemma Add_loop_spec n i d nm sec :
  0 ≤ i → i + Z.of_nat n = Z.of_nat (length (table d)) →
  (∃ (j : nat) e, table d !! j = Some e ∧ in_use e = false ∧
     Add_loop n i d nm sec = Done (true, mk (tableSize d)
       (<[j := mkEntry 1 sec (strncpy (Z.to_nat FileNameMaxLen) (name e) nm) (padding e)]> (table d)))) ∨
  (Add_loop n i d nm sec = Done (false, d) ∧
   ∀ j e, (Z.to_nat i ≤ j)%nat → table d !! j = Some e → in_use e = true).
Proof.
  revert i. induction n as [|n IH]; intros i Hi Hn; cbn [Add_loop].
  - right. split; [done|]. intros j e Hj He. apply lookup_lt_Some in He. lia.
  - destruct (aget_in_range (table d) i) as (e & -> & He); [lia|]. cbn [mbind res_bind].
    destruct (negb (in_use e)) eqn:Hu; simplify_tests.
    + left. exists (Z.to_nat i), e. split_and!; try done. by rewrite aset_in_range by lia.
    + destruct (IH (i + 1)) as [?|[Hf Hall]]; [lia|lia|by left|]. right. split; [done|].
      intros j e' Hj He'. destruct (decide (j = Z.to_nat i)) as [->|Hne]; [congruence|].
      apply (Hall j e'); [lia|done].
Qed.

(** A C string: characters, none of them 0. *)
Definition c_string (nm : list Z) : Prop := Forall (λ c, is_byte c ∧ c ≠ 0) nm.

Lemma strncpy_ok dst nm :
  length dst = 10%nat → Forall is_byte dst → c_string nm →
  length (strncpy (Z.to_nat FileNameMaxLen) dst nm) = 10%nat ∧
  Forall is_byte (strncpy (Z.to_nat FileNameMaxLen) dst nm).
Proof.
  intros Hl Hb Hc. unfold strncpy. change (Z.to_nat FileNameMaxLen) with 9%nat. split.
  - rewrite length_app, length_take, length_app, length_replicate, length_drop. lia.
  - apply Forall_app; split; [|by apply Forall_drop]. apply Forall_take, Forall_app; split.
    + eapply Forall_impl; [exact Hc|]. by intros ? [? _].
    + apply Forall_replicate. unfold is_byte. lia.
Qed.

Lemma Add_spec d nm sec :
  dir_ok d → c_string nm → is_s32 sec →
  if decide (key nm ∈ (fst <$> used d) ∨ Z.of_nat (length (used d)) = tableSize d)
  then Add d nm sec = Done (false, d)
  else ∃ d', Add d nm sec = Done (true, d') ∧ dir_ok d' ∧ tableSize d' = tableSize d ∧
             used d' ≡ₚ (key nm, sec) :: used d.
Proof.
  intros Hd Hnm Hsec. unfold Add.
  destruct (FindIndex_spec d nm Hd) as [(j & e & -> & Hj & He & Hu & Hk)|[-> Hno]]; cbn [mbind res_bind].
  { rewrite decide_True; [by rewrite (proj2 (Z.eqb_neq j (-1))) by lia|]. left.
    apply elem_of_used_keys. exists e. split_and!; try done. by eapply list_elem_of_lookup_2. }
  change (-1 =? -1) with true. cbn [negb]. destruct Hd as [Hsz Hen Hnd].
  destruct (Add_loop_spec (Z.to_nat (tableSize d)) 0 d nm sec) as [(j & e & He & Hu & ->)|[-> Hall]]; [lia|lia|..].
  - set (e' := mkEntry _ _ _ _). destruct (used_insert d j e e' He) as (rest & H1 & H2).
    assert (Hk : key (name e') = key nm)
      by (apply key_strncpy; eapply Forall_impl; [exact Hnm|]; by intros ? [_ ?]).
    assert (Hu' : entry_use e' = [(key nm, sec)]).
    { unfold entry_use. change (in_use e') with true. by rewrite Hk. }
    rewrite Hu' in H2. unfold entry_use in H1. rewrite Hu in H1. simpl app in *.
    rewrite decide_False.
    2: { intros [?|Hfull]; [done|]. assert (Hlt : (length (filter (λ e, in_use e = true) (table d)) < length (table d))%nat).
         { apply length_filter_lt with (x := e); [by eapply list_elem_of_lookup_2|congruence]. }
         unfold used in Hfull. rewrite length_fmap in Hfull. lia. }
    eexists. split; [done|]. rewrite <- H1 in H2. split_and!; [|done|done]. split.
    + cbn [table tableSize]. by rewrite length_insert.
    + apply Forall_insert; [done|]. rewrite list.Forall_forall in Hen.
      destruct (Hen e) as [_ _ [Hn1 Hn2] Hp]; [by eapply list_elem_of_lookup_2|].
      split; [unfold is_byte; simpl; lia|done|by apply strncpy_ok|done].
    + rewrite H2. simpl. constructor; [done|]. done.
  - rewrite decide_True; [done|]. right. rewrite <- Hsz. unfold used. rewrite length_fmap. f_equal. f_equal.
    apply filter_everything. intros e [j Hj]%list_elem_of_lookup. apply (Hall j e); [lia|done].
Qed.

Lemma Dir_Remove_spec d nm :
  dir_ok d →
  if decide (key nm ∈ (fst <$> used d))
  then ∃ d' sec, Remove d nm = Done (true, d') ∧ dir_ok d' ∧ tableSize d' = tableSize d ∧
                 used d ≡ₚ (key nm, sec) :: used d'
  else Remove d nm = Done (false, d).
Proof.
  intros Hd. unfold Remove.
  destruct (FindIndex_spec d nm Hd) as [(j & e & -> & Hj & He & Hu & Hk)|[-> Hno]]; cbn [mbind res_bind].
  - rewrite decide_True.
    2: { apply elem_of_used_keys. exists e. split_and!; try done. by eapply list_elem_of_lookup_2. }
    rewrite (proj2 (Z.eqb_neq j (-1))) by lia. rewrite (aget_Some _ _ _ Hj He). cbn [mbind res_bind].
    pose proof (lookup_lt_Some _ _ _ He). rewrite aset_in_range by lia. cbn [mbind res_bind].
    destruct (used_insert d (Z.to_nat j) e (set_inUse e 0) He) as (rest & H1 & H2).
    unfold entry_use in H1, H2. rewrite Hu, Hk in H1. change (in_use (set_inUse e 0)) with false in H2.
    simpl app in *. eexists _, (sector e). rewrite <- H2 in H1.
    split_and!; [done| |done|done]. destruct Hd as [Hsz Hen Hnd]. split.
    + cbn [table tableSize]. by rewrite length_insert.
    + apply Forall_insert; [done|]. rewrite list.Forall_forall in Hen.
      destruct (Hen e) as [_ ? ? ?]; [by eapply list_elem_of_lookup_2|]. by split.
    + rewrite H1 in Hnd. simpl in Hnd. by apply NoDup_cons in Hnd as [_ ?].
  - by rewrite decide_False.
Qed.

Lemma dmap_perm d l : dir_ok d → used d ≡ₚ l → dmap d = list_to_map l.
Proof. intros Hd Hp. apply list_to_map_proper; [apply Hd|done]. Qed.

Lemma dmap_size d : dir_ok d → size (dmap d) = length (used d).
Proof. intros Hd. apply map_size_list_to_map, Hd. Qed.

Lemma dmap_key d k : dir_ok d → k ∈ (fst <$> used d) ↔ is_Some (dmap d !! k).
Proof.
  intros Hd. unfold dmap. split.
  - intros ([k' sec] & -> & Hin)%list_elem_of_fmap. exists sec. by apply elem_of_list_to_map_1; [apply Hd|].
  - intros [sec Hl]. apply elem_of_list_to_map_2 in Hl. apply list_elem_of_fmap. by exists (k, sec).
Qed.

(** ** The table in its file *)

Lemma entry_bytes_length e : entry_ok e → length (entry_bytes e) = 20%nat.
Proof.
  intros [_ _ [Hn _] [Hp _]]. unfold entry_bytes. cbn [length].
  rewrite !length_app, length_take, length_drop, bytes_of_length, Hn, Hp. lia.
Qed.

Lemma entry_bytes_bytes e : entry_ok e → Forall is_byte (entry_bytes e).
Proof.
  intros [Hi _ [_ Hn] [_ Hp]]. unfold entry_bytes. constructor; [done|].
  repeat (apply Forall_app; split); auto using Forall_take, Forall_drop, bytes_of_bytes.
Qed.

Lemma entry_of_entry_bytes e : entry_ok e → entry_of_bytes (entry_bytes e) = e.
Proof.
  intros [_ Hs [Hn _] [Hp _]]. destruct e as [u sec nm pad]. simpl in *.
  destruct pad as [|p0 [|p1 [|p2 [|p3 [|p4 [|]]]]]]; try discriminate.
  do 10 (destruct nm as [|? nm]; [discriminate|]). destruct nm; [|discriminate].
  unfold entry_of_bytes, entry_bytes. cbn [inUse sector name padding take drop app].
  pose proof (bytes_of_length 4 sec) as Hl. pose proof (word_of_bytes_of 4 sec) as Hw.
  destruct (bytes_of 4 sec) as [|w0 [|w1 [|w2 [|w3 [|]]]]]; try discriminate.
  cbn [app take drop lookup list_lookup default from_option]. rewrite Hw.
  change (256 ^ Z.of_nat 4) with (2 ^ 32). fold (u32 sec). by rewrite s32_u32, s32_id.
Qed.

Lemma entries_of_table_bytes l rest :
  Forall entry_ok l → entries_of_bytes (length l) (concat (entry_bytes <$> l) ++ rest) = l.
Proof.
  induction 1 as [|e l He _ IH]; [done|]. cbn [length entries_of_bytes fmap list_fmap concat].
  rewrite <- app_assoc. pose proof (entry_bytes_length e He) as Hl.
  rewrite take_app_length' by done. rewrite drop_app_length' by done.
  by rewrite entry_of_entry_bytes, IH.
Qed.

Lemma entry_of_bytes_ok bs : length bs = 20%nat → Forall is_byte bs → entry_ok (entry_of_bytes bs).
Proof.
  intros Hl Hb. unfold entry_of_bytes. split; cbn [inUse sector name padding].
  - destruct (bs !! 0%nat) eqn:E; simpl; [|unfold is_byte; lia]. by eapply Forall_lookup_1.
  - apply s32_range.
  - split; [rewrite length_take, length_drop; lia|by apply Forall_take, Forall_drop].
  - split; [rewrite length_app, !length_take, !length_drop; lia|].
    apply Forall_app; split; by apply Forall_take, Forall_drop.
Qed.

Lemma entries_of_bytes_ok n bs :
  length bs = (n * 20)%nat → Forall is_byte bs →
  Forall entry_ok (entries_of_bytes n bs) ∧ length (entries_of_bytes n bs) = n.
Proof.
  revert bs. induction n as [|n IH]; intros bs Hl Hb; cbn [entries_of_bytes]; [by split|].
  destruct (IH (drop 20 bs)) as [H1 H2]; [rewrite length_drop; lia|by apply Forall_drop|].
  split; [|simpl; lia]. constructor; [|done].
  apply entry_of_bytes_ok; [rewrite length_take; lia|by apply Forall_take].
Qed.

Lemma table_bytes_length d :
  dir_ok d → Z.of_nat (length (table_bytes d)) = tableSize d * entry_size.
Proof.
  intros [Hsz Hen _]. unfold table_bytes. rewrite (concat_length 20).
  - rewrite length_fmap. unfold entry_size. lia.
  - apply Forall_fmap. eapply Forall_impl; [exact Hen|]. apply entry_bytes_length.
Qed.

Lemma table_bytes_bytes d : dir_ok d → Forall is_byte (table_bytes d).
Proof.
  intros [_ Hen _]. apply Forall_concat, Forall_fmap.
  eapply Forall_impl; [exact Hen|]. apply entry_bytes_bytes.
Qed.

(** ** A sequence of operations on a new directory *)
Section refinement.
Context `{!FreshMemory}.

Lemma new_table_unused n : used (Directory n) = [].
Proof.
  unfold used, Directory. cbn [table]. rewrite filter_none; [done|].
  intros e (e0 & -> & _)%list_elem_of_fmap. done.
Qed.

Lemma Directory_ok n : 0 ≤ n → dir_ok (Directory n).
Proof.
  intros Hn. unfold Directory.
  destruct (entries_of_bytes_ok (Z.to_nat n) (fresh_bytes (n * entry_size))) as [H1 H2].
  { rewrite fresh_length; unfold entry_size; lia. }
  { apply fresh_is_byte. }
  split; cbn [table tableSize].
  - rewrite length_fmap, H2. lia.
  - apply Forall_fmap. eapply Forall_impl; [exact H1|]. intros e [? ? ? ?]. split; try done.
  - fold (Directory n). rewrite new_table_unused. constructor.
Qed.

Inductive dcall : Type :=
| CFind (nm : list Z)
| CAdd (nm : list Z) (newSector : Z)
| CRemove (nm : list Z).

Definition dlegal (c : dcall) : Prop :=
  match c with
  | CFind nm | CRemove nm => c_string nm
  | CAdd nm sec => c_string nm ∧ is_s32 sec
  end.

Definition dstep (c : dcall) (d : t) : res (Z * t) :=
  match c with
  | CFind nm => r ← Find d nm; Done (r, d)
  | CAdd nm sec => '(b, d) ← Add d nm sec; Done (if b : bool then 1 else 0, d)
  | CRemove nm => '(b, d) ← Remove d nm; Done (if b : bool then 1 else 0, d)
  end.

Fixpoint drun (cs : list dcall) (d : t) : res (list Z * t) :=
  match cs with
  | [] => Done ([], d)
  | c :: cs => '(r, d) ← dstep c d; '(rs, d) ← drun cs d; Done (r :: rs, d)
  end.

(** The same on a map with room for [cap] names. *)
Definition map_step (cap : Z) (c : dcall) (m : gmap (list Z) Z) : Z * gmap (list Z) Z :=
  match c with
  | CFind nm => (default (-1) (m !! key nm), m)
  | CAdd nm sec =>
      if decide (is_Some (m !! key nm) ∨ Z.of_nat (size m) = cap) then (0, m)
      else (1, <[key nm := sec]> m)
  | CRemove nm => if decide (is_Some (m !! key nm)) then (1, delete (key nm) m) else (0, m)
  end.

Fixpoint map_run (cap : Z) (cs : list dcall) (m : gmap (list Z) Z) : list Z * gmap (list Z) Z :=
  match cs with
  | [] => ([], m)
  | c :: cs =>
      let '(r, m) := map_step cap c m in
      let '(rs, m) := map_run cap cs m in
      (r :: rs, m)
  end.

Lemma dstep_refines c d :
  dir_ok d → dlegal c →
  ∃ r d', dstep c d = Done (r, d') ∧ dir_ok d' ∧ tableSize d' = tableSize d ∧
          map_step (tableSize d) c (dmap d) = (r, dmap d').
Proof.
  intros Hd Hl. destruct c as [nm|nm sec|nm]; cbn [dstep map_step dlegal] in *.
  - rewrite Dir_Find_spec by done. cbn [mbind res_bind]. eexists _, d. by split_and!.
  - destruct Hl as [Hnm Hsec]. pose proof (Add_spec d nm sec Hd Hnm Hsec) as Ha.
    rewrite dmap_size by done.
    rewrite (decide_ext _ (key nm ∈ (fst <$> used d) ∨ Z.of_nat (length (used d)) = tableSize d))
      by (by rewrite dmap_key).
    case_decide as Hc.
    + rewrite Ha. cbn [mbind res_bind]. exists 0, d. by split_and!.
    + destruct Ha as (d' & -> & Hd' & Ht & Hu). cbn [mbind res_bind]. exists 1, d'.
      split_and!; try done. f_equal. rewrite (dmap_perm d' _ Hd' Hu). done.
  - pose proof (Dir_Remove_spec d nm Hd) as Hr. rewrite (decide_ext _ (key nm ∈ (fst <$> used d))) by (by rewrite dmap_key).
    case_decide as Hc.
    + destruct Hr as (d' & sec & -> & Hd' & Ht & Hu). cbn [mbind res_bind]. exists 1, d'.
      split_and!; try done. f_equal. rewrite (dmap_perm d _ Hd Hu). simpl.
      rewrite delete_insert_id; [done|]. apply eq_None_not_Some. unfold dmap.
      pose proof (do_names d Hd) as Hnd. rewrite Hu in Hnd. simpl in Hnd. apply NoDup_cons in Hnd as [Hno _].
      intros Hs. apply Hno. by apply dmap_key.
    + rewrite Hr. cbn [mbind res_bind]. exists 0, d. by split_and!.
Qed.

(** C27: a new directory, whatever its memory held before, is an empty map from
    names, of which the first nine characters count, with room for [n] names: any
    sequence of Find, Add and Remove returns what the map returns (-1 for an
    unknown name; Add refuses a known name and a full table). *)
Theorem Directory_refines_map (n : Z) (cs : list dcall) :
  0 ≤ n → Forall dlegal cs →
  ∃ d', drun cs (Directory n) = Done ((map_run n cs ∅).1, d') ∧ dir_ok d' ∧
        dmap d' = (map_run n cs ∅).2.
Proof.
  intros Hn Hl.
  assert (Hgen : ∀ d, dir_ok d → tableSize d = n →
    ∃ d', drun cs d = Done ((map_run n cs (dmap d)).1, d') ∧ dir_ok d' ∧ dmap d' = (map_run n cs (dmap d)).2).
  { induction Hl as [|c cs Hc _ IH]; intros d Hd Ht; cbn [drun map_run]; [by exists d|].
    destruct (dstep_refines c d Hd Hc) as (r & d1 & -> & Hd1 & Ht1 & Hm). rewrite Ht in Hm.
    cbn [mbind res_bind]. rewrite Hm. destruct (IH d1) as (d2 & -> & Hd2 & Hm2); [done|congruence|].
    cbn [mbind res_bind]. destruct (map_run n cs (dmap d1)). by exists d2. }
  pose proof (Hgen (Directory n) (Directory_ok n Hn) eq_refl) as Hg.
  unfold dmap in Hg at 1 3. by rewrite new_table_unused in Hg.
Qed.

End refinement.

Lemma Directory_refines_map_witness :
  ∃ d', drun [CAdd [97; 98] 5; CFind [97; 98]; CAdd [97; 98] 6;
              CAdd [49; 50; 51; 52; 53; 54; 55; 56; 57; 65] 7;
              CFind [49; 50; 51; 52; 53; 54; 55; 56; 57; 66]; CAdd [99] 8; CRemove [97; 98]; CFind [97; 98]]
             (@Directory FileDemo.demo_memory 2) = Done ([1; 5; 0; 1; 7; 0; 1; -1], d').
Proof.
  destruct (@Directory_refines_map FileDemo.demo_memory 2
    [CAdd [97; 98] 5; CFind [97; 98]; CAdd [97; 98] 6;
     CAdd [49; 50; 51; 52; 53; 54; 55; 56; 57; 65] 7;
     CFind [49; 50; 51; 52; 53; 54; 55; 56; 57; 66]; CAdd [99] 8; CRemove [97; 98]; CFind [97; 98]])
    as (d' & H & _).
  - lia.
  - repeat constructor; try (unfold_int; lia).
  - exists d'. rewrite H. vm_compute. reflexivity.
Defined.

(** A name of nine characters is stored without its 0: listing the directory
    reads past the name when the byte behind it is not 0. *)
Lemma List_unterminated_name :
  ('(_, d) ← Add (@Directory FileDemo.demo_memory 1) (replicate 9 65) 5; List d) = Undef.
Proof. vm_compute. reflexivity. Qed.

End DirectorySpec.
