(* ===== verification/FileSys.v ===== *)
(** FileSys: the file system of src/code/filesys/filesys.{h,cc}.

    [FileSystem] has the two open files the code keeps (the free map and the
    directory); everything else is on the disk, which is used through
    [BlockDev].  [FileSysSpec] states the invariant of the disk and shows that
    the file system is a map from names to byte arrays. *)

From S2P Require Import Prelude Bitmap Lists Machine Interrupt Disk FileHdr Directory.

Module FileSystem.
Import Disk(SectorSize, NumSectors).

Definition FreeMapSector : Z := 0.
Definition DirectorySector : Z := 1.
Definition FreeMapFileSize : Z := NumSectors / BitMap.BitsInByte.
Definition NumDirEntries : Z := 10.
Definition DirectoryFileSize : Z := Directory.entry_size * NumDirEntries.

Record t : Type := mk {
  freeMapFile : OpenFile.t;
  directoryFile : OpenFile.t
}.

Section ops.
Context {V : Type} `{!BlockDev V} `{!FreshMemory}.

(** [new BitMap(NumSectors)] *)
Definition new_BitMap : res BitMap.t :=
  BitMap.BitMap (BitMap.words_of_bytes 32 (fresh_bytes 128)) NumSectors.

(** [BitMap::FetchFrom] and [BitMap::WriteBack] on an open file. *)
Definition fetch_map (b : BitMap.t) (file : OpenFile.t) (s : V) : res (BitMap.t * V) :=
  '(bs, s) ← OpenFile.ReadAt file (BitMap.numWords b * 4) 0 s;
  b ← BitMap.FetchFrom b bs;
  Done (b, s).

Definition write_map (b : BitMap.t) (file : OpenFile.t) (s : V) : res V :=
  '(_, s) ← OpenFile.WriteAt file (BitMap.WriteBack b) (BitMap.numWords b * 4) 0 s;
  Done s.

Definition FileSystem (format : bool) (s : V) : res (t * V) :=
  if format then
    freeMap ← new_BitMap;
    let directory := Directory.Directory NumDirEntries in
    freeMap ← BitMap.Mark freeMap FreeMapSector;
    freeMap ← BitMap.Mark freeMap DirectorySector;
    '(ok, mapHdr, freeMap) ← FileHeader.Allocate FileHeader.new freeMap FreeMapFileSize;
    ASSERT ok;;
    '(ok, dirHdr, freeMap) ← FileHeader.Allocate FileHeader.new freeMap DirectoryFileSize;
    ASSERT ok;;
    s ← FileHeader.WriteBack mapHdr FreeMapSector s;
    s ← FileHeader.WriteBack dirHdr DirectorySector s;
    '(freeMapFile, s) ← OpenFile.OpenFile FreeMapSector s;
    '(directoryFile, s) ← OpenFile.OpenFile DirectorySector s;
    s ← write_map freeMap freeMapFile s;
    s ← Directory.WriteBack directory directoryFile s;
    Done (mk freeMapFile directoryFile, s)
  else
    '(freeMapFile, s) ← OpenFile.OpenFile FreeMapSector s;
    '(directoryFile, s) ← OpenFile.OpenFile DirectorySector s;
    Done (mk freeMapFile directoryFile, s).

Definition Create (fs : t) (nm : list Z) (initialSize : Z) (s : V) : res (bool * V) :=
  '(directory, s) ← Directory.FetchFrom (Directory.Directory NumDirEntries) (directoryFile fs) s;
  found ← Directory.Find directory nm;
  if negb (found =? -1) then Done (false, s)
  else
    freeMap ← new_BitMap;
    '(freeMap, s) ← fetch_map freeMap (freeMapFile fs) s;
    '(sector, freeMap) ← BitMap.Find freeMap;
    if sector =? -1 then Done (false, s)
    else
      '(added, directory) ← Directory.Add directory nm sector;
      if negb added then Done (false, s)
      else
        '(allocated, hdr, freeMap) ← FileHeader.Allocate FileHeader.new freeMap initialSize;
        if negb allocated then Done (false, s)
        else
          s ← FileHeader.WriteBack hdr sector s;
          s ← Directory.WriteBack directory (directoryFile fs) s;
          s ← write_map freeMap (freeMapFile fs) s;
          Done (true, s).

Definition Open (fs : t) (nm : list Z) (s : V) : res (option OpenFile.t * V) :=
  '(directory, s) ← Directory.FetchFrom (Directory.Directory NumDirEntries) (directoryFile fs) s;
  sector ← Directory.Find directory nm;
  if 0 <=? sector then
    '(openFile, s) ← OpenFile.OpenFile sector s;
    Done (Some openFile, s)
  else Done (None, s).

Definition Remove (fs : t) (nm : list Z) (s : V) : res (bool * V) :=
  '(directory, s) ← Directory.FetchFrom (Directory.Directory NumDirEntries) (directoryFile fs) s;
  sector ← Directory.Find directory nm;
  if sector =? -1 then Done (false, s)
  else
    '(fileHdr, s) ← FileHeader.FetchFrom sector s;
    freeMap ← new_BitMap;
    '(freeMap, s) ← fetch_map freeMap (freeMapFile fs) s;
    freeMap ← FileHeader.Deallocate fileHdr freeMap;
    freeMap ← BitMap.Clear freeMap sector;
    '(_, directory) ← Directory.Remove directory nm;
    s ← write_map freeMap (freeMapFile fs) s;
    s ← Directory.WriteBack directory (directoryFile fs) s;
    Done (true, s).

Definition List (fs : t) (s : V) : res (list (list Z) * V) :=
  '(directory, s) ← Directory.FetchFrom (Directory.Directory NumDirEntries) (directoryFile fs) s;
  names ← Directory.List directory;
  Done (names, s).

(** The dumps of the two headers, the bits of the free map and the directory. *)
Definition Print (fs : t) (s : V) :
    res (list (list Z) * list (list Z) * list Z * list (list Z * Z * list (list Z)) * V) :=
  '(bitHdr, s) ← FileHeader.FetchFrom FreeMapSector s;
  '(bitLines, s) ← FileHeader.Print bitHdr s;
  '(dirHdr, s) ← FileHeader.FetchFrom DirectorySector s;
  '(dirLines, s) ← FileHeader.Print dirHdr s;
  freeMap ← new_BitMap;
  '(freeMap, s) ← fetch_map freeMap (freeMapFile fs) s;
  bits ← BitMap.Print freeMap;
  '(directory, s) ← Directory.FetchFrom (Directory.Directory NumDirEntries) (directoryFile fs) s;
  '(entries, s) ← Directory.Print directory s;
  Done (bitLines, dirLines, bits, entries, s).

End ops.
End FileSystem.

Module FileSysSpec.
Import Disk(SectorSize, NumSectors).
Import FileHeader OpenFileSpec FileHeaderSpec DirectorySpec FileSystem.

Section spec.
Context {V : Type} `{!BlockDev V} `{!FreshMemory}.
Implicit Types (s : V) (fs : FileSystem.t).

(** ** What is on the disk *)
Definition map_hdr fs : FileHeader.t := OpenFile.hdr (freeMapFile fs).
Definition dir_hdr fs : FileHeader.t := OpenFile.hdr (directoryFile fs).

Definition dir_of s fs : Directory.t :=
  Directory.mk NumDirEntries (Directory.entries_of_bytes 10 (contents s (dir_hdr fs))).
Definition map_of s fs : BitMap.t :=
  BitMap.mk NumSectors 32 (BitMap.words_of_bytes 32 (contents s (map_hdr fs))).

(** The header in a sector, and the sectors of the file it describes. *)
Definition file_at s (sec : Z) : FileHeader.t := of_bytes (bd_get s sec).
Definition sectors_of s (sec : Z) : list Z := sec :: blocks (file_at s sec).

(** The header sectors of the files in the directory. *)
Definition headers s fs : list Z := snd <$> used (dir_of s fs).

Definition system_sectors fs : list Z :=
  (FreeMapSector :: blocks (map_hdr fs)) ++ (DirectorySector :: blocks (dir_hdr fs)).
Definition owned s fs : list Z :=
  system_sectors fs ++ concat (sectors_of s <$> headers s fs).

(** The two files of the system. *)
Record sys_ok fs : Prop := {
  so_map_hdr : hdr_ok (map_hdr fs) ∧ int_ok (map_hdr fs);
  so_dir_hdr : hdr_ok (dir_hdr fs) ∧ int_ok (dir_hdr fs);
  so_map_size : numBytes (map_hdr fs) = FreeMapFileSize;
  so_dir_size : numBytes (dir_hdr fs) = DirectoryFileSize
}.

(** The invariant: the sectors of the files are disjoint, and the free map marks
    exactly the sectors that belong to a file. *)
Record fs_ok s fs : Prop := {
  fo_dev : bd_ok s;
  fo_sys : sys_ok fs;
  fo_map_at : file_at s FreeMapSector = map_hdr fs;
  fo_dir_at : file_at s DirectorySector = dir_hdr fs;
  fo_dir : dir_ok (dir_of s fs);
  fo_files : ∀ sec, sec ∈ headers s fs → 0 ≤ sec < NumSectors ∧ hdr_ok (file_at s sec);
  fo_owned : NoDup (owned s fs);
  fo_map : ∀ j, 0 ≤ j < NumSectors → (BitMap.bit (map_of s fs) j = true ↔ j ∈ owned s fs)
}.

(** What a user sees: the names with the contents of the files. *)
Definition files s fs : gmap (list Z) (list Z) :=
  (λ sec, contents s (file_at s sec)) <$> dmap (dir_of s fs).

(** ** Frames *)
Definition same_on (L : list Z) s s' : Prop := ∀ j, j ∈ L → bd_get s' j = bd_get s j.

Lemma contents_same_on h s s' : same_on (blocks h) s s' → contents s' h = contents s h.
Proof.
  intros Hs. unfold contents, file_data. f_equal. f_equal. apply list_fmap_ext.
  intros i b Hb. apply Hs. by eapply list_elem_of_lookup_2.
Qed.

Lemma file_at_same_on sec s s' :
  same_on (sectors_of s sec) s s' →
  file_at s' sec = file_at s sec ∧ contents s' (file_at s sec) = contents s (file_at s sec).
Proof.
  intros Hs. split.
  - unfold file_at. f_equal. apply Hs. by left.
  - apply contents_same_on. intros j Hj. apply Hs. by right.
Qed.

Lemma system_sectors_range fs j : sys_ok fs → j ∈ system_sectors fs → 0 ≤ j < NumSectors.
Proof.
  intros [[Hm _] [Hd _] _ _]. unfold system_sectors.
  rewrite elem_of_app, !elem_of_cons. change NumSectors with 1024.
  intros [[->|Hj]|[->|Hj]]; [by compute| |by compute|].
  - by apply (ho_range _ Hm).
  - by apply (ho_range _ Hd).
Qed.

Lemma elem_of_files_sectors s fs j :
  j ∈ concat (sectors_of s <$> headers s fs) ↔ ∃ sec, sec ∈ headers s fs ∧ j ∈ sectors_of s sec.
Proof.
  rewrite list_elem_of_In, in_concat. split.
  - intros (l & (sec & -> & Hsec)%list_elem_of_In%list_elem_of_fmap & Hj%list_elem_of_In). eauto.
  - intros (sec & Hsec & Hj). exists (sectors_of s sec). split; apply list_elem_of_In; [|done].
    apply list_elem_of_fmap. eauto.
Qed.

Lemma owned_range s fs j : fs_ok s fs → j ∈ owned s fs → 0 ≤ j < NumSectors.
Proof.
  intros Hf. unfold owned. rewrite elem_of_app. intros [Hj|Hj].
  - by apply (system_sectors_range fs); [apply Hf|].
  - apply elem_of_files_sectors in Hj as (sec & Hsec & Hj). apply (fo_files _ _ Hf) in Hsec as [Hr Hh].
    unfold sectors_of in Hj. apply elem_of_cons in Hj as [->|Hj]; [done|]. by apply (ho_range _ Hh).
Qed.

(** ** Fetching and writing the two files *)

Lemma sys_values : FreeMapFileSize = 128 ∧ DirectoryFileSize = 200 ∧ NumDirEntries = 10 ∧ NumSectors = 1024.
Proof. by compute. Qed.

(** Reading a file as a whole. *)
Lemma ReadAt_all f n s :
  hdr_ok (OpenFile.hdr f) → bd_ok s → numBytes (OpenFile.hdr f) = n →
  ∃ s', OpenFile.ReadAt f n 0 s = Done (contents s (OpenFile.hdr f), s') ∧ bd_ok s' ∧ same_sectors s s'.
Proof.
  intros Hh Hs Hn. pose proof (ho_bytes _ Hh) as Hb. rewrite MaxFileSize_value in Hb.
  destruct (ReadAt_spec f n 0 s) as (s' & -> & ? & ?); [done|done|lia|unfold_int; lia|].
  exists s'. split_and!; try done. do 2 f_equal. unfold clip. rewrite drop_0.
  apply take_ge. rewrite contents_length by done. lia.
Qed.

(** Writing a file as a whole. *)
Lemma WriteAt_all f bs s :
  hdr_ok (OpenFile.hdr f) → bd_ok s → numBytes (OpenFile.hdr f) = Z.of_nat (length bs) → Forall is_byte bs →
  ∃ s', OpenFile.WriteAt f bs (Z.of_nat (length bs)) 0 s = Done (Z.of_nat (length bs), s') ∧ bd_ok s' ∧
        other_sectors s s' (OpenFile.hdr f) ∧ contents s' (OpenFile.hdr f) = bs.
Proof.
  intros Hh Hs Hn Hb. pose proof (ho_bytes _ Hh) as Hbd. rewrite MaxFileSize_value in Hbd.
  assert (Hg : granted (numBytes (OpenFile.hdr f)) 0 (Z.of_nat (length bs)) = Z.of_nat (length bs))
    by (unfold granted; lia).
  destruct (WriteAt_spec f bs (Z.of_nat (length bs)) 0 s) as (s' & Hw & Hs' & Ho & Hc);
    [done|done|lia|unfold_int; lia|lia|done|].
  rewrite Hg in *. exists s'. split_and!; try done. rewrite Hc, Nat2Z.id, firstn_all. unfold overwrite.
  rewrite take_0, drop_ge; [by rewrite app_nil_r|]. rewrite contents_length by done. lia.
Qed.

Lemma words_of_bytes_ok n bs :
  length bs = (4 * n)%nat → Forall is_byte bs →
  Forall is_u32 (BitMap.words_of_bytes n bs) ∧ length (BitMap.words_of_bytes n bs) = n ∧
  concat (bytes_of 4 <$> BitMap.words_of_bytes n bs) = bs.
Proof.
  revert bs. induction n as [|n IH]; intros bs Hl Hb; cbn [BitMap.words_of_bytes].
  - destruct bs; [|discriminate]. split_and!; [constructor|done|done].
  - destruct (IH (drop 4 bs)) as (H1 & H2 & H3); [rewrite length_drop; lia|by apply Forall_drop|].
    assert (Ht : length (take 4 bs) = 4%nat) by (rewrite length_take; lia).
    assert (Hw : bytes_of 4 (word_of (take 4 bs)) = take 4 bs)
      by (rewrite <- Ht at 1; apply bytes_of_word_of; by apply Forall_take).
    split_and!; [|by rewrite length_cons, H2|].
    + constructor; [|done]. pose proof (word_of_range (take 4 bs)) as Hr. rewrite Ht in Hr.
      apply Hr. by apply Forall_take.
    + cbn [fmap list_fmap concat]. rewrite H3, Hw. apply take_drop.
Qed.

Lemma new_BitMap_ok :
  ∃ b, new_BitMap = Done b ∧ BitMap.wf b ∧ BitMap.numBits b = NumSectors ∧
       ∀ i, 0 ≤ i < NumSectors → BitMap.bit b i = false.
Proof.
  destruct (words_of_bytes_ok 32 (fresh_bytes 128)) as (H1 & H2 & _);
    [by rewrite fresh_length|apply fresh_is_byte|].
  unfold new_BitMap. apply BitMap.BitMap_spec; [done|by rewrite H2|done].
Qed.

Lemma map_of_wf s fs : sys_ok fs → bd_ok s → BitMap.wf (map_of s fs).
Proof.
  intros [[Hh _] _ Hn _] Hs. destruct sys_values as (HF & _).
  destruct (words_of_bytes_ok 32 (contents s (map_hdr fs))) as (H1 & H2 & _).
  { rewrite contents_length by done. rewrite Hn, HF. done. }
  { by apply contents_bytes. }
  split; [done|done|cbn [map_of BitMap.map BitMap.numWords]; by rewrite H2|done].
Qed.

Lemma fetch_map_spec s fs b :
  sys_ok fs → bd_ok s → BitMap.wf b → BitMap.numBits b = NumSectors →
  ∃ s', fetch_map b (freeMapFile fs) s = Done (map_of s fs, s') ∧ bd_ok s' ∧ same_sectors s s'.
Proof.
  intros Hsys Hs Hb Hn. destruct sys_values as (HF & _ & _ & HN). unfold fetch_map.
  assert (Hw : BitMap.numWords b = 32) by (rewrite (BitMap.wf_words b Hb), Hn; done).
  destruct (ReadAt_all (freeMapFile fs) (BitMap.numWords b * 4) s) as (s' & -> & Hs' & Hss);
    [apply Hsys|done|rewrite Hw; apply Hsys|].
  cbn [mbind res_bind]. exists s'. split_and!; try done. fold (map_hdr fs).
  pose proof (map_of_wf s fs Hsys Hs) as Hm.
  assert (Hc : contents s (map_hdr fs) = BitMap.WriteBack (map_of s fs)).
  { symmetry. apply words_of_bytes_ok; [|by apply contents_bytes; [apply Hsys|]].
    rewrite contents_length by (apply Hsys || done).
    rewrite (so_map_size fs Hsys), HF. done. }
  rewrite Hc, BitMap.FetchFrom_WriteBack by done. done.
Qed.

Lemma write_map_spec s fs b :
  sys_ok fs → bd_ok s → BitMap.wf b → BitMap.numBits b = NumSectors →
  ∃ s', write_map b (freeMapFile fs) s = Done s' ∧ bd_ok s' ∧ other_sectors s s' (map_hdr fs) ∧
        map_of s' fs = b.
Proof.
  intros Hsys Hs Hb Hn. destruct sys_values as (HF & _ & _ & HN). unfold write_map.
  assert (Hw : BitMap.numWords b = 32) by (rewrite (BitMap.wf_words b Hb), Hn; done).
  assert (Hl : Z.of_nat (length (BitMap.WriteBack b)) = BitMap.numWords b * 4)
    by (rewrite BitMap.WriteBack_length; pose proof (BitMap.wf_length b Hb); lia).
  rewrite <- Hl.
  destruct (WriteAt_all (freeMapFile fs) (BitMap.WriteBack b) s) as (s' & -> & Hs' & Ho & Hc).
  { apply Hsys. } { done. } { rewrite Hl, Hw. apply Hsys. }
  { apply Forall_concat, Forall_fmap. apply Forall_true. intros w. apply bytes_of_bytes. }
  cbn [mbind res_bind]. exists s'. split_and!; try done.
  unfold map_of. fold (map_hdr fs) in Hc. rewrite Hc. unfold BitMap.WriteBack.
  replace 32%nat with (length (BitMap.map b)) by (pose proof (BitMap.wf_length b Hb); lia).
  rewrite <- (app_nil_r (concat _)), BitMap.words_of_bytes_concat by apply Hb.
  destruct b as [nb nw m]. cbn [BitMap.numBits BitMap.numWords] in *. by subst.
Qed.

Lemma fetch_dir_spec s fs :
  sys_ok fs → bd_ok s →
  ∃ s', Directory.FetchFrom (Directory.Directory NumDirEntries) (directoryFile fs) s =
          Done (dir_of s fs, s') ∧ bd_ok s' ∧ same_sectors s s'.
Proof.
  intros Hsys Hs. destruct sys_values as (_ & HD & HE & _). unfold Directory.FetchFrom.
  set (d := Directory.Directory NumDirEntries).
  assert (Hd : dir_ok d) by (apply Directory_ok; lia).
  change (Directory.tableSize d) with NumDirEntries. unfold Directory.entry_size.
  destruct (ReadAt_all (directoryFile fs) (NumDirEntries * 20) s) as (s' & -> & Hs' & Hss);
    [apply Hsys|done|rewrite HE; apply Hsys|].
  cbn [mbind res_bind]. fold (dir_hdr fs).
  assert (Hl : length (contents s (dir_hdr fs)) = 200%nat)
    by (rewrite contents_length by (apply Hsys || done); rewrite (so_dir_size fs Hsys), HD; done).
  pose proof (table_bytes_length d Hd) as Htl. change (Directory.tableSize d) with NumDirEntries in Htl.
  unfold Directory.entry_size in Htl. rewrite HE in Htl.
  rewrite blit_in_range by lia. cbn [mbind res_bind]. exists s'. split_and!; try done.
  unfold dir_of. do 3 f_equal.
  change (Z.to_nat 0) with 0%nat. rewrite take_0, drop_ge, app_nil_r by lia. cbn [app].
  reflexivity.
Qed.

Lemma write_dir_spec s fs d :
  sys_ok fs → bd_ok s → dir_ok d → Directory.tableSize d = NumDirEntries →
  ∃ s', Directory.WriteBack d (directoryFile fs) s = Done s' ∧ bd_ok s' ∧
        other_sectors s s' (dir_hdr fs) ∧ dir_of s' fs = d.
Proof.
  intros Hsys Hs Hd Ht. destruct sys_values as (_ & HD & HE & _). unfold Directory.WriteBack.
  rewrite <- table_bytes_length by done.
  destruct (WriteAt_all (directoryFile fs) (Directory.table_bytes d) s) as (s' & -> & Hs' & Ho & Hc).
  { apply Hsys. } { done. }
  { rewrite table_bytes_length by done. rewrite Ht, HE. apply Hsys. }
  { by apply table_bytes_bytes. }
  cbn [mbind res_bind]. exists s'. split_and!; try done.
  unfold dir_of. fold (dir_hdr fs) in Hc. rewrite Hc. unfold Directory.table_bytes.
  replace 10%nat with (length (Directory.table d)) by (pose proof (do_size d Hd); lia).
  rewrite <- (app_nil_r (concat _)), entries_of_table_bytes by apply Hd.
  destruct d as [ts tbl]. cbn [Directory.tableSize Directory.table] in *. by subst.
Qed.

(** ** The invariant across an operation *)

Lemma concat_fmap_perm (f : Z → list Z) (l1 l2 : list Z) :
  l1 ≡ₚ l2 → concat (f <$> l1) ≡ₚ concat (f <$> l2).
Proof.
  induction 1 as [|x l1 l2 _ IH|x y l|l1 l2 l3 _ IH1 _ IH2]; cbn [fmap list_fmap concat]; [done|..].
  - by rewrite IH.
  - rewrite !app_assoc. f_equiv. apply Permutation_app_comm.
  - by rewrite IH1.
Qed.

(** A file of a user has no sector in common with the two files of the system. *)
Lemma file_not_system s fs sec j :
  fs_ok s fs → sec ∈ headers s fs → j ∈ sectors_of s sec → j ∉ system_sectors fs.
Proof.
  intros Hf Hsec Hj Hs. pose proof (fo_owned _ _ Hf) as Hnd. unfold owned in Hnd.
  apply list.NoDup_app in Hnd as (_ & Hdis & _). apply (Hdis j Hs). apply elem_of_files_sectors. eauto.
Qed.

Lemma header_in_owned s fs sec j :
  sec ∈ headers s fs → j ∈ sectors_of s sec → j ∈ owned s fs.
Proof. intros. unfold owned. apply elem_of_app. right. apply elem_of_files_sectors. eauto. Qed.

(** Sectors 0 and 1 are not data of the two files. *)
Lemma header_sectors_apart s fs :
  fs_ok s fs →
  (FreeMapSector ∉ blocks (map_hdr fs)) ∧ (FreeMapSector ∉ blocks (dir_hdr fs)) ∧
  (DirectorySector ∉ blocks (map_hdr fs)) ∧ (DirectorySector ∉ blocks (dir_hdr fs)).
Proof.
  intros Hf. pose proof (fo_owned _ _ Hf) as Hnd. unfold owned, system_sectors in Hnd.
  apply list.NoDup_app in Hnd as (Hnd & _ & _). apply list.NoDup_app in Hnd as (H1 & Hdis & H2).
  apply NoDup_cons in H1 as [H1 _]. apply NoDup_cons in H2 as [H2 _].
  split_and!; try done.
  - intros Hin. apply (Hdis FreeMapSector); [by left|by right].
  - intros Hin. apply (Hdis DirectorySector); [by right|by left].
Qed.

(** Nothing but [X] and the data of the two system files has changed. *)
Definition changed_only (X : list Z) fs s s' : Prop :=
  ∀ j, 0 ≤ j < NumSectors → j ∉ X → j ∉ blocks (map_hdr fs) → j ∉ blocks (dir_hdr fs) →
       bd_get s' j = bd_get s j.

Lemma changed_only_file X fs s s' sec :
  fs_ok s fs → changed_only X fs s s' → sec ∈ headers s fs →
  (∀ j, j ∈ sectors_of s sec → j ∉ X) → same_on (sectors_of s sec) s s'.
Proof.
  intros Hf Hc Hsec HX j Hj. pose proof (file_not_system s fs sec j Hf Hsec Hj) as Hns.
  apply Hc; [|by apply HX|..].
  - apply (owned_range s fs); [done|]. by eapply header_in_owned.
  - intros Hin. apply Hns. unfold system_sectors. apply elem_of_app. left. by right.
  - intros Hin. apply Hns. unfold system_sectors. apply elem_of_app. right. by right.
Qed.

Lemma changed_only_system X fs s s' :
  fs_ok s fs → changed_only X fs s s' → FreeMapSector ∉ X → DirectorySector ∉ X →
  file_at s' FreeMapSector = map_hdr fs ∧ file_at s' DirectorySector = dir_hdr fs.
Proof.
  intros Hf Hc H0 H1. destruct (header_sectors_apart s fs Hf) as (? & ? & ? & ?).
  rewrite <- (fo_map_at _ _ Hf), <- (fo_dir_at _ _ Hf). unfold file_at.
  split; f_equal; by apply Hc.
Qed.

Lemma system_in_owned s fs : FreeMapSector ∈ owned s fs ∧ DirectorySector ∈ owned s fs.
Proof. unfold owned, system_sectors. rewrite !elem_of_app, !elem_of_cons. auto. Qed.

(** A new file [k] with header [h] in sector [sec]. *)
Lemma create_state s s' fs k sec h :
  fs_ok s fs → bd_ok s' → 0 ≤ sec < NumSectors → hdr_ok h →
  NoDup (sec :: blocks h) → (∀ j, j ∈ sec :: blocks h → j ∉ owned s fs) →
  dir_ok (dir_of s' fs) → used (dir_of s' fs) ≡ₚ (k, sec) :: used (dir_of s fs) →
  (∀ j, 0 ≤ j < NumSectors → (BitMap.bit (map_of s' fs) j = true ↔
     BitMap.bit (map_of s fs) j = true ∨ j ∈ sec :: blocks h)) →
  file_at s' sec = h → changed_only [sec] fs s s' →
  fs_ok s' fs ∧ files s' fs = <[k := contents s' h]> (files s fs).
Proof.
  intros Hf Hs' Hr Hh Hnd Hfresh Hd Hu Hm Hat Hc.
  assert (Hsec : ∀ sec', sec' ∈ headers s fs → same_on (sectors_of s sec') s s').
  { intros sec' Hin. apply (changed_only_file [sec] fs); try done.
    intros j Hj ->%list_elem_of_singleton. apply (Hfresh sec); [by left|]. by eapply header_in_owned. }
  destruct (changed_only_system [sec] fs s s' Hf Hc) as [Hm0 Hd1];
    [intros <-%list_elem_of_singleton; eapply Hfresh; [by left|apply system_in_owned]..|].
  assert (Hh' : headers s' fs ≡ₚ sec :: headers s fs) by (unfold headers; by rewrite Hu).
  assert (Hown : owned s' fs ≡ₚ (sec :: blocks h) ++ owned s fs).
  { unfold owned. rewrite (concat_fmap_perm _ _ _ Hh'). cbn [fmap list_fmap concat].
    assert (sectors_of s' sec = sec :: blocks h) as -> by (unfold sectors_of; by rewrite Hat).
    rewrite (list_fmap_ext (sectors_of s') (sectors_of s)).
    2: { intros i x Hx%list_elem_of_lookup_2. unfold sectors_of.
         by destruct (file_at_same_on x s s' (Hsec x Hx)) as [-> _]. }
    rewrite !app_assoc. f_equiv. apply Permutation_app_comm. }
  split.
  - split; try done; [apply Hf|..].
    + intros x. rewrite Hh', elem_of_cons. intros [->|Hx]; [by rewrite Hat|].
      destruct (file_at_same_on x s s' (Hsec x Hx)) as [-> _]. by apply (fo_files _ _ Hf).
    + rewrite Hown. apply list.NoDup_app. split_and!; [done|done|apply Hf].
    + intros j Hj. rewrite Hm, Hown, elem_of_app, (fo_map _ _ Hf) by done. tauto.
  - unfold files. rewrite (dmap_perm _ _ Hd Hu). simpl. rewrite fmap_insert, Hat. f_equal.
    apply map_eq. intros k'. rewrite !lookup_fmap. unfold dmap.
    destruct (list_to_map (used (dir_of s fs)) !! k') as [x|] eqn:E; [|done]. simpl. f_equal.
    assert (Hx : x ∈ headers s fs).
    { apply elem_of_list_to_map_2 in E. unfold headers. apply list_elem_of_fmap. by exists (k', x). }
    by destruct (file_at_same_on x s s' (Hsec x Hx)) as [-> ->].
Qed.

(** The file [k] with its header in sector [sec] is gone. *)
Lemma remove_state s s' fs k sec :
  fs_ok s fs → bd_ok s' → dir_ok (dir_of s' fs) →
  used (dir_of s fs) ≡ₚ (k, sec) :: used (dir_of s' fs) →
  (∀ j, 0 ≤ j < NumSectors → (BitMap.bit (map_of s' fs) j = true ↔
     BitMap.bit (map_of s fs) j = true ∧ j ∉ sectors_of s sec)) →
  changed_only [] fs s s' →
  fs_ok s' fs ∧ files s' fs = delete k (files s fs).
Proof.
  intros Hf Hs' Hd Hu Hm Hc.
  assert (Hh' : headers s fs ≡ₚ sec :: headers s' fs) by (unfold headers; by rewrite Hu).
  assert (Hin' : ∀ x, x ∈ headers s' fs → x ∈ headers s fs) by (intros x Hx; rewrite Hh'; by right).
  assert (Hsec : ∀ x, x ∈ headers s' fs → same_on (sectors_of s x) s s').
  { intros x Hx. apply (changed_only_file [] fs); auto. intros j _ Hj. by apply elem_of_nil in Hj. }
  destruct (changed_only_system [] fs s s' Hf Hc) as [Hm0 Hd1]; [by apply not_elem_of_nil..|].
  assert (Hown : owned s fs ≡ₚ sectors_of s sec ++ owned s' fs).
  { unfold owned. rewrite (concat_fmap_perm _ _ _ Hh'). cbn [fmap list_fmap concat].
    rewrite (list_fmap_ext (sectors_of s') (sectors_of s)).
    2: { intros i x Hx%list_elem_of_lookup_2. unfold sectors_of.
         by destruct (file_at_same_on x s s' (Hsec x Hx)) as [-> _]. }
    rewrite !app_assoc. f_equiv. apply Permutation_app_comm. }
  pose proof (fo_owned _ _ Hf) as Hnd. rewrite Hown in Hnd. apply list.NoDup_app in Hnd as (_ & Hdis & Hnd').
  split.
  - split; try done; [apply Hf|..].
    + intros x Hx. destruct (file_at_same_on x s s' (Hsec x Hx)) as [-> _]. apply (fo_files _ _ Hf). auto.
    + intros j Hj. rewrite Hm, (fo_map _ _ Hf), Hown, elem_of_app by done.
      split; [tauto|]. intros Hj'. split; [by right|]. intros Hin. by apply (Hdis j).
  - unfold files. rewrite (dmap_perm _ _ (fo_dir _ _ Hf) Hu). simpl. rewrite fmap_insert.
    assert (Hnk : k ∉ (fst <$> used (dir_of s' fs))).
    { pose proof (do_names _ (fo_dir _ _ Hf)) as Hn. rewrite Hu in Hn. by apply NoDup_cons in Hn as [? _]. }
    rewrite delete_insert_id.
    2: { rewrite lookup_fmap. by rewrite not_elem_of_list_to_map_1. }
    apply map_eq. intros k'. rewrite !lookup_fmap. unfold dmap.
    destruct (list_to_map (used (dir_of s' fs)) !! k') as [x|] eqn:E; [|done]. simpl. f_equal.
    assert (Hx : x ∈ headers s' fs).
    { apply elem_of_list_to_map_2 in E. unfold headers. apply list_elem_of_fmap. by exists (k', x). }
    by destruct (file_at_same_on x s s' (Hsec x Hx)) as [-> ->].
Qed.

(** The data of the two system files are apart. *)
Lemma system_files_apart s fs j :
  fs_ok s fs → j ∈ blocks (map_hdr fs) → j ∉ blocks (dir_hdr fs).
Proof.
  intros Hf H1 H2. pose proof (fo_owned _ _ Hf) as Hnd. unfold owned, system_sectors in Hnd.
  apply list.NoDup_app in Hnd as (Hnd & _ & _). apply list.NoDup_app in Hnd as (_ & Hdis & _).
  apply (Hdis j); by right.
Qed.

Lemma dir_of_same_on fs s s' : same_on (blocks (dir_hdr fs)) s s' → dir_of s' fs = dir_of s fs.
Proof. intros Hs. unfold dir_of. by rewrite (contents_same_on _ s s'). Qed.
Lemma map_of_same_on fs s s' : same_on (blocks (map_hdr fs)) s s' → map_of s' fs = map_of s fs.
Proof. intros Hs. unfold map_of. by rewrite (contents_same_on _ s s'). Qed.

Lemma same_sectors_on L s s' : (∀ j, j ∈ L → 0 ≤ j < NumSectors) → same_sectors s s' → same_on L s s'.
Proof. intros HL Hs j Hj. apply Hs. auto. Qed.

Lemma blocks_range h : hdr_ok h → ∀ j, j ∈ blocks h → 0 ≤ j < NumSectors.
Proof. intros Hh j. apply (ho_range h Hh). Qed.

(** Reading the disk leaves the file system as it is. *)
Lemma fs_ok_same s s' fs :
  fs_ok s fs → bd_ok s' → same_sectors s s' → fs_ok s' fs ∧ files s' fs = files s fs ∧
  dir_of s' fs = dir_of s fs ∧ map_of s' fs = map_of s fs.
Proof.
  intros Hf Hs' Hss. destruct (fo_sys _ _ Hf) as [[Hmh _] [Hdh _] _ _].
  assert (Hd : dir_of s' fs = dir_of s fs)
    by (apply dir_of_same_on, same_sectors_on; [by apply blocks_range|done]).
  assert (Hm : map_of s' fs = map_of s fs)
    by (apply map_of_same_on, same_sectors_on; [by apply blocks_range|done]).
  assert (Hat : ∀ j, 0 ≤ j < NumSectors → file_at s' j = file_at s j)
    by (intros j Hj; unfold file_at; by rewrite Hss).
  assert (Hso : ∀ sec, sec ∈ headers s fs → sectors_of s' sec = sectors_of s sec).
  { intros sec Hsec. unfold sectors_of. rewrite Hat; [done|]. by apply (fo_files _ _ Hf). }
  assert (Hh : headers s' fs = headers s fs) by (unfold headers; by rewrite Hd).
  assert (Hown : owned s' fs = owned s fs).
  { unfold owned. rewrite Hh. do 2 f_equal. apply list_fmap_ext. intros i x Hx%list_elem_of_lookup_2. auto. }
  destruct Hf. split; [|split; [|split; [exact Hd|exact Hm]]].
  - split; rewrite ?Hown, ?Hd, ?Hm, ?Hh; try assumption.
    + rewrite <- fo_map_at0. by apply Hat.
    + rewrite <- fo_dir_at0. by apply Hat.
    + intros sec Hsec. destruct (fo_files0 sec Hsec). by rewrite Hat.
  - unfold files. rewrite Hd. apply map_eq. intros k. rewrite !lookup_fmap. unfold dmap.
    destruct (list_to_map (used (dir_of s fs)) !! k) as [x|] eqn:E; [|done]. simpl. f_equal.
    assert (Hx : x ∈ headers s fs).
    { apply elem_of_list_to_map_2 in E. unfold headers. apply list_elem_of_fmap. by exists (k, x). }
    destruct (fo_files0 x Hx) as [Hr Hhx]. rewrite Hat by done. by apply contents_same.
Qed.

Lemma new_header_ok : Forall is_s32 (dataSectors FileHeader.new) ∧ length (dataSectors FileHeader.new) = 62%nat.
Proof.
  unfold FileHeader.new, of_bytes. cbn [dataSectors].
  destruct (words_of_bytes_ok 64 (fresh_bytes SectorSize)) as (_ & H2 & _);
    [by rewrite fresh_length|apply fresh_is_byte|]. split.
  - apply Forall_drop, Forall_fmap, Forall_true. intros w. apply s32_range.
  - rewrite length_drop, length_fmap, H2. done.
Qed.

(** The map after a sector has been found in it. *)
Lemma Find_one (b b1 : BitMap.t) k :
  BitMap.wf b → BitMap.Find b = Done (k, b1) → k ≠ -1 →
  k ∈ free b ∧ BitMap.wf b1 ∧ BitMap.numBits b1 = BitMap.numBits b ∧ free b ≡ₚ k :: free b1 ∧
  taken b b1 [k].
Proof.
  intros Hb Hf Hk. destruct (@bm_Find_spec _ BitMap_BitmapLike b Hb) as [(k' & b' & Hf' & Hr & Hbit & Hb' & Hsz & Hbits)|[Hf' _]];
    simpl in Hf'; rewrite Hf in Hf'; simplify_eq.
  assert (Hfree : k' ∈ free b) by (by apply elem_of_free).
  split_and!; try done.
  - apply NoDup_Permutation; [apply free_NoDup|..].
    + constructor; [|apply free_NoDup]. rewrite elem_of_free, Hbits by done.
      rewrite decide_True by done. intros [_ ?]. done.
    + intros j. rewrite elem_of_cons, !elem_of_free. rewrite Hsz. split.
      * intros [Hj Hjb]. destruct (decide (j = k')); [by left|right]. split; [done|].
        by rewrite Hbits, decide_False.
      * intros [->|[Hj Hjb]]; [done|]. split; [done|]. rewrite Hbits in Hjb by done. by case_decide.
  - split_and!; try done. intros j Hj. rewrite Hbits, list_elem_of_singleton by done.
    case_decide; [split; auto|]. split; [by left|]. by intros [?|?].
Qed.

(** ** Looking up a name *)

Lemma files_lookup s fs nm :
  fs_ok s fs →
  files s fs !! key nm = (λ sec, contents s (file_at s sec)) <$> (dmap (dir_of s fs) !! key nm).
Proof. intros _. unfold files. by rewrite lookup_fmap. Qed.

Lemma lookup_header s fs k sec :
  fs_ok s fs → dmap (dir_of s fs) !! k = Some sec →
  sec ∈ headers s fs ∧ 0 ≤ sec < NumSectors ∧ hdr_ok (file_at s sec).
Proof.
  intros Hf Hl. assert (Hin : sec ∈ headers s fs).
  { apply elem_of_list_to_map_2 in Hl. unfold headers. apply list_elem_of_fmap. by exists (k, sec). }
  split; [done|]. by apply (fo_files _ _ Hf).
Qed.

Lemma size_files s fs : fs_ok s fs → size (files s fs) = length (used (dir_of s fs)).
Proof. intros Hf. unfold files. rewrite map_size_fmap. apply dmap_size, Hf. Qed.

(** What [Create] needs: a new name, room in the directory, and free sectors for
    the header and the data. *)
Definition can_create s fs nm (sz : Z) : Prop :=
  files s fs !! key nm = None ∧ Z.of_nat (size (files s fs)) < NumDirEntries ∧
  1 + divRoundUp sz SectorSize ≤ Z.of_nat (length (free (map_of s fs))).

#[export] Instance can_create_dec s fs nm sz : Decision (can_create s fs nm sz).
Proof. unfold can_create. apply _. Defined.

(** Writing the header, the directory and the map of a new file. *)
Lemma create_writes s s2 fs nm sec h d' b2 :
  fs_ok s fs → bd_ok s2 → same_sectors s s2 → 0 ≤ sec < NumSectors → hdr_ok h → int_ok h →
  NoDup (sec :: blocks h) → (∀ j, j ∈ sec :: blocks h → j ∉ owned s fs) →
  dir_ok d' → Directory.tableSize d' = NumDirEntries → used d' ≡ₚ (key nm, sec) :: used (dir_of s fs) →
  BitMap.wf b2 → BitMap.numBits b2 = NumSectors →
  (∀ j, 0 ≤ j < NumSectors → (BitMap.bit b2 j = true ↔
     BitMap.bit (map_of s fs) j = true ∨ j ∈ sec :: blocks h)) →
  ∃ s5, (s ← FileHeader.WriteBack h sec s2; s ← Directory.WriteBack d' (directoryFile fs) s;
         s ← write_map b2 (freeMapFile fs) s; Done (true, s)) = Done (true, s5) ∧
        fs_ok s5 fs ∧ files s5 fs = <[key nm := contents s5 h]> (files s fs).
Proof.
  intros Hf Hs2 Hss Hr Hh Hio Hnd Hfresh Hd Ht Hu Hb Hn Hbits.
  assert (Hsys : sys_ok fs) by apply Hf. pose proof (so_map_hdr _ Hsys) as [Hmh _].
  pose proof (so_dir_hdr _ Hsys) as [Hdh _].
  assert (Hsm : (sec ∉ blocks (map_hdr fs)) ∧ (sec ∉ blocks (dir_hdr fs))).
  { split; intros Hin; (apply (Hfresh sec); [by left|]); unfold owned, system_sectors;
      rewrite !elem_of_app, !elem_of_cons; auto. }
  destruct Hsm as [Hsm Hsd]. unfold FileHeader.WriteBack.
  destruct (bd_write_spec s2 sec (to_bytes h) Hs2 Hr) as (s3 & -> & Hs3 & Hg3);
    [apply to_bytes_length, Hio|apply to_bytes_bytes|].
  cbn [mbind res_bind].
  destruct (write_dir_spec s3 fs d' Hsys Hs3 Hd Ht) as (s4 & -> & Hs4 & Ho4 & Hd4). cbn [mbind res_bind].
  destruct (write_map_spec s4 fs b2 Hsys Hs4 Hb Hn) as (s5 & -> & Hs5 & Ho5 & Hm5). cbn [mbind res_bind].
  assert (Hd5 : dir_of s5 fs = d').
  { rewrite <- Hd4. apply dir_of_same_on. intros j Hj. apply Ho5; [by apply (ho_range _ Hdh)|].
    intros Hj'. by eapply system_files_apart. }
  assert (Hg5 : ∀ j, 0 ≤ j < NumSectors → j ∉ blocks (map_hdr fs) → j ∉ blocks (dir_hdr fs) →
                bd_get s5 j = bd_get s3 j).
  { intros j Hj H1 H2. rewrite Ho5, Ho4 by done. done. }
  exists s5. split; [done|]. apply (create_state s s5 fs (key nm) sec h); rewrite ?Hd5, ?Hm5; try done.
  - unfold file_at. rewrite Hg5, Hg3, decide_True by done. by apply of_bytes_to_bytes.
  - intros j Hj Hne H1 H2. rewrite Hg5, Hg3 by done. rewrite decide_False; [by apply Hss|].
    intros ->. apply Hne. by left.
Qed.

(** The sectors that [Find] and [Allocate] hand out belong to no file. *)
Lemma allocated_fresh s fs sec b1 b2 h :
  fs_ok s fs → 0 ≤ sec < NumSectors → BitMap.bit (map_of s fs) sec = false →
  free (map_of s fs) ≡ₚ sec :: free b1 → taken (map_of s fs) b1 [sec] →
  hdr_ok h → (∀ k, k ∈ blocks h → k ∈ free b1) → taken b1 b2 (blocks h) →
  NoDup (sec :: blocks h) ∧ (∀ j, j ∈ sec :: blocks h → j ∉ owned s fs) ∧
  (∀ j, 0 ≤ j < NumSectors → (BitMap.bit b2 j = true ↔
     BitMap.bit (map_of s fs) j = true ∨ j ∈ sec :: blocks h)).
Proof.
  intros Hf Hr Hbit Hperm (_ & Hsz1 & Hbits1) Hh Hfr (_ & Hsz2 & Hbits2).
  change (bm_size (map_of s fs)) with NumSectors in *. rewrite Hsz1 in *.
  cbn [bm_bit BitMap_BitmapLike] in Hbits1, Hbits2.
  assert (Hfr' : ∀ j, j ∈ blocks h → BitMap.bit (map_of s fs) j = false ∧ j ≠ sec).
  { intros j Hj. apply Hfr in Hj.
    assert (j ∈ free (map_of s fs)) as [Hj1 Hj2]%elem_of_free by (rewrite Hperm; by right).
    split; [done|]. intros ->. apply elem_of_free in Hj as [_ Hj]. cbn [bm_bit BitMap_BitmapLike] in Hj.
    assert (Ht : BitMap.bit b1 sec = true) by (apply Hbits1; [done|right; by left]). congruence. }
  split_and!.
  - constructor; [|apply Hh]. intros Hin. by destruct (Hfr' sec Hin) as [_ ?].
  - intros j Hj Hown. apply (fo_map _ _ Hf) in Hown; [|by apply (owned_range s fs)].
    apply elem_of_cons in Hj as [->|Hj]; [congruence|]. destruct (Hfr' j Hj). congruence.
  - intros j Hj. rewrite Hbits2, Hbits1, list_elem_of_singleton, elem_of_cons by done. tauto.
Qed.

(** What Create does: it makes the file; or the name, the directory or the disk do not
    allow it, and it returns FALSE; or the file is larger than a header can say, and the
    header is overrun. *)
Definition created s fs nm (sz : Z) (r : res (bool * V)) : Prop :=
  if bool_decide (can_create s fs nm sz)
  then if decide (sz ≤ MaxFileSize)
       then ∃ s', r = Done (true, s') ∧ fs_ok s' fs ∧
                  ∃ c, Z.of_nat (length c) = sz ∧ files s' fs = <[key nm := c]> (files s fs)
       else r = Undef
  else ∃ s', r = Done (false, s') ∧ fs_ok s' fs ∧ same_sectors s s' ∧ files s' fs = files s fs.

(** [Create] once a sector for the header has been found. *)
Lemma create_with_sector s s2 fs nm sz sec b1 :
  fs_ok s fs → bd_ok s2 → same_sectors s s2 → c_string nm → 0 ≤ sz →
  key nm ∉ (fst <$> used (dir_of s fs)) →
  BitMap.Find (map_of s fs) = Done (sec, b1) → sec ≠ -1 →
  created s fs nm sz
    ('(added, directory) ← Directory.Add (dir_of s fs) nm sec;
     if negb added then Done (false, s2)
     else
       '(allocated, hdr, freeMap) ← FileHeader.Allocate FileHeader.new b1 sz;
       if negb allocated then Done (false, s2)
       else
         s ← FileHeader.WriteBack hdr sec s2;
         s ← Directory.WriteBack directory (directoryFile fs) s;
         s ← write_map freeMap (freeMapFile fs) s;
         Done (true, s)).
Proof.
  intros Hf Hs2 Hss Hnm Hsz Hno Hfind Hsec. assert (Hsys : sys_ok fs) by apply Hf. unfold created.
  destruct (fs_ok_same s s2 fs Hf Hs2 Hss) as (Hf2 & Hfs2 & _).
  pose proof (map_of_wf s fs Hsys (fo_dev _ _ Hf)) as Hwf.
  destruct (Find_one _ _ _ Hwf Hfind Hsec) as (Hsf & Hb1 & Hn1 & Hperm & Htk1).
  apply elem_of_free in Hsf as [Hr Hbit]. change (bm_size (map_of s fs)) with NumSectors in Hr.
  pose proof (Add_spec (dir_of s fs) nm sec (fo_dir _ _ Hf) Hnm
    ltac:(change NumSectors with 1024 in Hr; unfold_int; lia)) as Hadd.
  change (Directory.tableSize (dir_of s fs)) with NumDirEntries in Hadd.
  case_decide as Hfull.
  { rewrite Hadd. cbn [mbind res_bind negb]. rewrite bool_decide_false; [exists s2; by split_and!|].
    intros (_ & Hcap & _). rewrite size_files in Hcap by done. destruct Hfull; [done|lia]. }
  destruct Hadd as (d' & -> & Hd' & Ht' & Hu'). cbn [mbind res_bind negb].
  destruct new_header_ok as [H32 H62].
  pose proof (Allocate_cases FileHeader.new b1 sz Hb1 Hn1 H62 Hsz) as Hal.
  apply Permutation_length in Hperm as Hfl. simpl in Hfl.
  case_decide as Hfew.
  { destruct Hal as [h' ->]. cbn [mbind res_bind negb].
    rewrite bool_decide_false; [exists s2; by split_and!|]. intros (_ & _ & Hfree). lia. }
  rewrite bool_decide_true.
  2: { split_and!; [rewrite files_lookup, fmap_None by done; by apply not_elem_of_list_to_map_1| |lia].
       rewrite size_files by done. pose proof (do_size _ (fo_dir _ _ Hf)) as Hsz1.
       change (Directory.tableSize _) with NumDirEntries in Hsz1.
       assert (length (used (dir_of s fs)) ≤ length (Directory.table (dir_of s fs)))%nat
         by (unfold used; rewrite length_fmap; apply length_filter). lia. }
  case_decide; [|by rewrite Hal].
  destruct Hal as (h & b2 & -> & Hh & Hnb & Hfr & Htk2 & H32'). cbn [mbind res_bind negb].
  destruct (allocated_fresh s fs sec b1 b2 h) as (Hnd & Hfresh & Hbits); try done.
  destruct (create_writes s s2 fs nm sec h d' b2) as (s5 & -> & Hf5 & Hfs5); try done.
  { apply hdr_ok_int_ok; auto. }
  { apply Htk2. }
  { destruct Htk2 as (_ & E & _). cbn [bm_size BitMap_BitmapLike] in E. by rewrite E. }
  exists s5. split_and!; try done. exists (contents s5 h). split; [|done].
  rewrite contents_length; [|done|apply Hf5]. rewrite Hnb. lia.
Qed.

Lemma Create_cases s fs nm sz :
  fs_ok s fs → c_string nm → 0 ≤ sz → created s fs nm sz (Create fs nm sz s).
Proof.
  intros Hf Hnm Hsz. assert (Hsys : sys_ok fs) by apply Hf. unfold Create.
  destruct (fetch_dir_spec s fs Hsys (fo_dev _ _ Hf)) as (s1 & -> & Hs1 & Hss1). cbn [mbind res_bind].
  rewrite Dir_Find_spec by apply Hf. cbn [mbind res_bind].
  destruct (dmap (dir_of s fs) !! key nm) as [sec0|] eqn:Hl.
  { destruct (lookup_header s fs _ _ Hf Hl) as (_ & Hr & _). simpl default.
    rewrite (proj2 (Z.eqb_neq sec0 (-1))) by lia. cbn [negb]. unfold created.
    rewrite bool_decide_false by (intros (Hno & _); rewrite files_lookup, Hl in Hno by done; done).
    exists s1. destruct (fs_ok_same s s1 fs Hf Hs1 Hss1) as (? & ? & _). by split_and!. }
  simpl default. change (-1 =? -1) with true. cbn [negb].
  assert (Hno : key nm ∉ (fst <$> used (dir_of s fs)))
    by (intros Hin; apply dmap_key in Hin as [? ?]; [congruence|apply Hf]).
  destruct new_BitMap_ok as (b0 & -> & Hb0 & Hn0 & _). cbn [mbind res_bind].
  destruct (fs_ok_same s s1 fs Hf Hs1 Hss1) as (_ & _ & _ & Hm1).
  destruct (fetch_map_spec s1 fs b0 Hsys Hs1 Hb0 Hn0) as (s2 & -> & Hs2 & Hss2). cbn [mbind res_bind].
  pose proof (same_sectors_trans _ _ _ Hss1 Hss2) as Hss.
  destruct (fs_ok_same s s2 fs Hf Hs2 Hss) as (Hf2 & Hfs2 & _).
  rewrite Hm1. pose proof (map_of_wf s fs Hsys (fo_dev _ _ Hf)) as Hwf.
  pose proof (@bm_Find_spec _ BitMap_BitmapLike _ Hwf) as Hfs. cbn [bm_Find BitMap_BitmapLike] in Hfs.
  destruct Hfs as [(sec & b1 & Hfind & Hr & _)|[-> Hall]].
  - rewrite Hfind. cbn [mbind res_bind]. rewrite (proj2 (Z.eqb_neq sec (-1))) by lia.
    apply create_with_sector; try done. lia.
  - cbn [mbind res_bind]. change (-1 =? -1) with true. unfold created.
    rewrite bool_decide_false; [exists s2; by split_and!|]. intros (_ & _ & Hfree).
    pose proof (divRoundUp_nonneg sz SectorSize ltac:(lia) ltac:(done)).
    unfold free in Hfree. rewrite filter_none in Hfree; [simpl in Hfree; lia|].
    intros j Hj%elem_of_seqZ. rewrite (Hall j) by lia. done.
Qed.

Lemma Create_spec s fs nm sz :
  fs_ok s fs → c_string nm → 0 ≤ sz ≤ MaxFileSize →
  ∃ s', Create fs nm sz s = Done (bool_decide (can_create s fs nm sz), s') ∧ fs_ok s' fs ∧
    if bool_decide (can_create s fs nm sz)
    then ∃ c, Z.of_nat (length c) = sz ∧ files s' fs = <[key nm := c]> (files s fs)
    else same_sectors s s' ∧ files s' fs = files s fs.
Proof.
  intros Hf Hnm [Hlo Hmax]. pose proof (Create_cases s fs nm sz Hf Hnm Hlo) as Hcr. unfold created in Hcr.
  rewrite (decide_True (P := sz ≤ MaxFileSize)) in Hcr by done.
  destruct (bool_decide (can_create s fs nm sz)); destruct Hcr as (s' & -> & ? & ?); by exists s'.
Qed.

Lemma Open_spec s fs nm :
  fs_ok s fs →
  ∃ o s', Open fs nm s = Done (o, s') ∧ fs_ok s' fs ∧ same_sectors s s' ∧
    match files s fs !! key nm with
    | Some c => ∃ sec, o = Some (OpenFile.mk (file_at s sec) 0) ∧ dmap (dir_of s fs) !! key nm = Some sec ∧
                       hdr_ok (file_at s sec) ∧ contents s (file_at s sec) = c
    | None => o = None
    end.
Proof.
  intros Hf. assert (Hsys : sys_ok fs) by apply Hf. unfold Open.
  destruct (fetch_dir_spec s fs Hsys (fo_dev _ _ Hf)) as (s1 & -> & Hs1 & Hss1). cbn [mbind res_bind].
  rewrite Dir_Find_spec by apply Hf. cbn [mbind res_bind]. rewrite files_lookup by done.
  destruct (dmap (dir_of s fs) !! key nm) as [sec|] eqn:Hl; simpl default.
  - destruct (lookup_header s fs _ _ Hf Hl) as (_ & Hr & Hh).
    rewrite (proj2 (Z.leb_le 0 sec)) by lia. unfold OpenFile.OpenFile, FileHeader.FetchFrom.
    destruct (bd_read_spec s1 sec Hs1 Hr) as (s2 & -> & Hs2 & Hss2). cbn [mbind res_bind].
    eexists _, s2. split; [done|].
    assert (Hss : same_sectors s s2) by (by eapply same_sectors_trans).
    split; [by apply (fs_ok_same s s2 fs Hf Hs2)|]. split; [done|]. cbn [fmap option_fmap option_map].
    exists sec. rewrite (Hss1 sec) by done. by split_and!.
  - change (0 <=? -1) with false. exists None, s1. split; [done|].
    split; [by apply (fs_ok_same s s1 fs Hf Hs1)|]. by split.
Qed.

(** Writing the map and the directory of a removed file. *)
Lemma remove_writes s s3 fs k sec d' b2 :
  fs_ok s fs → bd_ok s3 → same_sectors s s3 →
  dir_ok d' → Directory.tableSize d' = NumDirEntries → used (dir_of s fs) ≡ₚ (k, sec) :: used d' →
  BitMap.wf b2 → BitMap.numBits b2 = NumSectors →
  (∀ j, 0 ≤ j < NumSectors → (BitMap.bit b2 j = true ↔
     BitMap.bit (map_of s fs) j = true ∧ j ∉ sectors_of s sec)) →
  ∃ s5, (s ← write_map b2 (freeMapFile fs) s3; s ← Directory.WriteBack d' (directoryFile fs) s;
         Done (true, s)) = Done (true, s5) ∧
        fs_ok s5 fs ∧ files s5 fs = delete k (files s fs) ∧ map_of s5 fs = b2.
Proof.
  intros Hf Hs3 Hss Hd Ht Hu Hb Hn Hbits.
  assert (Hsys : sys_ok fs) by apply Hf. pose proof (so_map_hdr _ Hsys) as [Hmh _].
  destruct (write_map_spec s3 fs b2 Hsys Hs3 Hb Hn) as (s4 & -> & Hs4 & Ho4 & Hm4). cbn [mbind res_bind].
  destruct (write_dir_spec s4 fs d' Hsys Hs4 Hd Ht) as (s5 & -> & Hs5 & Ho5 & Hd5). cbn [mbind res_bind].
  assert (Hm5 : map_of s5 fs = b2).
  { rewrite <- Hm4. apply map_of_same_on. intros j Hj. apply Ho5; [by apply (ho_range _ Hmh)|].
    by apply (system_files_apart s fs). }
  exists s5. split; [done|].
  destruct (remove_state s s5 fs k sec) as [H1 H2]; rewrite ?Hd5, ?Hm5; try done.
  intros j Hj _ H1 H2. rewrite Ho5, Ho4 by done. by apply Hss.
Qed.

(** The sectors of a file are marked, and releasing them leaves the others. *)
Lemma release_spec s fs sec :
  fs_ok s fs → sec ∈ headers s fs →
  ∃ b1 b2, FileHeader.Deallocate (file_at s sec) (map_of s fs) = Done b1 ∧ BitMap.Clear b1 sec = Done b2 ∧
    BitMap.wf b2 ∧ BitMap.numBits b2 = NumSectors ∧
    (∀ j, 0 ≤ j < NumSectors → (BitMap.bit b2 j = true ↔
       BitMap.bit (map_of s fs) j = true ∧ j ∉ sectors_of s sec)).
Proof.
  intros Hf Hsec. destruct (fo_files _ _ Hf sec Hsec) as [Hr Hh].
  assert (Hwf : BitMap.wf (map_of s fs)) by (apply map_of_wf; apply Hf).
  destruct (Deallocate_spec (file_at s sec) (map_of s fs)) as (b1 & -> & Hb1 & Hn1 & Hbits1); [done|done|done|..].
  { intros k Hk. apply (fo_map _ _ Hf); [by apply (ho_range _ Hh)|].
    eapply header_in_owned; [done|]. by right. }
  cbn [bm_ok bm_size bm_bit BitMap_BitmapLike] in Hb1, Hn1, Hbits1.
  change (BitMap.numBits (map_of s fs)) with NumSectors in Hn1, Hbits1.
  destruct (BitMap.Clear_spec b1 sec Hb1) as (b2 & Hc & Hb2 & Hn2 & Hbits2); [by rewrite Hn1|].
  exists b1, b2. split_and!; [done|done|done|congruence|]. intros j Hj. rewrite Hn1 in Hbits2.
  rewrite Hbits2 by done. unfold sectors_of. rewrite elem_of_cons. case_decide as Hd.
  - subst j. split; [done|]. intros [_ Hno]. exfalso. apply Hno. by left.
  - rewrite Hbits1 by done. tauto.
Qed.

(** The free sectors afterwards. *)
Lemma release_free s fs sec (b2 : BitMap.t) :
  fs_ok s fs → sec ∈ headers s fs → BitMap.numBits b2 = NumSectors →
  (∀ j, 0 ≤ j < NumSectors → (BitMap.bit b2 j = true ↔
     BitMap.bit (map_of s fs) j = true ∧ j ∉ sectors_of s sec)) →
  free b2 ≡ₚ sectors_of s sec ++ free (map_of s fs).
Proof.
  intros Hf Hsec Hn Hbits. destruct (fo_files _ _ Hf sec Hsec) as [Hr Hh].
  assert (Hmark : ∀ j, j ∈ sectors_of s sec → 0 ≤ j < NumSectors ∧ BitMap.bit (map_of s fs) j = true).
  { intros j Hj. pose proof (header_in_owned s fs sec j Hsec Hj) as Ho.
    pose proof (owned_range s fs j Hf Ho). split; [done|]. by apply (fo_map _ _ Hf). }
  assert (Hnd : NoDup (sectors_of s sec)).
  { pose proof (fo_owned _ _ Hf) as Hnd. unfold owned in Hnd. apply list.NoDup_app in Hnd as (_ & _ & Hnd).
    apply elem_of_Permutation in Hsec as [rest Hp]. rewrite (concat_fmap_perm _ _ _ Hp) in Hnd.
    by apply list.NoDup_app in Hnd as (? & _ & _). }
  apply NoDup_Permutation; [apply free_NoDup|..].
  - apply list.NoDup_app. split_and!; [done| |apply free_NoDup].
    intros j Hj [_ Hj2]%elem_of_free. apply Hmark in Hj as [_ Hj]. simpl in Hj2. congruence.
  - intros j. rewrite elem_of_app, !elem_of_free. cbn [bm_size bm_bit BitMap_BitmapLike].
    rewrite Hn. change (BitMap.numBits (map_of s fs)) with NumSectors. split.
    + intros [Hj Hjb]. specialize (Hbits j Hj). rewrite Hjb in Hbits.
      destruct (decide (j ∈ sectors_of s sec)); [by left|right]. split; [done|].
      destruct (BitMap.bit (map_of s fs) j); [|done]. exfalso. destruct Hbits as [_ Hb]. by discriminate Hb.
    + intros [Hj|[Hj Hjb]].
      * destruct (Hmark j Hj) as [Hjr _]. split; [done|]. apply not_true_iff_false. rewrite Hbits by done. tauto.
      * split; [done|]. apply not_true_iff_false. rewrite Hbits, Hjb by done. by intros [? _].
Qed.

Lemma Remove_file_spec s fs nm :
  fs_ok s fs →
  ∃ s', FileSystem.Remove fs nm s = Done (bool_decide (is_Some (files s fs !! key nm)), s') ∧
    fs_ok s' fs ∧ files s' fs = delete (key nm) (files s fs) ∧
    match files s fs !! key nm with
    | None => same_sectors s s'
    | Some c => Z.of_nat (length (free (map_of s' fs))) =
                Z.of_nat (length (free (map_of s fs))) + 1 + divRoundUp (Z.of_nat (length c)) SectorSize
    end.
Proof.
  intros Hf. assert (Hsys : sys_ok fs) by apply Hf. unfold FileSystem.Remove.
  destruct (fetch_dir_spec s fs Hsys (fo_dev _ _ Hf)) as (s1 & -> & Hs1 & Hss1). cbn [mbind res_bind].
  rewrite Dir_Find_spec by apply Hf. cbn [mbind res_bind]. rewrite files_lookup by done.
  destruct (dmap (dir_of s fs) !! key nm) as [sec|] eqn:Hl; simpl default.
  2: { change (-1 =? -1) with true. exists s1. destruct (fs_ok_same s s1 fs Hf Hs1 Hss1) as (Hf1 & Hfs1 & _).
       cbn [fmap option_fmap option_map]. rewrite bool_decide_false by (by intros [? ?]).
       split_and!; try done. rewrite Hfs1, delete_id; [done|]. by rewrite files_lookup, Hl. }
  destruct (lookup_header s fs _ _ Hf Hl) as (Hsec & Hr & Hh).
  rewrite (proj2 (Z.eqb_neq sec (-1))) by lia. unfold FileHeader.FetchFrom.
  destruct (bd_read_spec s1 sec Hs1 Hr) as (s2 & -> & Hs2 & Hss2). cbn [mbind res_bind].
  rewrite (Hss1 sec) by done. fold (file_at s sec).
  destruct new_BitMap_ok as (b0 & -> & Hb0 & Hn0 & _). cbn [mbind res_bind].
  assert (Hss : same_sectors s s2) by (by eapply same_sectors_trans).
  destruct (fs_ok_same s s2 fs Hf Hs2 Hss) as (_ & _ & _ & Hm2).
  destruct (fetch_map_spec s2 fs b0 Hsys Hs2 Hb0 Hn0) as (s3 & -> & Hs3 & Hss3). cbn [mbind res_bind].
  rewrite Hm2. destruct (release_spec s fs sec Hf Hsec) as (b1 & b2 & -> & Hcl & Hb2 & Hn2 & Hbits).
  cbn [mbind res_bind]. rewrite Hcl. cbn [mbind res_bind].
  pose proof (Dir_Remove_spec (dir_of s fs) nm (fo_dir _ _ Hf)) as Hrm.
  rewrite decide_True in Hrm by (apply dmap_key; [apply Hf|by exists sec]).
  destruct Hrm as (d' & sec' & -> & Hd' & Ht' & Hu). cbn [mbind res_bind].
  assert (sec' = sec) as ->.
  { rewrite (dmap_perm _ _ (fo_dir _ _ Hf) Hu) in Hl. simpl in Hl. rewrite lookup_insert_eq in Hl. congruence. }
  destruct (remove_writes s s3 fs (key nm) sec d' b2) as (s5 & -> & Hf5 & Hfs5 & Hm5); try done.
  { by eapply same_sectors_trans. }
  exists s5. cbn [fmap option_fmap option_map]. rewrite bool_decide_true by eauto. split_and!; try done.
  rewrite Hm5, (release_free s fs sec b2) by done. unfold sectors_of.
  rewrite length_app, length_cons, blocks_length, contents_length by (done || apply Hf).
  rewrite (ho_sectors _ Hh). pose proof (ho_bytes _ Hh).
  pose proof (divRoundUp_nonneg (numBytes (file_at s sec)) SectorSize ltac:(lia) ltac:(done)).
  rewrite Z2Nat.id by lia. lia.
Qed.

(** ** Writing into an open file *)

(** Two files have different headers and no sector in common. *)
Lemma files_disjoint s fs k sec k' sec' j :
  fs_ok s fs → dmap (dir_of s fs) !! k = Some sec → dmap (dir_of s fs) !! k' = Some sec' → k ≠ k' →
  j ∈ sectors_of s sec → j ∉ sectors_of s sec'.
Proof.
  intros Hf H1 H2 Hne Hj Hj'. apply elem_of_list_to_map_2 in H1, H2.
  apply elem_of_Permutation in H1 as [rest Hp].
  rewrite Hp in H2. apply elem_of_cons in H2 as [[= -> ->]|H2]; [done|].
  assert (Hh : headers s fs ≡ₚ sec :: (snd <$> rest)) by (unfold headers; by rewrite Hp).
  pose proof (fo_owned _ _ Hf) as Hnd. unfold owned in Hnd. apply list.NoDup_app in Hnd as (_ & _ & Hnd).
  rewrite (concat_fmap_perm _ _ _ Hh) in Hnd. cbn [fmap list_fmap concat] in Hnd.
  apply list.NoDup_app in Hnd as (_ & Hdis & _). apply (Hdis j Hj).
  rewrite list_elem_of_In, in_concat. exists (sectors_of s sec'). split; apply list_elem_of_In; [|done].
  apply list_elem_of_fmap. exists sec'. split; [done|]. apply list_elem_of_fmap. by exists (k', sec').
Qed.

Lemma write_file_state s s' fs k sec :
  fs_ok s fs → bd_ok s' → dmap (dir_of s fs) !! k = Some sec → other_sectors s s' (file_at s sec) →
  fs_ok s' fs ∧ files s' fs = <[k := contents s' (file_at s sec)]> (files s fs) ∧
  dir_of s' fs = dir_of s fs ∧ file_at s' sec = file_at s sec.
Proof.
  intros Hf Hs' Hl Ho. destruct (lookup_header s fs k sec Hf Hl) as (Hsec & Hr & Hh).
  assert (Hsys : sys_ok fs) by apply Hf.
  assert (Hsame : ∀ j, 0 ≤ j < NumSectors → j ∉ blocks (file_at s sec) → bd_get s' j = bd_get s j) by apply Ho.
  assert (Hsysd : ∀ j, j ∈ system_sectors fs → bd_get s' j = bd_get s j).
  { intros j Hj. apply Hsame; [by apply (system_sectors_range fs)|]. intros Hin.
    apply (file_not_system s fs sec j Hf Hsec); [by right|done]. }
  assert (Hhdr : ∀ x, x ∈ headers s fs → file_at s' x = file_at s x).
  { intros x Hx. unfold file_at. f_equal. destruct (fo_files _ _ Hf x Hx) as [Hxr _].
    apply Hsame; [done|]. intros Hin. unfold headers in Hx. apply list_elem_of_fmap in Hx as ([k' x'] & E & Hx).
    simpl in E. subst x'. assert (Hl' : dmap (dir_of s fs) !! k' = Some x)
      by (apply elem_of_list_to_map_1; [apply (fo_dir _ _ Hf)|done]).
    destruct (decide (k = k')) as [->|Hne].
    - assert (x = sec) as -> by congruence. pose proof (fo_owned _ _ Hf) as Hnd. unfold owned in Hnd.
      apply list.NoDup_app in Hnd as (_ & _ & Hnd). apply elem_of_Permutation in Hsec as [rest Hp].
      rewrite (concat_fmap_perm _ _ _ Hp) in Hnd. apply list.NoDup_app in Hnd as (Hnd & _ & _).
      by apply NoDup_cons in Hnd as [? _].
    - apply (files_disjoint s fs k sec k' x x Hf Hl Hl' Hne); [by right|by left]. }
  assert (Hd : dir_of s' fs = dir_of s fs).
  { apply dir_of_same_on. intros j Hj. apply Hsysd. unfold system_sectors. apply elem_of_app. right. by right. }
  assert (Hm : map_of s' fs = map_of s fs).
  { apply map_of_same_on. intros j Hj. apply Hsysd. unfold system_sectors. apply elem_of_app. left. by right. }
  assert (Hhs : headers s' fs = headers s fs) by (unfold headers; by rewrite Hd).
  assert (Hown : owned s' fs = owned s fs).
  { unfold owned. rewrite Hhs. do 2 f_equal. apply list_fmap_ext. intros i x Hx%list_elem_of_lookup_2.
    unfold sectors_of. by rewrite Hhdr. }
  split_and!; [| |done|by apply Hhdr].
  - split; rewrite ?Hown, ?Hd, ?Hm, ?Hhs; try (assumption || apply Hf).
    + rewrite <- (fo_map_at _ _ Hf). unfold file_at. f_equal. apply Hsysd. by left.
    + rewrite <- (fo_dir_at _ _ Hf). unfold file_at. f_equal. apply Hsysd.
      unfold system_sectors. apply elem_of_app. right. by left.
    + intros x Hx. rewrite Hhdr by done. by apply (fo_files _ _ Hf).
  - apply map_eq. intros k'. unfold files. rewrite Hd.
    destruct (decide (k' = k)) as [->|Hne].
    + rewrite lookup_insert_eq, lookup_fmap, Hl. simpl. by rewrite Hhdr.
    + rewrite lookup_insert_ne, !lookup_fmap by done.
      destruct (dmap (dir_of s fs) !! k') as [x|] eqn:E; [|done]. simpl. f_equal.
      destruct (lookup_header s fs k' x Hf E) as (Hx & _ & Hhx). rewrite Hhdr by done.
      apply contents_same_on. intros j Hj. apply Hsame; [by apply (ho_range _ Hhx)|].
      intros Hin. apply (files_disjoint s fs k sec k' x j Hf Hl E); [done|by right|by right].
Qed.

(** ** Formatting a disk *)

Lemma free_after (b b' : BitMap.t) ks :
  taken b b' ks → (length (free b) ≤ length ks + length (free b'))%nat.
Proof.
  intros (_ & Hsz & Hbits). rewrite <- length_app. apply submseteq_length, NoDup_submseteq; [apply free_NoDup|].
  intros j [Hj Hjb]%elem_of_free. apply elem_of_app. specialize (Hbits j Hj).
  destruct (bm_bit b' j) eqn:E.
  - left. destruct Hbits as [Hb _]. destruct (Hb eq_refl); [congruence|done].
  - right. apply elem_of_free. by rewrite Hsz.
Qed.

Lemma Mark_taken (b : BitMap.t) k :
  BitMap.wf b → 0 ≤ k < BitMap.numBits b → ∃ b', BitMap.Mark b k = Done b' ∧ BitMap.wf b' ∧
    BitMap.numBits b' = BitMap.numBits b ∧ taken b b' [k].
Proof.
  intros Hb Hk. destruct (BitMap.Mark_spec b k Hb Hk) as (b' & Hm & Hb' & Hn & Hbits). exists b'.
  split_and!; try done. split_and!; try done. intros j Hj. cbn [bm_bit bm_size BitMap_BitmapLike] in *.
  rewrite Hbits, list_elem_of_singleton by done. case_decide; [split; auto|]. split; [by left|]. by intros [?|?].
Qed.

(** An allocation from a map with enough free sectors. *)
Lemma Allocate_succeeds (b : BitMap.t) sz :
  BitMap.wf b → BitMap.numBits b = NumSectors → 0 ≤ sz ≤ MaxFileSize →
  divRoundUp sz SectorSize ≤ Z.of_nat (length (free b)) →
  ∃ h b', FileHeader.Allocate FileHeader.new b sz = Done (true, h, b') ∧ hdr_ok h ∧ int_ok h ∧
    numBytes h = sz ∧ (∀ k, k ∈ blocks h → k ∈ free b) ∧ taken b b' (blocks h).
Proof.
  intros Hb Hn Hsz Hfree. destruct new_header_ok as [H32 H62].
  pose proof (Allocate_spec FileHeader.new b sz Hb Hn H62 Hsz) as Ha. rewrite decide_False in Ha by lia.
  destruct Ha as (h & b' & Ha & Hh & Hnb & Hfr & Ht & H32'). exists h, b'. split_and!; try done.
  apply hdr_ok_int_ok; auto.
Qed.

(** A new map with the two header sectors marked. *)
Lemma format_marks :
  ∃ b0 b1 b2, new_BitMap = Done b0 ∧ BitMap.Mark b0 FreeMapSector = Done b1 ∧
    BitMap.Mark b1 DirectorySector = Done b2 ∧ BitMap.wf b2 ∧ BitMap.numBits b2 = NumSectors ∧
    (1022 ≤ length (free b2))%nat ∧
    ∀ j, 0 ≤ j < NumSectors →
      (BitMap.bit b2 j = true ↔ j = FreeMapSector ∨ j = DirectorySector).
Proof.
  destruct sys_values as (_ & _ & _ & HN). destruct new_BitMap_ok as (b0 & E0 & Hb0 & Hn0 & Hz).
  destruct (Mark_taken b0 FreeMapSector Hb0) as (b1 & E1 & Hb1 & Hn1 & Ht1);
    [rewrite Hn0, HN; unfold FreeMapSector; lia|].
  destruct (Mark_taken b1 DirectorySector Hb1) as (b2 & E2 & Hb2 & Hn2 & Ht2);
    [rewrite Hn1, Hn0, HN; unfold DirectorySector; lia|].
  pose proof (free_after _ _ _ Ht1) as Hf1. pose proof (free_after _ _ _ Ht2) as Hf2.
  assert (Hf0 : length (free b0) = 1024%nat).
  { unfold free. rewrite filter_everything;
      [cbn [bm_size BitMap_BitmapLike]; rewrite length_seqZ, Hn0, HN; reflexivity|].
    intros j Hj%elem_of_seqZ. cbn [bm_bit bm_size BitMap_BitmapLike] in *. apply Hz. rewrite Hn0 in Hj. lia. }
  exists b0, b1, b2. do 4 (split; [assumption|]). split; [congruence|].
  split; [cbn [length] in Hf1, Hf2; lia|]. destruct Ht1 as (_ & _ & Hb1'), Ht2 as (_ & _ & Hb2').
  cbn [bm_size bm_bit BitMap_BitmapLike] in *. rewrite Hn1, Hn0 in *.
  intros j Hj. rewrite (Hb2' j Hj), (Hb1' j Hj), !list_elem_of_singleton, (Hz j Hj).
  clear. split; [intros [[?|?]|?]; [discriminate|auto..]|tauto].
Qed.

(** The sectors of the two headers and of their data. *)
Lemma layout_disjoint (b2 b3 b4 : BitMap.t) h1 h2 :
  BitMap.numBits b2 = NumSectors → hdr_ok h1 → hdr_ok h2 →
  (∀ j, 0 ≤ j < NumSectors → (BitMap.bit b2 j = true ↔ j = FreeMapSector ∨ j = DirectorySector)) →
  (∀ k, k ∈ blocks h1 → k ∈ free b2) → taken b2 b3 (blocks h1) →
  (∀ k, k ∈ blocks h2 → k ∈ free b3) → taken b3 b4 (blocks h2) →
  NoDup ((FreeMapSector :: blocks h1) ++ (DirectorySector :: blocks h2)) ∧
  ∀ j, 0 ≤ j < NumSectors → (BitMap.bit b4 j = true ↔
    j ∈ (FreeMapSector :: blocks h1) ++ (DirectorySector :: blocks h2)).
Proof.
  intros Hn2 Hh1 Hh2 B2 Hfr1 (_ & Hz3 & Hb3) Hfr2 (_ & Hz4 & Hb4).
  cbn [bm_size bm_bit BitMap_BitmapLike] in *. rewrite Hn2 in Hb3. rewrite Hz3, Hn2 in Hb4.
  assert (N1 : ∀ j, j ∈ blocks h1 → ¬ (j = FreeMapSector ∨ j = DirectorySector)).
  { intros j Hj1. apply Hfr1, elem_of_free in Hj1 as [Hj Hjb]. cbn [bm_size bm_bit BitMap_BitmapLike] in *.
    rewrite Hn2 in Hj. rewrite <- (B2 j Hj), Hjb. discriminate. }
  assert (N2 : ∀ j, j ∈ blocks h2 → ¬ ((j = FreeMapSector ∨ j = DirectorySector) ∨ j ∈ blocks h1)).
  { intros j Hj1. apply Hfr2, elem_of_free in Hj1 as [Hj Hjb]. cbn [bm_size bm_bit BitMap_BitmapLike] in *.
    rewrite Hz3, Hn2 in Hj. rewrite <- (B2 j Hj), <- (Hb3 j Hj), Hjb. discriminate. }
  split.
  - apply list.NoDup_app. split_and!.
    + constructor; [|apply Hh1]. intros Hin. apply (N1 _ Hin). by left.
    + intros j Hj Hj'. rewrite elem_of_cons in Hj, Hj'. destruct Hj as [->|Hj], Hj' as [Hj'|Hj'].
      * discriminate.
      * apply (N2 _ Hj'). left. by left.
      * subst j. apply (N1 _ Hj). by right.
      * apply (N2 _ Hj'). by right.
    + constructor; [|apply Hh2]. intros Hin. apply (N2 _ Hin). left. by right.
  - intros j Hj. rewrite (Hb4 j Hj), (Hb3 j Hj), (B2 j Hj), elem_of_app, !elem_of_cons. clear. tauto.
Qed.

(** The header sectors and the two headers of a new file system. *)
Lemma format_layout :
  ∃ b0 b1 b2 h1 b3 h2 b4, new_BitMap = Done b0 ∧ BitMap.Mark b0 FreeMapSector = Done b1 ∧
    BitMap.Mark b1 DirectorySector = Done b2 ∧
    FileHeader.Allocate FileHeader.new b2 FreeMapFileSize = Done (true, h1, b3) ∧
    FileHeader.Allocate FileHeader.new b3 DirectoryFileSize = Done (true, h2, b4) ∧
    sys_ok (FileSystem.mk (OpenFile.mk h1 0) (OpenFile.mk h2 0)) ∧
    BitMap.wf b4 ∧ BitMap.numBits b4 = NumSectors ∧
    NoDup (system_sectors (FileSystem.mk (OpenFile.mk h1 0) (OpenFile.mk h2 0))) ∧
    ∀ j, 0 ≤ j < NumSectors → (BitMap.bit b4 j = true ↔
      j ∈ system_sectors (FileSystem.mk (OpenFile.mk h1 0) (OpenFile.mk h2 0))).
Proof.
  destruct format_marks as (b0 & b1 & b2 & E0 & E1 & E2 & Hb2 & Hn2 & Hfree & B2).
  destruct sys_values as (HF & HD & _ & _).
  destruct (Allocate_succeeds b2 FreeMapFileSize) as (h1 & b3 & E3 & Hh1 & Hi1 & Hs1 & Hfr1 & Ht3);
    [assumption|assumption|rewrite HF, MaxFileSize_value; lia
    |rewrite HF; change (divRoundUp 128 SectorSize) with 1; lia|].
  pose proof (free_after _ _ _ Ht3) as Hf3. rewrite (blocks_length h1 Hh1), (ho_sectors h1 Hh1), Hs1, HF in Hf3.
  change (Z.to_nat (divRoundUp 128 SectorSize)) with 1%nat in Hf3.
  pose proof (proj1 Ht3) as Hb3. pose proof (proj1 (proj2 Ht3)) as Hz3.
  cbn [bm_ok bm_size BitMap_BitmapLike] in Hb3, Hz3. rewrite Hn2 in Hz3.
  destruct (Allocate_succeeds b3 DirectoryFileSize) as (h2 & b4 & E4 & Hh2 & Hi2 & Hs2 & Hfr2 & Ht4);
    [assumption|assumption|rewrite HD, MaxFileSize_value; lia
    |rewrite HD; change (divRoundUp 200 SectorSize) with 1; lia|].
  pose proof (proj1 Ht4) as Hb4. pose proof (proj1 (proj2 Ht4)) as Hz4.
  cbn [bm_ok bm_size BitMap_BitmapLike] in Hb4, Hz4. rewrite Hz3 in Hz4.
  destruct (layout_disjoint b2 b3 b4 h1 h2) as [Hnd Hbits]; try assumption.
  exists b0, b1, b2, h1, b3, h2, b4. do 5 (split; [assumption|]).
  split; [split; [split; assumption|split; assumption|assumption|assumption]|].
  do 2 (split; [assumption|]). split; assumption.
Qed.

Lemma format_spec s :
  bd_ok s →
  ∃ fs s', FileSystem.FileSystem true s = Done (fs, s') ∧ fs_ok s' fs ∧ files s' fs = ∅.
Proof.
  intros Hs. unfold FileSystem.FileSystem. destruct sys_values as (_ & _ & HE & HN).
  destruct format_layout as (b0 & b1 & b2 & h1 & b3 & h2 & b4 & -> & E1 & E2 & E3 & E4 & Hsys & Hb4 & Hn4 & Hnd & Hbits).
  set (fs := FileSystem.mk (OpenFile.mk h1 0) (OpenFile.mk h2 0)) in *.
  cbn [mbind res_bind]. rewrite E1. cbn [mbind res_bind]. rewrite E2. cbn [mbind res_bind].
  rewrite E3. cbn [mbind res_bind ASSERT]. rewrite E4. cbn [mbind res_bind ASSERT].
  destruct (so_map_hdr fs Hsys) as [Hh1 Hi1]. destruct (so_dir_hdr fs Hsys) as [Hh2 Hi2].
  unfold map_hdr, dir_hdr in *. cbn [fs freeMapFile directoryFile OpenFile.hdr] in *.
  unfold FileHeader.WriteBack, OpenFile.OpenFile, FileHeader.FetchFrom.
  assert (R0 : 0 ≤ FreeMapSector < NumSectors) by (unfold FreeMapSector; lia).
  assert (R1 : 0 ≤ DirectorySector < NumSectors) by (unfold DirectorySector; lia).
  destruct (bd_write_spec s FreeMapSector (to_bytes h1) Hs R0) as (s1 & -> & Hs1 & G1);
    [apply to_bytes_length, Hi1|apply to_bytes_bytes|]. cbn [mbind res_bind].
  destruct (bd_write_spec s1 DirectorySector (to_bytes h2) Hs1 R1) as (s2 & -> & Hs2 & G2);
    [apply to_bytes_length, Hi2|apply to_bytes_bytes|]. cbn [mbind res_bind].
  destruct (bd_read_spec s2 FreeMapSector Hs2 R0) as (s3 & -> & Hs3 & G3). cbn [mbind res_bind].
  destruct (bd_read_spec s3 DirectorySector Hs3 R1) as (s4 & -> & Hs4 & G4). cbn [mbind res_bind].
  assert (A0 : bd_get s2 FreeMapSector = to_bytes h1)
    by (rewrite G2, decide_False, G1, decide_True by done; done).
  assert (A1 : bd_get s2 DirectorySector = to_bytes h2) by (rewrite G2, decide_True by done; done).
  rewrite (G3 DirectorySector R1), A0, A1, !of_bytes_to_bytes by done.
  destruct (write_map_spec s4 fs b4 Hsys Hs4 Hb4 Hn4) as (s5 & E5 & Hs5 & O5 & M5).
  cbn [fs freeMapFile] in E5. rewrite E5. cbn [mbind res_bind].
  destruct (write_dir_spec s5 fs (Directory.Directory NumDirEntries) Hsys Hs5) as (s6 & E6 & Hs6 & O6 & D6);
    [apply Directory_ok; lia|done|].
  cbn [fs directoryFile] in E6. rewrite E6. cbn [mbind res_bind]. exists fs, s6. split; [done|].
  unfold map_hdr, dir_hdr in *. cbn [fs freeMapFile directoryFile OpenFile.hdr] in *.
  unfold system_sectors, map_hdr, dir_hdr in Hnd. cbn [fs freeMapFile directoryFile OpenFile.hdr] in Hnd.
  apply list.NoDup_app in Hnd as Hnd'. destruct Hnd' as (Hnd1 & Hdis & Hnd2).
  apply NoDup_cons in Hnd1 as [X1 _]. apply NoDup_cons in Hnd2 as [X2 _].
  assert (Hout : ∀ j, 0 ≤ j < NumSectors → j ∉ blocks h1 → j ∉ blocks h2 → bd_get s6 j = bd_get s2 j).
  { intros j Hj H1 H2. rewrite O6, O5, G4, G3 by done. done. }
  assert (HM : map_of s6 fs = b4).
  { rewrite <- M5. apply map_of_same_on. intros j Hj. apply O6; [by apply (ho_range _ Hh1)|].
    intros Hj'. apply (Hdis j); by right. }
  assert (Hhd : headers s6 fs = []) by (unfold headers; rewrite D6, new_table_unused; done).
  split.
  - split; try done.
    + unfold file_at. rewrite Hout, A0; [by apply of_bytes_to_bytes|done|done|].
      intros Hin. apply (Hdis FreeMapSector); [by left|by right].
    + unfold file_at. rewrite Hout, A1; [by apply of_bytes_to_bytes|done| |done].
      intros Hin. apply (Hdis DirectorySector); [by right|by left].
    + rewrite D6. apply Directory_ok. lia.
    + intros sec. rewrite Hhd. by intros ?%elem_of_nil.
    + unfold owned. rewrite Hhd, app_nil_r. exact Hnd.
    + intros j Hj. rewrite HM, Hbits by done. unfold owned. rewrite Hhd, app_nil_r. done.
  - unfold files, dmap. rewrite D6, new_table_unused. done.
Qed.

(** ** Every sector is free or belongs to one file *)

Fixpoint sum_with {A} (f : A → Z) (l : list A) : Z :=
  match l with
  | [] => 0
  | x :: l => f x + sum_with f l
  end.

Lemma sum_with_perm {A} (f : A → Z) l1 l2 : l1 ≡ₚ l2 → sum_with f l1 = sum_with f l2.
Proof. induction 1; simpl; lia. Qed.

Lemma sum_with_fmap {A B} (f : B → Z) (g : A → B) l : sum_with f (g <$> l) = sum_with (f ∘ g) l.
Proof. induction l as [|x l IH]; [done|]. cbn [fmap list_fmap sum_with compose]. f_equal. exact IH. Qed.

Lemma sum_with_ext {A} (f g : A → Z) l : (∀ x, x ∈ l → f x = g x) → sum_with f l = sum_with g l.
Proof.
  induction l as [|x l IH]; intros Hx; [done|]. cbn [sum_with].
  rewrite (Hx x) by (by left). rewrite IH; [done|]. intros y Hy. apply Hx. by right.
Qed.

Lemma concat_sum (f : Z → list Z) l :
  Z.of_nat (length (concat (f <$> l))) = sum_with (λ x, Z.of_nat (length (f x))) l.
Proof. induction l as [|x l IH]; [done|]. cbn [fmap list_fmap concat sum_with]. rewrite length_app. lia. Qed.

(** The sectors a file needs, and those in use on a disk with the given files. *)
Definition file_cost (c : list Z) : Z := 1 + divRoundUp (Z.of_nat (length c)) SectorSize.
Definition sectors_used (m : gmap (list Z) (list Z)) : Z :=
  4 + sum_with (λ p, file_cost p.2) (map_to_list m).

Lemma files_list s fs :
  dir_ok (dir_of s fs) →
  map_to_list (files s fs) ≡ₚ (λ p, (p.1, contents s (file_at s p.2))) <$> used (dir_of s fs).
Proof.
  intros Hd. unfold files, dmap. rewrite <- list_to_map_fmap. rewrite map_to_list_to_map.
  - done.
  - rewrite <- list_fmap_compose. erewrite list_fmap_ext; [apply Hd|]. by intros i [k sec] _.
Qed.

Lemma length_owned s fs : fs_ok s fs → Z.of_nat (length (owned s fs)) = sectors_used (files s fs).
Proof.
  intros Hf. destruct (fo_sys _ _ Hf) as [[Hm _] [Hd _] Hms Hds]. destruct sys_values as (HF & HD & _).
  unfold owned, system_sectors, sectors_used. rewrite !length_app, !length_cons.
  rewrite (blocks_length _ Hm), (blocks_length _ Hd), (ho_sectors _ Hm), (ho_sectors _ Hd), Hms, Hds, HF, HD.
  change (divRoundUp 128 SectorSize) with 1. change (divRoundUp 200 SectorSize) with 1.
  rewrite (sum_with_perm _ _ _ (files_list s fs (fo_dir _ _ Hf))), sum_with_fmap.
  rewrite Nat2Z.inj_add, concat_sum. unfold headers. rewrite sum_with_fmap.
  rewrite (sum_with_ext (_ ∘ snd) ((λ p, file_cost p.2) ∘ (λ p, (p.1, contents s (file_at s p.2))))); [lia|].
  intros [k sec] Hin. cbn [compose fst snd]. destruct (fo_files _ _ Hf sec) as [_ Hh].
  { unfold headers. apply list_elem_of_fmap. by exists (k, sec). }
  unfold sectors_of, file_cost. rewrite length_cons, (blocks_length _ Hh).
  rewrite contents_length by (assumption || apply Hf). pose proof (ho_bytes _ Hh).
  rewrite (ho_sectors _ Hh), (Z2Nat.id (numBytes _)) by lia.
  pose proof (divRoundUp_nonneg (numBytes (file_at s sec)) SectorSize ltac:(lia) ltac:(reflexivity)). lia.
Qed.

Lemma free_count s fs :
  fs_ok s fs → Z.of_nat (length (free (map_of s fs))) = NumSectors - sectors_used (files s fs).
Proof.
  intros Hf. rewrite <- (length_owned s fs Hf).
  assert (Hp : free (map_of s fs) ++ owned s fs ≡ₚ seqZ 0 NumSectors).
  { apply NoDup_Permutation; [|apply NoDup_seqZ|].
    - apply list.NoDup_app. split_and!; [apply free_NoDup| |apply Hf].
      intros j Hj Ho. apply elem_of_free in Hj as [Hj Hjb]. cbn [bm_bit BitMap_BitmapLike] in Hjb.
      apply (fo_map _ _ Hf j Hj) in Ho. congruence.
    - intros j. rewrite elem_of_app, elem_of_free, elem_of_seqZ.
      cbn [bm_bit bm_size BitMap_BitmapLike]. change (BitMap.numBits (map_of s fs)) with NumSectors. split.
      + intros [[Hj _]|Ho]; [lia|]. pose proof (owned_range s fs j Hf Ho). lia.
      + intros Hj. assert (Hr : 0 ≤ j < NumSectors) by lia. pose proof (fo_map _ _ Hf j Hr) as Hm.
        destruct (BitMap.bit (map_of s fs) j); [right; by apply Hm|left; done]. }
  apply Permutation_length in Hp. rewrite length_app, length_seqZ in Hp.
  change NumSectors with 1024 in *. lia.
Qed.

(** ** The file system as a map from names to byte arrays *)
Inductive fscall : Type :=
| CCreate (nm : list Z) (initialSize : Z)
| CRemoveFile (nm : list Z)
| CReadFile (nm : list Z) (numBytes position : Z)
| CWriteFile (nm : list Z) (from : list Z) (position : Z).

Inductive fsres : Type :=
| RBool (b : bool)
| RNoFile
| RBytes (bs : list Z)
| RCount (n : Z).

Definition fslegal (c : fscall) : Prop :=
  match c with
  | CCreate nm sz => c_string nm ∧ 0 ≤ sz ≤ MaxFileSize
  | CRemoveFile nm => c_string nm
  | CReadFile nm n p => c_string nm ∧ 0 ≤ p ∧ p + n ≤ INT_MAX
  | CWriteFile nm bs p => c_string nm ∧ 0 ≤ p ∧ p + Z.of_nat (length bs) ≤ INT_MAX ∧ Forall is_byte bs
  end.

(** A read or write opens the file, does one [ReadAt] or [WriteAt], and closes it. *)
Definition fsstep (c : fscall) fs s : res (fsres * V) :=
  match c with
  | CCreate nm sz => '(b, s) ← Create fs nm sz s; Done (RBool b, s)
  | CRemoveFile nm => '(b, s) ← FileSystem.Remove fs nm s; Done (RBool b, s)
  | CReadFile nm n p =>
      '(o, s) ← Open fs nm s;
      match o with
      | None => Done (RNoFile, s)
      | Some f => '(bs, s) ← OpenFile.ReadAt f n p s; Done (RBytes bs, s)
      end
  | CWriteFile nm bs p =>
      '(o, s) ← Open fs nm s;
      match o with
      | None => Done (RNoFile, s)
      | Some f => '(n, s) ← OpenFile.WriteAt f bs (Z.of_nat (length bs)) p s; Done (RCount n, s)
      end
  end.

Fixpoint fsrun (cs : list fscall) fs s : res (list fsres * V) :=
  match cs with
  | [] => Done ([], s)
  | c :: cs => '(r, s) ← fsstep c fs s; '(rs, s) ← fsrun cs fs s; Done (r :: rs, s)
  end.

(** When a file of [sz] bytes can be created next to the files of [m]. *)
Definition fits (m : gmap (list Z) (list Z)) (nm : list Z) (sz : Z) : Prop :=
  m !! key nm = None ∧ Z.of_nat (size m) < NumDirEntries ∧
  sectors_used m + 1 + divRoundUp sz SectorSize ≤ NumSectors.

(** One call on a map; the bytes of a new file are not specified. *)
Inductive map_call : gmap (list Z) (list Z) → fscall → fsres → gmap (list Z) (list Z) → Prop :=
| MCreate m nm sz c : fits m nm sz → Z.of_nat (length c) = sz →
    map_call m (CCreate nm sz) (RBool true) (<[key nm := c]> m)
| MCreateFails m nm sz : ¬ fits m nm sz → map_call m (CCreate nm sz) (RBool false) m
| MRemove m nm : is_Some (m !! key nm) →
    map_call m (CRemoveFile nm) (RBool true) (delete (key nm) m)
| MRemoveFails m nm : m !! key nm = None → map_call m (CRemoveFile nm) (RBool false) m
| MRead m nm n p c : m !! key nm = Some c → map_call m (CReadFile nm n p) (RBytes (clip c p n)) m
| MReadFails m nm n p : m !! key nm = None → map_call m (CReadFile nm n p) RNoFile m
| MWrite m nm bs p c : m !! key nm = Some c →
    map_call m (CWriteFile nm bs p) (RCount (write_array c p bs).1) (<[key nm := (write_array c p bs).2]> m)
| MWriteFails m nm bs p : m !! key nm = None → map_call m (CWriteFile nm bs p) RNoFile m.

Inductive map_calls : gmap (list Z) (list Z) → list fscall → list fsres → gmap (list Z) (list Z) → Prop :=
| MNil m : map_calls m [] [] m
| MCons m c r m1 cs rs m2 :
    map_call m c r m1 → map_calls m1 cs rs m2 → map_calls m (c :: cs) (r :: rs) m2.

Lemma can_create_fits s fs nm sz : fs_ok s fs → can_create s fs nm sz ↔ fits (files s fs) nm sz.
Proof. intros Hf. unfold can_create, fits. rewrite (free_count s fs Hf). intuition lia. Qed.

Lemma create_simulates nm sz fs s :
  fs_ok s fs → c_string nm → 0 ≤ sz ≤ MaxFileSize →
  ∃ r s', fsstep (CCreate nm sz) fs s = Done (r, s') ∧ fs_ok s' fs ∧
          map_call (files s fs) (CCreate nm sz) r (files s' fs).
Proof.
  intros Hf Hnm Hsz. destruct (Create_spec s fs nm sz Hf Hnm Hsz) as (s' & Hc & Hf' & Hres).
  cbn [fsstep]. rewrite Hc. cbn [mbind res_bind]. eexists _, s'. split; [reflexivity|]. split; [assumption|].
  case_bool_decide as Hcan; rewrite (can_create_fits s fs nm sz Hf) in Hcan.
  - destruct Hres as (c & Hl & ->). by constructor.
  - destruct Hres as [_ ->]. by constructor.
Qed.

Lemma remove_simulates nm fs s :
  fs_ok s fs →
  ∃ r s', fsstep (CRemoveFile nm) fs s = Done (r, s') ∧ fs_ok s' fs ∧
          map_call (files s fs) (CRemoveFile nm) r (files s' fs).
Proof.
  intros Hf. destruct (Remove_file_spec s fs nm Hf) as (s' & Hr & Hf' & Hfs & _).
  cbn [fsstep]. rewrite Hr. cbn [mbind res_bind]. eexists _, s'. split; [reflexivity|]. split; [assumption|].
  rewrite Hfs. case_bool_decide as Hs; [by constructor|]. apply eq_None_not_Some in Hs.
  rewrite delete_id by assumption. by constructor.
Qed.

Lemma read_simulates nm n p fs s :
  fs_ok s fs → 0 ≤ p → p + n ≤ INT_MAX →
  ∃ r s', fsstep (CReadFile nm n p) fs s = Done (r, s') ∧ fs_ok s' fs ∧
          map_call (files s fs) (CReadFile nm n p) r (files s' fs).
Proof.
  intros Hf Hp Hmax. destruct (Open_spec s fs nm Hf) as (o & s1 & Ho & Hf1 & Hss & Hm).
  cbn [fsstep]. rewrite Ho. cbn [mbind res_bind].
  pose proof (fs_ok_same s s1 fs Hf (fo_dev _ _ Hf1) Hss) as (_ & Hfs1 & _).
  destruct (files s fs !! key nm) as [c|] eqn:Hfile.
  - destruct Hm as (sec & -> & _ & Hh & Hc).
    destruct (ReadAt_spec (OpenFile.mk (file_at s sec) 0) n p s1) as (s2 & -> & Hs2 & Hss2);
      [exact Hh|apply Hf1|assumption..|]. cbn [mbind res_bind OpenFile.hdr].
    destruct (fs_ok_same s1 s2 fs Hf1 Hs2 Hss2) as (Hf2 & Hfs2 & _).
    eexists _, s2. split; [reflexivity|]. split; [assumption|]. rewrite Hfs2, Hfs1.
    rewrite (contents_same s s1), Hc by assumption. by constructor.
  - subst o. eexists _, s1. split; [reflexivity|]. split; [assumption|]. rewrite Hfs1. by constructor.
Qed.

Lemma write_simulates nm bs p fs s :
  fs_ok s fs → 0 ≤ p → p + Z.of_nat (length bs) ≤ INT_MAX → Forall is_byte bs →
  ∃ r s', fsstep (CWriteFile nm bs p) fs s = Done (r, s') ∧ fs_ok s' fs ∧
          map_call (files s fs) (CWriteFile nm bs p) r (files s' fs).
Proof.
  intros Hf Hp Hmax Hb. destruct (Open_spec s fs nm Hf) as (o & s1 & Ho & Hf1 & Hss & Hm).
  cbn [fsstep]. rewrite Ho. cbn [mbind res_bind].
  pose proof (fs_ok_same s s1 fs Hf (fo_dev _ _ Hf1) Hss) as (_ & Hfs1 & Hd1 & _).
  destruct (files s fs !! key nm) as [c|] eqn:Hfile.
  - destruct Hm as (sec & -> & Hl & Hh & Hc). rewrite <- Hd1 in Hl.
    destruct (lookup_header s1 fs _ _ Hf1 Hl) as (_ & Hr & _).
    assert (Hat : file_at s1 sec = file_at s sec) by (unfold file_at; by rewrite (Hss sec Hr)).
    destruct (WriteAt_spec (OpenFile.mk (file_at s sec) 0) bs (Z.of_nat (length bs)) p s1)
      as (s2 & -> & Hs2 & Ho2 & Hc2); [exact Hh|apply Hf1|assumption|assumption|lia|assumption|].
    cbn [mbind res_bind OpenFile.hdr] in *. rewrite <- Hat in Ho2.
    destruct (write_file_state s1 s2 fs (key nm) sec Hf1 Hs2 Hl Ho2) as (Hf2 & Hfs2 & _).
    eexists _, s2. split; [reflexivity|]. split; [assumption|]. rewrite Hfs2, Hfs1, Hat, Hc2.
    rewrite (contents_same s s1), Hc by assumption.
    pose proof (contents_length s _ Hh (fo_dev _ _ Hf)) as Hcl. rewrite Hc in Hcl.
    pose proof (ho_bytes _ Hh). replace (numBytes (file_at s sec)) with (Z.of_nat (length c)) by lia.
    by apply (MWrite _ nm bs p c).
  - subst o. eexists _, s1. split; [reflexivity|]. split; [assumption|]. rewrite Hfs1. by constructor.
Qed.

Lemma fsstep_simulates c fs s :
  fs_ok s fs → fslegal c →
  ∃ r s', fsstep c fs s = Done (r, s') ∧ fs_ok s' fs ∧ map_call (files s fs) c r (files s' fs).
Proof.
  intros Hf Hl. destruct c as [nm sz|nm|nm n p|nm bs p]; cbn [fslegal] in Hl.
  - destruct Hl as [? ?]. by apply create_simulates.
  - by apply remove_simulates.
  - destruct Hl as (_ & ? & ?). by apply read_simulates.
  - destruct Hl as (_ & ? & ? & ?). by apply write_simulates.
Qed.

(** A file that is larger than a header can say. *)
Lemma Create_oversized s fs nm sz :
  fs_ok s fs → c_string nm → MaxFileSize < sz →
  if decide (fits (files s fs) nm sz) then Create fs nm sz s = Undef
  else ∃ s', Create fs nm sz s = Done (false, s') ∧ fs_ok s' fs ∧ files s' fs = files s fs.
Proof.
  intros Hf Hnm Hsz. rewrite MaxFileSize_value in Hsz.
  pose proof (Create_cases s fs nm sz Hf Hnm ltac:(lia)) as Hcr. unfold created in Hcr.
  rewrite (decide_False (P := sz ≤ MaxFileSize)) in Hcr by (rewrite MaxFileSize_value; lia).
  case_bool_decide as Hcan; rewrite (can_create_fits s fs nm sz Hf) in Hcan; case_decide; try done.
  destruct Hcr as (s' & ? & ? & _ & ?). by exists s'.
Qed.

(** C4: a freshly formatted disk, whatever it held before, is a map from names
    (of which nine characters count) to byte arrays.  Any sequence of Create of files
    of at most MaxFileSize (15872) bytes, Remove and reads and writes through Open
    returns what the map allows: Create succeeds exactly if the name is new, the
    directory has room and there are enough free sectors; no sector is lost or used
    twice along the way.  Names are C strings, bytes are bytes, and positions and
    counts stay within 31 bits.  The code does not check the limit: from any state reached,
    Create of a larger file returns FALSE and changes no file if the name is taken, the
    directory full or too few sectors free, and otherwise writes beyond the file's
    header, which is undefined behaviour. *)
Theorem FileSystem_refines_map (cs : list fscall) s :
  bd_ok s → Forall fslegal cs →
  ∃ fs s1 rs s2, FileSystem.FileSystem true s = Done (fs, s1) ∧ fsrun cs fs s1 = Done (rs, s2) ∧
    map_calls ∅ cs rs (files s2 fs) ∧ fs_ok s2 fs ∧
    ∀ nm sz, c_string nm → MaxFileSize < sz →
      if decide (fits (files s2 fs) nm sz) then Create fs nm sz s2 = Undef
      else ∃ s3, Create fs nm sz s2 = Done (false, s3) ∧ fs_ok s3 fs ∧ files s3 fs = files s2 fs.
Proof.
  intros Hs Hl. destruct (format_spec s Hs) as (fs & s1 & Hfmt & Hf1 & He).
  assert (Hgen : ∃ rs s2, fsrun cs fs s1 = Done (rs, s2) ∧ map_calls (files s1 fs) cs rs (files s2 fs) ∧ fs_ok s2 fs).
  { clear Hfmt He. revert s1 Hf1. induction Hl as [|c cs Hc _ IH]; intros s1 Hf1.
    - exists [], s1. split; [reflexivity|]. split; [constructor|assumption].
    - destruct (fsstep_simulates c fs s1 Hf1 Hc) as (r & s2 & Hst & Hf2 & Hm).
      destruct (IH s2 Hf2) as (rs & s3 & Hr & Hms & Hf3). exists (r :: rs), s3.
      cbn [fsrun]. rewrite Hst. cbn [mbind res_bind]. rewrite Hr. cbn [mbind res_bind].
      split; [reflexivity|]. split; [by econstructor|assumption]. }
  destruct Hgen as (rs & s2 & Hr & Hm & Hf2). rewrite He in Hm. exists fs, s1, rs, s2.
  do 4 (split; [assumption|]). intros nm sz Hnm Hsz. by apply Create_oversized.
Qed.

(** A request to create a file that cannot be honoured (the name is taken,
    the directory is full, or there are too few free sectors) returns FALSE and
    leaves every sector of the disk as it was. *)
Theorem failed_create_changes_nothing s fs nm sz :
  fs_ok s fs → c_string nm → 0 ≤ sz ≤ MaxFileSize → ¬ fits (files s fs) nm sz →
  ∃ s', Create fs nm sz s = Done (false, s') ∧ ∀ j, 0 ≤ j < NumSectors → bd_get s' j = bd_get s j.
Proof.
  intros Hf Hnm Hsz Hno. destruct (Create_spec s fs nm sz Hf Hnm Hsz) as (s' & Hc & _ & Hres).
  rewrite <- (can_create_fits s fs nm sz Hf) in Hno. rewrite bool_decide_false in Hc, Hres by assumption.
  exists s'. split; [assumption|]. apply Hres.
Qed.

(** C40: a disk that was formatted once can be mounted again: opening the file
    system without formatting finds the same files with the same contents. *)
Theorem mount_finds_files s fs :
  fs_ok s fs →
  ∃ fs' s', FileSystem.FileSystem false s = Done (fs', s') ∧ fs_ok s' fs' ∧ files s' fs' = files s fs.
Proof.
  intros Hf. destruct sys_values as (_ & _ & _ & HN). unfold FileSystem.FileSystem, OpenFile.OpenFile, FileHeader.FetchFrom.
  assert (R0 : 0 ≤ FreeMapSector < NumSectors) by (unfold FreeMapSector; lia).
  assert (R1 : 0 ≤ DirectorySector < NumSectors) by (unfold DirectorySector; lia).
  destruct (bd_read_spec s FreeMapSector (fo_dev _ _ Hf) R0) as (s1 & -> & Hs1 & Hss1). cbn [mbind res_bind].
  destruct (bd_read_spec s1 DirectorySector Hs1 R1) as (s2 & -> & Hs2 & Hss2). cbn [mbind res_bind].
  rewrite (Hss1 DirectorySector R1). fold (file_at s FreeMapSector) (file_at s DirectorySector).
  rewrite (fo_map_at _ _ Hf), (fo_dir_at _ _ Hf). eexists _, s2. split; [reflexivity|].
  destruct (fs_ok_same s s2 fs Hf Hs2) as (Hf2 & Hfs2 & _); [by eapply same_sectors_trans|].
  rewrite <- Hfs2. split; [|reflexivity]. destruct Hf2 as [? [? ? ? ?] ? ? ? ? ? ?]. split; try assumption. by split.
Qed.

End spec.
End FileSysSpec.

(** * Witnesses on the synchronous disk *)
Module FileSysDemo.
Import FileDemo FileHeader OpenFileSpec DirectorySpec FileSysSpec.

Definition name_ab : list Z := [97; 98].

Lemma name_ab_ok : c_string name_ab.
Proof. repeat constructor; unfold_int; lia. Qed.

Lemma size_700_ok : 0 ≤ 700 ≤ MaxFileSize.
Proof. rewrite MaxFileSize_value. lia. Qed.

Definition demo_fscalls : list fscall :=
  [CCreate name_ab 700; CWriteFile name_ab [1; 2; 3] 300; CReadFile name_ab 3 300;
   CRemoveFile name_ab; CReadFile name_ab 1 0].

Lemma demo_fscalls_legal : Forall fslegal demo_fscalls.
Proof.
  pose proof name_ab_ok. pose proof size_700_ok.
  repeat (constructor; [cbn [fslegal]; split_and?; (assumption || (unfold_int; simpl; lia) || (simpl; ranges))|]).
  constructor.
Qed.

Lemma FileSystem_refines_map_witness :
  ∃ d, SynchDisk.SynchDisk None = Done d ∧
  ∃ fs s1 rs s2, FileSystem.FileSystem true (SynchDisk.start Interrupt.IntOn d) = Done (fs, s1) ∧
    fsrun demo_fscalls fs s1 = Done (rs, s2) ∧ map_calls ∅ demo_fscalls rs (files s2 fs).
Proof.
  destruct (SynchDisk.fresh_ok Interrupt.IntOn) as (d & H & Hok & _). exists d. split; [exact H|].
  destruct (FileSystem_refines_map demo_fscalls (SynchDisk.start Interrupt.IntOn d))
    as (fs & s1 & rs & s2 & H1 & H2 & H3 & _).
  - exact Hok.
  - apply demo_fscalls_legal.
  - exists fs, s1, rs, s2. split; [exact H1|]. split; [exact H2|exact H3].
Defined.

(** A file system with one file. *)
Lemma demo_one_file :
  ∃ (s : SynchDisk.state) fs, fs_ok s fs ∧ is_Some (files s fs !! key name_ab).
Proof.
  destruct (SynchDisk.fresh_ok Interrupt.IntOn) as (d & _ & Hok & _).
  destruct (format_spec (SynchDisk.start Interrupt.IntOn d)) as (fs & s1 & _ & Hf & He); [exact Hok|].
  destruct (Create_spec s1 fs name_ab 700 Hf name_ab_ok size_700_ok) as (s2 & _ & Hf2 & Hres).
  exists s2, fs. split; [exact Hf2|]. case_bool_decide as Hc.
  - destruct Hres as (c & _ & ->). rewrite lookup_insert_eq. eauto.
  - exfalso. apply Hc. apply (can_create_fits s1 fs name_ab 700 Hf). rewrite He. by compute.
Qed.

Lemma failed_create_changes_nothing_witness :
  ∃ (s s' : SynchDisk.state) fs, FileSystem.Create fs name_ab 700 s = Done (false, s').
Proof.
  destruct demo_one_file as (s & fs & Hf & Hs).
  destruct (failed_create_changes_nothing s fs name_ab 700) as (s' & H & _).
  - exact Hf.
  - apply name_ab_ok.
  - apply size_700_ok.
  - intros (Hno & _). rewrite Hno in Hs. destruct Hs. discriminate.
  - exists s, s', fs. exact H.
Defined.

Lemma mount_finds_files_witness :
  ∃ (s s' : SynchDisk.state) fs', FileSystem.FileSystem false s = Done (fs', s') ∧
    is_Some (files s' fs' !! key name_ab).
Proof.
  destruct demo_one_file as (s & fs & Hf & Hs).
  destruct (mount_finds_files s fs Hf) as (fs' & s' & H & _ & H').
  exists s, s', fs'. split; [exact H|]. rewrite H'. exact Hs.
Defined.

End FileSysDemo.
