(* ===== verification/FsTest.v ===== *)
(** FsTest: the test routines of src/code/filesys/fstest.cc, clients of the file system:
    Copy (a UNIX file to a Nachos file), Print, and the performance test.

    What they print is part of the result: the bytes of the file for [Print], and a value of
    [message] for every error message.  The theorems are proved against the specification of
    the file system in FileSys.v, whatever [BlockDev] is below it. *)
From S2P Require Import Prelude Bitmap Lists Machine Interrupt Disk FileHdr Directory FileSys.

Module FsTest.

Definition TransferSize : Z := 10.
(** "TestFile" and "1234567890". *)
Definition FileName : list Z := [84; 101; 115; 116; 70; 105; 108; 101].
Definition Contents : list Z := [49; 50; 51; 52; 53; 54; 55; 56; 57; 48].
Definition ContentSize : Z := Z.of_nat (length Contents).
Definition FileSize : Z := ContentSize * 5000.

Inductive message :=
| CopyNoInput | CopyNoOutput | PrintNoFile
| PerfNoCreate | PerfNoOpenWrite | PerfNoWrite
| PerfNoOpenRead | PerfNoRead | PerfNoRemove.

Section ops.
Context {V : Type} `{!BlockDev V} `{!FreshMemory}.
Implicit Types (s : V) (fs : FileSystem.t) (f : OpenFile.t).

(** [fread] on a stream that holds [data], of which [pos] bytes have been read. *)
Definition fread (n : Z) (data : list Z) (pos : nat) : list Z * nat :=
  let got := take (Z.to_nat n) (drop pos data) in (got, (pos + length got)%nat).

Fixpoint copy_loop (fuel : nat) (data : list Z) (pos : nat) f s : res V :=
  match fuel with
  | O => Fuel
  | S n =>
      let '(buffer, pos) := fread TransferSize data pos in
      let amountRead := Z.of_nat (length buffer) in
      if 0 <? amountRead then
        '(_, f, s) ← OpenFile.Write f buffer amountRead s;
        copy_loop n data pos f s
      else Done s
  end.

(** [unix] gives the contents of the UNIX files that can be opened. *)
Definition Copy (unix : list Z → option (list Z)) (from to : list Z) fs s :
    res (option message * V) :=
  match unix from with
  | None => Done (Some CopyNoInput, s)
  | Some data =>
      let fileLength := Z.of_nat (length data) in
      '(created, s) ← FileSystem.Create fs to fileLength s;
      if negb created then Done (Some CopyNoOutput, s)
      else
        '(openFile, s) ← FileSystem.Open fs to s;
        match openFile with
        | None => Assert
        | Some f =>
            s ← copy_loop (S (length data)) data 0 f s;
            Done (None, s)
        end
  end.

Fixpoint print_loop (fuel : nat) f s : res (list Z * V) :=
  match fuel with
  | O => Fuel
  | S n =>
      '(buffer, f, s) ← OpenFile.Read f TransferSize s;
      if 0 <? Z.of_nat (length buffer) then
        '(out, s) ← print_loop n f s;
        Done (buffer ++ out, s)
      else Done ([], s)
  end.

(** More turns than a file has bytes. *)
Definition print_fuel : nat := Z.to_nat (FileHeader.MaxFileSize + 1).

Definition Print (name : list Z) fs s : res (list Z * option message * V) :=
  '(openFile, s) ← FileSystem.Open fs name s;
  match openFile with
  | None => Done ([], Some PrintNoFile, s)
  | Some f => '(out, s) ← print_loop print_fuel f s; Done (out, None, s)
  end.

(** The loop of FileWrite: [n] turns are left; the result says whether all went well. *)
Fixpoint write_loop (n : nat) f s : res (bool * V) :=
  match n with
  | O => Done (true, s)
  | S n =>
      '(numBytes, f, s) ← OpenFile.Write f Contents ContentSize s;
      if numBytes <? 10 then Done (false, s) else write_loop n f s
  end.

Definition turns : nat := Z.to_nat (FileSize / ContentSize).

Definition FileWrite fs s : res (option message * V) :=
  '(created, s) ← FileSystem.Create fs FileName 0 s;
  if negb created then Done (Some PerfNoCreate, s)
  else
    '(openFile, s) ← FileSystem.Open fs FileName s;
    match openFile with
    | None => Done (Some PerfNoOpenWrite, s)
    | Some f =>
        '(ok, s) ← write_loop turns f s;
        Done (if ok : bool then None else Some PerfNoWrite, s)
    end.

(** [strncmp(buffer, Contents, ContentSize)] is evaluated only when ten bytes were read. *)
Fixpoint read_loop (n : nat) f s : res (bool * V) :=
  match n with
  | O => Done (true, s)
  | S n =>
      '(buffer, f, s) ← OpenFile.Read f ContentSize s;
      if (Z.of_nat (length buffer) <? 10) || negb (bool_decide (buffer = Contents))
      then Done (false, s) else read_loop n f s
  end.

Definition FileRead fs s : res (option message * V) :=
  '(openFile, s) ← FileSystem.Open fs FileName s;
  match openFile with
  | None => Done (Some PerfNoOpenRead, s)
  | Some f =>
      '(ok, s) ← read_loop turns f s;
      Done (if ok : bool then None else Some PerfNoRead, s)
  end.

Definition PerformanceTest fs s : res (list message * V) :=
  '(m1, s) ← FileWrite fs s;
  '(m2, s) ← FileRead fs s;
  '(removed, s) ← FileSystem.Remove fs FileName s;
  Done (option_list m1 ++ option_list m2 ++ (if removed : bool then [] else [PerfNoRemove]), s).

End ops.
End FsTest.

Module FsTestSpec.
Import FileHeader OpenFile OpenFileSpec DirectorySpec FileSysSpec FsTest.

Section spec.
Context {V : Type} `{!BlockDev V} `{!FreshMemory}.
Implicit Types (s : V) (fs : FileSystem.t) (f : OpenFile.t) (c bs : list Z).

(** [f] is open on the file [nm] of [fs], whose contents are [c]. *)
Record opened s fs (nm : list Z) f c : Prop := {
  op_fs : fs_ok s fs;
  op_file : files s fs !! key nm = Some c;
  op_sec : ∃ sec, dmap (dir_of s fs) !! key nm = Some sec ∧ hdr f = file_at s sec;
  op_hdr : hdr_ok (hdr f);
  op_contents : contents s (hdr f) = c;
  op_pos : 0 ≤ seekPosition f ≤ 2 ^ 30
}.

Lemma opened_length s fs nm f c :
  opened s fs nm f c → Z.of_nat (length c) = numBytes (hdr f) ∧ Z.of_nat (length c) ≤ MaxFileSize.
Proof.
  intros [Hfs _ _ Hh <- _]. pose proof (ho_bytes _ Hh). rewrite contents_length; [lia|done|apply Hfs].
Qed.

Lemma Open_opened s fs nm c :
  fs_ok s fs → files s fs !! key nm = Some c →
  ∃ f s', FileSystem.Open fs nm s = Done (Some f, s') ∧ opened s' fs nm f c ∧
          seekPosition f = 0 ∧ files s' fs = files s fs.
Proof.
  intros Hf Hc. destruct (Open_spec s fs nm Hf) as (o & s' & Ho & Hf' & Hss & Hm).
  rewrite Hc in Hm. destruct Hm as (sec & -> & Hl & Hh & Hcon).
  destruct (fs_ok_same s s' fs Hf (fo_dev _ _ Hf') Hss) as (_ & Hfs & Hd & _).
  eexists _, s'. split; [done|]. split_and!; [|done|done]. split; cbn [hdr seekPosition]; try assumption.
  - by rewrite Hfs.
  - exists sec. rewrite Hd. split; [done|]. unfold file_at. rewrite Hss; [done|].
    by destruct (lookup_header s fs _ _ Hf Hl) as (_ & ? & _).
  - by rewrite (contents_same s s').
  - lia.
Qed.

Lemma Read_opened s fs nm f c n :
  opened s fs nm f c → n < 2 ^ 30 →
  ∃ f' s', Read f n s = Done (clip c (seekPosition f) n, f', s') ∧ opened s' fs nm f' c ∧
    seekPosition f' = seekPosition f + Z.of_nat (length (clip c (seekPosition f) n)) ∧
    files s' fs = files s fs.
Proof.
  intros Ho Hn. pose proof (opened_length _ _ _ _ _ Ho) as [Hlen Hmax]. rewrite MaxFileSize_value in Hmax.
  destruct Ho as [Hf Hc (sec & Hl & Hat) Hh Hcon Hpos].
  destruct (ReadAt_spec f n (seekPosition f) s) as (s' & Hr & Hs' & Hss);
    [done|apply Hf|lia|unfold_int; lia|].
  destruct (fs_ok_same s s' fs Hf Hs' Hss) as (Hf' & Hfs & Hd & _).
  assert (Hb : 0 ≤ seekPosition f + Z.of_nat (length (clip c (seekPosition f) n)) ≤ 2 ^ 30)
    by (rewrite clip_length by lia; unfold granted; lia).
  unfold Read. rewrite Hr. cbn [mbind res_bind]. rewrite Hcon. eexists _, s'. split; [done|].
  cbn [seekPosition]. rewrite s32_id by (unfold_int; lia). split_and!; [|done|done].
  split; cbn [hdr seekPosition]; try assumption.
  - by rewrite Hfs.
  - exists sec. rewrite Hd. split; [done|]. rewrite Hat. unfold file_at. rewrite Hss; [done|].
    by destruct (lookup_header s fs _ _ Hf Hl) as (_ & ? & _).
  - by rewrite (contents_same s s').
Qed.

Lemma Write_opened s fs nm f c bs :
  opened s fs nm f c → Z.of_nat (length bs) < 2 ^ 30 → Forall is_byte bs →
  ∃ f' s', Write f bs (Z.of_nat (length bs)) s =
             Done ((write_array c (seekPosition f) bs).1, f', s') ∧
    opened s' fs nm f' (write_array c (seekPosition f) bs).2 ∧
    seekPosition f' = seekPosition f + (write_array c (seekPosition f) bs).1 ∧
    files s' fs = <[key nm := (write_array c (seekPosition f) bs).2]> (files s fs).
Proof.
  intros Ho Hn Hby. pose proof (opened_length _ _ _ _ _ Ho) as [Hlen Hmax]. rewrite MaxFileSize_value in Hmax.
  destruct Ho as [Hf Hc (sec & Hl & Hat) Hh Hcon Hpos].
  destruct (WriteAt_spec f bs (Z.of_nat (length bs)) (seekPosition f) s) as (s' & Hw & Hs' & Hos & Hc');
    [done|apply Hf|lia|unfold_int; lia|lia|done|].
  rewrite Hat in Hos. destruct (write_file_state s s' fs (key nm) sec Hf Hs' Hl Hos) as (Hf' & Hfs & Hd & Hat').
  unfold write_array. cbn [fst snd]. rewrite Hlen.
  assert (Hg : 0 ≤ seekPosition f + granted (numBytes (hdr f)) (seekPosition f) (Z.of_nat (length bs)) ≤ 2 ^ 30)
    by (unfold granted; lia).
  unfold Write. rewrite Hw. cbn [mbind res_bind]. eexists _, s'. split; [done|].
  cbn [seekPosition]. rewrite s32_id by (unfold_int; lia). rewrite <- Hat, Hc', Hcon in Hfs.
  split_and!; [|done|done]. split; cbn [hdr seekPosition]; try assumption.
  - rewrite Hfs. apply lookup_insert_eq.
  - exists sec. rewrite Hd, Hat'. split; assumption.
  - by rewrite Hc', Hcon.
Qed.

(** ** Copy *)

Lemma take_length_take {A} n (l : list A) : take (length (take n l)) l = take n l.
Proof. revert l. induction n as [|n IH]; intros [|x l]; simpl; f_equal; auto. Qed.

Lemma drop_length_take {A} n (l : list A) : drop (length (take n l)) l = drop n l.
Proof. revert l. induction n as [|n IH]; intros [|x l]; simpl; auto. Qed.

Lemma overwrite_next (data c : list Z) (pos k : nat) :
  length c = length data → (pos + k ≤ length data)%nat →
  take pos c = take pos data →
  take (pos + k) (overwrite c (Z.of_nat pos) (take k (drop pos data))) = take (pos + k) data.
Proof.
  intros Hl Hk Ht. unfold overwrite. rewrite Nat2Z.id, Ht, app_assoc.
  rewrite take_app_le by (rewrite length_app, !length_take, length_drop; lia).
  rewrite take_ge by (rewrite length_app, !length_take, length_drop; lia).
  apply take_take_drop.
Qed.

(** The loop copies what is left of the stream; [c] agrees with it so far. *)
Lemma copy_loop_spec fuel data pos fs nm f c s :
  opened s fs nm f c → length c = length data → take pos c = take pos data → Forall is_byte data →
  seekPosition f = Z.of_nat pos → (pos ≤ length data)%nat → (length data - pos < fuel)%nat →
  ∃ s', copy_loop fuel data pos f s = Done s' ∧ fs_ok s' fs ∧
        files s' fs = <[key nm := data]> (files s fs).
Proof.
  revert pos f c s. induction fuel as [|fuel IH]; intros pos f c s Ho Hl Ht Hby Hp Hle Hfuel; [lia|].
  cbn [copy_loop fread]. set (got := take (Z.to_nat TransferSize) (drop pos data)).
  assert (Hgot : length got = Nat.min 10 (length data - pos))
    by (unfold got; rewrite length_take, length_drop; done).
  destruct (0 <? Z.of_nat (length got)) eqn:Hz; simplify_tests.
  - destruct (Write_opened s fs nm f c got Ho) as (f' & s' & Hw & Ho' & Hp' & Hfs); [lia|unfold got; by apply Forall_take, Forall_drop|].
    rewrite Hw. cbn [mbind res_bind].
    assert (Hn : (write_array c (seekPosition f) got).1 = Z.of_nat (length got)).
    { unfold write_array, granted. cbn [fst]. lia. }
    assert (Hc : (write_array c (seekPosition f) got).2 = overwrite c (Z.of_nat pos) got).
    { change ((write_array c (seekPosition f) got).2) with
        (overwrite c (seekPosition f) (take (Z.to_nat (write_array c (seekPosition f) got).1) got)).
      rewrite Hn, Hp, take_ge by lia. done. }
    rewrite Hn in Hp'. rewrite Hc in *.
    assert (Hgot' : got = take (length got) (drop pos data)).
    { unfold got. by rewrite take_length_take. }
    destruct (IH (pos + length got)%nat f' (overwrite c (Z.of_nat pos) got) s') as (s2 & Hr & Hf2 & Hfs2); try done.
    + unfold overwrite. rewrite !length_app, length_take, length_drop. lia.
    + rewrite Hgot' at 2. apply overwrite_next; [done|lia|done].
    + lia.
    + lia.
    + lia.
    + exists s2. split_and!; [done|done|]. rewrite Hfs2, Hfs. apply insert_insert_eq.
  - exists s. split_and!; [done|apply Ho|]. assert (pos = length data) as -> by lia.
    rewrite !take_ge in Ht by lia. subst c. by rewrite insert_id by apply Ho.
Qed.

Lemma Copy_spec (unix : list Z → option (list Z)) from to data fs s :
  fs_ok s fs → unix from = Some data → Forall is_byte data →
  Z.of_nat (length data) ≤ MaxFileSize → c_string to →
  ∃ s', fs_ok s' fs ∧
    (if decide (fits (files s fs) to (Z.of_nat (length data)))
     then Copy unix from to fs s = Done (None, s') ∧ files s' fs = <[key to := data]> (files s fs)
     else Copy unix from to fs s = Done (Some CopyNoOutput, s') ∧ files s' fs = files s fs).
Proof.
  intros Hf Hu Hby Hmax Hto. unfold Copy. rewrite Hu.
  destruct (Create_spec s fs to (Z.of_nat (length data)) Hf Hto) as (s1 & -> & Hf1 & Hres); [lia|].
  cbn [mbind res_bind].
  case_bool_decide as Hcan; rewrite (can_create_fits s fs to _ Hf) in Hcan; cbn [negb].
  - destruct Hres as (c & Hlen & Hfs1).
    destruct (Open_opened s1 fs to c Hf1) as (f & s2 & -> & Ho & Hp & Hfs2); [rewrite Hfs1; apply lookup_insert_eq|].
    cbn [mbind res_bind].
    destruct (copy_loop_spec (S (length data)) data 0 fs to f c s2) as (s3 & -> & Hf3 & Hfs3);
      [assumption|lia|reflexivity|assumption|assumption|lia|lia|].
    cbn [mbind res_bind]. exists s3. split; [assumption|]. rewrite decide_True by assumption.
    split; [reflexivity|].
    rewrite Hfs3, Hfs2, Hfs1. apply insert_insert_eq.
  - destruct Hres as [_ Hfs1]. exists s1. rewrite decide_False by assumption. auto.
Qed.

(** ** Print *)

Lemma print_loop_spec fuel fs nm f c s :
  opened s fs nm f c → seekPosition f ≤ Z.of_nat (length c) →
  (length c - Z.to_nat (seekPosition f) < fuel)%nat →
  ∃ s', print_loop fuel f s = Done (drop (Z.to_nat (seekPosition f)) c, s') ∧ fs_ok s' fs ∧
        files s' fs = files s fs.
Proof.
  revert f s. induction fuel as [|fuel IH]; intros f s Ho Hp Hfuel; [lia|].
  pose proof (op_pos _ _ _ _ _ Ho) as Hpos.
  destruct (Read_opened s fs nm f c TransferSize Ho) as (f' & s' & Hr & Ho' & Hp' & Hfs); [done|].
  cbn [print_loop]. rewrite Hr. cbn [mbind res_bind].
  pose proof (clip_length c (seekPosition f) TransferSize ltac:(lia)) as Hcl.
  change TransferSize with 10 in *. unfold granted in Hcl.
  destruct (0 <? _) eqn:Hz; simplify_tests.
  - destruct (IH f' s' Ho') as (s2 & -> & Hf2 & Hfs2); [lia|lia|]. cbn [mbind res_bind].
    exists s2. split_and!; [|assumption|congruence]. do 2 f_equal.
    rewrite Hp', Z2Nat.inj_add, Nat2Z.id, <- drop_drop by lia. unfold clip.
    rewrite drop_length_take. apply take_drop.
  - exists s'. split_and!; [|apply Ho'|assumption]. do 2 f_equal. rewrite drop_ge; [reflexivity|lia].
Qed.

Lemma Print_file_spec nm c fs s :
  fs_ok s fs → files s fs !! key nm = Some c →
  ∃ s', Print nm fs s = Done (c, None, s') ∧ fs_ok s' fs ∧ files s' fs = files s fs.
Proof.
  intros Hf Hc. destruct (Open_opened s fs nm c Hf Hc) as (f & s1 & Ho & Hop & Hp & Hfs).
  pose proof (opened_length _ _ _ _ _ Hop) as [_ Hmax].
  destruct (print_loop_spec print_fuel fs nm f c s1 Hop) as (s2 & Hr & Hf2 & Hfs2).
  { lia. }
  { unfold print_fuel. lia. }
  rewrite Hp in Hr. unfold Print. rewrite Ho. cbn [mbind res_bind]. rewrite Hr. cbn [mbind res_bind].
  exists s2. split_and!; [reflexivity|assumption|congruence].
Qed.

(** A file that is larger than a file header can say. *)
Lemma Copy_oversized (unix : list Z → option (list Z)) from to data fs s :
  fs_ok s fs → unix from = Some data → MaxFileSize < Z.of_nat (length data) → c_string to →
  if decide (fits (files s fs) to (Z.of_nat (length data))) then Copy unix from to fs s = Undef
  else ∃ s1, fs_ok s1 fs ∧ Copy unix from to fs s = Done (Some CopyNoOutput, s1) ∧ files s1 fs = files s fs.
Proof.
  intros Hf Hu Hmax Hto. pose proof (Create_oversized s fs to _ Hf Hto Hmax) as Hcr.
  unfold Copy. rewrite Hu. case_decide; [by rewrite Hcr|].
  destruct Hcr as (s1 & -> & ? & ?). cbn [mbind res_bind negb]. by exists s1.
Qed.

(** C22: what Copy stores, Print shows.  When the UNIX file exists, has at most
    MaxFileSize (15872) bytes and fits - its Nachos name is new, the directory has room
    and there are enough free sectors - Copy returns without a message, the Nachos file
    then holds exactly the bytes of the UNIX file, the other files are as before, and
    Print prints those bytes; both loops end.  When it does not fit, Copy says so and no
    file is changed, whatever its size.  A larger file that fits is not refused: making
    it runs beyond the file's header, which is undefined behaviour. *)
Theorem Copy_Print_roundtrip (unix : list Z → option (list Z)) from to data fs s :
  fs_ok s fs → unix from = Some data → Forall is_byte data → c_string to →
  if decide (fits (files s fs) to (Z.of_nat (length data)))
  then if decide (Z.of_nat (length data) ≤ MaxFileSize)
       then ∃ s1 s2, fs_ok s1 fs ∧
            Copy unix from to fs s = Done (None, s1) ∧ files s1 fs = <[key to := data]> (files s fs) ∧
            Print to fs s1 = Done (data, None, s2) ∧ files s2 fs = files s1 fs
       else Copy unix from to fs s = Undef
  else ∃ s1, fs_ok s1 fs ∧ Copy unix from to fs s = Done (Some CopyNoOutput, s1) ∧ files s1 fs = files s fs.
Proof.
  intros Hf Hu Hby Hto.
  destruct (decide (Z.of_nat (length data) ≤ MaxFileSize)) as [Hmax|Hmax].
  - destruct (Copy_spec unix from to data fs s Hf Hu Hby Hmax Hto) as (s1 & Hf1 & Hc).
    case_decide; [|by exists s1]. destruct Hc as [Hc Hfs].
    destruct (Print_file_spec to data fs s1 Hf1) as (s2 & Hp & _ & Hfs2); [rewrite Hfs; apply lookup_insert_eq|].
    exists s1, s2. auto 10.
  - pose proof (Copy_oversized unix from to data fs s Hf Hu ltac:(lia) Hto) as Hc. by case_decide.
Qed.

(** ** The performance test *)

Lemma FileName_ok : c_string FileName.
Proof. repeat constructor; unfold_int; lia. Qed.

Lemma Contents_bytes : Forall is_byte Contents.
Proof. ranges. Qed.

Lemma turns_value : Z.of_nat turns = 5000.
Proof. reflexivity. Qed.

(** Nothing can be written to a file that was created with length 0. *)
Lemma FileWrite_spec fs s :
  fs_ok s fs →
  ∃ s', fs_ok s' fs ∧
    if decide (fits (files s fs) FileName 0)
    then FileWrite fs s = Done (Some PerfNoWrite, s') ∧ files s' fs = <[key FileName := []]> (files s fs)
    else FileWrite fs s = Done (Some PerfNoCreate, s') ∧ files s' fs = files s fs.
Proof.
  intros Hf. unfold FileWrite.
  destruct (Create_spec s fs FileName 0 Hf FileName_ok) as (s1 & -> & Hf1 & Hres);
    [rewrite MaxFileSize_value; lia|].
  cbn [mbind res_bind].
  case_bool_decide as Hcan; rewrite (can_create_fits s fs FileName 0 Hf) in Hcan; cbn [negb].
  - destruct Hres as (c & Hlen & Hfs1). destruct c as [|]; [|simpl in Hlen; lia].
    destruct (Open_opened s1 fs FileName [] Hf1) as (f & s2 & -> & Ho & Hp & Hfs2);
      [rewrite Hfs1; apply lookup_insert_eq|].
    cbn [mbind res_bind].
    destruct (Write_opened s2 fs FileName f [] Contents Ho) as (f' & s3 & Hw & Ho3 & _ & Hfs3);
      [done|apply Contents_bytes|].
    rewrite Hp in Hw, Hfs3. change ((write_array [] 0 Contents).2) with (@nil Z) in Hfs3.
    change ((write_array [] 0 Contents).1) with 0 in Hw.
    destruct turns as [|n] eqn:Ht; [pose proof turns_value; rewrite Ht in *; done|].
    cbn [write_loop]. change ContentSize with (Z.of_nat (length Contents)). rewrite Hw.
    cbn [mbind res_bind]. change (0 <? 10) with true. cbn [mbind res_bind].
    exists s3. split; [apply Ho3|]. rewrite decide_True by assumption. split; [reflexivity|].
    rewrite Hfs3, Hfs2, Hfs1. apply insert_insert_eq.
  - destruct Hres as [_ Hfs1]. exists s1. rewrite decide_False by assumption. auto.
Qed.

(** Reading on and on reaches the end of the file. *)
Lemma read_loop_fails n fs nm f c s :
  opened s fs nm f c → Z.of_nat (length c) < seekPosition f + 10 * Z.of_nat n →
  seekPosition f ≤ Z.of_nat (length c) →
  ∃ s', read_loop n f s = Done (false, s') ∧ fs_ok s' fs ∧ files s' fs = files s fs.
Proof.
  revert f s. induction n as [|n IH]; intros f s Ho Hn Hp; [lia|].
  pose proof (op_pos _ _ _ _ _ Ho) as Hpos.
  destruct (Read_opened s fs nm f c ContentSize Ho) as (f' & s' & Hr & Ho' & Hp' & Hfs); [done|].
  cbn [read_loop]. rewrite Hr. cbn [mbind res_bind].
  pose proof (clip_length c (seekPosition f) ContentSize ltac:(lia)) as Hcl.
  change ContentSize with 10 in *. unfold granted in Hcl.
  destruct (_ || _) eqn:Hz.
  - exists s'. split_and!; [reflexivity|apply Ho'|assumption].
  - simplify_tests. destruct (IH f' s' Ho') as (s2 & -> & Hf2 & Hfs2); [lia|lia|].
    exists s2. split_and!; [reflexivity|assumption|congruence].
Qed.

Lemma FileRead_spec fs s :
  fs_ok s fs →
  ∃ s', fs_ok s' fs ∧ files s' fs = files s fs ∧
    FileRead fs s = Done (Some (if decide (is_Some (files s fs !! key FileName)) then PerfNoRead
                                else PerfNoOpenRead), s').
Proof.
  intros Hf. unfold FileRead. case_decide as Hs.
  - destruct Hs as [c Hc]. destruct (Open_opened s fs FileName c Hf Hc) as (f & s1 & -> & Ho & Hp & Hfs).
    cbn [mbind res_bind]. pose proof (opened_length _ _ _ _ _ Ho) as [_ Hmax].
    rewrite MaxFileSize_value in Hmax. pose proof turns_value.
    destruct (read_loop_fails turns fs FileName f c s1 Ho) as (s2 & -> & Hf2 & Hfs2); [lia|lia|].
    exists s2. split_and!; [assumption|congruence|reflexivity].
  - apply eq_None_not_Some in Hs. destruct (Open_spec s fs FileName Hf) as (o & s1 & -> & Hf1 & Hss & Hm).
    rewrite Hs in Hm. subst o. cbn [mbind res_bind]. exists s1.
    split_and!; [assumption| |reflexivity].
    by destruct (fs_ok_same s s1 fs Hf (fo_dev _ _ Hf1) Hss) as (_ & ? & _).
Qed.

(** The performance test cannot succeed.  On every consistent file system it ends,
    reports that the file could not be written (or not created) and that it could not be read
    (or not opened), and leaves the files as they were, less TestFile: the file is created
    with length 0 and files do not grow; nor could 50000 bytes fit a file. *)
Theorem PerformanceTest_fails fs s :
  fs_ok s fs →
  ∃ s' m1 m2 m3, PerformanceTest fs s = Done (m1 :: m2 :: m3, s') ∧ fs_ok s' fs ∧
    files s' fs = delete (key FileName) (files s fs) ∧
    m1 = (if decide (fits (files s fs) FileName 0) then PerfNoWrite else PerfNoCreate) ∧
    (m2 = PerfNoRead ∧ m3 = [] ∨ m2 = PerfNoOpenRead ∧ m3 = [PerfNoRemove]).
Proof.
  intros Hf. unfold PerformanceTest.
  destruct (FileWrite_spec fs s Hf) as (s1 & Hf1 & Hw).
  assert (Hw' : FileWrite fs s = Done (Some (if decide (fits (files s fs) FileName 0) then PerfNoWrite
                                             else PerfNoCreate), s1) ∧
                delete (key FileName) (files s1 fs) = delete (key FileName) (files s fs)).
  { case_decide; destruct Hw as [-> ->]; split; try reflexivity. apply delete_insert_eq. }
  destruct Hw' as [-> Hd]. cbn [mbind res_bind].
  destruct (FileRead_spec fs s1 Hf1) as (s2 & Hf2 & Hfs2 & ->). cbn [mbind res_bind].
  destruct (Remove_file_spec s2 fs FileName Hf2) as (s3 & -> & Hf3 & Hfs3 & _). cbn [mbind res_bind].
  exists s3. do 3 eexists. split; [reflexivity|].
  split_and!; [assumption|congruence|reflexivity|].
  rewrite Hfs2. destruct (decide (is_Some (files s1 fs !! key FileName))) as [Hs|Hs]; [left|right].
  - by rewrite bool_decide_true.
  - by rewrite bool_decide_false.
Qed.

End spec.
End FsTestSpec.

Module FsTestDemo.
Import FileDemo FileHeader OpenFileSpec DirectorySpec FileSysSpec FileSysDemo FsTest FsTestSpec.

(** A freshly formatted disk. *)
Lemma demo_formatted : ∃ (s : SynchDisk.state) fs, fs_ok s fs ∧ files s fs = ∅.
Proof.
  destruct (SynchDisk.fresh_ok Interrupt.IntOn) as (d & _ & Hok & _).
  destruct (format_spec (SynchDisk.start Interrupt.IntOn d)) as (fs & s1 & _ & Hf & He); [exact Hok|].
  exists s1, fs. auto.
Qed.

(** A UNIX file of 25 bytes: two full transfers and a partial one. *)
Definition unix_data : list Z := [104; 101; 108; 108; 111] ++ replicate 20 33.
Definition unix (from : list Z) : option (list Z) := Some unix_data.

Lemma Copy_Print_roundtrip_witness :
  ∃ (s s1 s2 : SynchDisk.state) fs,
    Copy unix [] name_ab fs s = Done (None, s1) ∧ Print name_ab fs s1 = Done (unix_data, None, s2).
Proof.
  destruct demo_formatted as (s & fs & Hf & He).
  assert (Hby : Forall is_byte unix_data) by (unfold unix_data; cbn; ranges).
  pose proof (Copy_Print_roundtrip unix [] name_ab unix_data fs s Hf eq_refl Hby name_ab_ok) as H.
  rewrite He in H. rewrite decide_True in H by (by compute).
  rewrite (decide_True (P := Z.of_nat (length unix_data) ≤ MaxFileSize)) in H
    by (rewrite MaxFileSize_value; cbn; lia).
  destruct H as (s1 & s2 & _ & H1 & _ & H2 & _). exists s, s1, s2, fs. split; [exact H1|exact H2].
Defined.

Lemma PerformanceTest_fails_witness :
  ∃ (s s' : SynchDisk.state) fs m2 m3,
    PerformanceTest fs s = Done (PerfNoWrite :: m2 :: m3, s') ∧ files s' fs = ∅.
Proof.
  destruct demo_formatted as (s & fs & Hf & He).
  destruct (PerformanceTest_fails fs s Hf) as (s' & m1 & m2 & m3 & H & _ & Hfs & H1 & _).
  rewrite He in H1, Hfs. rewrite decide_True in H1 by (by compute). subst m1.
  exists s, s', fs, m2, m3. split; [exact H|]. rewrite Hfs. apply delete_empty.
Defined.

End FsTestDemo.
