(* ===== verification/FsStub.v ===== *)
(** FsStub: the file system of the user-program build (FILESYS_STUB in
    src/code/filesys/filesys.h), which passes its calls on to UNIX through the routines of
    src/code/machine/sysdep.cc.

    UNIX is a parameter, [UnixFiles], with what its manual says of open, close and unlink as
    laws; files in a map are an instance.  The open files themselves are StubFile of
    AddrSpace.v. *)
From S2P Require Import Prelude.

Class UnixFiles (W : Type) : Type := {
  u_creat : W → list Z → option (Z * W);     (* open(name, O_RDWR|O_CREAT|O_TRUNC, 0666) *)
  u_open : W → list Z → option (Z * W);      (* open(name, O_RDWR, 0) *)
  u_close : W → Z → option W;
  u_unlink : W → list Z → Z * W;
  u_files : W → gmap (list Z) (list Z);      (* the files by name *)
  u_is_open : W → Z → Prop;
  u_creat_spec : ∀ w name fd w', u_creat w name = Some (fd, w') →
    0 ≤ fd ∧ u_is_open w' fd ∧ u_files w' = <[name := []]> (u_files w);
  u_open_spec : ∀ w name fd w', u_open w name = Some (fd, w') →
    0 ≤ fd ∧ u_is_open w' fd ∧ u_files w' = u_files w ∧ is_Some (u_files w !! name);
  u_open_missing : ∀ w name, u_files w !! name = None → u_open w name = None;
  u_close_spec : ∀ w fd, u_is_open w fd → ∃ w', u_close w fd = Some w' ∧ u_files w' = u_files w;
  u_unlink_spec : ∀ w name r w', u_unlink w name = (r, w') →
    (r = 0 ∧ is_Some (u_files w !! name) ∧ u_files w' = delete name (u_files w)) ∨
    (r = -1 ∧ u_files w' = u_files w)
}.

Module StubFileSystem.
Section calls.
Context {W : Type} `{!UnixFiles W}.

(** ** sysdep.cc *)

Definition OpenForWrite (name : list Z) (w : W) : res (Z * W) :=
  let '(fd, w) := match u_creat w name with Some (fd, w) => (fd, w) | None => (-1, w) end in
  ASSERT (0 <=? fd);;
  Done (fd, w).

Definition OpenForReadWrite (name : list Z) (crashOnError : bool) (w : W) : res (Z * W) :=
  let '(fd, w) := match u_open w name with Some (fd, w) => (fd, w) | None => (-1, w) end in
  ASSERT (negb crashOnError || (0 <=? fd));;
  Done (fd, w).

Definition Close (fd : Z) (w : W) : res W :=
  match u_close w fd with Some w => Done w | None => Assert end.

(** The int that unlink returns becomes a bool. *)
Definition Unlink (name : list Z) (w : W) : bool * W :=
  let '(r, w) := u_unlink w name in (negb (r =? 0), w).

(** ** class FileSystem *)

Definition Create (name : list Z) (initialSize : Z) (w : W) : res (bool * W) :=
  '(fileDescriptor, w) ← OpenForWrite name w;
  if fileDescriptor =? -1 then Done (false, w)
  else
    w ← Close fileDescriptor w;
    Done (true, w).

(** The OpenFile is its descriptor and currentOffset. *)
Definition Open (name : list Z) (w : W) : res (option (Z * Z) * W) :=
  '(fileDescriptor, w) ← OpenForReadWrite name false w;
  Done (if fileDescriptor =? -1 then None else Some (fileDescriptor, 0), w).

(** [Unlink(name) == 0] *)
Definition Remove (name : list Z) (w : W) : bool * W :=
  let '(r, w) := Unlink name w in (negb r, w).

End calls.
End StubFileSystem.

Module StubFileSystemSpec.
Import StubFileSystem.
Section calls.
Context {W : Type} `{!UnixFiles W}.

(** Create makes an empty file, whatever [initialSize] says and even if the file exists; it
    never returns FALSE: a file that cannot be made fails an assertion. *)
Lemma stub_Create_spec name size (w : W) :
  match u_creat w name with
  | None => Create name size w = Assert
  | Some _ => ∃ w', Create name size w = Done (true, w') ∧ u_files w' = <[name := []]> (u_files w)
  end.
Proof.
  unfold Create, OpenForWrite. destruct (u_creat w name) as [[fd w1]|] eqn:Hc; [|done].
  destruct (u_creat_spec _ _ _ _ Hc) as (Hfd & Ho & Hf). rewrite bind_ASSERT by lia. cbn [mbind res_bind].
  rewrite (proj2 (Z.eqb_neq fd (-1))) by lia. unfold Close.
  destruct (u_close_spec _ _ Ho) as (w2 & -> & Hf2). exists w2. split; [done|]. congruence.
Qed.

(** Open changes no file, and finds only files that exist. *)
Lemma stub_Open_spec name (w : W) :
  ∃ f w', Open name w = Done (f, w') ∧ u_files w' = u_files w ∧
    (is_Some f → is_Some (u_files w !! name)) ∧ (f = None ↔ u_open w name = None).
Proof.
  unfold Open, OpenForReadWrite. destruct (u_open w name) as [[fd w1]|] eqn:Hc; cbn [negb orb mbind res_bind].
  - destruct (u_open_spec _ _ _ _ Hc) as (Hfd & _ & Hf & Hn). rewrite bind_ASSERT by done. cbn [mbind res_bind].
    rewrite (proj2 (Z.eqb_neq fd (-1))) by lia. do 2 eexists. by split_and!.
  - do 2 eexists. split; [done|]. split; [done|]. split; [by intros []|done].
Qed.

(** Remove returns TRUE exactly when it has removed the file. *)
Lemma stub_Remove_spec name (w : W) :
  let '(b, w') := Remove name w in
  if b then is_Some (u_files w !! name) ∧ u_files w' = delete name (u_files w) else u_files w' = u_files w.
Proof.
  unfold Remove, Unlink. destruct (u_unlink w name) as [r w'] eqn:Hu.
  destruct (u_unlink_spec _ _ _ _ Hu) as [(-> & ? & ?)|[-> ?]]; done.
Qed.
End calls.

(** ** Files in a map, with the number of descriptors opened so far *)
#[local] Instance map_files : UnixFiles (gmap (list Z) (list Z) * Z).
Proof.
  refine {|
    u_creat w name := Some (Z.abs w.2, (<[name := []]> w.1, w.2 + 1));
    u_open w name := _ ← w.1 !! name; Some (Z.abs w.2, (w.1, w.2 + 1));
    u_close w fd := Some w;
    u_unlink w name := match w.1 !! name with Some _ => (0, (delete name w.1, w.2)) | None => (-1, w) end;
    u_files w := w.1;
    u_is_open w fd := True
  |}.
  - intros [m k] name fd w' [= <- <-]. split; [lia|done].
  - intros [m k] name fd w' Ho. cbn in *. destruct (m !! name); [|done]. injection Ho as <- <-.
    split; [lia|]. by split_and!.
  - intros [m k] name Hn. cbn in *. by rewrite Hn.
  - intros w fd _. by exists w.
  - intros [m k] name r w' Hu. cbn in *. destruct (m !! name) eqn:Hm; injection Hu as <- <-; [left|by right].
    by split_and!.
Defined.

(** A second Create of a file empties it; the real file system refuses it. *)
Lemma Create_truncates :
  ∃ w', Create [97] 100 (({[ [97] := [1; 2; 3] ]} : gmap (list Z) (list Z)), 3) = Done (true, w') ∧
    u_files w' !! [97] = Some [].
Proof. eexists. split; [done|]. apply lookup_insert_eq. Qed.

End StubFileSystemSpec.
