(* ===== verification/Threads.v ===== *)
(** Threads: kernel threads, the scheduler and semaphores - src/code/threads/
    thread.{h,cc}, scheduler.{h,cc}, synch.{h,cc}, synchlist.{h,cc} - with the
    parts of interrupt.cc that switch threads ([SetLevel], [OneTick]) and the
    process calls Exec, Join and Exit of src/code/userprog/exception.cc.

    SWITCH exchanges two stacks in the middle of a C++ call, so a stack is data
    here: the list of [frame]s of a thread is what it has still to execute, the
    innermost call first.  A frame is a call not yet made ([FCall]) or the rest of
    a function after a call that can switch threads.  [step] executes the top
    frame of the current thread up to the next such point.  The code between two
    points runs with interrupts off or touches nothing shared, and a time slice
    can only come in [OneTick], which is such a point.

    What the threads themselves compute is the parameter [client]: from the
    thread's program point [L] and the rest of the system [E] it gives the new [E]
    and the kernel calls to make next.  Debug output and thread names are left
    out. *)

From S2P Require Import Prelude Lists Machine AddrSpace Interrupt.

(** * The machine inside the rest of the system *)
Class HasMachine (E : Type) : Type := {
  machine : E → Machine.t;
  put_machine : Machine.t → E → E;
  machine_put : ∀ m e, machine (put_machine m e) = m
}.

Module Threads.
Import Machine Interrupt.

Inductive ThreadStatus : Type := JUST_CREATED | RUNNING | READY | BLOCKED.

#[export] Instance ThreadStatus_eq_dec : EqDecision ThreadStatus.
Proof. solve_decision. Defined.

(** A [Thread *] and a [Semaphore *]. *)
Abbreviation tid := nat.
Abbreviation sid := nat.

(** The calls a thread can make. *)
Inductive cmd (L : Type) : Type :=
| CGo (l : L)                        (* go on with the thread's own code *)
| CYield
| CP (s : sid)
| CV (s : sid)
| CFork (l : L)                      (* t = new Thread(name); t->Fork(f, arg) *)
| CFinish
| CExec (sp : AddrSpace.t) (l : L)   (* the end of SC_Exec *)
| CJoin (arg1 : Z)                   (* SC_Join *)
| CProcess (l : L)                   (* processCreator, up to machine->Run *)
| CLoad (sp : AddrSpace.t)           (* the end of StartProcess, up to machine->Run *)
| CRestore.                          (* currentThread->space->RestoreState() *)
Arguments CGo {L}.
Arguments CYield {L}.
Arguments CP {L}.
Arguments CV {L}.
Arguments CFork {L}.
Arguments CFinish {L}.
Arguments CExec {L}.
Arguments CJoin {L}.
Arguments CProcess {L}.
Arguments CLoad {L}.
Arguments CRestore {L}.

Inductive frame (L : Type) : Type :=
| FCall (c : cmd L)
| FSetLevel (now : IntStatus)          (* (void) interrupt->SetLevel(now) *)
| FStatus (old : MachineStatus)        (* OneTick, after Yield: status = old *)
| FRunTail                             (* Scheduler::Run, after SWITCH *)
| FSleepLoop                           (* Thread::Sleep, the while loop *)
| FPLoop (s : sid) (old : IntStatus)   (* Semaphore::P, the while loop *)
| FJoined                              (* SC_Join, after Sleep *)
| FFinished.                           (* Thread::Finish, not reached *)
Arguments FCall {L}.
Arguments FSetLevel {L}.
Arguments FStatus {L}.
Arguments FRunTail {L}.
Arguments FSleepLoop {L}.
Arguments FPLoop {L}.
Arguments FJoined {L}.
Arguments FFinished {L}.

(** The stack is its frames and the word at its low end ([None]: the main thread,
    whose stack is NULL). *)
Record Thread (L : Type) : Type := mkT {
  frames : list (frame L);
  stack : option Z;
  status : ThreadStatus;
  userRegisters : list Z;
  parent : option tid;
  ID : Z;
  space : option AddrSpace.t;
  killNewChild : bool;
  isJoined : bool
}.
Arguments mkT {L}.
Arguments frames {L}.
Arguments stack {L}.
Arguments status {L}.
Arguments userRegisters {L}.
Arguments parent {L}.
Arguments ID {L}.
Arguments space {L}.
Arguments killNewChild {L}.
Arguments isJoined {L}.

Definition STACK_FENCEPOST : Z := 0xdeadbeef.

Section thread_fields.
Context {L : Type}.

Definition set_frames x (t : Thread L) : Thread L := mkT x (stack t) (status t) (userRegisters t) (parent t) (ID t) (space t) (killNewChild t) (isJoined t).
Definition set_stack x (t : Thread L) : Thread L := mkT (frames t) x (status t) (userRegisters t) (parent t) (ID t) (space t) (killNewChild t) (isJoined t).
Definition setStatus x (t : Thread L) : Thread L := mkT (frames t) (stack t) x (userRegisters t) (parent t) (ID t) (space t) (killNewChild t) (isJoined t).
Definition set_userRegisters x (t : Thread L) : Thread L := mkT (frames t) (stack t) (status t) x (parent t) (ID t) (space t) (killNewChild t) (isJoined t).
Definition setParent x (t : Thread L) : Thread L := mkT (frames t) (stack t) (status t) (userRegisters t) x (ID t) (space t) (killNewChild t) (isJoined t).
Definition setID x (t : Thread L) : Thread L := mkT (frames t) (stack t) (status t) (userRegisters t) (parent t) x (space t) (killNewChild t) (isJoined t).
Definition set_space x (t : Thread L) : Thread L := mkT (frames t) (stack t) (status t) (userRegisters t) (parent t) (ID t) x (killNewChild t) (isJoined t).
Definition set_killNewChild x (t : Thread L) : Thread L := mkT (frames t) (stack t) (status t) (userRegisters t) (parent t) (ID t) (space t) x (isJoined t).
Definition set_isJoined x (t : Thread L) : Thread L := mkT (frames t) (stack t) (status t) (userRegisters t) (parent t) (ID t) (space t) (killNewChild t) x.
Definition push (f : frame L) (t : Thread L) : Thread L := set_frames (f :: frames t) t.

(** The constructor; [userRegisters] is not initialised. *)
Definition Thread_new : Thread L := mkT [] None JUST_CREATED [] None 0 None false false.

(** ThreadRoot (switch.s) calls InterruptEnable, (func)(arg) and ThreadFinish. *)
Definition StackAllocate (c : cmd L) (t : Thread L) : Thread L :=
  set_frames [FSetLevel IntOn; FCall c; FCall CFinish] (set_stack (Some STACK_FENCEPOST) t).

Definition CheckOverflow (t : Thread L) : res () :=
  match stack t with
  | None => Done ()
  | Some w => ASSERT (w =? STACK_FENCEPOST)
  end.

End thread_fields.

Record Semaphore : Type := mkSem {
  value : Z;
  queue : Queue.queue tid
}.

Definition Semaphore_new (initialValue : Z) : Semaphore := mkSem initialValue Queue.empty.

(** The globals of system.cc that the kernel threads share. *)
Record kst (L E : Type) : Type := mkK {
  threads : gmap tid (Thread L);
  readyList : Queue.queue tid;
  currentThread : tid;
  threadToBeDestroyed : option tid;
  activeThreads : Queue.queue tid;
  threadID : Z;
  sems : gmap sid Semaphore;
  extra : E
}.
Arguments mkK {L E}.
Arguments threads {L E}.
Arguments readyList {L E}.
Arguments currentThread {L E}.
Arguments threadToBeDestroyed {L E}.
Arguments activeThreads {L E}.
Arguments threadID {L E}.
Arguments sems {L E}.
Arguments extra {L E}.

Section state_fields.
Context {L E : Type}.
Implicit Types d : kst L E.

Definition set_threads x d : kst L E := mkK x (readyList d) (currentThread d) (threadToBeDestroyed d) (activeThreads d) (threadID d) (sems d) (extra d).
Definition set_readyList x d : kst L E := mkK (threads d) x (currentThread d) (threadToBeDestroyed d) (activeThreads d) (threadID d) (sems d) (extra d).
Definition set_currentThread x d : kst L E := mkK (threads d) (readyList d) x (threadToBeDestroyed d) (activeThreads d) (threadID d) (sems d) (extra d).
Definition set_threadToBeDestroyed x d : kst L E := mkK (threads d) (readyList d) (currentThread d) x (activeThreads d) (threadID d) (sems d) (extra d).
Definition set_activeThreads x d : kst L E := mkK (threads d) (readyList d) (currentThread d) (threadToBeDestroyed d) x (threadID d) (sems d) (extra d).
Definition set_threadID x d : kst L E := mkK (threads d) (readyList d) (currentThread d) (threadToBeDestroyed d) (activeThreads d) x (sems d) (extra d).
Definition set_sems x d : kst L E := mkK (threads d) (readyList d) (currentThread d) (threadToBeDestroyed d) (activeThreads d) (threadID d) x (extra d).
Definition set_extra x d : kst L E := mkK (threads d) (readyList d) (currentThread d) (threadToBeDestroyed d) (activeThreads d) (threadID d) (sems d) x.

(** [*t], undefined for a deleted thread. *)
Definition get_thread (t : tid) d : res (Thread L) :=
  match threads d !! t with Some th => Done th | None => Undef end.
Definition put_thread (t : tid) th d : kst L E := set_threads (<[t := th]> (threads d)) d.
Definition on_thread (t : tid) (f : Thread L → Thread L) d : res (kst L E) :=
  th ← get_thread t d; Done (put_thread t (f th) d).
Definition on_current (f : Thread L → Thread L) d : res (kst L E) := on_thread (currentThread d) f d.

(** ** Scheduler *)

Definition ReadyToRun (thread : tid) d : res (kst L E) :=
  d ← on_thread thread (setStatus READY) d;
  Done (set_readyList (Queue.Append thread (readyList d)) d).

Definition FindNextToRun d : option tid * kst L E :=
  let '(t, q) := Queue.Remove (readyList d) in (t, set_readyList q d).

Definition WakeUpFromJoin (thread : tid) d : res (kst L E) :=
  d ← on_thread thread (setStatus READY ∘ set_isJoined false) d;
  Done (set_readyList (Queue.Prepend thread (readyList d)) d).

Context `{!HasMachine E}.

Definition SaveUserState (th : Thread L) d : res (Thread L) :=
  regs ← for_up (Z.to_nat NumTotalRegs) 0
           (λ i regs, r ← ReadRegister i (machine (extra d)); Done (regs ++ [r])) [];
  Done (set_userRegisters regs th).

Definition RestoreUserState (th : Thread L) d : res (kst L E) :=
  m ← for_up (Z.to_nat NumTotalRegs) 0
        (λ i m, r ← aget (userRegisters th) i; WriteRegister i r m) (machine (extra d));
  Done (set_extra (put_machine m (extra d)) d).

(** [Run] up to SWITCH. *)
Definition Run (nextThread : tid) d : res (kst L E) :=
  let oldThread := currentThread d in
  old ← get_thread oldThread d;
  old ← (match space old with Some _ => SaveUserState old d | None => Done old end);
  CheckOverflow old;;
  let d := put_thread oldThread (push FRunTail old) d in
  on_thread nextThread (setStatus RUNNING) (set_currentThread nextThread d).

(** The destructor, with [delete]. *)
Definition Thread_delete (t : tid) d : res (kst L E) :=
  ASSERT (negb (bool_decide (t = currentThread d)));;
  _ ← get_thread t d;
  Done (set_threads (delete t (threads d)) d).

Definition destroy_carcass d : res (kst L E) :=
  match threadToBeDestroyed d with
  | Some t => d ← Thread_delete t d; Done (set_threadToBeDestroyed None d)
  | None => Done d
  end.

(** [Run] after SWITCH. *)
Definition Run_tail d : res (kst L E) :=
  d ← destroy_carcass d;
  th ← get_thread (currentThread d) d;
  match space th with
  | Some sp =>
      d ← RestoreUserState th d;
      Done (set_extra (put_machine (AddrSpace.RestoreState sp (machine (extra d))) (extra d)) d)
  | None => Done d
  end.

(** ** The list of active threads *)

(** [for (i = 0; i < activeThreads->getSize(); i++)] of Finish.  The list holds no
    NULL, so taking one off it - its counter being wrong - has no meaning here. *)
Fixpoint Finish_loop (fuel : nat) (i : Z) (cur : tid) (q : Queue.queue tid) : res (Queue.queue tid) :=
  if i <? Queue.getSize q then
    match fuel with
    | O => Fuel
    | S fuel =>
        let '(t, q) := Queue.Remove q in
        match t with
        | None => Undef
        | Some t => Finish_loop fuel (i + 1) cur (if decide (t = cur) then q else Queue.Append t q)
        end
    end
  else Done q.

(** The list is gone through once, rotating it; the last match wins. *)
Definition getID (toGet : Z) d : res (option tid * kst L E) :=
  for_up (Z.to_nat (Queue.getSize (activeThreads d))) 0 (λ _ rd,
    let '(found, d) := rd in
    let '(t, q) := Queue.Remove (activeThreads d) in
    match t with
    | None => Undef
    | Some t =>
        th ← get_thread t d;
        Done (if ID th =? toGet then Some t else found, set_activeThreads (Queue.Append t q) d)
    end) (None, d).

End state_fields.

(** ** Calls that switch threads *)
Section ops.
Context {H L E : Type} `{!HasMachine E}.
Abbreviation kernel := (sys H (kst L E)).
Context (call : H → kernel → res kernel).
Context (client : L → tid → E → res (E * list (cmd L))).
Context (new_thread : gset tid → tid).   (* what [new Thread] returns *)
Implicit Types k : kernel.

(** [machine->DelayedLoad(0, 0)], before an interrupt handler. *)
Definition delayed_load (d : kst L E) : res (kst L E) :=
  m ← DelayedLoad 0 0 (machine (extra d));
  Done (set_extra (put_machine m (extra d)) d).

Definition on_dev (f : kst L E → res (kst L E)) k : res kernel :=
  d ← f (dev k); Done (set_dev k d).

Definition current_frames k : res (list (frame L)) :=
  th ← get_thread (currentThread (dev k)) (dev k); Done (frames th).

(** Calls a function that may switch threads, or leaves one: on the stack. *)
Definition enter (f : frame L) k : res kernel := on_dev (on_current (push f)) k.
Definition leave k : res kernel := on_dev (on_current (λ th, set_frames (tail (frames th)) th)) k.

Definition OneTick k : res kernel :=
  let old := Interrupt.status (intr k) in
  k ← OneTick_enter call delayed_load k;
  if yieldOnReturn (intr k) then
    let k := set_yieldOnReturn k false in
    let k := Interrupt.setStatus k SystemMode in
    k ← enter (FStatus old) k;
    enter (FCall CYield) k
  else Done k.

Definition SetLevel (now : IntStatus) k : res (IntStatus * kernel) :=
  '(k, old, tick) ← SetLevel_enter now k;
  k ← (if tick : bool then OneTick k else Done k);
  Done (old, k).

Definition SetLevel_ (now : IntStatus) k : res kernel := snd <$> SetLevel now k.

Definition Enable k : res kernel := SetLevel_ IntOn k.

Definition Yield k : res kernel :=
  '(oldLevel, k) ← SetLevel IntOff k;
  let '(nextThread, d) := FindNextToRun (dev k) in
  let k := set_dev k d in
  match nextThread with
  | Some next =>
      k ← on_dev (ReadyToRun (currentThread d)) k;
      k ← enter (FSetLevel oldLevel) k;
      on_dev (Run next) k
  | None => SetLevel_ oldLevel k
  end.

(** [Sleep] up to its loop. *)
Definition Sleep k : res kernel :=
  ASSERT (bool_decide (level (intr k) = IntOff));;
  k ← on_dev (on_current (setStatus BLOCKED)) k;
  enter FSleepLoop k.

(** One turn of the loop.  [None]: Idle has halted the machine. *)
Definition Sleep_loop k : res (option kernel) :=
  let '(nextThread, d) := FindNextToRun (dev k) in
  let k := set_dev k d in
  match nextThread with
  | Some next =>
      k ← leave k;
      k ← on_dev (Run next) k;
      Done (Some k)
  | None => Idle call delayed_load k
  end.

Definition get_sem (s : sid) (d : kst L E) : res Semaphore :=
  match sems d !! s with Some x => Done x | None => Undef end.
Definition put_sem (s : sid) (x : Semaphore) (d : kst L E) : kst L E :=
  set_sems (<[s := x]> (sems d)) d.

Definition P_loop (s : sid) (oldLevel : IntStatus) k : res kernel :=
  x ← get_sem s (dev k);
  if value x =? 0 then
    let k := set_dev k (put_sem s (mkSem (value x)
               (Queue.Append (currentThread (dev k)) (queue x))) (dev k)) in
    k ← enter (FPLoop s oldLevel) k;
    Sleep k
  else
    let k := set_dev k (put_sem s (mkSem (s32 (value x - 1)) (queue x)) (dev k)) in
    SetLevel_ oldLevel k.

Definition P (s : sid) k : res kernel :=
  '(oldLevel, k) ← SetLevel IntOff k;
  P_loop s oldLevel k.

(** [V] between its two calls of [SetLevel]. *)
Definition V_body (s : sid) (d : kst L E) : res (kst L E) :=
  x ← get_sem s d;
  let '(thread, q) := Queue.Remove (queue x) in
  let d := put_sem s (mkSem (value x) q) d in
  d ← (match thread with Some t => ReadyToRun t d | None => Done d end);
  Done (put_sem s (mkSem (s32 (value x + 1)) q) d).

Definition V (s : sid) k : res kernel :=
  '(oldLevel, k) ← SetLevel IntOff k;
  k ← on_dev (V_body s) k;
  SetLevel_ oldLevel k.

(** [t->Fork(func, arg)], [c] being the call [func(arg)]. *)
Definition Fork (t : tid) (c : cmd L) k : res kernel :=
  k ← on_dev (on_thread t (StackAllocate c)) k;
  '(oldLevel, k) ← SetLevel IntOff k;
  k ← on_dev (ReadyToRun t) k;
  SetLevel_ oldLevel k.

Definition new_tid k : tid := new_thread (dom (threads (dev k))).

Definition Thread_Fork (l : L) k : res kernel :=
  let t := new_tid k in
  Fork t (CGo l) (set_dev k (put_thread t Thread_new (dev k))).

Definition Finish k : res kernel :=
  '(_, k) ← SetLevel IntOff k;
  let cur := currentThread (dev k) in
  let k := set_dev k (set_threadToBeDestroyed (Some cur) (dev k)) in
  th ← get_thread cur (dev k);
  k ← (match parent th with Some p => on_dev (WakeUpFromJoin p) k | None => Done k end);
  let q := activeThreads (dev k) in
  q ← Finish_loop (S (length (Queue.items q))) 0 cur q;
  let k := set_dev k (set_activeThreads q (dev k)) in
  k ← enter FFinished k;
  Sleep k.

(** ** Processes: the cases of ExceptionHandler that change the threads *)

(** SC_Exec once the address space has been built. *)
Definition Exec (sp : AddrSpace.t) (l : L) k : res kernel :=
  let d := dev k in
  th ← get_thread (currentThread d) d;
  if negb (killNewChild th) then
    let t := new_tid k in
    let d := put_thread t (setID (threadID d) (set_space (Some sp) Thread_new)) d in
    let d := set_activeThreads (Queue.Append t (activeThreads d)) d in
    m ← WriteRegister 2 (threadID d) (machine (extra d));
    let d := set_extra (put_machine m (extra d)) d in
    let d := set_threadID (s32 (threadID d + 1)) d in
    Fork t (CProcess l) (set_dev k d)
  else
    m ← WriteRegister 2 (s32 (-1 * s32 (threadID d + 1))) (machine (extra d));
    let d := set_extra (put_machine m (extra d)) d in
    d ← on_current (set_killNewChild false) d;
    Done (set_dev k d).

(** SC_Join; the child is looked up three times, rotating the list each time. *)
Definition Join (arg1 : Z) k : res kernel :=
  if arg1 <? 0 then Done k else
  '(t, d) ← getID arg1 (dev k);
  match t with
  | None => Done (set_dev k d)
  | Some _ =>
      th ← get_thread (currentThread d) d;
      if negb (isJoined th) then
        '(_, d) ← getID arg1 d;
        '(t, d) ← getID arg1 d;
        d ← (match t with Some t => on_thread t (setParent (Some (currentThread d))) d
             | None => Undef end);
        d ← on_current (set_isJoined true) d;
        '(_, k) ← SetLevel IntOff (set_dev k d);
        k ← enter FJoined k;
        Sleep k
      else Done (set_dev k d)
  end.

(** [space->InitRegisters(); space->RestoreState();] *)
Definition start_registers (sp : AddrSpace.t) (d : kst L E) : res (kst L E) :=
  m ← AddrSpace.InitRegisters sp (machine (extra d));
  Done (set_extra (put_machine (AddrSpace.RestoreState sp m) (extra d)) d).

Definition current_space (d : kst L E) : res AddrSpace.t :=
  th ← get_thread (currentThread d) d;
  match space th with Some sp => Done sp | None => Undef end.

(** A new thread starts in ThreadRoot and not behind SWITCH, so processCreator
    destroys the thread that finished before it. *)
Definition processCreator (l : L) k : res kernel :=
  sp ← current_space (dev k);
  d ← start_registers sp (dev k);
  d ← destroy_carcass d;
  enter (FCall (CGo l)) (set_dev k d).

Definition StartProcess_load (sp : AddrSpace.t) k : res kernel :=
  d ← on_current (set_space (Some sp)) (dev k);
  d ← start_registers sp d;
  Done (set_dev k d).

Definition restore_space k : res kernel :=
  sp ← current_space (dev k);
  let e := extra (dev k) in
  Done (set_dev k (set_extra (put_machine (AddrSpace.RestoreState sp (machine e)) e) (dev k))).

(** ** The execution of the kernel *)

Definition run_client (l : L) k : res kernel :=
  let d := dev k in
  '(e, cs) ← client l (currentThread d) (extra d);
  d ← on_current (λ th, set_frames ((FCall <$> cs) ++ frames th) th) (set_extra e d);
  Done (set_dev k d).

Definition exec_cmd (c : cmd L) k : res kernel :=
  match c with
  | CGo l => run_client l k
  | CYield => Yield k
  | CP s => P s k
  | CV s => V s k
  | CFork l => Thread_Fork l k
  | CFinish => Finish k
  | CExec sp l => Exec sp l k
  | CJoin a => Join a k
  | CProcess l => processCreator l k
  | CLoad sp => StartProcess_load sp k
  | CRestore => restore_space k
  end.

(** One step of the current thread: [None] when the machine has halted. *)
Definition step k : res (option kernel) :=
  fs ← current_frames k;
  match fs with
  | [] => Undef
  | FSleepLoop :: _ => Sleep_loop k
  | f :: _ =>
      k ← leave k;
      Some <$>
        (match f with
         | FCall c => exec_cmd c k
         | FSetLevel now => SetLevel_ now k
         | FStatus old => Done (Interrupt.setStatus k old)
         | FRunTail => on_dev Run_tail k
         | FPLoop s old => P_loop s old k
         | FJoined => Done k
         | FSleepLoop | FFinished => Undef
         end)
  end.

(** The part of [Initialize] that sets up the threads: main has still to enable
    interrupts, to do its work [l] and to call Finish.  The semaphores [ss] are new. *)
Definition Initialize (randomYield : bool) (TimerHandler : H) (r : Z) (l : L)
    (ss : gmap sid Semaphore) (e : E) : res kernel :=
  let main := set_frames [FSetLevel IntOn; FCall (CGo l); FCall CFinish] (setStatus RUNNING Thread_new) in
  let k := mkSys Interrupt Statistics.Statistics
             (mkK {[0%nat := main]} Queue.empty 0%nat None Queue.empty 1 ss e) in
  if randomYield then Timer.Timer TimerHandler randomYield r k else Done k.

Fixpoint run (n : nat) k : res (option kernel) :=
  match n with
  | O => Done (Some k)
  | S n => k' ← step k; match k' with Some k' => run n k' | None => Done None end
  end.

End ops.
End Threads.
