(* ===== verification/ThreadsSpec.v ===== *)
(** ThreadsSpec: the invariant of the kernel threads of Threads.v and that every
    step of the kernel keeps it: no assertion fails, no deleted thread is touched,
    and a wakeup is never lost. *)

From S2P Require Import Prelude Lists Machine AddrSpace Interrupt Threads.

(** * What the kernel relies on of the rest of the system

    [e_inv] is an invariant of the rest of the system that includes a well-formed
    machine and does not depend on the registers or on which page table is used. *)
Class UserMachine (E : Type) `{!HasMachine E} : Type := {
  e_inv : E → Prop;
  e_wf : ∀ e, e_inv e → Machine.wf (machine e);
  e_put : ∀ e m, e_inv e → Machine.wf m →
    Machine.mainMemory m = Machine.mainMemory (machine e) →
    Machine.tlb m = Machine.tlb (machine e) →
    Machine.tables m = Machine.tables (machine e) →
    e_inv (put_machine m e)
}.

(** The semaphores the threads know. *)
Class Sids : Type := sids : gset nat.

Module ThreadsSpec.
Import Machine Interrupt Threads.

(** ** The shape of a stack *)
Section shape.
Context {L : Type} (user : L → bool).   (* the program points of user processes *)

(** What a sleeping thread waits for. *)
Inductive kind : Type := KPlain | KWait (s : sid) | KJoin | KFinished.

#[export] Instance kind_eq_dec : EqDecision kind.
Proof. solve_decision. Defined.

Definition below (fs : list (frame L)) : list (frame L) :=
  match fs with (FRunTail | FSleepLoop) :: fs => fs | _ => fs end.

Definition kind_of (fs : list (frame L)) : kind :=
  match below fs with
  | FPLoop s _ :: _ => KWait s
  | FJoined :: _ => KJoin
  | FFinished :: _ => KFinished
  | _ => KPlain
  end.

(** The frames a running thread has still to execute end in a call of Finish;
    [sp] tells whether the thread has an address space by then. *)
Fixpoint plain (ss : gset sid) (sp : bool) (fs : list (frame L)) : Prop :=
  match fs with
  | [] => False
  | FCall c :: fs =>
      match c with
      | CFinish => True
      | CGo l => (user l → sp) ∧ plain ss sp fs
      | CP s | CV s => s ∈ ss ∧ plain ss sp fs
      | CFork l => user l = false ∧ plain ss sp fs
      | CProcess l => (user l → sp) ∧ sp ∧ plain ss sp fs
      | CRestore => sp ∧ plain ss sp fs
      | CLoad _ => plain ss true fs
      | CYield | CExec _ _ | CJoin _ => plain ss sp fs
      end
  | (FSetLevel _ | FStatus _) :: fs => plain ss sp fs
  | _ => False
  end.

Definition stack_ok (ss : gset sid) (sp : bool) (fs : list (frame L)) : Prop :=
  match below fs with
  | FPLoop s _ :: fs => s ∈ ss ∧ plain ss sp fs
  | FJoined :: fs => plain ss sp fs
  | FFinished :: _ => True
  | fs => plain ss sp fs
  end.

(** The calls a client may make from a program point: those that keep a stack in
    shape when they are put on top of it. *)
Fixpoint calls_ok (ss : gset sid) (sp : bool) (cs : list (cmd L)) : Prop :=
  match cs with
  | [] => True
  | c :: cs =>
      match c with
      | CFinish => True
      | CGo l => (user l → sp) ∧ calls_ok ss sp cs
      | CP s | CV s => s ∈ ss ∧ calls_ok ss sp cs
      | CFork l => user l = false ∧ calls_ok ss sp cs
      | CProcess l => False
      | CRestore => sp ∧ calls_ok ss sp cs
      | CLoad _ => calls_ok ss true cs
      | CYield | CExec _ _ | CJoin _ => calls_ok ss sp cs
      end
  end.

Lemma plain_mono ss (sp sp' : bool) fs : (sp → sp') → plain ss sp fs → plain ss sp' fs.
Proof.
  revert sp sp'. induction fs as [|f fs IH]; intros sp sp' Hsp; [done|].
  destruct f as [[]| | | | | | |]; simpl; naive_solver.
Qed.

Lemma calls_mono (ss ss' : gset sid) (sp sp' : bool) cs :
  ss ⊆ ss' → (sp → sp') → calls_ok ss sp cs → calls_ok ss' sp' cs.
Proof.
  intros Hss. revert sp sp'. induction cs as [|c cs IH]; intros sp sp' Hsp; [done|].
  destruct c; simpl; naive_solver.
Qed.

Lemma plain_calls ss (sp : bool) cs fs :
  calls_ok ss sp cs → plain ss sp fs → plain ss sp ((FCall <$> cs) ++ fs).
Proof.
  revert sp. induction cs as [|c cs IH]; intros sp; [done|].
  destruct c; simpl; try naive_solver.
  intros Hc Hp. apply IH; [done|]. by eapply plain_mono, Hp.
Qed.

Lemma plain_kind ss sp fs : plain ss sp fs → kind_of fs = KPlain ∧ below fs = fs.
Proof. destruct fs as [|[] ?]; simpl; done. Qed.

Lemma plain_stack_ok ss sp fs : plain ss sp fs → stack_ok ss sp fs.
Proof. intros Hp. unfold stack_ok. destruct fs as [|[] ?]; simpl in *; done. Qed.

End shape.

(** ** The queue operations on their contents *)
Section queues.
Context {A : Type}.
Implicit Types q : Queue.queue A.

Definition small q : Prop := Z.of_nat (length (Queue.contents q)) < INT_MAX.

Lemma queue_contents_length q : length (Queue.contents q) = length (Queue.items q).
Proof. unfold Queue.contents. apply length_fmap. Qed.

Lemma contents_Append (x : A) q : Queue.contents (Queue.Append x q) = Queue.contents q ++ [x].
Proof. unfold Queue.contents. simpl. by rewrite fmap_app. Qed.

Lemma contents_Prepend (x : A) q : Queue.contents (Queue.Prepend x q) = x :: Queue.contents q.
Proof. done. Qed.

Lemma size_Append (x : A) q : Queue.size_ok q → small q → Queue.size_ok (Queue.Append x q).
Proof.
  unfold Queue.size_ok, small. rewrite queue_contents_length. simpl. intros -> Hs. rewrite length_app. simpl.
  rewrite s32_id; [lia|]. unfold is_s32, INT_MIN, INT_MAX in *. lia.
Qed.

Lemma Remove_nil q : Queue.contents q = [] → (Queue.Remove q).1 = None ∧ Queue.contents (Queue.Remove q).2 = [].
Proof.
  destruct q as [[|[k x] xs] n]; [by split|done].
Qed.

Lemma Remove_cons q x xs :
  Queue.contents q = x :: xs →
  ∃ q', Queue.Remove q = (Some x, q') ∧ Queue.contents q' = xs ∧
        (Queue.size_ok q → small q → Queue.size_ok q').
Proof.
  destruct q as [[|[k y] ys] n]; [done|]. intros [= -> <-]. eexists. split; [reflexivity|].
  split; [done|]. unfold Queue.size_ok, small. rewrite queue_contents_length. simpl. intros -> Hs.
  rewrite s32_id; [lia|]. unfold is_s32, INT_MIN, INT_MAX in *. lia.
Qed.

Lemma size_contents q : Queue.size_ok q → Queue.getSize q = Z.of_nat (length (Queue.contents q)).
Proof. rewrite queue_contents_length. done. Qed.

End queues.

(** ** The loops over the active threads *)

Lemma NoDup_snoc {A} (l : list A) a : NoDup l → (a ∉ l) → NoDup (l ++ [a]).
Proof.
  intros Hl Ha. apply list.NoDup_app. split; [done|]. split; [|apply NoDup_singleton].
  intros x Hx ->%list_elem_of_singleton. done.
Qed.

(** Once the thread is off the list the bound of the loop is one smaller, so the
    last thread is not looked at. *)
Lemma Finish_loop_found fuel cur q xs ys :
  Queue.size_ok q → small q → Queue.contents q = xs ++ ys → (cur ∉ xs ++ ys) →
  (length xs ≤ fuel)%nat →
  ∃ q', Finish_loop fuel (Z.of_nat (length ys) + 1) cur q = Done q' ∧ Queue.size_ok q' ∧
        Queue.contents q' ≡ₚ xs ++ ys.
Proof.
  revert q xs ys. induction fuel as [|fuel IH]; intros q xs ys Hsz Hsm Hq Hn Hf.
  - destruct xs; [|simpl in Hf; lia]. exists q. cbn [Finish_loop].
    rewrite size_contents, Hq by done. simpl. rewrite (proj2 (Z.ltb_ge _ _)) by lia.
    done.
  - cbn [Finish_loop]. rewrite size_contents, Hq, length_app by done.
    destruct (_ <? _) eqn:Hlt; simplify_tests; [|exists q; by rewrite Hq].
    destruct xs as [|x xs]; [simpl in Hlt; lia|].
    destruct (Remove_cons q x (xs ++ ys) Hq) as (q1 & -> & Hq1 & Hsz1).
    assert (x ≠ cur) by (intros ->; apply Hn; by left). rewrite decide_False by done.
    destruct (IH (Queue.Append x q1) xs (ys ++ [x])) as (q' & Hl & Hsz' & Hp).
    + apply size_Append; [auto|]. unfold small in *. rewrite Hq in Hsm. rewrite Hq1. simpl in Hsm. lia.
    + unfold small in *. rewrite contents_Append, Hq1, !length_app. rewrite Hq in Hsm. simpl in *.
      rewrite length_app in Hsm. lia.
    + rewrite contents_Append, Hq1. by rewrite app_assoc.
    + rewrite app_assoc, elem_of_app. intros [Hin| ->%list_elem_of_singleton]; [|done].
      apply Hn. by right.
    + simpl in Hf. lia.
    + exists q'. rewrite length_app in Hl. simpl length in Hl.
      replace (Z.of_nat (length ys) + 1 + 1) with (Z.of_nat (length ys + 1) + 1) by lia.
      split; [done|]. split; [done|]. rewrite Hp. rewrite app_assoc, (Permutation_app_comm _ [x]). done.
Qed.

Lemma Finish_loop_search fuel cur q xs ys :
  Queue.size_ok q → small q → Queue.contents q = xs ++ ys → (cur ∉ ys) → NoDup (xs ++ ys) →
  (length xs ≤ fuel)%nat →
  ∃ q', Finish_loop fuel (Z.of_nat (length ys)) cur q = Done q' ∧ Queue.size_ok q' ∧
        Queue.contents q' ≡ₚ filter (.≠ cur) (xs ++ ys).
Proof.
  revert q xs ys. induction fuel as [|fuel IH]; intros q xs ys Hsz Hsm Hq Hn Hnd Hf.
  all: assert (Hys : filter (.≠ cur) ys = ys) by (apply filter_everything; intros z Hz ->; done).
  - destruct xs; [|simpl in Hf; lia]. exists q. cbn [Finish_loop].
    rewrite size_contents, Hq by done. simpl. rewrite Z.ltb_irrefl, Hys. done.
  - cbn [Finish_loop]. rewrite size_contents, Hq, length_app by done.
    destruct xs as [|x xs].
    { simpl. rewrite Z.ltb_irrefl. exists q. by rewrite Hq, Hys. }
    rewrite (proj2 (Z.ltb_lt _ _)) by (simpl; lia).
    destruct (Remove_cons q x (xs ++ ys) Hq) as (q1 & -> & Hq1 & Hsz1).
    simpl in Hnd. apply NoDup_cons in Hnd as [Hx Hnd].
    assert (Hsm1 : small q1) by (unfold small in *; rewrite Hq in Hsm; rewrite Hq1; simpl in Hsm; lia).
    destruct (decide (x = cur)) as [->|Hne].
    + destruct (Finish_loop_found fuel cur q1 xs ys) as (q' & Hl & Hsz' & Hp); auto.
      { simpl in Hf. lia. }
      exists q'. split; [done|]. split; [done|]. rewrite Hp. simpl. rewrite filter_cons_False by naive_solver.
      rewrite filter_everything; [done|]. intros z Hz ->. done.
    + destruct (IH (Queue.Append x q1) xs (ys ++ [x])) as (q' & Hl & Hsz' & Hp).
      * by apply size_Append; auto.
      * unfold small in *. rewrite contents_Append, Hq1, !length_app. rewrite Hq in Hsm. simpl in *.
        rewrite length_app in Hsm. lia.
      * rewrite contents_Append, Hq1. by rewrite app_assoc.
      * rewrite elem_of_app. intros [Hin| ->%list_elem_of_singleton]; done.
      * rewrite app_assoc. by apply NoDup_snoc.
      * simpl in Hf. lia.
      * exists q'. rewrite length_app in Hl. simpl length in Hl.
        replace (Z.of_nat (length ys) + 1) with (Z.of_nat (length ys + 1)) by lia.
        split; [done|]. split; [done|]. rewrite Hp. rewrite app_assoc, (Permutation_app_comm _ [x]). done.
Qed.

Lemma Finish_loop_spec cur q :
  Queue.size_ok q → small q → NoDup (Queue.contents q) →
  ∃ q', Finish_loop (S (length (Queue.items q))) 0 cur q = Done q' ∧ Queue.size_ok q' ∧
        Queue.contents q' ≡ₚ filter (.≠ cur) (Queue.contents q).
Proof.
  intros Hsz Hsm Hnd.
  destruct (Finish_loop_search (S (length (Queue.items q))) cur q (Queue.contents q) [])
    as (q' & Hl & Hs & Hp); rewrite ?app_nil_r in *; try done.
  - by apply not_elem_of_nil.
  - rewrite queue_contents_length. lia.
  - by exists q'.
Qed.

(** ** The invariant *)
Section invariant.
Context {L E : Type} `{!HasMachine E} `{!UserMachine E} {SD : Sids} (user : L → bool).
Implicit Types d : kst L E.
Implicit Types th : Thread L.

Definition has d (t : tid) (Q : Thread L → Prop) : Prop := ∃ th, threads d !! t = Some th ∧ Q th.

Definition ready d : list tid := Queue.contents (readyList d).
Definition kind_at th : kind := kind_of (frames th).
Definition has_space th : bool := bool_decide (is_Some (space th)).

(** A register file that [RestoreUserState] can load. *)
Definition regs_ok (r : list Z) : Prop :=
  Z.of_nat (length r) = NumTotalRegs ∧ Forall is_s32 r ∧
  0 ≤ default 0 (r !! Z.to_nat LoadReg) < NumGPRegs.

(** A thread that sleeps in Join. *)
Definition joined d (p : tid) : Prop := has d p (λ th, status th = BLOCKED ∧ kind_at th = KJoin).

(** A thread that has been woken up in [P] on [s] and has not looked yet. *)
Definition woken d (s : sid) (t : tid) : Prop :=
  has d t (λ th, status th ≠ BLOCKED ∧ kind_at th = KWait s).

Record thread_ok d (t : tid) th : Prop := {
  t_stack : stack_ok user (dom (sems d)) (has_space th) (frames th);
  t_fence : stack th = None ∨ stack th = Some STACK_FENCEPOST;
  t_created : status th ≠ JUST_CREATED;
  t_running : status th = RUNNING → t = currentThread d;
  t_ready : status th = READY → t ∈ ready d;
  t_blocked : status th = BLOCKED →
    match kind_at th with
    | KPlain => False
    | KWait s => ∃ x, sems d !! s = Some x ∧ t ∈ Queue.contents (queue x)
    | KJoin | KFinished => True
    end;
  t_finished : kind_at th = KFinished → status th = BLOCKED;
  t_asleep : head (frames th) = Some FSleepLoop ↔ t = currentThread d ∧ status th ≠ RUNNING;
  t_regs : has_space th → head (frames th) = Some FRunTail → regs_ok (userRegisters th);
  t_parent : ∀ p, parent th = Some p → kind_at th ≠ KFinished → joined d p;
  t_joined : isJoined th = true → status th = BLOCKED ∧ kind_at th = KJoin
}.

Record sem_ok d (s : sid) (x : Semaphore) : Prop := {
  s_value : 0 ≤ value x ≤ INT_MAX;
  s_nodup : NoDup (Queue.contents (queue x));
  s_queue : ∀ t, t ∈ Queue.contents (queue x) →
    has d t (λ th, status th = BLOCKED ∧ kind_at th = KWait s);
  s_woken : Queue.contents (queue x) ≠ [] →
    ∃ ws, NoDup ws ∧ value x ≤ Z.of_nat (length ws) ∧ ∀ t, t ∈ ws → woken d s t
}.

Record kinv d : Prop := {
  k_cur : is_Some (threads d !! currentThread d);
  k_threads : ∀ t th, threads d !! t = Some th → thread_ok d t th;
  k_nodup : NoDup (ready d);
  k_ready : ∀ t, t ∈ ready d → has d t (λ th, status th = READY);
  k_sems : ∀ s x, sems d !! s = Some x → sem_ok d s x;
  k_parents : ∀ t1 t2 th1 th2 p, threads d !! t1 = Some th1 → threads d !! t2 = Some th2 →
    kind_at th1 ≠ KFinished → kind_at th2 ≠ KFinished →
    parent th1 = Some p → parent th2 = Some p → t1 = t2;
  k_active_size : Queue.size_ok (activeThreads d);
  k_active_nodup : NoDup (Queue.contents (activeThreads d));
  k_active : ∀ t, t ∈ Queue.contents (activeThreads d) → has d t (λ th, kind_at th ≠ KFinished);
  k_carcass : ∀ t, threadToBeDestroyed d = Some t → has d t (λ th, kind_at th = KFinished);
  k_extra : e_inv (extra d);
  k_id : is_s32 (threadID d);
  k_sids : sids ⊆ dom (sems d)
}.

(** What does not concern a thread keeps it well-formed. *)
Lemma thread_ok_mono d d' t th :
  thread_ok d t th →
  dom (sems d') = dom (sems d) →
  (t = currentThread d' ↔ t = currentThread d) →
  (t ∈ ready d → status th = READY → t ∈ ready d') →
  (∀ s x, sems d !! s = Some x → t ∈ Queue.contents (queue x) → status th = BLOCKED →
     ∃ x', sems d' !! s = Some x' ∧ t ∈ Queue.contents (queue x')) →
  (∀ p, joined d p → parent th = Some p → kind_at th ≠ KFinished → joined d' p) →
  thread_ok d' t th.
Proof.
  intros [] Hd Hc Hr Hs Hj. split; auto.
  - by rewrite Hd.
  - intros. rewrite Hc. auto.
  - intros Hb. specialize (t_blocked0 Hb). destruct (kind_at th); try done.
    destruct t_blocked0 as (x & Hx & Hin). eauto.
  - by rewrite Hc.
Qed.

(** A list without one of its elements. *)
Lemma remove_one {A} `{!EqDecision A} (ws : list A) a :
  NoDup ws → ∃ ws', NoDup ws' ∧ Z.of_nat (length ws) - 1 ≤ Z.of_nat (length ws') ∧
                    ∀ t, t ∈ ws' → t ∈ ws ∧ t ≠ a.
Proof.
  induction 1 as [|x ws Hx Hnd (ws' & Hnd' & Hl & Hin)]; [by exists []; split_and!; [constructor|simpl; lia|set_solver]|].
  destruct (decide (x = a)) as [->|Hne].
  - exists ws. split; [done|]. split; [simpl; lia|]. intros t Ht. split; [set_solver|]. by intros ->.
  - exists (x :: ws'). split; [constructor; [|done]; intros Hx'; by apply Hin in Hx' as [? _]|].
    split; [simpl; lia|]. intros t [->|Ht]%elem_of_cons; [set_solver|].
    apply Hin in Ht as [? ?]. set_solver.
Qed.

(** [getID] finds a thread with the ID if there is one, and leaves the list as it
    was. *)
Lemma getID_spec d (n : Z) :
  let q := activeThreads d in
  Queue.size_ok q → small q → (∀ t, t ∈ Queue.contents q → has d t (λ _, True)) →
  ∃ r q', getID n d = Done (r, set_activeThreads q' d) ∧ Queue.size_ok q' ∧
    Queue.contents q' = Queue.contents q ∧
    match r with
    | Some t => t ∈ Queue.contents q ∧ has d t (λ th, ID th = n)
    | None => ∀ t, t ∈ Queue.contents q → has d t (λ th, ID th ≠ n)
    end.
Proof.
  intros q Hsz Hsm Hlive. unfold getID. set (l := Queue.contents q).
  rewrite size_contents by done. fold q l. rewrite Nat2Z.id.
  match goal with |- context [for_up ?m 0 ?b ?s] => destruct (for_up_inv (λ i (rd : option tid * kst L E), ∃ q' : Queue.queue tid,
      rd.2 = set_activeThreads q' d ∧ Queue.size_ok q' ∧
      Queue.contents q' = drop (Z.to_nat i) l ++ take (Z.to_nat i) l ∧
      match rd.1 with
      | Some t => t ∈ l ∧ has d t (λ th, ID th = n)
      | None => ∀ t, t ∈ take (Z.to_nat i) l → has d t (λ th, ID th ≠ n)
      end) b m 0 s) as ([r d'] & Hrun & q' & Hd' & Hsz' & Hq' & Hr); [| |exists r, q'] end.
  - exists q. split; [unfold q; by destruct d|]. split; [done|]. simpl. rewrite app_nil_r. split; [done|].
    intros t Ht. by apply not_elem_of_nil in Ht.
  - intros i [r d'] Hi (q' & Hd1 & Hsz' & Hq' & Hr). cbn [fst snd] in Hd1, Hr. subst d'.
    destruct (lookup_lt_is_Some_2 l (Z.to_nat i)) as [x Hx]; [lia|].
    rewrite (drop_S _ _ _ Hx) in Hq'. rewrite <- app_comm_cons in Hq'.
    assert (Hsm' : small q').
    { unfold small in *. rewrite Hq'. fold l in Hsm. simpl. rewrite length_app, length_drop, length_take.
      lia. }
    destruct (Remove_cons _ _ _ Hq') as (q1 & Hrem & Hq1 & Hsz1).
    destruct (Hlive x) as (th & Hth & _); [by eapply list_elem_of_lookup_2|].
    change (activeThreads (set_activeThreads q' d)) with q'. rewrite Hrem. unfold get_thread.
    change (threads (set_activeThreads q' d)) with (threads d). rewrite Hth. cbn [mbind res_bind]. eexists. split; [done|].
    exists (Queue.Append x q1). split; [done|]. split.
    { apply size_Append; [auto|]. unfold small in *. rewrite Hq1. rewrite Hq' in Hsm'. simpl in Hsm'. lia. }
    replace (Z.to_nat (i + 1)) with (S (Z.to_nat i)) by lia.
    rewrite contents_Append, Hq1, (take_S_r _ _ _ Hx), app_assoc. split; [done|]. simpl.
    destruct (ID th =? n) eqn:Hid; simplify_tests.
    + split; [by eapply list_elem_of_lookup_2|]. by exists th.
    + destruct r as [t|]; [done|]. intros t [Ht| ->%list_elem_of_singleton]%elem_of_app; [auto|].
      by exists th.
  - simpl in Hd', Hq', Hr. subst d'. split; [done|]. split; [done|].
    rewrite Z.add_0_l, Nat2Z.id, drop_all, take_ge in Hq' by lia.
    rewrite Z.add_0_l, Nat2Z.id, take_ge in Hr by lia. done.
Qed.

(** The rest of the system can change under the threads. *)
Lemma kinv_set_extra d e : kinv d → e_inv e → kinv (set_extra e d).
Proof.
  intros [] He. split; try done.
  - intros t th Ht. eapply thread_ok_mono; [by apply k_threads0|done..| |done]. eauto.
  - intros s x Hx. destruct (k_sems0 s x Hx). by split.
Qed.

(** The running thread goes on: its new record and the new values of the
    semaphores; [w] is the semaphore whose [P] it has just left. *)
Lemma kinv_running d th th' ss :
  kinv d →
  threads d !! currentThread d = Some th → status th = RUNNING →
  status th' = RUNNING → parent th' = parent th → isJoined th' = isJoined th → stack th' = stack th →
  (has_space th → has_space th') →
  stack_ok user (dom (sems d)) (has_space th') (frames th') →
  head (frames th') ≠ Some FSleepLoop → head (frames th') ≠ Some FRunTail →
  kind_at th' ≠ KFinished → dom ss = dom (sems d) →
  (∀ s x, ss !! s = Some x → ∃ x0, sems d !! s = Some x0 ∧ queue x = queue x0 ∧ 0 ≤ value x ∧
     if decide (kind_at th = KWait s ∧ kind_at th' ≠ KWait s)
     then value x ≤ value x0 - 1 else value x ≤ value x0) →
  kinv (set_sems ss (put_thread (currentThread d) th' d)).
Proof.
  intros Hk Hth Hst Hst' Hpa Hjo Hfe Hsp Hok Hns Hnr Hkf Hdom Hss.
  pose proof (k_threads _ Hk _ _ Hth) as Ht.
  assert (Hnb : ∀ t Q, has d t (λ th, status th ≠ RUNNING ∧ Q th) →
     has (set_sems ss (put_thread (currentThread d) th' d)) t Q).
  { intros t Q (th0 & H0 & H1 & H2). exists th0. split; [|done]. simpl.
    rewrite lookup_insert_ne; [done|]. intros <-. rewrite Hth in H0. by simplify_eq. }
  split.
  - simpl. rewrite lookup_insert_eq. done.
  - intros t th0 H0. simpl in H0. rewrite lookup_insert_Some in H0.
    assert (Hjm : ∀ p, joined d p → joined (set_sems ss (put_thread (currentThread d) th' d)) p).
    { intros p (thp & Hp & Hb & Hkp). apply Hnb. exists thp. split; [done|]. rewrite Hb. done. }
    destruct H0 as [[<- <-]|[Hne H0]].
    + destruct Ht. split; try done.
      * simpl. by rewrite Hdom.
      * by rewrite Hfe.
      * by rewrite Hst'.
      * by rewrite Hst'.
      * by rewrite Hst'.
      * rewrite Hst'. split; [done|]. by intros [_ []].
      * intros p. rewrite Hpa. intros Hp _. apply Hjm, t_parent0; [done|].
        intros Hf. apply t_finished0 in Hf. congruence.
      * rewrite Hjo. intros Hj. apply t_joined0 in Hj. destruct Hj. congruence.
    + eapply thread_ok_mono; [by apply (k_threads _ Hk)|..]; auto.
      intros s x Hx Hin _. simpl.
      assert (s ∈ dom ss) as [x' Hx']%elem_of_dom by (rewrite Hdom; by apply elem_of_dom_2 in Hx).
      exists x'. split; [done|]. destruct (Hss _ _ Hx') as (x0 & Hx0 & -> & _). by simplify_eq.
  - apply (k_nodup _ Hk).
  - intros t Hin. apply Hnb. destruct (k_ready _ Hk _ Hin) as (th0 & H0 & H1).
    exists th0. rewrite H1. done.
  - intros s x Hx. simpl in Hx. destruct (Hss _ _ Hx) as (x0 & Hx0 & Hq & Hv & Hle).
    destruct (k_sems _ Hk _ _ Hx0) as [Hv0 Hnd Hqu Hw]. split.
    + case_decide; lia.
    + by rewrite Hq.
    + rewrite Hq. intros t Hin. apply Hnb. destruct (Hqu t Hin) as (th0 & H0 & H1 & H2).
      exists th0. rewrite H1. done.
    + rewrite Hq. intros Hne. destruct (Hw Hne) as (ws & Hws & Hlen & Hall).
      case_decide as Hd.
      * destruct (remove_one ws (currentThread d) Hws) as (ws' & Hws' & Hlen' & Hsub).
        exists ws'. split; [done|]. split; [lia|]. intros t Hin.
        destruct (Hsub t Hin) as [Hin' Hne']. destruct (Hall t Hin') as (th0 & H0 & H1).
        exists th0. simpl. by rewrite lookup_insert_ne.
      * exists ws. split; [done|]. split; [lia|]. intros t Hin.
        destruct (Hall t Hin) as (th0 & H0 & H1 & H2).
        destruct (decide (t = currentThread d)) as [->|Hne'].
        -- exists th'. simpl. rewrite lookup_insert_eq, Hst'. split; [done|]. split; [done|].
           rewrite Hth in H0. simplify_eq. destruct (decide (kind_at th' = KWait s)); [done|].
           by exfalso; apply Hd.
        -- exists th0. simpl. by rewrite lookup_insert_ne.
  - intros t1 t2 th1 th2 p H1 H2 K1 K2 P1 P2. simpl in H1, H2.
    rewrite lookup_insert_Some in H1, H2.
    assert (kind_at th ≠ KFinished) by (intros Hf; apply (t_finished _ _ _ Ht) in Hf; congruence).
    destruct H1 as [[<- <-]|[? H1]], H2 as [[<- <-]|[? H2]]; rewrite ?Hpa in *;
      eapply (k_parents _ Hk); eassumption || done.
  - apply (k_active_size _ Hk).
  - apply (k_active_nodup _ Hk).
  - intros t Hin. destruct (k_active _ Hk _ Hin) as (th0 & H0 & H1). unfold has. simpl.
    destruct (decide (t = currentThread d)) as [->|Hne'].
    + exists th'. by rewrite lookup_insert_eq.
    + exists th0. by rewrite lookup_insert_ne.
  - intros t Hin. destruct (k_carcass _ Hk _ Hin) as (th0 & H0 & H1). apply Hnb. exists th0.
    split; [done|]. split; [|done].
    rewrite (t_finished _ _ _ (k_threads _ Hk _ _ H0) H1). done.
  - apply (k_extra _ Hk).
  - apply (k_id _ Hk).
  - simpl. rewrite Hdom. apply (k_sids _ Hk).
Qed.

(** The running thread gives up the CPU: it enters the loop of [Sleep] blocked, in
    the queue it waits in, or it goes to the end of the ready list. *)
Definition parked d th' (q : Queue.queue tid) (ss : gmap sid Semaphore) (tbd : option tid) : kst L E :=
  mkK (<[currentThread d := th']> (threads d)) q (currentThread d) tbd (activeThreads d)
      (threadID d) ss (extra d).

Lemma kinv_park d th th' q ss tbd :
  kinv d →
  threads d !! currentThread d = Some th → status th = RUNNING →
  status th' = BLOCKED ∧ kind_at th' ≠ KPlain ∨ status th' = READY ∧ kind_at th' ≠ KFinished →
  parent th' = parent th → stack th' = stack th →
  (isJoined th' = true → status th' = BLOCKED ∧ kind_at th' = KJoin) →
  stack_ok user (dom (sems d)) (has_space th') (frames th') →
  head (frames th') = Some FSleepLoop →
  kind_at th = KPlain ∨ kind_at th' = kind_at th →
  Queue.contents q = ready d ++ (if decide (status th' = READY) then [currentThread d] else []) →
  dom ss = dom (sems d) →
  (∀ s x, ss !! s = Some x → ∃ x0, sems d !! s = Some x0 ∧ value x = value x0 ∧
     Queue.contents (queue x) = Queue.contents (queue x0) ++
       (if decide (status th' = BLOCKED ∧ kind_at th' = KWait s) then [currentThread d] else []) ∧
     (status th' = BLOCKED → kind_at th' = KWait s → value x0 = 0)) →
  tbd = (if decide (kind_at th' = KFinished) then Some (currentThread d) else threadToBeDestroyed d) →
  (kind_at th' = KFinished → (currentThread d ∉ Queue.contents (activeThreads d))) →
  kinv (parked d th' q ss tbd).
Proof.
  intros Hk Hth Hst Hst' Hpa Hfe Hjo Hok Hns Hkk Hq Hdom Hss Htbd Hact.
  pose proof (k_threads _ Hk _ _ Hth) as Ht.
  set (d' := parked d th' q ss tbd).
  assert (Hnr : status th' ≠ RUNNING) by (intros Hx; rewrite Hx in Hst'; naive_solver).
  assert (Hnf : kind_at th ≠ KFinished) by (intros Hf; apply (t_finished _ _ _ Ht) in Hf; congruence).
  assert (Hnb : ∀ t Q, has d t (λ th, status th ≠ RUNNING ∧ Q th) → has d' t Q).
  { intros t Q (th0 & H0 & H1 & H2). exists th0. split; [|done]. simpl.
    rewrite lookup_insert_ne; [done|]. intros <-. rewrite Hth in H0. by simplify_eq. }
  assert (Hjm : ∀ p, joined d p → joined d' p).
  { intros p (thp & Hp & Hb & Hkp). apply Hnb. exists thp. split; [done|]. rewrite Hb. done. }
  assert (Hcur : threads d' !! currentThread d = Some th') by (simpl; by rewrite lookup_insert_eq).
  change (Queue.contents q) with (ready d') in Hq.
  split.
  - by exists th'.
  - intros t th0 H0. simpl in H0. rewrite lookup_insert_Some in H0.
    destruct H0 as [[<- <-]|[Hne H0]].
    + destruct Ht. split; try done.
      * simpl. by rewrite Hdom.
      * by rewrite Hfe.
      * intros Hc. rewrite Hc in Hst'. naive_solver.
      * rewrite Hq. intros Hr. rewrite decide_True by done.
        apply elem_of_app. right. by apply list_elem_of_singleton.
      * intros Hb. destruct (kind_at th') as [|s| |] eqn:Hkd; try done.
        { destruct Hst' as [[_ ?]|[? _]]; congruence. }
        assert (s ∈ dom (sems d)) as Hs.
        { unfold kind_at, kind_of, stack_ok in *. destruct (below (frames th')) as [|[] ?]; naive_solver. }
        rewrite <- Hdom in Hs. apply elem_of_dom in Hs as [x Hx]. exists x. split; [done|].
        destruct (Hss _ _ Hx) as (x0 & _ & _ & -> & _). rewrite decide_True by done.
        apply elem_of_app. right. by apply list_elem_of_singleton.
      * intros Hf. destruct Hst' as [[? _]|[_ ?]]; done.
      * rewrite Hns. by intros _ [=].
      * intros p. rewrite Hpa. intros Hp _. apply Hjm, t_parent0; done.
    + eapply thread_ok_mono; [by apply (k_threads _ Hk)|..]; auto.
      * intros Hin _. rewrite Hq. apply elem_of_app. by left.
      * intros s x Hx Hin _. simpl.
        assert (s ∈ dom ss) as [x' Hx']%elem_of_dom by (rewrite Hdom; by apply elem_of_dom_2 in Hx).
        exists x'. split; [done|]. destruct (Hss _ _ Hx') as (x0 & Hx0 & _ & -> & _). simplify_eq.
        apply elem_of_app. by left.
  - rewrite Hq. destruct (decide (status th' = READY)) as [Hrd|Hrd]; [|rewrite app_nil_r; apply (k_nodup _ Hk)].
    apply NoDup_snoc; [apply (k_nodup _ Hk)|]. intros Hin.
    destruct (k_ready _ Hk _ Hin) as (th0 & H0 & H1). congruence.
  - intros t. rewrite Hq. intros [Hin|Hin]%elem_of_app.
    + apply Hnb. destruct (k_ready _ Hk _ Hin) as (th0 & H0 & H1). exists th0. by rewrite H1.
    + destruct (decide (status th' = READY)) as [Hrd|Hrd]; [|by apply not_elem_of_nil in Hin]. apply list_elem_of_singleton in Hin as ->. by exists th'.
  - intros s x Hx. simpl in Hx. destruct (Hss _ _ Hx) as (x0 & Hx0 & Hv & Hqu & Hz).
    destruct (k_sems _ Hk _ _ Hx0) as [Hv0 Hnd Hqs Hw].
    assert (Hcq : currentThread d ∉ Queue.contents (queue x0)).
    { intros Hin. destruct (Hqs _ Hin) as (th0 & H0 & H1 & _). congruence. }
    split.
    + by rewrite Hv.
    + rewrite Hqu. destruct (decide (status th' = BLOCKED ∧ kind_at th' = KWait s)) as [Hd|Hd]; [|by rewrite app_nil_r]. by apply NoDup_snoc.
    + rewrite Hqu. intros t [Hin|Hin]%elem_of_app.
      * apply Hnb. destruct (Hqs t Hin) as (th0 & H0 & H1 & H2). exists th0. by rewrite H1.
      * destruct (decide (status th' = BLOCKED ∧ kind_at th' = KWait s)) as [Hd|Hd]; [|by apply not_elem_of_nil in Hin].
        apply list_elem_of_singleton in Hin as ->. by exists th'.
    + rewrite Hqu, Hv. intros Hne. destruct (decide (status th' = BLOCKED ∧ kind_at th' = KWait s)) as [Hd|Hd].
      * exists []. rewrite Hz by naive_solver. split; [constructor|]. split; [done|].
        intros t Hin. by apply not_elem_of_nil in Hin.
      * rewrite app_nil_r in Hne. destruct (Hw Hne) as (ws & Hws & Hlen & Hall).
        exists ws. split; [done|]. split; [done|]. intros t Hin.
        destruct (Hall t Hin) as (th0 & H0 & H1 & H2).
        destruct (decide (t = currentThread d)) as [->|Hne'].
        -- exists th'. split; [done|]. assert (th0 = th) as -> by congruence.
           destruct Hkk as [?|Hkk]; [congruence|]. rewrite Hkk. split; [|done].
           intros Hb. apply Hd. by rewrite Hkk.
        -- exists th0. simpl. by rewrite lookup_insert_ne.
  - intros t1 t2 th1 th2 p H1 H2 K1 K2 P1 P2. simpl in H1, H2.
    rewrite lookup_insert_Some in H1, H2.
    destruct H1 as [[<- <-]|[? H1]], H2 as [[<- <-]|[? H2]]; rewrite ?Hpa in *;
      eapply (k_parents _ Hk); eassumption || done.
  - apply (k_active_size _ Hk).
  - apply (k_active_nodup _ Hk).
  - intros t Hin. destruct (k_active _ Hk _ Hin) as (th0 & H0 & H1).
    destruct (decide (t = currentThread d)) as [->|Hne'].
    + exists th'. split; [done|]. intros Hf. by apply (Hact Hf).
    + exists th0. simpl. by rewrite lookup_insert_ne.
  - intros t. simpl. rewrite Htbd. destruct (decide (kind_at th' = KFinished)); [intros [= <-]; by exists th'|]. intros Hin.
    destruct (k_carcass _ Hk _ Hin) as (th0 & H0 & H1). apply Hnb. exists th0.
    split; [done|]. split; [|done].
    rewrite (t_finished _ _ _ (k_threads _ Hk _ _ H0) H1). done.
  - apply (k_extra _ Hk).
  - apply (k_id _ Hk).
  - simpl. rewrite Hdom. apply (k_sids _ Hk).
Qed.

(** Threads that differ in ways the others cannot see. *)
Definition like th th' : Prop :=
  kind_at th' = kind_at th ∧ parent th' = parent th ∧ isJoined th' = isJoined th ∧
  space th' = space th ∧ stack th' = stack th ∧ (status th' = BLOCKED ↔ status th = BLOCKED).

(** What depends on the threads only up to [like]. *)
Lemma kinv_like d d' :
  kinv d →
  (∀ t th', threads d' !! t = Some th' → ∃ th, threads d !! t = Some th ∧ like th th') →
  (∀ t th, threads d !! t = Some th → ∃ th', threads d' !! t = Some th' ∧ like th th') →
  sems d' = sems d → activeThreads d' = activeThreads d →
  threadToBeDestroyed d' = threadToBeDestroyed d → e_inv (extra d') → is_s32 (threadID d') →
  is_Some (threads d' !! currentThread d') →
  NoDup (ready d') → (∀ t, t ∈ ready d' → has d' t (λ th, status th = READY)) →
  (∀ t th th', threads d !! t = Some th → threads d' !! t = Some th' → like th th' →
     stack_ok user (dom (sems d)) (has_space th') (frames th') ∧
     status th' ≠ JUST_CREATED ∧
     (status th' = RUNNING → t = currentThread d') ∧
     (status th' = READY → t ∈ ready d') ∧
     (head (frames th') = Some FSleepLoop ↔ t = currentThread d' ∧ status th' ≠ RUNNING) ∧
     (has_space th' → head (frames th') = Some FRunTail → regs_ok (userRegisters th'))) →
  kinv d'.
Proof.
  intros Hk Hback Hforth Hse Hac Htb He Hid Hcu Hnd Hrd Hloc.
  assert (Hhas : ∀ t (Q Q' : Thread L → Prop), has d t Q → (∀ th th', like th th' → Q th → Q' th') → has d' t Q').
  { intros t Q Q' (th & Ht & HQ) Himp. destruct (Hforth _ _ Ht) as (th' & Ht' & Hl).
    exists th'. split; [done|]. by eapply Himp. }
  split; try done.
  - intros t th' Ht'. destruct (Hback _ _ Ht') as (th & Ht & Hl).
    destruct (Hloc _ _ _ Ht Ht' Hl) as (H1 & H2 & H3 & H4 & H5 & H6).
    destruct (k_threads _ Hk _ _ Ht), Hl as (Lk & Lp & Lj & Ls & Lst & Lb).
    split; try done.
    + by rewrite Hse.
    + by rewrite Lst.
    + rewrite Lb, Lk, Hse. done.
    + rewrite Lk, Lb. done.
    + intros p. rewrite Lp, Lk. intros Hp Hf. eapply Hhas; [by apply t_parent0|].
      intros ? ? (Lk' & _ & _ & _ & _ & Lb') [? ?]. rewrite Lb', Lk'. done.
    + rewrite Lj, Lk, Lb. done.
  - intros s x Hx. rewrite Hse in Hx. destruct (k_sems _ Hk _ _ Hx) as [H1 H2 H3 H4]. split; try done.
    + intros t Hin. eapply Hhas; [by apply H3|].
      intros ? ? (Lk' & _ & _ & _ & _ & Lb') [? ?]. rewrite Lb', Lk'. done.
    + intros Hne. destruct (H4 Hne) as (ws & Hws & Hl & Hall). exists ws. split; [done|]. split; [done|].
      intros t Hin. eapply Hhas; [by apply Hall|].
      intros ? ? (Lk' & _ & _ & _ & _ & Lb') [? ?]. rewrite Lb', Lk'. done.
  - intros t1 t2 th1 th2 p H1 H2 K1 K2 P1 P2.
    destruct (Hback _ _ H1) as (th1' & H1' & Lk1 & Lp1 & _). destruct (Hback _ _ H2) as (th2' & H2' & Lk2 & Lp2 & _).
    eapply (k_parents _ Hk); [exact H1'|exact H2'|by rewrite <- Lk1|by rewrite <- Lk2|by rewrite <- Lp1|by rewrite <- Lp2].
  - rewrite Hac. apply (k_active_size _ Hk).
  - rewrite Hac. apply (k_active_nodup _ Hk).
  - rewrite Hac. intros t Hin. eapply Hhas; [by apply (k_active _ Hk)|].
    intros ? ? (Lk' & _) ?. by rewrite Lk'.
  - rewrite Htb. intros t Hin. eapply Hhas; [by apply (k_carcass _ Hk)|].
    intros ? ? (Lk' & _) ?. by rewrite Lk'.
  - rewrite Hse. apply (k_sids _ Hk).
Qed.

(** SWITCH: the thread at the front of the ready list takes over from a thread in
    the loop of [Sleep] - which may be the same thread. *)
Lemma kinv_dispatch d th th1 fs next rest q thn :
  kinv d →
  threads d !! currentThread d = Some th → frames th = FSleepLoop :: fs →
  th1 = set_userRegisters (userRegisters th1) (set_frames (FRunTail :: fs) th) →
  (has_space th → regs_ok (userRegisters th1)) →
  ready d = next :: rest → Queue.contents q = rest →
  <[currentThread d := th1]> (threads d) !! next = Some thn →
  kinv (set_readyList q (put_thread next (setStatus RUNNING thn)
          (set_currentThread next (put_thread (currentThread d) th1 d)))).
Proof.
  intros Hk Hth Hfs Hth1 Hregs Hrdy Hq Hn.
  assert (Hkd : kind_at th1 = kind_at th) by (rewrite Hth1; unfold kind_at, kind_of; simpl; by rewrite Hfs).
  pose proof (k_threads _ Hk _ _ Hth) as Ht.
  assert (Hnr : status th ≠ RUNNING) by (apply (t_asleep _ _ _ Ht); by rewrite Hfs).
  assert (Hnd : (next ∉ rest) ∧ NoDup rest).
  { pose proof (k_nodup _ Hk) as Hnd. rewrite Hrdy in Hnd. by apply NoDup_cons in Hnd. }
  assert (Hrn : status thn = READY).
  { destruct (k_ready _ Hk next) as (th0 & H0 & H1); [rewrite Hrdy; by left|].
    destruct (decide (next = currentThread d)) as [->|Hne].
    - rewrite lookup_insert_eq in Hn. rewrite Hth in H0. simplify_eq. rewrite Hth1. done.
    - rewrite lookup_insert_ne in Hn by done. by simplify_eq. }
  assert (Hview : ∀ t th', <[next := setStatus RUNNING thn]> (<[currentThread d := th1]> (threads d)) !! t = Some th' →
     ∃ th0, threads d !! t = Some th0 ∧ like th0 th' ∧
       status th' = (if decide (t = next) then RUNNING else status th0) ∧
       (t = currentThread d ∧ th0 = th ∧ frames th' = FRunTail :: fs ∧ userRegisters th' = userRegisters th1 ∨
        t ≠ currentThread d ∧ frames th' = frames th0 ∧ userRegisters th' = userRegisters th0)).
  { intros t th' Ht'.
    assert (∃ th2, <[currentThread d := th1]> (threads d) !! t = Some th2 ∧
             th' = if decide (t = next) then setStatus RUNNING th2 else th2) as (th2 & H2 & Hth').
    { destruct (decide (t = next)) as [->|Hne].
      - rewrite lookup_insert_eq in Ht'. simplify_eq. eauto.
      - rewrite lookup_insert_ne in Ht' by done. eauto. }
    assert (Hs2 : t = next → status th2 = READY) by (intros ->; rewrite Hn in H2; by simplify_eq).
    destruct (decide (t = currentThread d)) as [->|Hne].
    - rewrite lookup_insert_eq in H2. injection H2 as <-. exists th. split; [done|].
      assert (status th1 = status th) as Hs1 by (rewrite Hth1; done).
      rewrite Hth'. destruct (decide (currentThread d = next)) as [Heq|Hne];
        (split; [split; [exact Hkd|];
           rewrite Hth1; simpl; split_and!; try done
        |split; [rewrite Hth1; done|]; left; rewrite Hth1; done]).
      rewrite <- Hs1, (Hs2 Heq). done.
    - rewrite lookup_insert_ne in H2 by done. exists th2. split; [done|].
      rewrite Hth'. destruct (decide (t = next)) as [Heq|Hne']; (split; [split; [done|]; simpl; split_and!; try done|split; [done|right; done]]).
      rewrite (Hs2 Heq). done. }
  eapply kinv_like; [exact Hk|..]; try done.
  - intros t th' Ht'. destruct (Hview _ _ Ht') as (th0 & H0 & Hl & _). eauto.
  - intros t th0 H0. simpl.
    destruct (<[next := setStatus RUNNING thn]> (<[currentThread d := th1]> (threads d)) !! t) as [th'|] eqn:Hl'.
    + exists th'. split; [done|]. destruct (Hview _ _ Hl') as (? & H0' & Hl & _). rewrite H0 in H0'. by simplify_eq.
    + rewrite !lookup_insert_None in Hl'. destruct Hl' as [[Hl' _] _]. congruence.
  - apply (k_extra _ Hk).
  - apply (k_id _ Hk).
  - simpl. by rewrite lookup_insert_eq.
  - unfold ready. simpl. rewrite Hq. apply Hnd.
  - intros t. unfold ready, has. simpl. rewrite Hq. intros Hin.
    destruct (k_ready _ Hk t) as (th0 & H0 & H1); [rewrite Hrdy; by right|].
    assert (t ≠ next) by (intros ->; by apply (proj1 Hnd)).
    rewrite lookup_insert_ne by done. destruct (decide (t = currentThread d)) as [->|Hne].
    + exists th1. rewrite lookup_insert_eq. split; [done|]. rewrite Hth1. simpl. congruence.
    + exists th0. by rewrite lookup_insert_ne.
  - intros t th0 th' H0 Ht' Hl. destruct (Hview _ _ Ht') as (th0' & H0' & _ & Hs & Hf).
    rewrite H0 in H0'. injection H0' as <-. pose proof (k_threads _ Hk _ _ H0) as Ht0.
    assert (has_space th' = has_space th0) as Hsp by (unfold has_space; by destruct Hl as (_&_&_&->&_)).
    rewrite Hsp. unfold ready. simpl. rewrite Hq. split_and!.
    + pose proof (t_stack _ _ _ Ht0) as Hok.
      destruct Hf as [(-> & -> & -> & _)|(Hne & -> & _)]; [|done]. rewrite Hfs in Hok. done.
    + rewrite Hs. destruct (decide _); [done|]. apply (t_created _ _ _ Ht0).
    + rewrite Hs. destruct (decide (t = next)) as [|Hne]; [done|]. intros Hr.
      destruct Hf as [(-> & -> & _)|(Hne' & _)]; [done|]. by apply (t_running _ _ _ Ht0) in Hr.
    + rewrite Hs. destruct (decide (t = next)) as [|Hne]; [done|]. intros Hr.
      apply (t_ready _ _ _ Ht0) in Hr. rewrite Hrdy in Hr. apply elem_of_cons in Hr as [?|?]; done.
    + split.
      * intros Hh. destruct Hf as [(_ & _ & Hff & _)|(Hne' & Hff & _)]; rewrite Hff in Hh; [done|].
        apply (t_asleep _ _ _ Ht0) in Hh as [? _]. done.
      * rewrite Hs. intros [-> Hx]. rewrite decide_True in Hx by done. done.
    + intros Hspc. destruct Hf as [(-> & -> & _ & ->)|(Hne' & -> & ->)]; [by intros _; apply Hregs|].
      by apply (t_regs _ _ _ Ht0).
Qed.

(** [V] with nobody waiting. *)
Lemma kinv_V_free d s x x' :
  kinv d → sems d !! s = Some x → Queue.contents (queue x) = [] →
  Queue.contents (queue x') = [] → 0 ≤ value x' ≤ INT_MAX →
  kinv (set_sems (<[s := x']> (sems d)) d).
Proof.
  intros Hk Hx Hq Hq' Hv.
  assert (Hdom : dom (<[s := x']> (sems d)) = dom (sems d)) by (apply dom_insert_lookup_L; by eexists).
  destruct Hk. split; try done.
  - intros t th Ht. eapply thread_ok_mono; [by apply k_threads0|done..| |done].
    intros s0 x0 Hx0 Hin _. simpl. destruct (decide (s0 = s)) as [->|Hne].
    + rewrite Hx in Hx0. injection Hx0 as <-. rewrite Hq in Hin. by apply not_elem_of_nil in Hin.
    + exists x0. by rewrite lookup_insert_ne.
  - intros s0 x0 Hx0. simpl in Hx0. rewrite lookup_insert_Some in Hx0.
    destruct Hx0 as [[<- <-]|[Hne Hx0]].
    + split; rewrite ?Hq'; [done|constructor|intros t Hin; by apply not_elem_of_nil in Hin|done].
    + destruct (k_sems0 _ _ Hx0). by split.
  - simpl. by rewrite Hdom.
Qed.

(** Waking a thread: it becomes ready, at the given place of the ready list. *)
Definition wakened d (t : tid) th' (q : Queue.queue tid) (ss : gmap sid Semaphore) : kst L E :=
  set_sems ss (set_readyList q (put_thread t th' d)).

Lemma kinv_wake d t th th' q ss :
  kinv d → threads d !! t = Some th → status th = BLOCKED →
  status th' = READY → frames th' = frames th → stack th' = stack th → space th' = space th →
  userRegisters th' = userRegisters th → parent th' = parent th → isJoined th' = false →
  kind_at th ≠ KFinished →
  NoDup (Queue.contents q) → (∀ u, u ∈ Queue.contents q ↔ u = t ∨ u ∈ ready d) →
  (∀ u thu, threads d !! u = Some thu → kind_at thu ≠ KFinished → parent thu ≠ Some t) →
  dom ss = dom (sems d) →
  (∀ s x', ss !! s = Some x' → ∃ x, sems d !! s = Some x ∧ 0 ≤ value x' ≤ INT_MAX ∧
     NoDup (Queue.contents (queue x')) ∧
     (∀ u, u ∈ Queue.contents (queue x') ↔ u ∈ Queue.contents (queue x) ∧ u ≠ t) ∧
     value x' ≤ value x + (if decide (kind_at th = KWait s) then 1 else 0)) →
  kinv (wakened d t th' q ss).
Proof.
  intros Hk Hth Hb Hs' Hf Hst Hsp Hur Hpa Hij Hkf Hnd Hq Hnp Hdom Hss.
  set (d' := wakened d t th' q ss).
  pose proof (k_threads _ Hk _ _ Hth) as Ht.
  assert (Hkd : kind_at th' = kind_at th) by (unfold kind_at; by rewrite Hf).
  assert (Hat : threads d' !! t = Some th') by (simpl; by rewrite lookup_insert_eq).
  assert (Hoth : ∀ u, u ≠ t → threads d' !! u = threads d !! u) by (intros; simpl; by rewrite lookup_insert_ne).
  change (Queue.contents q) with (ready d') in *.
  assert (Hjm : ∀ p u thu, threads d !! u = Some thu → kind_at thu ≠ KFinished → parent thu = Some p →
                joined d p → joined d' p).
  { intros p u thu Hu Hku Hpu (thp & Hp & Hbp & Hkp). exists thp. split; [|done].
    rewrite Hoth; [done|]. intros ->. exact (Hnp u thu Hu Hku Hpu). }
  split.
  - destruct (decide (currentThread d = t)) as [Heq|Hne].
    + exists th'. simpl. by rewrite Heq, lookup_insert_eq.
    + change (is_Some (threads d' !! currentThread d)). rewrite Hoth by done. apply (k_cur _ Hk).
  - intros u thu Hu. destruct (decide (u = t)) as [->|Hne].
    + rewrite Hat in Hu. injection Hu as <-. destruct Ht. split; try done.
      * simpl. unfold has_space. rewrite Hdom, Hf, Hsp. done.
      * by rewrite Hst.
      * by rewrite Hs'.
      * by rewrite Hs'.
      * intros _. apply Hq. by left.
      * by rewrite Hs'.
      * by rewrite Hkd.
      * rewrite Hf, t_asleep0, Hb, Hs'. split; intros [? _]; by split.
      * unfold has_space. rewrite Hf, Hur, Hsp. done.
      * intros p. rewrite Hpa, Hkd. intros Hp Hk'. eapply Hjm; eauto.
      * by rewrite Hij.
    + rewrite Hoth in Hu by done. eapply thread_ok_mono; [by apply (k_threads _ Hk)|done|done|..].
      * intros Hin _. apply Hq. by right.
      * intros s x Hx Hin _. simpl.
        assert (s ∈ dom ss) as [x' Hx']%elem_of_dom by (rewrite Hdom; by apply elem_of_dom_2 in Hx).
        exists x'. split; [done|]. destruct (Hss _ _ Hx') as (x0 & Hx0 & _ & _ & Hqu & _).
        rewrite Hx in Hx0. injection Hx0 as <-. by apply Hqu.
      * intros p Hj Hp Hkp. by eapply Hjm.
  - done.
  - intros u [-> |Hin]%Hq; [by exists th'|].
    destruct (k_ready _ Hk _ Hin) as (thu & Hu & Hr). exists thu. rewrite Hoth; [done|].
    intros ->. congruence.
  - intros s x' Hx'. destruct (Hss _ _ Hx') as (x & Hx & Hv & Hnd' & Hqu & Hle).
    destruct (k_sems _ Hk _ _ Hx) as [_ _ Hqs Hw]. split; [done|done|..].
    + intros u [Hin Hne]%Hqu. destruct (Hqs u Hin) as (thu & Hu & Hrest). exists thu.
      by rewrite Hoth.
    + intros Hne.
      assert (Hne0 : Queue.contents (queue x) ≠ []).
      { intros He. apply Hne. destruct (Queue.contents (queue x')) as [|u l]; [done|].
        destruct (proj1 (Hqu u)) as [Hin _]; [by left|]. rewrite He in Hin. by apply not_elem_of_nil in Hin. }
      destruct (Hw Hne0) as (ws & Hws & Hlen & Hall).
      assert (Htw : t ∉ ws).
      { intros Hin. destruct (Hall _ Hin) as (thw & Hw' & Hnb & _). congruence. }
      assert (Hall' : ∀ u, u ∈ ws → woken d' s u).
      { intros u Hin. destruct (Hall u Hin) as (thu & Hu & Hrest). exists thu. rewrite Hoth; [done|].
        intros ->. done. }
      destruct (decide (kind_at th = KWait s)) as [Hks|Hks].
      * exists (t :: ws). split; [by constructor|]. split; [simpl length; lia|].
        intros u [-> |Hin]%elem_of_cons; [|auto]. exists th'. by rewrite Hs', Hkd.
      * exists ws. split; [done|]. split; [lia|done].
  - intros t1 t2 th1 th2 p H1 H2 K1 K2 P1 P2. simpl in H1, H2.
    rewrite lookup_insert_Some in H1, H2.
    destruct H1 as [[<- <-]|[? H1]], H2 as [[<- <-]|[? H2]]; rewrite ?Hpa in *;
      eapply (k_parents _ Hk); eassumption || done.
  - apply (k_active_size _ Hk).
  - apply (k_active_nodup _ Hk).
  - intros u Hin. destruct (k_active _ Hk _ Hin) as (thu & Hu & Hku).
    destruct (decide (u = t)) as [->|Hne]; [exists th'; by rewrite Hkd|].
    exists thu. by rewrite Hoth.
  - intros u Hin. destruct (k_carcass _ Hk _ Hin) as (thu & Hu & Hku). exists thu.
    rewrite Hoth; [done|]. intros ->. congruence.
  - apply (k_extra _ Hk).
  - apply (k_id _ Hk).
  - simpl. rewrite Hdom. apply (k_sids _ Hk).
Qed.

(** A new thread, at the end of the ready list. *)
Definition forked d (t : tid) th (q aq : Queue.queue tid) (n : Z) : kst L E :=
  mkK (<[t := th]> (threads d)) q (currentThread d) (threadToBeDestroyed d) aq n (sems d) (extra d).

Lemma kinv_forked d t th q aq n :
  kinv d → threads d !! t = None →
  status th = READY → stack th = Some STACK_FENCEPOST → parent th = None → isJoined th = false →
  plain user (dom (sems d)) (has_space th) (frames th) →
  Queue.contents q = ready d ++ [t] →
  Queue.size_ok aq → NoDup (Queue.contents aq) →
  (∀ u, u ∈ Queue.contents aq → u = t ∨ u ∈ Queue.contents (activeThreads d)) →
  is_s32 n →
  kinv (forked d t th q aq n).
Proof.
  intros Hk Hnew Hs Hst Hpa Hij Hpl Hq Hsz Hnda Haq Hn.
  set (d' := forked d t th q aq n).
  assert (Hat : threads d' !! t = Some th) by (simpl; by rewrite lookup_insert_eq).
  assert (Hmono : ∀ u Q, has d u Q → has d' u Q).
  { intros u Q (thu & Hu & HQ). exists thu. split; [|done]. simpl. rewrite lookup_insert_ne; [done|].
    intros <-. congruence. }
  destruct (plain_kind _ _ _ _ Hpl) as [Hkd _]. change (kind_at th = KPlain) in Hkd.
  change (Queue.contents q) with (ready d') in Hq.
  assert (Hne : ∀ u, has d u (λ _, True) → u ≠ t) by (intros u (thu & Hu & _) ->; congruence).
  split.
  - destruct (k_cur _ Hk) as [thc Hc].
    destruct (Hmono (currentThread d) (λ _, True)) as (th0 & H0 & _); [by exists thc|by exists th0].
  - intros u thu Hu. simpl in Hu. rewrite lookup_insert_Some in Hu. destruct Hu as [[<- <-]|[Hneq Hu]].
    + split; rewrite ?Hs, ?Hkd; try done.
      * by apply plain_stack_ok.
      * by right.
      * intros _. rewrite Hq. apply elem_of_app. right. by left.
      * split; [destruct (frames th) as [|[] ?]; done|]. intros [Heq _].
        destruct (k_cur _ Hk) as [thc Hc]. change (t = currentThread d) in Heq. congruence.
      * intros _. destruct (frames th) as [|[] ?]; done.
      * by rewrite Hpa.
      * by rewrite Hij.
    + eapply thread_ok_mono; [by apply (k_threads _ Hk)|done|done|..].
      * intros Hin _. rewrite Hq. apply elem_of_app. by left.
      * eauto.
      * intros p Hj _ _. by apply Hmono.
  - rewrite Hq. apply NoDup_snoc; [apply (k_nodup _ Hk)|]. intros Hin.
    destruct (k_ready _ Hk _ Hin) as (thu & Hu & _). congruence.
  - intros u. rewrite Hq. intros [Hin|Hin]%elem_of_app; [by apply Hmono, (k_ready _ Hk)|].
    apply list_elem_of_singleton in Hin as ->. by exists th.
  - intros s x Hx. destruct (k_sems _ Hk _ _ Hx) as [H1 H2 H3 H4]. split; try done.
    + intros u Hin. by apply Hmono, H3.
    + intros Hq0. destruct (H4 Hq0) as (ws & Hws & Hl & Hall). exists ws. split; [done|]. split; [done|].
      intros u Hin. by apply Hmono, Hall.
  - intros t1 t2 th1 th2 p H1 H2 K1 K2 P1 P2. simpl in H1, H2.
    rewrite lookup_insert_Some in H1, H2.
    destruct H1 as [[<- <-]|[? H1]], H2 as [[<- <-]|[? H2]]; try congruence.
    eapply (k_parents _ Hk); eassumption || done.
  - done.
  - done.
  - intros u [-> |Hin]%Haq; [exists th; by rewrite Hkd|]. by apply Hmono, (k_active _ Hk).
  - intros u Hin. by apply Hmono, (k_carcass _ Hk).
  - apply (k_extra _ Hk).
  - exact Hn.
  - apply (k_sids _ Hk).
Qed.

(** Nobody refers to a thread that has finished. *)
Lemma kinv_delete d t th :
  kinv d → threads d !! t = Some th → kind_at th = KFinished → t ≠ currentThread d →
  kinv (set_threadToBeDestroyed None (set_threads (delete t (threads d)) d)).
Proof.
  intros Hk Hth Hf Hne. set (d' := set_threadToBeDestroyed _ _).
  pose proof (t_finished _ _ _ (k_threads _ Hk _ _ Hth) Hf) as Hb.
  assert (Hmono : ∀ u Q, has d u (λ th, kind_at th ≠ KFinished ∧ Q th) → has d' u Q).
  { intros u Q (thu & Hu & Hku & HQ). exists thu. split; [|done]. simpl. rewrite lookup_delete_ne; [done|].
    intros ->. congruence. }
  assert (Hjm : ∀ p, joined d p → joined d' p).
  { intros p (thp & Hp & Hbp & Hkp). apply Hmono. exists thp. by rewrite Hkp. }
  split.
  - simpl. rewrite lookup_delete_ne by done. apply (k_cur _ Hk).
  - intros u thu Hu. simpl in Hu. apply lookup_delete_Some in Hu as [_ Hu].
    eapply thread_ok_mono; [by apply (k_threads _ Hk)|done..| |]; eauto.
  - apply (k_nodup _ Hk).
  - intros u Hin. destruct (k_ready _ Hk _ Hin) as (thu & Hu & Hr). apply Hmono. exists thu.
    split; [done|]. split; [|done]. intros Hku. apply (t_finished _ _ _ (k_threads _ Hk _ _ Hu)) in Hku. congruence.
  - intros s x Hx. destruct (k_sems _ Hk _ _ Hx) as [H1 H2 H3 H4]. split; try done.
    + intros u Hin. destruct (H3 _ Hin) as (thu & Hu & Hbu & Hku). apply Hmono. exists thu. by rewrite Hku.
    + intros Hn. destruct (H4 Hn) as (ws & Hws & Hl & Hall). exists ws. split; [done|]. split; [done|].
      intros u Hin. destruct (Hall _ Hin) as (thu & Hu & Hbu & Hku). apply Hmono. exists thu. by rewrite Hku.
  - intros t1 t2 th1 th2 p H1 H2. simpl in H1, H2.
    apply lookup_delete_Some in H1 as [_ H1]. apply lookup_delete_Some in H2 as [_ H2].
    by apply (k_parents _ Hk).
  - apply (k_active_size _ Hk).
  - apply (k_active_nodup _ Hk).
  - intros u Hin. destruct (k_active _ Hk _ Hin) as (thu & Hu & Hku). apply Hmono. by exists thu.
  - done.
  - apply (k_extra _ Hk).
  - apply (k_id _ Hk).
  - apply (k_sids _ Hk).
Qed.

(** The list of active threads can be permuted and lose members. *)
Lemma kinv_active d aq :
  kinv d → Queue.size_ok aq → NoDup (Queue.contents aq) →
  (∀ u, u ∈ Queue.contents aq → u ∈ Queue.contents (activeThreads d)) →
  kinv (set_activeThreads aq d).
Proof.
  intros Hk Hsz Hnd Hin. destruct Hk. split; try done.
  - intros t th Ht. eapply thread_ok_mono; [by apply k_threads0|done..| |done]. eauto.
  - intros s x Hx. destruct (k_sems0 s x Hx). by split.
  - intros u Hu. by apply k_active0, Hin.
Qed.

(** A child gets the parent that has just gone to sleep for it. *)
Lemma kinv_setParent d t th p :
  kinv d → threads d !! t = Some th → joined d p →
  (∀ u thu, threads d !! u = Some thu → kind_at thu ≠ KFinished → parent thu ≠ Some p) →
  kinv (put_thread t (setParent (Some p) th) d).
Proof.
  intros Hk Hth Hj Hno. set (d' := put_thread _ _ _).
  assert (Hmono : ∀ u (Q : Thread L → Prop), has d u Q → (∀ x y, Q x → Q (setParent y x)) → has d' u Q).
  { intros u Q (thu & Hu & HQ) HQ'. unfold has. simpl. destruct (decide (u = t)) as [->|Hne].
    - eexists. rewrite lookup_insert_eq. split; [done|]. rewrite Hth in Hu. injection Hu as <-. auto.
    - exists thu. by rewrite lookup_insert_ne. }
  assert (Hjm : ∀ q, joined d q → joined d' q) by (intros q Hq; by apply Hmono).
  split.
  - simpl. destruct (decide (currentThread d = t)) as [->|Hne]; [by rewrite lookup_insert_eq|].
    rewrite lookup_insert_ne by done. apply (k_cur _ Hk).
  - intros u thu Hu. simpl in Hu. rewrite lookup_insert_Some in Hu. destruct Hu as [[<- <-]|[Hneq Hu]].
    + destruct (k_threads _ Hk _ _ Hth). split; try done. intros q [= <-] _. by apply Hjm.
    + eapply thread_ok_mono; [by apply (k_threads _ Hk)|done..| |]; eauto.
  - apply (k_nodup _ Hk).
  - intros u Hin. apply Hmono; [by apply (k_ready _ Hk)|done].
  - intros s x Hx. destruct (k_sems _ Hk _ _ Hx) as [H1 H2 H3 H4]. split; try done.
    + intros u Hin. apply Hmono; [by apply H3|done].
    + intros Hn. destruct (H4 Hn) as (ws & Hws & Hl & Hall). exists ws. split; [done|]. split; [done|].
      intros u Hin. apply Hmono; [by apply Hall|done].
  - intros t1 t2 th1 th2 q H1 H2 K1 K2 P1 P2. simpl in H1, H2.
    rewrite lookup_insert_Some in H1, H2.
    destruct H1 as [[<- <-]|[? H1]], H2 as [[<- <-]|[? H2]]; try done.
    + simpl in P1. exfalso. eapply Hno; [exact H2|done|congruence].
    + simpl in P2. exfalso. eapply Hno; [exact H1|done|congruence].
    + by eapply (k_parents _ Hk).
  - apply (k_active_size _ Hk).
  - apply (k_active_nodup _ Hk).
  - intros u Hin. apply Hmono; [by apply (k_active _ Hk)|done].
  - intros u Hin. apply Hmono; [by apply (k_carcass _ Hk)|done].
  - apply (k_extra _ Hk).
  - apply (k_id _ Hk).
  - apply (k_sids _ Hk).
Qed.

End invariant.
End ThreadsSpec.
