(* ===== verification/KernelSpec.v ===== *)
(** KernelSpec: every step of the kernel of Threads.v keeps the invariant of
    ThreadsSpec.v, whatever the threads do and whenever interrupts come. *)

From S2P Require Import Prelude Lists Machine AddrSpace Interrupt Threads ThreadsSpec.

Module KernelSpec.
Import Machine Interrupt Threads ThreadsSpec.

Section regs.
Context {L E : Type} `{!HasMachine E} `{!UserMachine E}.
Implicit Types d : kst L E.
Implicit Types th : Thread L.

Lemma wf_regs_ok m : wf m → regs_ok (registers m).
Proof. intros []. split; [|split]; assumption. Qed.

Lemma regs_ok_wf m r : wf m → regs_ok r → wf (set_registers m r).
Proof. intros [] (? & ? & ?). split; assumption. Qed.

Lemma SaveUserState_spec th d :
  wf (machine (extra d)) →
  SaveUserState th d = Done (set_userRegisters (registers (machine (extra d))) th).
Proof.
  intros Hwf. unfold SaveUserState. set (m := machine (extra d)).
  pose proof (wf_regs_length _ Hwf) as Hlen. fold m in Hlen.
  match goal with |- context [for_up ?n 0 ?b ?s] =>
    destruct (for_up_inv (λ i r, r = take (Z.to_nat i) (registers m)) b n 0 s) as (r & -> & ->) end.
  - done.
  - intros i r Hi ->. unfold ReadRegister. rewrite bind_ASSERT by (unfold NumTotalRegs in *; lia).
    destruct (aget_in_range (registers m) i) as (v & -> & Hv); [unfold NumTotalRegs in *; lia|].
    cbn [mbind res_bind]. eexists. split; [done|].
    replace (Z.to_nat (i + 1)) with (S (Z.to_nat i)) by lia. by rewrite (take_S_r _ _ _ Hv).
  - cbn [mbind res_bind]. rewrite take_ge; [done|]. lia.
Qed.

Lemma RestoreUserState_spec th d :
  Z.of_nat (length (registers (machine (extra d)))) = NumTotalRegs →
  Z.of_nat (length (userRegisters th)) = NumTotalRegs →
  RestoreUserState th d =
  Done (set_extra (put_machine (set_registers (machine (extra d)) (userRegisters th)) (extra d)) d).
Proof.
  intros Hm Hu. unfold RestoreUserState. set (m := machine (extra d)) in *.
  match goal with |- context [for_up ?n 0 ?b ?s] =>
    destruct (for_up_inv (λ i m', m' = set_registers m
      (take (Z.to_nat i) (userRegisters th) ++ drop (Z.to_nat i) (registers m))) b n 0 s) as (m' & -> & ->) end.
  - simpl. by destruct m.
  - intros i m' Hi ->. set (r := take _ _ ++ _).
    destruct (aget_in_range (userRegisters th) i) as (v & -> & Hv); [unfold NumTotalRegs in *; lia|].
    cbn [mbind res_bind]. unfold WriteRegister. rewrite bind_ASSERT by (unfold NumTotalRegs in *; lia).
    assert (Hr : length r = length (registers m)).
    { unfold r. rewrite length_app, length_take, length_drop. lia. }
    rewrite aset_in_range by (simpl; rewrite Hr; unfold NumTotalRegs in *; lia).
    cbn [mbind res_bind]. eexists. split; [done|]. simpl. unfold r.
    destruct (lookup_lt_is_Some_2 (registers m) (Z.to_nat i)) as [w Hw]; [unfold NumTotalRegs in *; lia|].
    replace (Z.to_nat (i + 1)) with (S (Z.to_nat i)) by lia.
    rewrite (take_S_r _ _ _ Hv), (drop_S _ _ _ Hw), insert_app_r_alt by (rewrite length_take; lia).
    rewrite length_take. replace (_ - _)%nat with 0%nat by lia. simpl. rewrite <- app_assoc. done.
  - cbn [mbind res_bind]. rewrite take_ge, drop_ge, app_nil_r by lia. done.
Qed.

Lemma InitRegisters_spec sp m :
  wf m → ∃ r, AddrSpace.InitRegisters sp m = Done (set_registers m r) ∧ regs_ok r.
Proof.
  intros Hwf. unfold AddrSpace.InitRegisters.
  pose proof (wf_regs_length _ Hwf) as Hlen.
  match goal with |- context [for_up ?n 0 ?b ?s] =>
    destruct (for_up_inv (λ i m', m' = set_registers m
      (replicate (Z.to_nat i) 0 ++ drop (Z.to_nat i) (registers m))) b n 0 s) as (m' & -> & ->) end.
  - simpl. by destruct m.
  - intros i m' Hi ->. set (r := replicate _ _ ++ _). unfold WriteRegister.
    rewrite bind_ASSERT by (unfold NumTotalRegs in *; lia).
    assert (Hr : length r = length (registers m)).
    { unfold r. rewrite length_app, length_replicate, length_drop. unfold NumTotalRegs in *. lia. }
    rewrite aset_in_range by (simpl; rewrite Hr; unfold NumTotalRegs in *; lia).
    cbn [mbind res_bind]. eexists. split; [done|]. simpl. unfold r.
    destruct (lookup_lt_is_Some_2 (registers m) (Z.to_nat i)) as [w Hw]; [unfold NumTotalRegs in *; lia|].
    replace (Z.to_nat (i + 1)) with (Z.to_nat i + 1)%nat by lia.
    rewrite replicate_add, insert_app_r_alt by (rewrite length_replicate; lia).
    rewrite length_replicate, Nat.sub_diag, (drop_S _ _ _ Hw). simpl.
    rewrite Nat.add_1_r, <- app_assoc. done.
  - rewrite drop_ge, app_nil_r by lia. cbn [mbind res_bind]. unfold WriteRegister.
    eexists. split; [reflexivity|].
    split; [done|]. split; [|by vm_compute].
    simpl. repeat match goal with |- Forall _ _ => constructor end;
      (apply s32_range || unfold is_s32, INT_MIN, INT_MAX; lia).
Qed.

End regs.

(** ** What the handlers may do to the threads *)
Section frame.
Context {L E : Type}.
Implicit Types d : kst L E.

(** They may wake up threads, by [V]. *)
Definition woke (th th' : Thread L) : Prop :=
  th' = th ∨ status th = BLOCKED ∧ th' = setStatus READY th.

Record undisturbed d d' : Prop := {
  u_current : currentThread d' = currentThread d;
  u_carcass : threadToBeDestroyed d' = threadToBeDestroyed d;
  u_active : activeThreads d' = activeThreads d;
  u_sems : dom (sems d') = dom (sems d);
  u_ready : ready d `prefix_of` ready d';
  u_threads : ∀ t th, threads d !! t = Some th → ∃ th', threads d' !! t = Some th' ∧ woke th th'
}.

Lemma undisturbed_refl d : undisturbed d d.
Proof. split; try done. intros t th Ht. exists th. split; [done|by left]. Qed.

Lemma undisturbed_trans d1 d2 d3 : undisturbed d1 d2 → undisturbed d2 d3 → undisturbed d1 d3.
Proof.
  intros [] []. split; try congruence; [by etrans|]. intros t th Ht.
  destruct (u_threads0 _ _ Ht) as (th1 & H1 & Hw1). destruct (u_threads1 _ _ H1) as (th2 & H2 & Hw2).
  exists th2. split; [done|]. destruct Hw1 as [-> |[Hb ->]]; [done|].
  destruct Hw2 as [-> |[Hb' ->]]; [by right|done].
Qed.

(** ** The order of the ready list

    A step either leaves the current thread and adds threads at the end of the
    ready list, or it takes the thread at the front - unless nobody was ready. *)
Definition keeps d d' : Prop := currentThread d' = currentThread d ∧ ready d `prefix_of` ready d'.
Definition switched d d' : Prop :=
  match ready d with
  | [] => True
  | next :: rest => currentThread d' = next ∧ rest `prefix_of` ready d'
  end.
Definition fifo d d' : Prop := keeps d d' ∨ switched d d'.

Lemma fifo_same d d' : currentThread d' = currentThread d → ready d' = ready d → fifo d d'.
Proof. intros Hc Hr. left. split; [done|]. by rewrite Hr. Qed.

Lemma fifo_trans d1 d2 d3 : keeps d1 d2 → fifo d2 d3 → fifo d1 d3.
Proof.
  intros [Hc Hp] [[Hc' Hp']|Hs].
  - left. split; [congruence|]. by etrans.
  - right. unfold switched in *. destruct (ready d1) as [|n rest]; [done|].
    destruct Hp as [l Hl]. rewrite Hl in Hs. simpl in Hs. destruct Hs as [-> Hp]. split; [done|].
    etrans; [|exact Hp]. by apply prefix_app_r.
Qed.

Lemma undisturbed_keeps d d' : undisturbed d d' → keeps d d'.
Proof. intros []. by split. Qed.

(** The thread that runs goes on running. *)
Lemma undisturbed_running d d' t th :
  undisturbed d d' → threads d !! t = Some th → status th ≠ BLOCKED → threads d' !! t = Some th.
Proof.
  intros Hu Ht Hs. destruct (u_threads _ _ Hu _ _ Ht) as (th' & Ht' & [-> |[Hb _]]); done.
Qed.

Lemma undisturbed_frames d d' t th :
  undisturbed d d' → threads d !! t = Some th → ∃ th', threads d' !! t = Some th' ∧ frames th' = frames th.
Proof.
  intros Hu Ht. destruct (u_threads _ _ Hu _ _ Ht) as (th' & Ht' & [-> |[Hb ->]]); eauto.
Qed.

End frame.

(** The interrupt handlers of the devices: quiet for the interrupt hardware
    (Interrupt.v), and they keep the kernel's invariant. *)
Class KernelHandlers {H L E : Type} `{!HasMachine E} `{!UserMachine E} {SD : Sids} (user : L → bool)
    (call : H → sys H (kst L E) → res (sys H (kst L E))) : Type := {
  kh_delay : Z;
  kh_delay_nonneg : 0 ≤ kh_delay;
  kh_call : ∀ h k, kinv user (dev k) → level (intr k) = IntOff → inHandler (intr k) = true →
    0 ≤ totalTicks k → totalTicks k + kh_delay ≤ INT_MAX →
    ∃ k', call h k = Done k' ∧ quiet k k' ∧ kinv user (dev k') ∧ undisturbed (dev k) (dev k')
}.

(** Equality of two kernel states that write the same thread several times. *)
Ltac kst_eq :=
  unfold put_thread, set_threads, set_readyList, set_currentThread, set_threadToBeDestroyed,
    set_activeThreads, set_threadID, set_sems, set_extra, parked, wakened, forked; cbn;
  rewrite ?insert_insert_eq; reflexivity.

Section kernel.
Context {H L E : Type} `{!HasMachine E} `{!UserMachine E} {SD : Sids} (user : L → bool).
Abbreviation kernel := (sys H (kst L E)).
Context (call : H → kernel → res kernel) `{!KernelHandlers user call}.
Context (client : L → tid → E → res (E * list (cmd L))).
Context (new_thread : gset tid → tid).
Implicit Types k : kernel.
Implicit Types d : kst L E.
Implicit Types th : Thread L.

(** What a thread's own code relies on and promises: it keeps the rest of the
    system in order and makes calls that fit its stack. *)
Class Client : Prop := {
  c_fresh : ∀ X, new_thread X ∉ X;
  c_ok : ∀ l t e, e_inv e →
    ∃ e' cs, client l t e = Done (e', cs) ∧ e_inv e' ∧ calls_ok user sids (user l) cs
}.

Lemma delayed_load_ok d :
  kinv user d → ∃ d', delayed_load d = Done d' ∧ kinv user d' ∧ undisturbed d d'.
Proof.
  intros Hk. pose proof (e_wf _ (k_extra _ _ Hk)) as Hwf. unfold delayed_load, DelayedLoad.
  set (m := machine (extra d)) in *. pose proof (wf_loadreg _ Hwf) as Hlr.
  pose proof (wf_regs_length _ Hwf) as Hlen.
  rewrite aset_in_range by (unfold NumGPRegs, NumTotalRegs in *; lia). cbn [mbind res_bind].
  eexists. split; [done|]. split.
  - apply kinv_set_extra; [done|]. apply e_put; try done; [apply (k_extra _ _ Hk)|].
    destruct Hwf. split; try done.
    + simpl. by rewrite !length_insert.
    + simpl. apply Forall_insert; [|unfold_int; lia]. do 2 (apply Forall_insert; [|unfold_int; lia]).
      apply Forall_insert; [done|]. unfold reg. destruct (registers m !! _) eqn:Hl; [|simpl; unfold_int; lia].
      eapply list.Forall_lookup_1; eassumption.
    + unfold reg. simpl. unfold NumGPRegs, NumTotalRegs, LoadReg, LoadValueReg in *.
      rewrite !list_lookup_insert_ne by lia.
      rewrite list_lookup_insert_eq by (rewrite length_insert; lia). simpl. lia.
  - split; try done. intros t th Ht. exists th. split; [done|by left].
Qed.

(** Seen from the state [d0] in which the interrupt hardware takes over. *)
Program Definition handlers_from (d0 : kst L E) : Handlers call delayed_load := {|
  h_inv d := kinv user d ∧ undisturbed d0 d;
  h_delay := kh_delay;
|}.
Next Obligation. intros. apply kh_delay_nonneg. Qed.
Next Obligation.
  intros d0 d [Hk Hu]. destruct (delayed_load_ok d Hk) as (d' & ? & ? & ?).
  exists d'. split; [done|]. split; [done|]. by eapply undisturbed_trans.
Qed.
Next Obligation.
  intros d0 h s [Hk Hu] Hl Hi Hlo Hhi. destruct (kh_call h s) as (s' & ? & ? & ? & ?); try done.
  exists s'. split; [done|]. split; [done|]. split; [done|]. by eapply undisturbed_trans.
Qed.

(** ** The invariant of the kernel between two steps *)

Definition needs_off (fs : list (frame L)) : Prop :=
  match fs with (FRunTail | FSleepLoop | FPLoop _ _) :: _ => True | _ => False end.

Record kernel_ok k : Prop := {
  ko_inv : kinv user (dev k);
  ko_inHandler : inHandler (intr k) = false;
  ko_sorted : Queue.sorted (items k);
  ko_low : 0 ≤ totalTicks k;
  ko_stats : Statistics.accounted (stats k);
  ko_level : ∀ th, threads (dev k) !! currentThread (dev k) = Some th → needs_off (frames th) →
             level (intr k) = IntOff
}.

(** The counters have not run out of their 31 bits. *)
Record room k : Prop := {
  rm_clock : totalTicks k + Statistics.SystemTick + kh_delay ≤ INT_MAX;
  rm_items : ∀ w p, (w, p) ∈ items k → w + kh_delay ≤ INT_MAX;
  rm_sems : ∀ s x, sems (dev k) !! s = Some x → value x < INT_MAX;
  rm_active : small (activeThreads (dev k))
}.

(** In the middle of a step, with the current thread executing. *)
Record running k th : Prop := {
  rn_thread : threads (dev k) !! currentThread (dev k) = Some th;
  rn_status : status th = RUNNING;
  rn_plain : plain user (dom (sems (dev k))) (has_space th) (frames th)
}.

Record between k : Prop := {
  bt_inv : kinv user (dev k);
  bt_inHandler : inHandler (intr k) = false;
  bt_sorted : Queue.sorted (items k);
  bt_low : 0 ≤ totalTicks k;
  bt_stats : Statistics.accounted (stats k);
  bt_clock : totalTicks k + Statistics.SystemTick + kh_delay ≤ INT_MAX
}.

Lemma plain_no_off ss sp fs : plain user ss sp fs → ¬ needs_off fs.
Proof. destruct fs as [|[] ?]; simpl; tauto. Qed.

Lemma between_ok k th : between k → running k th → kernel_ok k.
Proof.
  intros [] []. split; try done. intros th0 H0 Hn.
  assert (th0 = th) as -> by congruence. by apply plain_no_off in rn_plain0.
Qed.

Lemma between_off k : between k → level (intr k) = IntOff → kernel_ok k.
Proof. intros [] Hl. by split. Qed.

Lemma ticked_now k :
  0 ≤ totalTicks k → totalTicks k + Statistics.SystemTick ≤ INT_MAX →
  totalTicks k ≤ totalTicks (InterruptSpec.ticked k) ≤ totalTicks k + Statistics.SystemTick.
Proof.
  unfold InterruptSpec.ticked, totalTicks, Statistics.SystemTick. intros Hlo Hhi. simpl.
  destruct (Interrupt.status (intr k)); simpl; unfold Statistics.SystemTick, Statistics.UserTick;
    rewrite s32_id by (unfold_int; lia); lia.
Qed.

Lemma on_thread_eq d t th f :
  threads d !! t = Some th → on_thread t f d = Done (put_thread t (f th) d).
Proof. intros Ht. unfold on_thread, get_thread. by rewrite Ht. Qed.

Lemma on_current_eq d th f :
  threads d !! currentThread d = Some th →
  on_current f d = Done (put_thread (currentThread d) (f th) d).
Proof. apply on_thread_eq. Qed.

Lemma ReadyToRun_eq d t th :
  threads d !! t = Some th →
  ReadyToRun t d = Done (set_readyList (Queue.Append t (readyList d)) (put_thread t (setStatus READY th) d)).
Proof. intros Ht. unfold ReadyToRun. by rewrite (on_thread_eq _ _ _ _ Ht). Qed.

Lemma on_dev_eq k d' f : f (dev k) = Done d' → on_dev f k = Done (set_dev k d').
Proof. intros Hf. unfold on_dev. by rewrite Hf. Qed.

Lemma enter_eq k th f :
  threads (dev k) !! currentThread (dev k) = Some th →
  enter f k = Done (set_dev k (put_thread (currentThread (dev k)) (push f th) (dev k))).
Proof. intros Ht. apply on_dev_eq. by rewrite (on_current_eq _ _ _ Ht). Qed.

(** Pushing frames on the stack of the running thread. *)
Lemma on_current_running k th (f : Thread L → Thread L) :
  running k th → on_current f (dev k) = Done (put_thread (currentThread (dev k)) (f th) (dev k)).
Proof. intros [Ht _ _]. unfold on_current, on_thread, get_thread. by rewrite Ht. Qed.

Lemma enter_running k th f :
  running k th → enter f k = Done (set_dev k (put_thread (currentThread (dev k)) (push f th) (dev k))).
Proof. intros Hr. unfold enter, on_dev. by rewrite (on_current_running k th). Qed.

Lemma kinv_goes_on d th th' :
  kinv user d → threads d !! currentThread d = Some th → status th = RUNNING → (∀ s, kind_at th ≠ KWait s) →
  status th' = RUNNING → parent th' = parent th → isJoined th' = isJoined th → stack th' = stack th →
  (has_space th → has_space th') →
  plain user (dom (sems d)) (has_space th') (frames th') →
  kinv user (put_thread (currentThread d) th' d).
Proof.
  intros Hk Hth Hs Hkd Hs' Hp Hj Hst Hsp Hpl.
  pose proof (kinv_running user d th th' (sems d)) as Hrun.
  destruct (plain_kind _ _ _ _ Hpl) as [Hkd' _]. change (kind_at th' = KPlain) in Hkd'.
  apply Hrun; try done; clear Hrun.
  - by apply plain_stack_ok.
  - destruct (frames th') as [|[] ?]; done.
  - destruct (frames th') as [|[] ?]; done.
  - by rewrite Hkd'.
  - intros s x Hx. exists x. split; [done|]. split; [done|].
    split; [apply (s_value _ _ _ (k_sems _ _ Hk _ _ Hx))|]. rewrite decide_False by (intros [? _]; by apply (Hkd s)). lia.
Qed.

Lemma kinv_same_sems d th th' :
  kinv user d → threads d !! currentThread d = Some th → status th = RUNNING → kind_at th = KPlain →
  status th' = RUNNING → parent th' = parent th → isJoined th' = isJoined th → stack th' = stack th →
  (has_space th → has_space th') →
  plain user (dom (sems d)) (has_space th') (frames th') →
  kinv user (put_thread (currentThread d) th' d).
Proof. intros Hk Hth Hs Hkd. eapply kinv_goes_on; try done. intros s. by rewrite Hkd. Qed.

Lemma running_kind k th : running k th → kind_at th = KPlain.
Proof. intros [_ _ Hp]. by apply plain_kind in Hp as [? _]. Qed.

Lemma running_push k th f fs :
  between k → running k th → plain user (dom (sems (dev k))) (has_space th) (f :: frames th) →
  fs = f :: frames th →
  let k' := set_dev k (put_thread (currentThread (dev k)) (set_frames fs th) (dev k)) in
  between k' ∧ running k' (set_frames fs th).
Proof.
  intros [Hi] Hr Hp -> k'. split; [split; try done|split; try done].
  - eapply kinv_same_sems; [done|apply Hr|apply Hr|by eapply running_kind|..]; try done. apply Hr.
  - simpl. by rewrite lookup_insert_eq.
  - apply Hr.
Qed.

(** ** Ticks *)

Lemma OneTick_enter_ok k th :
  between k → running k th →
  ∃ k', OneTick_enter call delayed_load k = Done k' ∧ kernel_ok k' ∧ running k' th ∧
        level (intr k') = IntOn ∧ undisturbed (dev k) (dev k').
Proof.
  intros Hb Hr. destruct Hb as [Hi Hh Hs Hlo Ha Hc].
  pose proof (ticked_now k Hlo) as Hnow. pose proof kh_delay_nonneg as Hdn.
  destruct (@InterruptSpec.OneTick_returns _ _ call delayed_load (handlers_from (dev k)) k)
    as (k1 & Hk1 & Hr1 & Hl1 & Hc1).
  { split; try done; [|simpl h_delay..].
    - simpl. split; [done|apply undisturbed_refl].
    - lia.
    - lia. }
  destruct Hr1 as [_ Hih [Hinv Hu] Hso Hlo1 Hhi1].
  assert (Hrun : running k1 th).
  { change (dev (ChangeLevel IntOff k1)) with (dev k1) in Hu. split.
    - rewrite (u_current _ _ Hu). eapply undisturbed_running; [exact Hu|apply Hr|].
      rewrite (rn_status _ _ Hr). done.
    - apply Hr.
    - rewrite (u_sems _ _ Hu). apply Hr. }
  exists k1. split; [done|]. split; [|by split; [|split]]. split; try done.
  - eapply InterruptSpec.same_clock_accounted; [exact Hc1|]. by apply InterruptSpec.ticked_accounted.
  - intros th0 H0 Hn. assert (th0 = th) as -> by (destruct Hrun; congruence).
    destruct Hrun as [_ _ Hp]. by apply plain_no_off in Hp.
Qed.

Lemma kernel_ok_put k th th' :
  kernel_ok k → running k th →
  status th' = RUNNING → parent th' = parent th → isJoined th' = isJoined th → stack th' = stack th →
  (has_space th → has_space th') →
  plain user (dom (sems (dev k))) (has_space th') (frames th') →
  let k' := set_dev k (put_thread (currentThread (dev k)) th' (dev k)) in
  kernel_ok k' ∧ running k' th'.
Proof.
  intros [] Hr Hs Hp Hj Hst Hsp Hpl k'.
  assert (Hrun : running k' th').
  { split; try done. simpl. by rewrite lookup_insert_eq. }
  split; [|done]. split; try done.
  - eapply kinv_same_sems; [done|apply Hr|apply Hr|by eapply running_kind|..]; done.
  - intros th0 H0 Hn. assert (th0 = th') as -> by (destruct Hrun; congruence).
    by apply plain_no_off in Hpl.
Qed.

Lemma OneTick_ok k th :
  between k → running k th → 
  ∃ k', OneTick call k = Done k' ∧ kernel_ok k' ∧ fifo (dev k) (dev k').
Proof.
  intros Hb Hr. unfold OneTick.
  destruct (OneTick_enter_ok k th Hb Hr) as (k1 & -> & Hok & Hr1 & Hl & Hu). cbn [mbind res_bind].
  assert (Hf : fifo (dev k) (dev k1)) by (left; by apply undisturbed_keeps).
  destruct (yieldOnReturn (intr k1)); [|by exists k1].
  set (k2 := Interrupt.setStatus _ _).
  assert (Hr2 : running k2 th) by (destruct Hr1; by split).
  assert (Hok2 : kernel_ok k2) by (destruct Hok; by split).
  rewrite (enter_running k2 th) by done. cbn [mbind res_bind].
  destruct (kernel_ok_put k2 th (push (FStatus (Interrupt.status (intr k))) th)) as [Hok3 Hr3]; try done; try apply Hr2.
  rewrite (enter_running _ (push (FStatus (Interrupt.status (intr k))) th)) by exact Hr3.
  eexists. split; [done|]. split; [eapply kernel_ok_put; try done; apply Hr3|exact Hf].
Qed.

Lemma SetLevel_off k :
  SetLevel call IntOff k = Done (level (intr k), set_level k IntOff).
Proof. unfold SetLevel, SetLevel_enter. done. Qed.

Lemma between_level k l : between k → between (set_level k l).
Proof. intros []. by split. Qed.

Lemma running_level k l th : running k th → running (set_level k l) th.
Proof. intros []. by split. Qed.

Lemma SetLevel_ok now k th :
  between k → running k th → 
  ∃ k', SetLevel_ call now k = Done k' ∧ kernel_ok k' ∧ fifo (dev k) (dev k').
Proof.
  intros Hb Hr. unfold SetLevel_, SetLevel, SetLevel_enter.
  rewrite bind_ASSERT.
  2:{ rewrite (bt_inHandler _ Hb). by rewrite (bool_decide_true (false = false)), orb_true_r. }
  cbn [mbind res_bind]. destruct (bool_decide (now = IntOn) && _).
  - destruct (OneTick_ok (ChangeLevel now k) th) as (k' & -> & Hok & Hf);
      [by apply between_level|by apply running_level|]. by exists k'.
  - eexists. split; [done|]. split; [eapply between_ok; [by apply between_level|by apply running_level]|].
    by apply fifo_same.
Qed.

(** ** Context switches *)

Lemma Run_eq d th next :
  e_inv (extra d) → threads d !! currentThread d = Some th →
  (stack th = None ∨ stack th = Some STACK_FENCEPOST) → is_Some (threads d !! next) →
  ∃ th1 thn, th1 = set_userRegisters (userRegisters th1) (push FRunTail th) ∧
    (has_space th → regs_ok (userRegisters th1)) ∧
    <[currentThread d := th1]> (threads d) !! next = Some thn ∧
    Run next d = Done (put_thread next (setStatus RUNNING thn)
                        (set_currentThread next (put_thread (currentThread d) th1 d))).
Proof.
  intros He Hth Hfe [thn Hn].
  assert (∃ th0, (match space th with Some _ => SaveUserState th d | None => Done th end) = Done th0 ∧
            th0 = set_userRegisters (userRegisters th0) th ∧
            (has_space th → regs_ok (userRegisters th0))) as (th0 & Hsave & Hth0 & Hregs).
  { destruct (space th) as [sp|] eqn:Hsp.
    - eexists. split; [apply SaveUserState_spec, e_wf, He|]. split; [done|]. intros _.
      apply wf_regs_ok, e_wf, He.
    - exists th. split; [done|]. split; [by destruct th|].
      unfold has_space. rewrite Hsp. by rewrite bool_decide_false by (intros [? [=]]). }
  exists (push FRunTail th0).
  assert (∃ thn', <[currentThread d := push FRunTail th0]> (threads d) !! next = Some thn') as [thn' Hn'].
  { destruct (decide (next = currentThread d)) as [->|Hne]; [rewrite lookup_insert_eq; eauto|].
    rewrite lookup_insert_ne by done. eauto. }
  exists thn'. split; [rewrite Hth0; done|]. split; [rewrite Hth0; exact Hregs|]. split; [done|].
  unfold Run, get_thread. rewrite Hth. cbn [mbind res_bind]. rewrite Hsave. cbn [mbind res_bind].
  assert (CheckOverflow th0 = Done ()) as ->.
  { unfold CheckOverflow. rewrite Hth0. simpl. destruct Hfe as [-> | ->]; [done|]. by rewrite Z.eqb_refl. }
  cbn [mbind res_bind]. unfold on_thread, get_thread. simpl threads at 1. rewrite Hn'. done.
Qed.

(** The scheduler picks the front of the ready list for a thread that has entered
    the loop of [Sleep]. *)
Lemma dispatch_ok d th fs next rest q :
  kinv user d → threads d !! currentThread d = Some th → frames th = FSleepLoop :: fs →
  ready d = next :: rest → Queue.contents q = rest →
  ∃ d', Run next (set_readyList q (put_thread (currentThread d) (set_frames fs th) d)) = Done d' ∧
        kinv user d' ∧ currentThread d' = next ∧ ready d' = rest ∧
        threadToBeDestroyed d' = threadToBeDestroyed d ∧ activeThreads d' = activeThreads d.
Proof.
  intros Hk Hth Hfs Hrdy Hq. set (d1 := set_readyList _ _).
  assert (Hn : is_Some (threads d1 !! next)).
  { destruct (k_ready _ _ Hk next) as (thn & Hn & _); [rewrite Hrdy; by left|].
    simpl. destruct (decide (next = currentThread d)) as [->|Hne]; [by rewrite lookup_insert_eq|].
    rewrite lookup_insert_ne by done. by eexists. }
  destruct (Run_eq d1 (set_frames fs th) next) as (th1 & thn & Hth1 & Hregs & Hn1 & ->); try done.
  { apply (k_extra _ _ Hk). }
  { simpl. by rewrite lookup_insert_eq. }
  { apply (t_fence _ _ _ _ (k_threads _ _ Hk _ _ Hth)). }
  eexists. split; [done|]. simpl in Hn1. rewrite insert_insert_eq in Hn1.
  pose proof (kinv_dispatch user d th th1 fs next rest q thn Hk Hth Hfs) as Hd.
  unfold put_thread, set_threads in *. simpl in *. rewrite insert_insert_eq.
  split; [apply Hd; done|]. by split_and!.
Qed.

Lemma kinv_readyList d q :
  kinv user d → Queue.contents q = ready d → kinv user (set_readyList q d).
Proof.
  intros Hk Hq. eapply kinv_like; [exact Hk|..]; try done.
  - intros t th Ht. exists th. split; [done|]. by repeat split.
  - intros t th Ht. exists th. split; [done|]. by repeat split.
  - apply (k_extra _ _ Hk).
  - apply (k_id _ _ Hk).
  - apply (k_cur _ _ Hk).
  - unfold ready. simpl. rewrite Hq. apply (k_nodup _ _ Hk).
  - unfold ready. simpl. rewrite Hq. apply (k_ready _ _ Hk).
  - intros t th th' Ht Ht' _. assert (th' = th) as -> by (simpl in Ht'; congruence).
    destruct (k_threads _ _ Hk _ _ Ht). unfold ready. simpl. rewrite Hq. done.
Qed.

Lemma Yield_ok k th :
  between k → running k th → 
  ∃ k', Yield call k = Done k' ∧ kernel_ok k' ∧ fifo (dev k) (dev k').
Proof.
  intros Hb Hr. unfold Yield. rewrite SetLevel_off. cbn [mbind res_bind].
  set (k1 := set_level k IntOff). set (old := level (intr k)).
  assert (Hb1 : between k1) by (by apply between_level).
  assert (Hr1 : running k1 th) by (by apply running_level).
  assert (Hl1 : level (intr k1) = IntOff) by done.
  change (dev k) with (dev k1). clearbody k1 old. unfold FindNextToRun.
  destruct (ready (dev k1)) as [|next rest] eqn:Hrdy.
  - destruct (Remove_nil _ Hrdy) as [Hn Hq]. destruct (Queue.Remove _) as [n q]. simpl in Hn, Hq. subst n.
    edestruct SetLevel_ok as (k' & -> & Hok & Hf).
    { destruct Hb1. split; try done. apply kinv_readyList; [exact bt_inv0|]. by rewrite Hq, Hrdy. }
    { destruct Hr1; by split. }
    exists k'. split; [done|]. split; [done|]. right. unfold switched. by rewrite Hrdy.
  - destruct (Remove_cons _ _ _ Hrdy) as (q & -> & Hq & _).
    set (cur := currentThread (dev k1)). pose proof (rn_thread _ _ Hr1) as Hth.
    erewrite on_dev_eq by (apply ReadyToRun_eq; exact Hth). cbn [mbind res_bind].
    erewrite enter_eq by (cbn; apply lookup_insert_eq). cbn [mbind res_bind].
    (* the thread enters the ready list as if it slept with nothing to wait for *)
    set (th2 := set_frames (FSleepLoop :: FSetLevel old :: frames th) (setStatus READY th)).
    set (d2 := parked (dev k1) th2 (Queue.Append cur (readyList (dev k1))) (sems (dev k1)) (threadToBeDestroyed (dev k1))).
    destruct (dispatch_ok d2 th2 (FSetLevel old :: frames th) next (rest ++ [cur]) (Queue.Append cur q)) as (d' & Hrun & Hk' & Hcd & Hrd & _).
    + apply (kinv_park user (dev k1) th); try done; try apply Hr1; try apply Hb1.
      * right. by split.
      * unfold th2. simpl. intros Hj.
        apply (t_joined _ _ _ _ (k_threads _ _ (bt_inv _ Hb1) _ _ Hth)) in Hj as [Hj _].
        rewrite (rn_status _ _ Hr1) in Hj. done.
      * left. by eapply running_kind.
      * by rewrite contents_Append, decide_True.
      * intros s x Hx. exists x. split; [done|]. split; [done|].
        rewrite decide_False by (intros [[=] _]). rewrite app_nil_r. done.
    + simpl. apply lookup_insert_eq.
    + done.
    + unfold ready, d2. simpl. rewrite contents_Append. fold (ready (dev k1)). by rewrite Hrdy.
    + by rewrite contents_Append, Hq.
    + eexists. split.
      { apply on_dev_eq. rewrite <- Hrun. f_equal. by kst_eq. }
      split; [apply between_off; [|done]; destruct Hb1; by split|].
      right. unfold switched. rewrite Hrdy. split; [done|]. simpl. rewrite Hrd. by apply prefix_app_r.
Qed.

(** ** Sleeping *)

Lemma Sleep_eq k th :
  level (intr k) = IntOff → threads (dev k) !! currentThread (dev k) = Some th →
  Sleep k = Done (set_dev k (put_thread (currentThread (dev k))
                    (set_frames (FSleepLoop :: frames th) (setStatus BLOCKED th)) (dev k))).
Proof.
  intros Hl Ht. unfold Sleep. rewrite bind_ASSERT by (by apply bool_decide_true).
  erewrite on_dev_eq by (apply on_current_eq; exact Ht). cbn [mbind res_bind].
  erewrite enter_eq by (cbn; apply lookup_insert_eq). unfold set_dev. by kst_eq.
Qed.

Lemma Sleep_loop_ok k th fs :
  kernel_ok k → room k →
  threads (dev k) !! currentThread (dev k) = Some th → frames th = FSleepLoop :: fs →
  Sleep_loop call k = Done None ∨ ∃ k', Sleep_loop call k = Done (Some k') ∧ kernel_ok k' ∧ fifo (dev k) (dev k').
Proof.
  intros [Hi Hh Hs Hlo Ha Hlev] [Hrc Hri _ _] Hth Hfs.
  assert (Hl : level (intr k) = IntOff) by (apply (Hlev th Hth); by rewrite Hfs).
  unfold Sleep_loop, FindNextToRun. destruct (ready (dev k)) as [|next rest] eqn:Hrdy.
  - destruct (Remove_nil _ Hrdy) as [Hn Hq]. destruct (Queue.Remove _) as [n q]. simpl in Hn, Hq. subst n.
    set (k1 := set_dev k _).
    assert (Hk1 : kinv user (dev k1)) by (apply kinv_readyList; [done|by rewrite Hq, Hrdy]).
    destruct (@InterruptSpec.Idle_returns _ _ call delayed_load (handlers_from (dev k1)) k1)
      as [->|(k2 & -> & [Hl2 Hh2 [Hinv Hu] Hs2 Hlo2 _] & _ & Ha2)]; [|done|done|by left|].
    { split; try done. simpl. split; [done|apply undisturbed_refl].
      simpl h_delay. change (totalTicks k1) with (totalTicks k). unfold Statistics.SystemTick in Hrc. lia. }
    right. exists k2. split; [done|]. split; [by split|].
    right. unfold switched. by rewrite Hrdy.
  - destruct (Remove_cons _ _ _ Hrdy) as (q & -> & Hq & _). right.
    destruct (dispatch_ok (dev k) th fs next rest q) as (d' & Hrun & Hk' & Hcd & Hrd & _); try done.
    unfold leave. erewrite on_dev_eq by (apply on_current_eq; exact Hth). cbn [mbind res_bind].
    erewrite on_dev_eq; [cbn [mbind res_bind]; eexists; split; [done|]|].
    2:{ rewrite <- Hrun. f_equal. rewrite Hfs. by kst_eq. }
    split; [by split|]. right. unfold switched. rewrite Hrdy. split; [done|]. simpl. by rewrite Hrd.
Qed.

(** ** Semaphores *)

Lemma P_loop_ok k th fs s old :
  between k → threads (dev k) !! currentThread (dev k) = Some th → status th = RUNNING →
  kind_at th = KPlain ∨ kind_at th = KWait s →
  plain user (dom (sems (dev k))) (has_space th) fs → s ∈ dom (sems (dev k)) →
  level (intr k) = IntOff →
  ∃ k', P_loop call s old (set_dev k (put_thread (currentThread (dev k)) (set_frames fs th) (dev k))) = Done k' ∧
        kernel_ok k' ∧ fifo (dev k) (dev k').
Proof.
  intros Hb Hth Hst Hkd Hpl Hs Hl. apply elem_of_dom in Hs as [x Hx].
  unfold P_loop, get_sem. simpl sems at 1. rewrite Hx. cbn [mbind res_bind].
  pose proof (k_sems _ _ (bt_inv _ Hb) _ _ Hx) as Hsx.
  destruct (value x =? 0) eqn:Hv; simplify_tests.
  - (* to the end of the queue *)
    erewrite enter_eq by (cbn; apply lookup_insert_eq). cbn [mbind res_bind].
    erewrite Sleep_eq; [|done|cbn; apply lookup_insert_eq]. eexists. split; [done|].
    split; [|by apply fifo_same].
    apply between_off; [|done]. destruct Hb. split; try done.
    set (th' := set_frames (FSleepLoop :: FPLoop s old :: fs) (setStatus BLOCKED th)).
    set (cur := currentThread (dev k)).
    assert (Hd : kinv user (parked (dev k) th' (readyList (dev k))
        (<[s := mkSem 0 (Queue.Append cur (queue x))]> (sems (dev k))) (threadToBeDestroyed (dev k)))).
    { apply (kinv_park user (dev k) th); try done.
      - left. by split.
      - unfold th'. simpl. intros Hj.
        apply (t_joined _ _ _ _ (k_threads _ _ bt_inv0 _ _ Hth)) in Hj as [Hj _]. congruence.
      - simpl. split; [by apply elem_of_dom_2 in Hx|done].
      - destruct Hkd as [?|Hkd]; [by left|right; by rewrite Hkd].
      - by rewrite app_nil_r.
      - apply dom_insert_lookup_L. by eexists.
      - intros s0 x0 Hx0. rewrite lookup_insert_Some in Hx0. destruct Hx0 as [[<- <-]|[Hne Hx0]].
        + exists x. split; [done|]. split; [by rewrite Hv|]. rewrite decide_True by done.
          cbn [queue]. rewrite contents_Append. by split.
        + exists x0. split; [done|]. split; [done|]. rewrite decide_False by (intros [_ [=]]; done).
          rewrite app_nil_r. split; [done|]. intros _ [=]. done. }
    match goal with |- kinv _ ?d => assert (d = parked (dev k) th' (readyList (dev k))
        (<[s := mkSem 0 (Queue.Append cur (queue x))]> (sems (dev k))) (threadToBeDestroyed (dev k))) as ->; [|done] end.
    rewrite Hv. unfold th', cur, put_sem. by kst_eq.
  - (* takes the value *)
    rewrite s32_id by (destruct (s_value _ _ _ Hsx); unfold is_s32, INT_MIN, INT_MAX in *; lia).
    set (th' := set_frames fs th).
    assert (Hdom : dom (<[s := mkSem (value x - 1) (queue x)]> (sems (dev k))) = dom (sems (dev k)))
      by (apply dom_insert_lookup_L; by eexists).
    edestruct (SetLevel_ok old) with (th := th') as (k' & -> & Hok & Hf);
      [|split; [cbn; apply lookup_insert_eq|done|cbn; by rewrite Hdom]|by exists k'].
    destruct (plain_kind _ _ _ _ Hpl) as [Hkp _]. change (kind_at th' = KPlain) in Hkp.
    destruct Hb. split; try done.
    apply (kinv_running user (dev k) th th'); try done.
    + by apply plain_stack_ok.
    + destruct fs as [|[] ?]; done.
    + destruct fs as [|[] ?]; done.
    + by rewrite Hkp.
    + intros s0 x0 Hx0. rewrite lookup_insert_Some in Hx0. destruct Hx0 as [[<- <-]|[Hne Hx0]].
      * exists x. split; [done|]. split; [done|]. simpl. destruct (s_value _ _ _ Hsx).
        split; [lia|]. destruct (decide _); lia.
      * exists x0. split; [done|]. split; [done|].
        split; [apply (s_value _ _ _ (k_sems _ _ bt_inv0 _ _ Hx0))|].
        rewrite decide_False; [lia|]. intros [Hk0 _]. destruct Hkd; congruence.
Qed.

Lemma P_ok k th s :
  between k → running k th → s ∈ dom (sems (dev k)) →
  ∃ k', P call s k = Done k' ∧ kernel_ok k' ∧ fifo (dev k) (dev k').
Proof.
  intros Hb Hr Hs. unfold P. rewrite SetLevel_off. cbn [mbind res_bind].
  set (k1 := set_level k IntOff).
  destruct (P_loop_ok k1 th (frames th) s (level (intr k))) as (k' & Hp & Hok);
    try done; try apply Hr; [by apply between_level|left; by eapply running_kind|].
  exists k'. split; [|done]. rewrite <- Hp. f_equal. unfold set_dev. destruct k1 as [i st d] eqn:Hk1. f_equal.
  injection Hk1 as <- <- <-. simpl. destruct Hr as [Ht _ _]. unfold put_thread, set_threads.
  replace (set_frames (frames th) th) with th by (by destruct th).
  rewrite insert_id by done. by destruct (dev k).
Qed.

(** [V] between its calls of SetLevel; as much as an interrupt handler calls. *)
Lemma V_body_ok d s x :
  kinv user d → sems d !! s = Some x → value x < INT_MAX →
  ∃ d', V_body s d = Done d' ∧ kinv user d' ∧ undisturbed d d'.
Proof.
  intros Hk Hx Hv. pose proof (k_sems _ _ Hk _ _ Hx) as [Hvx Hnd Hqs Hw].
  unfold V_body, get_sem. rewrite Hx. cbn [mbind res_bind].
  rewrite s32_id by (unfold is_s32, INT_MIN in *; unfold INT_MAX in *; lia).
  assert (Hdom : ∀ x', dom (<[s := x']> (sems d)) = dom (sems d))
    by (intros; apply dom_insert_lookup_L; by eexists).
  destruct (Queue.contents (queue x)) as [|t rest] eqn:Hq.
  - destruct (Remove_nil _ Hq) as [Hn Hq']. destruct (Queue.Remove _) as [n q]. simpl in Hn, Hq'. subst n.
    cbn [mbind res_bind]. eexists. split; [done|].
    assert (Heq : put_sem s (mkSem (value x + 1) q) (put_sem s (mkSem (value x) q) d) =
                  set_sems (<[s := mkSem (value x + 1) q]> (sems d)) d) by (unfold put_sem; by kst_eq).
    rewrite Heq. split.
    + eapply kinv_V_free; try done. simpl. lia.
    + split; try done; [apply Hdom|]. intros t th Ht. exists th. split; [done|by left].
  - destruct (Remove_cons _ _ _ Hq) as (q & -> & Hq' & _). cbn [mbind res_bind].
    destruct (Hqs t) as (th & Ht & Hb & Hkd); [by left|].
    erewrite ReadyToRun_eq by exact Ht. cbn [mbind res_bind]. eexists. split; [done|].
    assert (Heq : put_sem s (mkSem (value x + 1) q)
        (set_readyList (Queue.Append t (readyList (put_sem s (mkSem (value x) q) d)))
          (put_thread t (setStatus READY th) (put_sem s (mkSem (value x) q) d))) =
        wakened d t (setStatus READY th) (Queue.Append t (readyList d))
          (<[s := mkSem (value x + 1) q]> (sems d))) by (unfold put_sem; by kst_eq).
    rewrite Heq. apply NoDup_cons in Hnd as [Hnt Hnd]. split.
    + pose proof (k_threads _ _ Hk _ _ Ht) as Hto.
      apply (kinv_wake user d t th); try done.
      * destruct (isJoined th) eqn:Hj; [|done]. apply (t_joined _ _ _ _ Hto) in Hj as [_ Hj]. congruence.
      * by rewrite Hkd.
      * rewrite contents_Append. apply NoDup_snoc; [apply (k_nodup _ _ Hk)|]. intros Hin.
        destruct (k_ready _ _ Hk _ Hin) as (th' & Ht' & Hr). congruence.
      * intros u. rewrite contents_Append, elem_of_app, list_elem_of_singleton. unfold ready. tauto.
      * intros u thu Hu Hku Hp.
        destruct (t_parent _ _ _ _ (k_threads _ _ Hk _ _ Hu) _ Hp Hku) as (thp & Htp & _ & Hkp). congruence.
      * intros s0 x0 Hx0. rewrite lookup_insert_Some in Hx0. destruct Hx0 as [[<- <-]|[Hne Hx0]].
        -- exists x. simpl. rewrite Hq', Hq. split; [done|]. split; [lia|]. split; [done|].
           split; [|rewrite decide_True by done; lia].
           intros u. rewrite elem_of_cons. split; [intros Hu; split; [by right|by intros ->]|].
           intros [[->|?] ?]; done.
        -- exists x0. destruct (k_sems _ _ Hk _ _ Hx0) as [Hv0 Hnd0 Hqs0 _].
           split; [done|]. split; [done|]. split; [done|].
           split; [|destruct (decide _); lia].
           intros u. split; [|tauto]. intros Hu. split; [done|]. intros ->.
           destruct (Hqs0 _ Hu) as (thu & Htu & _ & Hku). congruence.
    + split; try done; [apply Hdom|unfold ready; simpl; rewrite contents_Append; by apply prefix_app_r|]. intros u thu Hu. simpl.
      destruct (decide (u = t)) as [->|Hne].
      * rewrite lookup_insert_eq. eexists. split; [done|]. rewrite Ht in Hu. injection Hu as <-. by right.
      * rewrite lookup_insert_ne by done. exists thu. split; [done|by left].
Qed.

Lemma undisturbed_running_k k d' th :
  running k th → undisturbed (dev k) d' → running (set_dev k d') th.
Proof.
  intros [Ht Hs Hp] Hu. split; simpl.
  - rewrite (u_current _ _ Hu). eapply undisturbed_running; [done..|]. by rewrite Hs.
  - done.
  - by rewrite (u_sems _ _ Hu).
Qed.

Lemma between_set_dev k d' : between k → kinv user d' → between (set_dev k d').
Proof. intros [] Hk. by split. Qed.

Lemma V_ok k th s x :
  between k → running k th → sems (dev k) !! s = Some x → value x < INT_MAX →
  ∃ k', V call s k = Done k' ∧ kernel_ok k' ∧ fifo (dev k) (dev k').
Proof.
  intros Hb Hr Hx Hv. unfold V. rewrite SetLevel_off. cbn [mbind res_bind].
  apply (between_level k IntOff) in Hb. apply (running_level k IntOff) in Hr.
  set (k1 := set_level k IntOff) in *. set (old := level (intr k)).
  destruct (V_body_ok (dev k1) s x) as (d' & Hd & Hk' & Hu); [apply Hb|done|done|].
  erewrite on_dev_eq by exact Hd. cbn [mbind res_bind].
  edestruct (SetLevel_ok old) as (k' & -> & Hok & Hf);
    [by apply between_set_dev|by apply undisturbed_running_k|].
  exists k'. split; [done|]. split; [done|]. eapply fifo_trans; [by apply undisturbed_keeps|exact Hf].
Qed.

(** ** New threads *)

Lemma new_tid_fresh `{!Client} k : threads (dev k) !! new_tid new_thread k = None.
Proof. apply not_elem_of_dom. apply c_fresh. Qed.

Lemma Fork_ok k th t tht aq n c :
  between k → running k th → threads (dev k) !! t = None →
  parent tht = None → isJoined tht = false →
  plain user (dom (sems (dev k))) (has_space tht) [FCall c; FCall CFinish] →
  Queue.size_ok aq → NoDup (Queue.contents aq) →
  (∀ u, u ∈ Queue.contents aq → u = t ∨ u ∈ Queue.contents (activeThreads (dev k))) →
  is_s32 n →
  ∃ k', Fork call t c (set_dev k (forked (dev k) t tht (readyList (dev k)) aq n)) = Done k' ∧
        kernel_ok k' ∧ fifo (dev k) (dev k').
Proof.
  intros Hb Hr Hnew Hpa Hij Hpl Hsz Hnd Hin Hn. unfold Fork.
  erewrite on_dev_eq by (apply on_thread_eq; cbn; apply lookup_insert_eq). cbn [mbind res_bind].
  rewrite SetLevel_off. cbn [mbind res_bind].
  erewrite on_dev_eq by (apply ReadyToRun_eq; cbn; apply lookup_insert_eq). cbn [mbind res_bind].
  set (th' := setStatus READY (StackAllocate c tht)).
  set (d' := forked (dev k) t th' (Queue.Append t (readyList (dev k))) aq n).
  match goal with |- context [SetLevel_ _ ?l (set_dev ?k1 ?d1)] =>
    assert (Heq : d1 = d') by (unfold d', th'; by kst_eq); rewrite Heq; clear Heq;
    change (set_dev k1 d') with (set_dev (set_level k IntOff) d') end.
  assert (Hk' : kinv user d').
  { apply (kinv_forked user (dev k)); try done; [apply Hb|]. by rewrite contents_Append. }
  edestruct SetLevel_ok with (th := th) as (k' & -> & Hok & Hf).
  { apply between_set_dev; [by apply between_level|exact Hk']. }
  { destruct Hr as [Ht Hs Hp]. split; [|done|done]. simpl. rewrite lookup_insert_ne; [done|].
    intros ->. congruence. }
  exists k'. split; [done|]. split; [done|]. eapply fifo_trans; [|exact Hf].
  split; [done|]. unfold ready. simpl. rewrite contents_Append. by apply prefix_app_r.
Qed.

Lemma Thread_Fork_ok `{!Client} k th l :
  between k → running k th → user l = false →
  ∃ k', Thread_Fork call new_thread l k = Done k' ∧ kernel_ok k' ∧ fifo (dev k) (dev k').
Proof.
  intros Hb Hr Hl. unfold Thread_Fork. set (t := new_tid new_thread k).
  destruct (Fork_ok k th t Thread_new (activeThreads (dev k)) (threadID (dev k)) (CGo l))
    as (k' & Hf & Hok); try done; try apply Hb.
  - apply new_tid_fresh.
  - simpl. rewrite Hl. done.
  - by right.
  - exists k'. split; [|done]. rewrite <- Hf. f_equal.
Qed.

(** ** Exec *)

Lemma WriteRegister_ok d (v : Z) :
  e_inv (extra d) → is_s32 v →
  ∃ m, WriteRegister 2 v (machine (extra d)) = Done m ∧ e_inv (put_machine m (extra d)).
Proof.
  intros He Hv. pose proof (e_wf _ He) as Hwf. pose proof (wf_regs_length _ Hwf) as Hlen.
  unfold WriteRegister. rewrite bind_ASSERT by done.
  rewrite aset_in_range by (unfold NumTotalRegs in *; lia). cbn [mbind res_bind].
  eexists. split; [done|]. apply e_put; try done. destruct Hwf. split; try done.
  - simpl. by rewrite length_insert.
  - by apply Forall_insert.
  - unfold reg. simpl. rewrite list_lookup_insert_ne by done. done.
Qed.

Lemma Exec_ok `{!Client} k th sp l :
  between k → running k th → small (activeThreads (dev k)) →
  ∃ k', Exec call new_thread sp l k = Done k' ∧ kernel_ok k' ∧ fifo (dev k) (dev k').
Proof.
  intros Hb Hr Hsm. pose proof (k_id _ _ (bt_inv _ Hb)) as Hid. unfold Exec, get_thread. rewrite (rn_thread _ _ Hr). cbn [mbind res_bind].
  pose proof (k_extra _ _ (bt_inv _ Hb)) as He.
  destruct (killNewChild th); cbn [negb].
  - edestruct WriteRegister_ok as (m & Hm & He'); [exact He| |rewrite Hm; cbn [mbind res_bind]].
    { apply s32_range. }
    erewrite on_current_eq by (cbn; apply Hr). cbn [mbind res_bind]. eexists. split; [done|].
    split; [|by apply fifo_same].
    destruct (kernel_ok_put (set_dev k (set_extra (put_machine m (extra (dev k))) (dev k))) th
                (set_killNewChild false th)) as [Hok _]; try done; try apply Hr.
    { eapply (between_ok _ th); [apply between_set_dev; [done|]|by destruct Hr].
      apply kinv_set_extra; [apply Hb|done]. }
    by destruct Hr.
  - set (t := new_tid new_thread k).
    edestruct WriteRegister_ok as (m & Hm & He'); [| |simpl; rewrite Hm; cbn [mbind res_bind]]; [exact He|done|].
    set (e' := put_machine m (extra (dev k))).
    assert (Hb' : between (set_dev k (set_extra e' (dev k)))).
    { apply between_set_dev; [done|]. apply kinv_set_extra; [apply Hb|done]. }
    destruct (Fork_ok (set_dev k (set_extra e' (dev k))) th t
        (setID (threadID (dev k)) (set_space (Some sp) Thread_new))
        (Queue.Append t (activeThreads (dev k))) (s32 (threadID (dev k) + 1)) (CProcess l))
      as (k' & Hf & Hok); try done.
    + by destruct Hr.
    + exact (new_tid_fresh k).
    + apply size_Append; [apply (k_active_size _ _ (bt_inv _ Hb))|done].
    + rewrite contents_Append. apply NoDup_snoc; [apply (k_active_nodup _ _ (bt_inv _ Hb))|].
      intros Hin. destruct (k_active _ _ (bt_inv _ Hb) _ Hin) as (th0 & Hu0 & _).
      pose proof (new_tid_fresh k). unfold t in Hu0. congruence.
    + intros u. rewrite contents_Append, elem_of_app, list_elem_of_singleton. simpl. tauto.
    + apply s32_range.
    + exists k'. split; [|done]. rewrite <- Hf. f_equal.
Qed.

(** ** Finish *)

(** The end of the running thread, off the list of active threads. *)
Definition finished d th fs (aq : Queue.queue tid) : kst L E :=
  parked (set_activeThreads aq d) (set_frames (FSleepLoop :: FFinished :: fs) (setStatus BLOCKED th))
    (readyList d) (sems d) (Some (currentThread d)).

Lemma kinv_finished d th fs aq :
  kinv user d → threads d !! currentThread d = Some th → status th = RUNNING → kind_at th = KPlain →
  Queue.size_ok aq → Queue.contents aq ≡ₚ filter (.≠ currentThread d) (Queue.contents (activeThreads d)) →
  kinv user (finished d th fs aq).
Proof.
  intros Hk Hth Hst Hkd Hsz Hq.
  assert (Hk1 : kinv user (set_activeThreads aq d)).
  { apply kinv_active; [done|done|..].
    - rewrite Hq. apply NoDup_filter, (k_active_nodup _ _ Hk).
    - intros u. rewrite Hq. by intros [_ ?]%list_elem_of_filter. }
  apply (kinv_park user (set_activeThreads aq d) th); try done.
  - left. by split.
  - intros Hj. apply (t_joined _ _ _ _ (k_threads _ _ Hk _ _ Hth)) in Hj as [Hj _]. congruence.
  - by left.
  - by rewrite app_nil_r.
  - intros s x Hx. exists x. split; [done|]. split; [done|].
    rewrite decide_False by (intros [_ [=]]). rewrite app_nil_r. split; [done|]. intros _ [=].
  - intros _. simpl. rewrite Hq. intros [? _]%list_elem_of_filter. done.
Qed.

Lemma kinv_finished_wake d th fs aq p thp :
  kinv user d → threads d !! currentThread d = Some th → status th = RUNNING → kind_at th = KPlain →
  Queue.size_ok aq → Queue.contents aq ≡ₚ filter (.≠ currentThread d) (Queue.contents (activeThreads d)) →
  parent th = Some p → threads d !! p = Some thp → status thp = BLOCKED → kind_at thp = KJoin →
  kinv user (wakened (finished d th fs aq) p (setStatus READY (set_isJoined false thp))
               (Queue.Prepend p (readyList d)) (sems d)).
Proof.
  clear new_thread client.
  intros Hk Hth Hst Hkd Hsz Hq Hp Htp Hbp Hkp.
  assert (Hpc : p ≠ currentThread d) by (intros ->; congruence).
  assert (Hnr : p ∉ ready d).
  { intros Hin. destruct (k_ready _ _ Hk _ Hin) as (th0 & H0 & Hs0). congruence. }
  pose proof (kinv_finished d th fs aq Hk Hth Hst Hkd Hsz Hq) as Hf.
  apply (kinv_wake user (finished d th fs aq) p thp); try done.
  - simpl. by rewrite lookup_insert_ne.
  - by rewrite Hkp.
  - rewrite contents_Prepend. constructor; [done|]. apply (k_nodup _ _ Hk).
  - intros u. rewrite contents_Prepend, elem_of_cons. done.
  - intros u thu Hu Hku Hpu. simpl in Hu. rewrite lookup_insert_Some in Hu.
    destruct Hu as [[<- <-]|[Hne Hu]]; [done|].
    apply Hne. eapply (k_parents _ _ Hk); [exact Hth|exact Hu|by rewrite Hkd|done..].
  - intros s x Hx. exists x. destruct (k_sems _ _ Hk _ _ Hx) as [Hv Hnd Hqs _].
    split; [done|]. split; [done|]. split; [done|]. split; [|destruct (decide _); lia].
    intros u. split; [|tauto]. intros Hu. split; [done|]. intros ->.
    destruct (Hqs _ Hu) as (thu & Htu & _ & Hku). congruence.
Qed.

Lemma Finish_ok k th fs :
  between k → threads (dev k) !! currentThread (dev k) = Some th → status th = RUNNING →
  kind_at th = KPlain → small (activeThreads (dev k)) →
  ∃ k' aq, Finish call (set_dev k (put_thread (currentThread (dev k)) (set_frames fs th) (dev k))) = Done k' ∧
    kernel_ok k' ∧
    Queue.contents aq ≡ₚ filter (.≠ currentThread (dev k)) (Queue.contents (activeThreads (dev k))) ∧
    match parent th with
    | None => dev k' = finished (dev k) th fs aq
    | Some p => ∃ thp, threads (dev k) !! p = Some thp ∧
        dev k' = wakened (finished (dev k) th fs aq) p (setStatus READY (set_isJoined false thp))
                   (Queue.Prepend p (readyList (dev k))) (sems (dev k))
    end.
Proof.
  intros Hb Hth Hst Hkd Hsm. pose proof (bt_inv _ Hb) as Hk. set (cur := currentThread (dev k)) in *.
  unfold Finish. rewrite SetLevel_off. cbn [mbind res_bind].
  unfold get_thread. cbn [dev set_dev set_level set_intr threads set_threadToBeDestroyed put_thread set_threads currentThread].
  rewrite lookup_insert_eq. cbn [mbind res_bind].
  destruct (Finish_loop_spec cur (activeThreads (dev k))) as (aq & Hloop & Hsz & Hq);
    [apply (k_active_size _ _ Hk)|done|apply (k_active_nodup _ _ Hk)|].
  destruct (parent th) as [p|] eqn:Hpa.
  - change (parent (set_frames fs th)) with (parent th). rewrite Hpa.
    destruct (t_parent _ _ _ _ (k_threads _ _ Hk _ _ Hth) p Hpa) as (thp & Htp & Hbp & Hkp); [by rewrite Hkd|].
    assert (Hpc : p ≠ cur) by (intros ->; congruence).
    unfold WakeUpFromJoin.
    erewrite on_dev_eq; [|erewrite on_thread_eq; [cbn [mbind res_bind]; done|]].
    2:{ cbn. rewrite lookup_insert_ne by done. exact Htp. }
    cbn [mbind res_bind]. match goal with |- context [Finish_loop ?f 0 ?c ?q] =>
      change (Finish_loop f 0 c q) with
        (Finish_loop (S (length (Queue.items (activeThreads (dev k))))) 0 cur (activeThreads (dev k))) end.
    rewrite Hloop. cbn [mbind res_bind].
    erewrite enter_eq by (cbn; rewrite lookup_insert_ne by done; apply lookup_insert_eq). cbn [mbind res_bind].
    erewrite Sleep_eq; [|done|cbn; apply lookup_insert_eq].
    eexists _, aq. split; [done|].
    match goal with |- kernel_ok (set_dev ?k0 ?d) ∧ _ => assert (Heq : d = wakened (finished (dev k) th fs aq) p
      (setStatus READY (set_isJoined false thp)) (Queue.Prepend p (readyList (dev k))) (sems (dev k))) end.
    { unfold finished. unfold put_thread, set_threads, parked, wakened. cbn. fold cur. f_equal.
      rewrite insert_insert_eq, (insert_insert_ne _ cur p) by done. by rewrite insert_insert_eq. }
    rewrite Heq. split; [|split; [done|by exists thp]]. apply between_off; [|done].
    pose proof (kinv_finished_wake (dev k) th fs aq p thp Hk Hth Hst Hkd Hsz Hq Hpa Htp Hbp Hkp) as Hfin.
    destruct Hb. by split.
  - change (parent (set_frames fs th)) with (parent th). rewrite Hpa. cbn [mbind res_bind].
    match goal with |- context [Finish_loop ?f 0 ?c ?q] =>
      change (Finish_loop f 0 c q) with
        (Finish_loop (S (length (Queue.items (activeThreads (dev k))))) 0 cur (activeThreads (dev k))) end.
    rewrite Hloop. cbn [mbind res_bind].
    erewrite enter_eq by (cbn; apply lookup_insert_eq). cbn [mbind res_bind].
    erewrite Sleep_eq; [|done|cbn; apply lookup_insert_eq].
    eexists _, aq. split; [done|].
    match goal with |- kernel_ok (set_dev ?k0 ?d) ∧ _ => assert (Heq : d = finished (dev k) th fs aq)
      by (unfold finished, cur; by kst_eq) end.
    rewrite Heq. split; [|done]. apply between_off; [|done].
    pose proof (kinv_finished (dev k) th fs aq Hk Hth Hst Hkd Hsz Hq) as Hfin.
    destruct Hb. by split.
Qed.

(** ** Join *)

Lemma getID_ok d n :
  kinv user d → small (activeThreads d) →
  ∃ r q, getID n d = Done (r, set_activeThreads q d) ∧
    kinv user (set_activeThreads q d) ∧ Queue.contents q = Queue.contents (activeThreads d) ∧
    match r with
    | Some t => t ∈ Queue.contents (activeThreads d) ∧ has d t (λ th, ID th = n)
    | None => ∀ t, t ∈ Queue.contents (activeThreads d) → has d t (λ th, ID th ≠ n)
    end.
Proof.
  intros Hk Hsm. destruct (getID_spec d n) as (r & q & Hg & Hsz & Hq & Hr); [apply (k_active_size _ _ Hk)|done| |].
  { intros t Ht. destruct (k_active _ _ Hk _ Ht) as (th & Hth & _). by exists th. }
  exists r, q. split; [done|]. split; [|done]. apply kinv_active; [done|done|..].
  - rewrite Hq. apply (k_active_nodup _ _ Hk).
  - intros u. by rewrite Hq.
Qed.

(** The running thread sleeps as the parent of [t]. *)
Definition joins d th fs : kst L E :=
  parked d (set_frames (FSleepLoop :: FJoined :: fs) (setStatus BLOCKED (set_isJoined true th)))
    (readyList d) (sems d) (threadToBeDestroyed d).

Lemma kinv_joins d th fs :
  kinv user d → threads d !! currentThread d = Some th → status th = RUNNING → kind_at th = KPlain →
  plain user (dom (sems d)) (has_space th) fs → kinv user (joins d th fs).
Proof.
  intros Hk Hth Hst Hkd Hpl. apply (kinv_park user d th); try done.
  - left. by split.
  - by left.
  - by rewrite app_nil_r.
  - intros s x Hx. exists x. split; [done|]. split; [done|].
    rewrite decide_False by (intros [_ [=]]). rewrite app_nil_r. split; [done|]. intros _ [=].
Qed.

Lemma kinv_joins_parent d th fs t tht :
  kinv user d → threads d !! currentThread d = Some th → status th = RUNNING → kind_at th = KPlain →
  plain user (dom (sems d)) (has_space th) fs → threads (joins d th fs) !! t = Some tht →
  kinv user (put_thread t (setParent (Some (currentThread d)) tht) (joins d th fs)).
Proof.
  intros Hk Hth Hst Hkd Hpl Ht.
  assert (Hno : ∀ u thu, threads d !! u = Some thu → kind_at thu ≠ KFinished → parent thu ≠ Some (currentThread d)).
  { intros u thu Hu Hku Hp. destruct (t_parent _ _ _ _ (k_threads _ _ Hk _ _ Hu) _ Hp Hku) as (thp & Htp & Hb & _).
    congruence. }
  apply kinv_setParent; [by apply kinv_joins|done|..].
  - eexists. split; [apply lookup_insert_eq|done].
  - intros u thu Hu Hku Hp. simpl in Hu. rewrite lookup_insert_Some in Hu.
    destruct Hu as [[<- <-]|[Hne Hu]]; [|by eapply Hno].
    simpl in Hp. eapply (Hno _ th); [done|by rewrite Hkd|done].
Qed.

Lemma Join_ok k th arg1 :
  between k → running k th → small (activeThreads (dev k)) →
  ∃ k', Join call arg1 k = Done k' ∧ kernel_ok k' ∧ fifo (dev k) (dev k').
Proof.
  intros Hb Hr Hsm. pose proof (bt_inv _ Hb) as Hk. unfold Join.
  destruct (arg1 <? 0); [exists k; split; [done|]; split; [by eapply between_ok|by apply fifo_same]|].
  destruct (getID_ok (dev k) arg1 Hk Hsm) as (r1 & q1 & -> & Hk1 & Hq1 & Hr1). cbn [mbind res_bind].
  destruct r1 as [t1|].
  2:{ eexists. split; [done|]. split; [|by apply fifo_same].
      eapply (between_ok _ th); [by apply between_set_dev|by destruct Hr]. }
  assert (get_thread (currentThread (set_activeThreads q1 (dev k))) (set_activeThreads q1 (dev k)) = Done th) as ->.
  { unfold get_thread. cbn. by rewrite (rn_thread _ _ Hr). }
  cbn [mbind res_bind].
  assert (isJoined th = false) as ->.
  { destruct (isJoined th) eqn:Hj; [|done]. pose proof (rn_status _ _ Hr) as Hs.
    apply (t_joined _ _ _ _ (k_threads _ _ Hk _ _ (rn_thread _ _ Hr))) in Hj as [Hj _]. congruence. }
  cbn [negb].
  destruct (getID_ok (set_activeThreads q1 (dev k)) arg1 Hk1) as (r2 & q2 & -> & Hk2 & Hq2 & _);
    [unfold small in *; simpl; by rewrite Hq1|]. cbn [mbind res_bind]. simpl in Hq2.
  change (set_activeThreads q2 (set_activeThreads q1 (dev k))) with (set_activeThreads q2 (dev k)) in *.
  destruct (getID_ok (set_activeThreads q2 (dev k)) arg1 Hk2) as (r3 & q3 & -> & Hk3 & Hq3 & Hr3);
    [unfold small in *; simpl; by rewrite Hq2, Hq1|]. cbn [mbind res_bind].
  change (set_activeThreads q3 (set_activeThreads q2 (dev k))) with (set_activeThreads q3 (dev k)) in *.
  simpl in Hr3. rewrite Hq2, Hq1 in Hr3.
  set (d3 := set_activeThreads q3 (dev k)) in *. set (cur := currentThread (dev k)).
  pose proof (rn_thread _ _ Hr) as Hth. change (threads d3 !! cur = Some th) in Hth.
  destruct r3 as [t|].
  2:{ exfalso. destruct Hr1 as [Hin (tha & Ha & Hia)]. destruct (Hr3 _ Hin) as (thb & Hb' & Hib).
      change (threads (dev k) !! t1 = Some thb) in Hb'. congruence. }
  destruct Hr3 as [_ (tht & Ht & _)]. change (threads d3 !! t = Some tht) in Ht.
  erewrite on_thread_eq by exact Ht. cbn [mbind res_bind].
  assert (Hcur : ∃ thc, threads (put_thread t (setParent (Some cur) tht) d3) !! cur = Some thc ∧
            thc = (if decide (t = cur) then setParent (Some cur) th else th)).
  { destruct (decide (t = cur)) as [Heq|Hne]; simpl.
    - rewrite Heq, lookup_insert_eq. rewrite Heq, Hth in Ht. injection Ht as <-. eauto.
    - rewrite lookup_insert_ne by done. eauto. }
  destruct Hcur as (thc & Hthc & Heqc).
  erewrite on_current_eq by exact Hthc. cbn [mbind res_bind]. rewrite SetLevel_off. cbn [mbind res_bind].
  erewrite enter_eq by (cbn; apply lookup_insert_eq). cbn [mbind res_bind].
  erewrite Sleep_eq; [|done|cbn; apply lookup_insert_eq]. eexists. split; [done|].
  split; [|by apply fifo_same]. apply between_off; [|done]. destruct Hb. split; try done.
  pose proof (rn_plain _ _ Hr) as Hpl. pose proof (rn_status _ _ Hr) as Hst. pose proof (running_kind _ _ Hr) as Hkd.
  assert (Hjt : ∃ tht', threads (joins d3 th (frames th)) !! t = Some tht' ∧
     tht' = if decide (t = cur) then set_frames (FSleepLoop :: FJoined :: frames th) (setStatus BLOCKED (set_isJoined true th))
            else tht).
  { destruct (decide (t = cur)) as [Heq|Hne]; simpl.
    - rewrite Heq, lookup_insert_eq. eauto.
    - rewrite lookup_insert_ne by done. eauto. }
  destruct Hjt as (tht' & Htht' & Heqt).
  pose proof (kinv_joins_parent d3 th (frames th) t tht' Hk3 Hth Hst Hkd Hpl Htht') as Hfin.
  match goal with |- kinv _ ?d => assert (d = put_thread t (setParent (Some (currentThread d3)) tht')
     (joins d3 th (frames th))) as ->; [|done] end.
  subst thc tht'. unfold joins, parked, put_thread, set_threads, push. cbn. fold cur.
  rewrite !insert_insert_eq. f_equal. destruct (decide (t = cur)) as [Heq|Hne].
  - rewrite Heq, !insert_insert_eq. done.
  - rewrite insert_insert_ne by done. done.
Qed.

(** ** The machine registers, and the thread that has finished *)

Lemma start_registers_ok sp d :
  e_inv (extra d) → ∃ e, start_registers sp d = Done (set_extra e d) ∧ e_inv e.
Proof.
  intros He. unfold start_registers.
  destruct (InitRegisters_spec sp (machine (extra d))) as (r & -> & Hr); [by apply e_wf|].
  cbn [mbind res_bind]. eexists. split; [done|]. apply e_put; try done.
  pose proof (regs_ok_wf _ r (e_wf _ He) Hr) as []. by split.
Qed.

Lemma destroy_carcass_ok k th :
  kinv user (dev k) → threads (dev k) !! currentThread (dev k) = Some th → status th = RUNNING →
  ∃ d', destroy_carcass (dev k) = Done d' ∧ kinv user d' ∧ threads d' !! currentThread d' = Some th ∧
        sems d' = sems (dev k) ∧ extra d' = extra (dev k) ∧
        currentThread d' = currentThread (dev k) ∧ ready d' = ready (dev k).
Proof.
  intros Hk Hth Hst. unfold destroy_carcass.
  destruct (threadToBeDestroyed (dev k)) as [t|] eqn:Ht; [|by exists (dev k)].
  destruct (k_carcass _ _ Hk _ Ht) as (tht & Htt & Hkt).
  assert (Hne : t ≠ currentThread (dev k)).
  { intros ->. pose proof (t_finished _ _ _ _ (k_threads _ _ Hk _ _ Htt) Hkt). congruence. }
  unfold Thread_delete, get_thread. rewrite bool_decide_false, bind_ASSERT, Htt by done. cbn [mbind res_bind].
  eexists. split; [done|]. split; [by eapply kinv_delete|]. simpl. by rewrite lookup_delete_ne.
Qed.

Lemma between_extra k e : between k → e_inv e → between (set_dev k (set_extra e (dev k))).
Proof. intros Hb He. apply between_set_dev; [done|]. apply kinv_set_extra; [apply Hb|done]. Qed.

Lemma processCreator_ok k th l :
  between k → running k th → has_space th →
  ∃ k', processCreator l k = Done k' ∧ kernel_ok k' ∧ fifo (dev k) (dev k').
Proof.
  intros Hb Hr Hsp. pose proof (rn_thread _ _ Hr) as Hth. unfold processCreator, current_space, get_thread.
  rewrite Hth. cbn [mbind res_bind].
  unfold has_space in Hsp. destruct (space th) as [sp|] eqn:Hs; [|by rewrite bool_decide_false in Hsp by (intros [? [=]])].
  cbn [mbind res_bind].
  destruct (start_registers_ok sp (dev k)) as (e & -> & He); [apply (k_extra _ _ (bt_inv _ Hb))|]. cbn [mbind res_bind].
  set (k1 := set_dev k (set_extra e (dev k))).
  destruct (destroy_carcass_ok k1 th) as (d' & Hd & Hk' & Hth' & Hsems & _ & Hcd & Hrd);
    [apply (between_extra k e Hb He)|done|apply Hr|].
  change (set_extra e (dev k)) with (dev k1). rewrite Hd. cbn [mbind res_bind].
  erewrite enter_eq by exact Hth'. eexists. split; [done|]. split; [|by apply fifo_same].
  set (k2 := set_dev k d').
  assert (Hb2 : between k2) by (by apply between_set_dev).
  assert (Hr2 : running k2 th).
  { split; [done|apply Hr|]. simpl. rewrite Hsems. apply Hr. }
  assert (Hok2 : kernel_ok k2) by (by eapply between_ok).
  destruct (kernel_ok_put k2 th (push (FCall (CGo l)) th)) as [Hok _]; try done; try apply Hr.
  simpl. split; [|apply Hr2]. intros _. unfold has_space. simpl. rewrite Hs. done.
Qed.

Lemma StartProcess_load_ok k th sp fs :
  between k → threads (dev k) !! currentThread (dev k) = Some th → status th = RUNNING → kind_at th = KPlain →
  plain user (dom (sems (dev k))) true fs →
  ∃ k', StartProcess_load sp (set_dev k (put_thread (currentThread (dev k)) (set_frames fs th) (dev k))) = Done k' ∧
        kernel_ok k' ∧ fifo (dev k) (dev k').
Proof.
  intros Hb Hth Hst Hkd Hpl. unfold StartProcess_load.
  erewrite on_current_eq by (cbn; apply lookup_insert_eq). cbn [mbind res_bind].
  set (th' := set_space (Some sp) (set_frames fs th)).
  assert (Hsp : has_space th') by done.
  assert (Hk1 : kinv user (put_thread (currentThread (dev k)) th' (dev k))).
  { eapply kinv_same_sems; [apply Hb|done|done|done|..]; try done. }
  match goal with |- context [start_registers sp ?d] =>
    assert (Heq : d = put_thread (currentThread (dev k)) th' (dev k)) by (unfold th'; by kst_eq); rewrite Heq; clear Heq end.
  edestruct (start_registers_ok sp) as (e & He1 & He); [|rewrite He1; cbn [mbind res_bind]].
  { apply (k_extra _ _ Hk1). }
  eexists. split; [done|]. split; [|by apply fifo_same]. eapply (between_ok _ th').
  - destruct Hb. split; try done. by apply kinv_set_extra.
  - split; [cbn; apply lookup_insert_eq|done|done].
Qed.

Lemma restore_space_ok k th :
  between k → running k th → has_space th →
  ∃ k', restore_space k = Done k' ∧ kernel_ok k' ∧ fifo (dev k) (dev k').
Proof.
  intros Hb Hr Hsp. pose proof (rn_thread _ _ Hr) as Hth. unfold restore_space, current_space, get_thread.
  rewrite Hth. cbn [mbind res_bind].
  unfold has_space in Hsp. destruct (space th) as [sp|] eqn:Hs; [|by rewrite bool_decide_false in Hsp by (intros [? [=]])].
  cbn [mbind res_bind]. eexists. split; [done|]. split; [|by apply fifo_same].
  pose proof (k_extra _ _ (bt_inv _ Hb)) as He.
  eapply (between_ok _ th); [apply between_extra; [done|]|by destruct Hr].
  apply e_put; try done. pose proof (e_wf _ He) as []. by split.
Qed.

(** [Run] after SWITCH, in a thread that is running again. *)
Lemma Run_tail_ok k th fs :
  kernel_ok k → threads (dev k) !! currentThread (dev k) = Some th → frames th = FRunTail :: fs →
  ∃ k', on_dev Run_tail (set_dev k (put_thread (currentThread (dev k)) (set_frames fs th) (dev k))) = Done k' ∧
        kernel_ok k' ∧ fifo (dev k) (dev k').
Proof.
  intros [Hi Hh Hs Hlo Ha Hlev] Hth Hfs.
  assert (Hl : level (intr k) = IntOff) by (apply (Hlev th Hth); by rewrite Hfs).
  pose proof (k_threads _ _ Hi _ _ Hth) as Ht.
  assert (Hst : status th = RUNNING).
  { destruct (decide (status th = RUNNING)) as [|Hn]; [done|].
    assert (head (frames th) = Some FSleepLoop) as Hx by (by apply (t_asleep _ _ _ _ Ht)). by rewrite Hfs in Hx. }
  set (th' := set_frames fs th).
  pose proof (t_stack _ _ _ _ Ht) as Hok. rewrite Hfs in Hok. unfold stack_ok in Hok. simpl in Hok.
  assert (Htop : below fs = fs ∧ head fs ≠ Some FSleepLoop ∧ head fs ≠ Some FRunTail).
  { destruct fs as [|[] ?]; done. }
  destruct Htop as (Hbel & Hns & Hnr).
  assert (Hkd : kind_at th' = kind_at th).
  { unfold kind_at, kind_of. rewrite Hfs. simpl. by rewrite Hbel. }
  assert (Hk1 : kinv user (put_thread (currentThread (dev k)) th' (dev k))).
  { apply (kinv_running user (dev k) th th' (sems (dev k))); try done.
    - unfold stack_ok, th'. simpl. by rewrite Hbel.
    - rewrite Hkd. intros Hf. apply (t_finished _ _ _ _ Ht) in Hf. congruence.
    - intros s x Hx. exists x. split; [done|]. split; [done|].
      split; [apply (s_value _ _ _ (k_sems _ _ Hi _ _ Hx))|].
      rewrite Hkd, decide_False by tauto. lia. }
  set (k1 := set_dev k (put_thread (currentThread (dev k)) th' (dev k))).
  destruct (destroy_carcass_ok k1 th') as (d' & Hd & Hk' & Hth' & _ & He' & Hcd & Hrd); [done|cbn; apply lookup_insert_eq|done|].
  assert (Hfin : ∀ e, kinv user (set_extra e d') →
            kernel_ok (set_dev k1 (set_extra e d')) ∧ fifo (dev k) (dev (set_dev k1 (set_extra e d')))).
  { intros e H2. split; [by split|]. by apply fifo_same. }
  unfold on_dev, Run_tail. rewrite Hd. cbn [mbind res_bind]. unfold get_thread. rewrite Hth'. cbn [mbind res_bind].
  destruct (space th') as [sp|] eqn:Hsp; cbn [mbind res_bind]; [|eexists; split; [done|]].
  2:{ destruct (Hfin (extra d')); by destruct d'. }
  pose proof (k_extra _ _ Hk') as He.
  assert (Hregs : regs_ok (userRegisters th')).
  { apply (t_regs _ _ _ _ Ht); [unfold has_space; change (space th) with (space th'); by rewrite Hsp|by rewrite Hfs]. }
  rewrite RestoreUserState_spec by (apply (wf_regs_length _ (e_wf _ He)) || apply Hregs). cbn [mbind res_bind].
  eexists. split; [done|]. apply Hfin.
  assert (He2 : e_inv (put_machine (set_registers (machine (extra d')) (userRegisters th')) (extra d'))).
  { apply e_put; try done. apply regs_ok_wf; [by apply e_wf|done]. }
  apply kinv_set_extra; [done|]. simpl. rewrite machine_put.
  apply e_put; [done|..]; rewrite ?machine_put; try done.
  pose proof (regs_ok_wf _ _ (e_wf _ He) Hregs) as []. by split.
Qed.

(** ** A step *)

Lemma run_client_ok `{!Client} k th l :
  between k → running k th → (user l → has_space th) →
  ∃ k', run_client client l k = Done k' ∧ kernel_ok k' ∧ fifo (dev k) (dev k').
Proof.
  intros Hb Hr Hl. unfold run_client.
  destruct (c_ok l (currentThread (dev k)) (extra (dev k)))
    as (e & cs & -> & He & Hcs); [apply (k_extra _ _ (bt_inv _ Hb))|]. cbn [mbind res_bind].
  erewrite on_current_eq by (cbn; apply Hr). cbn [mbind res_bind]. eexists. split; [done|].
  split; [|by apply fifo_same]. set (k1 := set_dev k (set_extra e (dev k))).
  assert (Hr1 : running k1 th) by (by destruct Hr).
  destruct (kernel_ok_put k1 th (set_frames ((FCall <$> cs) ++ frames th) th)) as [Hok _]; try done; try apply Hr.
  - eapply between_ok; [by apply between_extra|done].
  - simpl. apply plain_calls; [|apply Hr].
    eapply calls_mono; [|exact Hl|exact Hcs]. apply (k_sids _ _ (bt_inv _ Hb)).
Qed.

Lemma kernel_ok_between k : kernel_ok k → room k → between k.
Proof. intros [] []. by split. Qed.

Lemma leave_eq k th fs f :
  threads (dev k) !! currentThread (dev k) = Some th → frames th = f :: fs →
  leave k = Done (set_dev k (put_thread (currentThread (dev k)) (set_frames fs th) (dev k))).
Proof.
  intros Hth Hfs. unfold leave. erewrite on_dev_eq by (apply on_current_eq; exact Hth). cbv beta. by rewrite Hfs.
Qed.

Lemma not_asleep k th :
  kernel_ok k → threads (dev k) !! currentThread (dev k) = Some th →
  head (frames th) ≠ Some FSleepLoop → status th = RUNNING.
Proof.
  intros Hok Hth Hh. destruct (decide (status th = RUNNING)) as [|Hn]; [done|].
  destruct Hh. by apply (t_asleep _ _ _ _ (k_threads _ _ (ko_inv _ Hok) _ _ Hth)).
Qed.

(** The running thread takes the next frame off its stack. *)
Lemma popped k th fs :
  kernel_ok k → room k → threads (dev k) !! currentThread (dev k) = Some th → status th = RUNNING →
  (∀ s, kind_at th ≠ KWait s) → plain user (dom (sems (dev k))) (has_space th) fs →
  let k' := set_dev k (put_thread (currentThread (dev k)) (set_frames fs th) (dev k)) in
  between k' ∧ running k' (set_frames fs th).
Proof.
  intros Hok Hrm Hth Hst Hkd Hpl k'. pose proof (kernel_ok_between _ Hok Hrm) as Hb.
  split; [|split; [cbn; apply lookup_insert_eq|done|done]].
  apply between_set_dev; [done|]. eapply kinv_goes_on; try done. apply Hok.
Qed.

(** A thread that some other thread has joined is about to finish. *)
Definition finishes_child k : Prop :=
  ∃ th fs p, threads (dev k) !! currentThread (dev k) = Some th ∧
    frames th = FCall CFinish :: fs ∧ parent th = Some p.

Lemma exec_cmd_ok `{!Client} k th c fs :
  kernel_ok k → room k → threads (dev k) !! currentThread (dev k) = Some th → frames th = FCall c :: fs →
  ∃ k', exec_cmd call client new_thread c
          (set_dev k (put_thread (currentThread (dev k)) (set_frames fs th) (dev k))) = Done k' ∧ kernel_ok k' ∧
        (¬ finishes_child k → fifo (dev k) (dev k')).
Proof.
  intros Hok Hrm Hth Hfs.
  assert (Hst : status th = RUNNING) by (apply (not_asleep k th Hok Hth); by rewrite Hfs).
  assert (Hkd : kind_at th = KPlain) by (unfold kind_at, kind_of; by rewrite Hfs).
  assert (Hkw : ∀ s, kind_at th ≠ KWait s) by (intros s; by rewrite Hkd).
  pose proof (t_stack _ _ _ _ (k_threads _ _ (ko_inv _ Hok) _ _ Hth)) as Hpl.
  unfold stack_ok in Hpl. rewrite Hfs in Hpl.
  pose proof (kernel_ok_between _ Hok Hrm) as Hb. pose proof (rm_active _ Hrm) as Hsm.
  pose proof (popped k th fs Hok Hrm Hth Hst Hkw) as Hpop.
  set (k1 := set_dev k _) in *.
  assert (Hlift : ∀ r, (∃ k', r = Done k' ∧ kernel_ok k' ∧ fifo (dev k1) (dev k')) →
     ∃ k', r = Done k' ∧ kernel_ok k' ∧ (¬ finishes_child k → fifo (dev k) (dev k'))).
  { intros r (k' & Hr & Hk' & Hf). exists k'. done. }
  destruct c; cbn [exec_cmd]; simpl in Hpl.
  - apply Hlift. destruct Hpl as [Hu Hpl]. destruct (Hpop Hpl). by eapply run_client_ok.
  - apply Hlift. destruct (Hpop Hpl). by eapply Yield_ok.
  - apply Hlift. destruct Hpl as [Hs Hpl]. destruct (Hpop Hpl). by eapply P_ok.
  - apply Hlift. destruct Hpl as [Hs Hpl]. destruct (Hpop Hpl). apply elem_of_dom in Hs as [x Hx].
    eapply V_ok; [done..|]. by apply (rm_sems _ Hrm _ _ Hx).
  - apply Hlift. destruct Hpl as [Hu Hpl]. destruct (Hpop Hpl). by eapply Thread_Fork_ok.
  - destruct (Finish_ok k th fs) as (k' & aq & Hf & Hok' & _ & Hp); try done.
    exists k'. split; [done|]. split; [done|]. intros Hnc.
    destruct (parent th) as [p|] eqn:Hpa; [exfalso; apply Hnc; by exists th, fs, p|].
    rewrite Hp. by apply fifo_same.
  - apply Hlift. destruct (Hpop Hpl). by eapply Exec_ok.
  - apply Hlift. destruct (Hpop Hpl). by eapply Join_ok.
  - apply Hlift. destruct Hpl as (Hu & Hsp & Hpl). destruct (Hpop Hpl). by eapply processCreator_ok.
  - apply Hlift. exact (StartProcess_load_ok k th sp fs Hb Hth Hst Hkd Hpl).
  - apply Hlift. destruct Hpl as [Hsp Hpl]. destruct (Hpop Hpl). by eapply restore_space_ok.
Qed.

Lemma step_ok `{!Client} k :
  kernel_ok k → room k →
  step call client new_thread k = Done None ∨
  ∃ k', step call client new_thread k = Done (Some k') ∧ kernel_ok k' ∧
        (¬ finishes_child k → fifo (dev k) (dev k')).
Proof.
  intros Hok Hrm. destruct (k_cur _ _ (ko_inv _ Hok)) as [th Hth].
  pose proof (k_threads _ _ (ko_inv _ Hok) _ _ Hth) as Ht.
  pose proof (t_stack _ _ _ _ Ht) as Hst.
  unfold step, current_frames, get_thread. rewrite Hth. cbn [mbind res_bind].
  destruct (frames th) as [|f fs] eqn:Hfs; [done|].
  assert (f = FSleepLoop ∨ f ≠ FSleepLoop) as [->|Hf] by (destruct f; (by left) || (by right)); [|right].
  { destruct (Sleep_loop_ok k th fs) as [Hn|(k' & Hs & Hk' & Hfo)]; try done; [by left|right; by exists k']. }
  assert (Hrun : status th = RUNNING) by (apply (not_asleep k th Hok Hth); rewrite Hfs; by intros [= ->]).
  assert (Hbody : ∀ r : res kernel, (∃ k', r = Done k' ∧ kernel_ok k' ∧
              (¬ finishes_child k → fifo (dev k) (dev k'))) →
            ∃ k', Some <$> r = Done (Some k') ∧ kernel_ok k' ∧ (¬ finishes_child k → fifo (dev k) (dev k')))
    by (intros r (k' & -> & ?); eauto).
  assert (Hlift : ∀ (r : res kernel) d1, currentThread d1 = currentThread (dev k) → ready d1 = ready (dev k) →
            (∃ k', r = Done k' ∧ kernel_ok k' ∧ fifo d1 (dev k')) →
            ∃ k', r = Done k' ∧ kernel_ok k' ∧ (¬ finishes_child k → fifo (dev k) (dev k'))).
  { intros r d1 Hc Hr (k' & Hk & Hk' & Hfo). exists k'. split; [done|]. split; [done|]. intros _.
    eapply fifo_trans; [|exact Hfo]. split; [done|]. by rewrite Hr. }
  pose proof (popped k th fs Hok Hrm Hth Hrun) as Hpop.
  destruct f; try done; erewrite leave_eq by done; cbn [mbind res_bind]; apply Hbody.
  - by eapply exec_cmd_ok.
  - destruct Hpop; [unfold kind_at, kind_of; by rewrite Hfs|done|].
    eapply Hlift; [..|by eapply SetLevel_ok]; done.
  - destruct Hpop as [Hb Hr]; [unfold kind_at, kind_of; by rewrite Hfs|done|]. eexists. split; [done|].
    split; [|intros _; by apply fifo_same].
    eapply (between_ok _ (set_frames fs th)); [destruct Hb|destruct Hr]; by split.
  - eapply Hlift; [..|by apply Run_tail_ok]; done.
  - unfold stack_ok in Hst. simpl in Hst. destruct Hst as [Hs Hpl].
    eapply Hlift; [done|done|]. apply P_loop_ok; try done; [by apply kernel_ok_between|right; unfold kind_at, kind_of; by rewrite Hfs|].
    apply (ko_level _ Hok th Hth). by rewrite Hfs.
  - unfold stack_ok in Hst. simpl in Hst. eexists. split; [done|].
    split; [|intros _; by apply fifo_same].
    destruct Hpop; [unfold kind_at, kind_of; by rewrite Hfs|done|]. by eapply between_ok.
  - exfalso. assert (kind_at th = KFinished) as Hkf by (unfold kind_at, kind_of; by rewrite Hfs).
    apply (t_finished _ _ _ _ Ht) in Hkf. congruence.
Qed.

(** ** Whole runs *)

Lemma Initialize_ok randomYield TimerHandler r l ss e :
  0 ≤ r → user l = false → e_inv e → sids ⊆ dom ss →
  (∀ s x, ss !! s = Some x → 0 ≤ value x ≤ INT_MAX ∧ Queue.contents (queue x) = []) →
  ∃ k, Initialize randomYield TimerHandler r l ss e = Done k ∧ kernel_ok k.
Proof.
  clear KernelHandlers0 call client new_thread.
  intros Hr Hl He Hsi Hss. unfold Initialize. set (main := set_frames _ _). set (d := mkK _ _ _ _ _ _ _ _).
  set (k := mkSys _ _ d).
  assert (Hd : kinv user d).
  { assert (Hmain : threads d !! 0%nat = Some main) by apply lookup_insert_eq.
    assert (Honly : ∀ t th, threads d !! t = Some th → t = 0%nat ∧ th = main).
    { intros t th Ht. simpl in Ht. apply lookup_singleton_Some in Ht as [<- <-]. done. }
    split.
    - by exists main.
    - intros t th Ht. destruct (Honly _ _ Ht) as [-> ->]. split; try done.
      + unfold stack_ok. simpl. rewrite Hl. done.
      + by left.
      + split; [done|]. by intros [_ []].
    - apply NoDup_nil_2.
    - intros t Ht. by apply not_elem_of_nil in Ht.
    - intros s x Hx. destruct (Hss _ _ Hx) as [Hv Hq]. split; rewrite ?Hq; try done.
      + apply NoDup_nil_2.
      + intros t Ht. by apply not_elem_of_nil in Ht.
    - intros t1 t2 th1 th2 p H1 H2 _ _ P1 _. destruct (Honly _ _ H1) as [_ ->]. done.
    - done.
    - apply NoDup_nil_2.
    - intros t Ht. by apply not_elem_of_nil in Ht.
    - done.
    - done.
    - unfold is_s32, INT_MIN, INT_MAX. simpl. lia.
    - done. }
  assert (Hacc : Statistics.accounted Statistics.Statistics).
  { unfold Statistics.accounted. simpl. split_and!; int_lia. }
  assert (Hlev : ∀ k', dev k' = d → ∀ th, threads (dev k') !! currentThread (dev k') = Some th →
            needs_off (frames th) → level (intr k') = IntOff).
  { intros k' -> th Ht Hn. assert (th = main) as -> by (simpl in Ht; rewrite lookup_singleton_eq in Ht; congruence).
    done. }
  destruct randomYield.
  - unfold Timer.Timer. pose proof (Timer.TimeOfNextInterrupt_range true r Hr) as Ht.
    destruct (Schedule_quiet TimerHandler (Timer.TimeOfNextInterrupt true r) TimerInt k)
      as (k' & -> & Hq & Hdev & Hst & _ & _); [lia|done|change (totalTicks k) with 0; unfold INT_MAX, Statistics.TimerTicks in *; lia|].
    exists k'. split; [done|]. split.
    + by rewrite Hdev.
    + by rewrite (q_inHandler _ _ Hq).
    + apply (q_sorted _ _ Hq). constructor.
    + by rewrite (quiet_now _ _ Hq).
    + by rewrite Hst.
    + by apply Hlev.
  - exists k. split; [done|]. split; try done; [constructor].
Qed.

(** The states of a run, as long as the counters have room. *)
Inductive reachable k0 : kernel → Prop :=
| reach_init : reachable k0 k0
| reach_step k k' : reachable k0 k → room k → step call client new_thread k = Done (Some k') →
    reachable k0 k'.

Lemma reachable_ok `{!Client} k0 k : kernel_ok k0 → reachable k0 k → kernel_ok k.
Proof.
  intros Hk0. induction 1 as [|k k' _ IH Hrm Hs]; [done|].
  destruct (step_ok k IH Hrm) as [Hn|(k1 & H1 & Hok & _)]; [congruence|]. congruence.
Qed.

(** C1: however the threads fork, yield, wait, signal, exec, join and finish, and
    wherever interrupts come, no step of the kernel fails: no assertion of
    Thread, Scheduler, Semaphore or Interrupt is violated (the current thread is
    never deleted, Sleep is only called with interrupts off, no stack overflow is
    reported, a handler never enables interrupts), no deleted thread is
    used, and no thread runs past Finish. *)
Theorem kernel_never_fails `{!Client} randomYield TimerHandler r l ss e k0 k :
  0 ≤ r → user l = false → e_inv e → sids ⊆ dom ss →
  (∀ s x, ss !! s = Some x → 0 ≤ value x ≤ INT_MAX ∧ Queue.contents (queue x) = []) →
  Initialize randomYield TimerHandler r l ss e = Done k0 →
  reachable k0 k → room k →
  ∃ next, step call client new_thread k = Done next.
Proof.
  intros Hr Hl He Hsi Hss Hi Hreach Hrm.
  destruct (Initialize_ok randomYield TimerHandler r l ss e) as (k1 & H1 & Hok); try done.
  assert (k1 = k0) as -> by congruence.
  destruct (step_ok k (reachable_ok _ _ Hok Hreach) Hrm) as [Hn|(k' & Hs & _)]; eauto.
Qed.

(** C2: in every state of a run the current thread is the only one that is
    RUNNING (when it is not, it is in the loop of Sleep);
    the ready list holds each READY thread once and no other; the queue of a
    semaphore holds each thread that is blocked in P on it once and no other;
    no semaphore is negative. *)
Theorem scheduling_invariant `{!Client} randomYield TimerHandler r l ss e k0 k :
  0 ≤ r → user l = false → e_inv e → sids ⊆ dom ss →
  (∀ s x, ss !! s = Some x → 0 ≤ value x ≤ INT_MAX ∧ Queue.contents (queue x) = []) →
  Initialize randomYield TimerHandler r l ss e = Done k0 → reachable k0 k →
  let d := dev k in
  (∀ t th, threads d !! t = Some th → status th = RUNNING → t = currentThread d) ∧
  (∃ th, threads d !! currentThread d = Some th ∧
         (status th = RUNNING ∨ head (frames th) = Some FSleepLoop)) ∧
  NoDup (ready d) ∧ (∀ t, t ∈ ready d ↔ has d t (λ th, status th = READY)) ∧
  (∀ s x, sems d !! s = Some x →
     0 ≤ value x ∧ NoDup (Queue.contents (queue x)) ∧
     ∀ t, t ∈ Queue.contents (queue x) ↔ has d t (λ th, status th = BLOCKED ∧ kind_at th = KWait s)).
Proof.
  intros Hr Hl He Hsi Hss Hi Hreach d.
  destruct (Initialize_ok randomYield TimerHandler r l ss e) as (k1 & H1 & Hok0); try done.
  assert (k1 = k0) as -> by congruence.
  pose proof (ko_inv _ (reachable_ok _ _ Hok0 Hreach)) as Hk. fold d in Hk.
  split; [intros t th Ht; apply (t_running _ _ _ _ (k_threads _ _ Hk _ _ Ht))|].
  split.
  { destruct (k_cur _ _ Hk) as [th Hth]. exists th. split; [done|].
    destruct (decide (status th = RUNNING)) as [|Hn]; [by left|right].
    by apply (t_asleep _ _ _ _ (k_threads _ _ Hk _ _ Hth)). }
  split; [apply (k_nodup _ _ Hk)|]. split.
  { intros t. split; [apply (k_ready _ _ Hk)|]. intros (th & Ht & Hs).
    by apply (t_ready _ _ _ _ (k_threads _ _ Hk _ _ Ht)). }
  intros s x Hx. destruct (k_sems _ _ Hk _ _ Hx) as [Hv Hnd Hq _].
  split; [lia|]. split; [done|]. intros t. split; [apply Hq|]. intros (th & Ht & Hb & Hkd).
  pose proof (t_blocked _ _ _ _ (k_threads _ _ Hk _ _ Ht) Hb) as Hbl. rewrite Hkd in Hbl.
  destruct Hbl as (x' & Hx' & Hin). assert (x' = x) as -> by congruence. done.
Qed.

(** C3: no wakeup is lost: when a thread in Sleep finds nobody to run and the
    machine idles, every semaphore that a thread is waiting for has the value 0. *)
Theorem no_lost_wakeup `{!Client} randomYield TimerHandler r l ss e k0 k th fs s x t :
  0 ≤ r → user l = false → e_inv e → sids ⊆ dom ss →
  (∀ s x, ss !! s = Some x → 0 ≤ value x ≤ INT_MAX ∧ Queue.contents (queue x) = []) →
  Initialize randomYield TimerHandler r l ss e = Done k0 → reachable k0 k →
  threads (dev k) !! currentThread (dev k) = Some th → frames th = FSleepLoop :: fs →
  FindNextToRun (dev k) = (None, (FindNextToRun (dev k)).2) →
  sems (dev k) !! s = Some x → t ∈ Queue.contents (queue x) → value x = 0.
Proof.
  intros Hr Hl He Hsi Hss Hi Hreach Hth Hfs Hnone Hx Hin.
  destruct (Initialize_ok randomYield TimerHandler r l ss e) as (k1 & H1 & Hok0); try done.
  assert (k1 = k0) as -> by congruence.
  pose proof (ko_inv _ (reachable_ok _ _ Hok0 Hreach)) as Hk.
  assert (Hempty : ready (dev k) = []).
  { destruct (ready (dev k)) as [|u rest] eqn:Hrd; [done|].
    destruct (Remove_cons _ _ _ Hrd) as (q & Hq & _). unfold FindNextToRun in Hnone. by rewrite Hq in Hnone. }
  destruct (k_sems _ _ Hk _ _ Hx) as [Hv _ _ Hw].
  destruct Hw as ([|w ws] & _ & Hlen & Hall); [intros He0; rewrite He0 in Hin; by apply not_elem_of_nil in Hin|simpl in Hlen; lia|].
  destruct (Hall w) as (thw & Htw & Hnb & _); [by left|]. exfalso.
  pose proof (k_threads _ _ Hk _ _ Htw) as Hok.
  destruct (status thw) eqn:Hs; [by apply (t_created _ _ _ _ Hok)| | |done].
  - pose proof (t_running _ _ _ _ Hok Hs) as ->. assert (thw = th) as -> by congruence.
    assert (head (frames th) = Some FSleepLoop) as Hh by (by rewrite Hfs).
    apply (t_asleep _ _ _ _ Hok) in Hh as [_ ?]. done.
  - apply (t_ready _ _ _ _ Hok) in Hs. rewrite Hempty in Hs. by apply not_elem_of_nil in Hs.
Qed.

End kernel.
End KernelSpec.
