(* ===== verification/KernelRuns.v ===== *)
(** KernelRuns: what the threads see of the scheduler of Threads.v - waiting is
    bounded, a joined parent runs as soon as its child finishes, a context switch
    keeps the registers of a user program - and a concrete kernel with a timer. *)

From S2P Require Import Prelude Lists Machine AddrSpace Interrupt Threads ThreadsSpec KernelSpec.

Module KernelRuns.
Import Machine Interrupt Threads ThreadsSpec KernelSpec.

Section runs.
Context {H L E : Type} `{!HasMachine E} `{!UserMachine E} {SD : Sids} (user : L → bool).
Abbreviation kernel := (sys H (kst L E)).
Context (call : H → kernel → res kernel) `{!KernelHandlers user call}.
Context (client : L → tid → E → res (E * list (cmd L))).
Context (new_thread : gset tid → tid) `{!Client user client new_thread}.
Implicit Types k : kernel.

Abbreviation step := (Threads.step call client new_thread).
Abbreviation kernel_ok := (KernelSpec.kernel_ok user).
Abbreviation room := (KernelSpec.room user call).

(** The states that follow [k], while no thread finishes that another has joined. *)
Inductive run_of : kernel → list kernel → Prop :=
| run_nil k : run_of k []
| run_cons k k' ks : room k → ¬ finishes_child k → step k = Done (Some k') → run_of k' ks →
    run_of k (k' :: ks).

Definition running_in k : tid := currentThread (dev k).

(** How often the CPU changes hands. *)
Fixpoint changes (c : tid) (ks : list kernel) : nat :=
  match ks with
  | [] => 0
  | k :: ks => (if decide (running_in k = c) then 0 else 1) + changes (running_in k) ks
  end.

(** C8: waiting is bounded: a thread at position [i] of the ready list runs
    before the CPU has changed hands more than [i] times, whatever the other
    threads do, as long as no joined thread finishes (which puts its parent
    first in the list). *)
Theorem bounded_waiting k ks i t :
  kernel_ok k → run_of k ks → ready (dev k) !! i = Some t →
  (i < changes (running_in k) ks)%nat → t ∈ (running_in <$> ks).
Proof.
  intros Hok Hrun. revert i Hok. induction Hrun as [k|k k' ks Hrm Hnf Hs _ IH]; intros i Hok Hi Hc.
  { simpl in Hc. lia. }
  destruct (step_ok user call client new_thread k Hok Hrm) as [Hn|(k1 & H1 & Hok' & Hfo)]; [congruence|].
  assert (k1 = k') as -> by congruence. cbn [fmap list_fmap changes] in *.
  destruct (Hfo Hnf) as [[Hcur Hp]|Hsw].
  - right. apply (IH i Hok'); [by eapply prefix_lookup_Some|].
    rewrite decide_True in Hc by done. exact Hc.
  - unfold switched in Hsw. destruct (ready (dev k)) as [|n rest]; [done|]. destruct Hsw as [Hcur Hp].
    destruct i as [|i]; simpl in Hi.
    + injection Hi as ->. apply elem_of_cons. by left.
    + right. apply (IH i Hok'); [by eapply prefix_lookup_Some|]. destruct (decide _); lia.
Qed.

(** C36: when a thread finishes that another thread has joined, the parent is
    the next thread to run; the child is off the list of active threads and left
    for the parent to delete. *)
Theorem finish_resumes_parent k th fs p :
  kernel_ok k → room k →
  threads (dev k) !! currentThread (dev k) = Some th → frames th = FCall CFinish :: fs → parent th = Some p →
  ∃ k1 k2, step k = Done (Some k1) ∧ step k1 = Done (Some k2) ∧ kernel_ok k2 ∧
    currentThread (dev k2) = p ∧ ready (dev k2) = ready (dev k) ∧
    threadToBeDestroyed (dev k2) = Some (currentThread (dev k)) ∧
    currentThread (dev k) ∉ Queue.contents (activeThreads (dev k2)).
Proof.
  intros Hok Hrm Hth Hfs Hpa.
  assert (Hst : status th = RUNNING) by (apply (not_asleep user k th Hok Hth); by rewrite Hfs).
  assert (Hkd : kind_at th = KPlain) by (unfold kind_at, kind_of; by rewrite Hfs).
  destruct (Finish_ok user call k th fs) as (k1 & aq & Hf & Hok1 & Haq & Hd1); try done.
  { by eapply kernel_ok_between. }
  { apply (rm_active _ _ _ Hrm). }
  rewrite Hpa in Hd1. destruct Hd1 as (thp & Htp & Hd1).
  assert (Hpc : p ≠ currentThread (dev k)).
  { intros ->. pose proof (ko_inv _ _ Hok) as Hk.
    destruct (t_parent _ _ _ _ (k_threads _ _ Hk _ _ Hth) _ Hpa) as (th0 & Hth0 & Hb & _); [by rewrite Hkd|]. congruence. }
  set (th1 := set_frames (FSleepLoop :: FFinished :: fs) (setStatus BLOCKED th)).
  assert (Hth1 : threads (dev k1) !! currentThread (dev k1) = Some th1).
  { rewrite Hd1. simpl. rewrite lookup_insert_ne by done. apply lookup_insert_eq. }
  assert (Hrd1 : ready (dev k1) = p :: ready (dev k)) by (by rewrite Hd1).
  destruct (Remove_cons _ _ _ Hrd1) as (q & Hrem & Hq & _).
  destruct (dispatch_ok user (dev k1) th1 (FFinished :: fs) p (ready (dev k)) q)
    as (d2 & Hrun & Hk2 & Hc2 & Hr2 & Ht2 & Ha2); try done; [apply Hok1|].
  exists k1, (set_dev k1 d2). split.
  { unfold Threads.step, current_frames, get_thread. rewrite Hth. cbn [mbind res_bind]. rewrite Hfs.
    erewrite leave_eq by done. cbn [mbind res_bind exec_cmd]. rewrite Hf. done. }
  split.
  { unfold Threads.step, current_frames, get_thread. rewrite Hth1. cbn [mbind res_bind frames th1 set_frames].
    unfold Sleep_loop, FindNextToRun. rewrite Hrem.
    unfold leave. erewrite on_dev_eq by (apply on_current_eq; exact Hth1). cbn [mbind res_bind].
    erewrite on_dev_eq; [cbn [mbind res_bind]; reflexivity|]. rewrite <- Hrun. f_equal. }
  split.
  { destruct Hok1. split; try done. intros th2 _ _. apply (ko_level0 th1 Hth1). done. }
  split; [done|]. split; [done|]. simpl. rewrite Ht2, Ha2, Hd1. simpl. split; [done|].
  rewrite Haq. intros [? _]%list_elem_of_filter. done.
Qed.

(** A user program finds its registers again after a context switch: what
    [SaveUserState] saved is what [RestoreUserState] loads, whatever the other
    programs left in the machine, and memory is not touched. *)
Theorem user_registers_roundtrip (th th' : Thread L) (d d2 : kst L E) :
  wf (machine (extra d)) → wf (machine (extra d2)) → SaveUserState th d = Done th' →
  ∃ d3, RestoreUserState th' d2 = Done d3 ∧
    registers (machine (extra d3)) = registers (machine (extra d)) ∧
    mainMemory (machine (extra d3)) = mainMemory (machine (extra d2)) ∧
    threads d3 = threads d2 ∧ readyList d3 = readyList d2.
Proof.
  intros Hwf Hwf2 Hs. rewrite SaveUserState_spec in Hs by done. injection Hs as <-.
  eexists. rewrite RestoreUserState_spec; [|exact (wf_regs_length _ Hwf2)|exact (wf_regs_length _ Hwf)].
  split; [done|]. simpl. by rewrite machine_put.
Qed.

(** ** Checked runs: [reachable] by evaluation *)

Definition roomb k : bool :=
  (totalTicks k + Statistics.SystemTick + kh_delay <=? INT_MAX)
  && forallb (λ p, p.1 + kh_delay <=? INT_MAX) (items k)
  && forallb (λ p, value p.2 <? INT_MAX) (map_to_list (sems (dev k)))
  && (Z.of_nat (length (Queue.contents (activeThreads (dev k)))) <? INT_MAX).

Lemma roomb_room k : roomb k = true → room k.
Proof.
  unfold roomb. intros [[[H1 H2]%andb_true_iff H3]%andb_true_iff H4]%andb_true_iff.
  rewrite forallb_forall in H2, H3. simplify_tests. split; [done|..].
  - intros w p Hin. apply Z.leb_le. apply (H2 (w, p)). by apply list_elem_of_In.
  - intros s x Hx. apply Z.ltb_lt. apply (H3 (s, x)). apply list_elem_of_In. by apply elem_of_map_to_list.
  - done.
Qed.

Fixpoint checked_run (n : nat) k : option kernel :=
  match n with
  | O => Some k
  | S n => if roomb k then match step k with Done (Some k') => checked_run n k' | _ => None end else None
  end.

Lemma checked_run_reachable n k k1 k' :
  reachable user call client new_thread k k1 → checked_run n k1 = Some k' →
  reachable user call client new_thread k k'.
Proof.
  revert k1. induction n as [|n IH]; intros k1 Hr; simpl; [by intros [= <-]|].
  destruct (roomb k1) eqn:Hb; [|done]. destruct (step k1) as [[k2|]| | | |] eqn:Hs; try done.
  apply IH. eapply reach_step; [done| |done]. by apply roomb_room.
Qed.

Definition finishes_childb k : bool :=
  match threads (dev k) !! currentThread (dev k) with
  | Some th => match frames th, parent th with FCall CFinish :: _, Some _ => true | _, _ => false end
  | None => false
  end.

Lemma finishes_childb_spec k : finishes_childb k = false → ¬ finishes_child k.
Proof.
  unfold finishes_childb. intros Hf (th & fs & p & Hth & Hfs & Hp). by rewrite Hth, Hfs, Hp in Hf.
Qed.

Fixpoint checked_trace (n : nat) k : list kernel :=
  match n with
  | O => []
  | S n =>
      if roomb k && negb (finishes_childb k) then
        match step k with Done (Some k') => k' :: checked_trace n k' | _ => [] end
      else []
  end.

Lemma checked_trace_run n k : run_of k (checked_trace n k).
Proof.
  revert k. induction n as [|n IH]; intros k; simpl; [constructor|].
  destruct (roomb k && negb (finishes_childb k)) eqn:Hb; [|constructor]. simplify_tests.
  destruct (step k) as [[k2|]| | | |] eqn:Hs; try constructor; try done.
  - by apply roomb_room.
  - by apply finishes_childb_spec.
Qed.

(** The state after [n] steps. *)
Definition after (n : nat) k : kernel := default k (checked_run n k).

Lemma after_reachable n k : reachable user call client new_thread k (after n k).
Proof.
  unfold after. destruct (checked_run n k) as [k'|] eqn:Hr; simpl; [|apply reach_init].
  eapply checked_run_reachable; [apply reach_init|done].
Qed.

End runs.
End KernelRuns.

#[export] Program Instance Machine_HasMachine : HasMachine Machine.t := {
  machine m := m;
  put_machine m _ := m
}.
Next Obligation. done. Qed.

#[export] Program Instance Machine_UserMachine : UserMachine Machine.t := { e_inv := Machine.wf }.
Next Obligation. done. Qed.
Next Obligation. done. Qed.

(** * A concrete kernel: the machine, a timer, and threads that run lists of calls *)
Module KernelDemo.
Import Machine Interrupt Threads ThreadsSpec KernelSpec KernelRuns.

Inductive handlers : Type := HTimer.

Definition call (h : handlers) (k : sys handlers (kst nat Machine.t)) : res (sys handlers (kst nat Machine.t)) :=
  match h with HTimer => Timer.TimerExpired HTimer false 0 Timer.TimerInterruptHandler k end.

(** The programs from 10 on are those of user processes. *)
Definition user (l : nat) : bool := (10 <=? l)%nat.

#[export] Instance demo_sids : Sids := ({[0%nat; 1%nat]} : gset nat).

#[export] Program Instance demo_handlers : KernelHandlers user call := { kh_delay := 2 * Statistics.TimerTicks }.
Next Obligation. done. Qed.
Next Obligation.
  intros [] k Hk Hl Hi Hlo Hhi. cbn [call]. unfold Timer.TimerExpired, Timer.TimeOfNextInterrupt.
  destruct (Schedule_quiet HTimer Statistics.TimerTicks TimerInt k)
    as (k1 & -> & Hq & Hd & _); [done|done|unfold Statistics.TimerTicks in *; lia|].
  cbn [mbind res_bind]. unfold Timer.TimerInterruptHandler, YieldOnReturn.
  rewrite (q_inHandler _ _ Hq), Hi.
  destruct (bool_decide _); eexists; (split; [done|]).
  - split; [by destruct Hq|]. simpl. rewrite Hd. split; [done|apply undisturbed_refl].
  - split; [done|]. rewrite Hd. split; [done|apply undisturbed_refl].
Qed.

Definition sp : AddrSpace.t :=
  let seg := AddrSpace.mkSeg 0 0 0 in
  AddrSpace.mkAS 3 4 (AddrSpace.mkNoff AddrSpace.NOFFMAGIC seg seg seg) 1 4 0 true [].

Definition prog (l : nat) : list (cmd nat) :=
  match l with
  | 0%nat => [CFork 1; CFork 2; CP 0; CYield; CP 1]       (* main *)
  | 1%nat => [CYield; CV 0]
  | 2%nat => [CYield; CYield]
  | 3%nat => [CExec sp 10; CJoin 1]                       (* a parent and its child *)
  | 4%nat => [CExec sp 10; CExec sp 11; CJoin 1]          (* two threads join one *)
  | 10%nat => [CYield; CYield]
  | 11%nat => [CJoin 1]
  | _ => []
  end%nat.

Definition client (l : nat) (_ : tid) (m : Machine.t) : res (Machine.t * list (cmd nat)) := Done (m, prog l).

Definition new_thread (X : gset tid) : tid := fresh X.

(** Only the semaphores 0 and 1 are used. *)
Definition ss : gmap sid Semaphore := {[0%nat := Semaphore_new 0; 1%nat := Semaphore_new 0]}.

Definition m0 : Machine.t :=
  Machine.mk (replicate (Z.to_nat MemorySize) 0) (replicate (Z.to_nat NumTotalRegs) 0) None ∅ 0 0 false 0.

Lemma m0_wf : wf m0.
Proof.
  split.
  - unfold m0. cbn [mainMemory]. rewrite length_replicate. unfold MemorySize, NumPhysPages, PageSize, SectorSize. lia.
  - apply Forall_replicate. unfold is_byte. lia.
  - done.
  - apply Forall_replicate. unfold_int. lia.
  - by vm_compute.
Qed.

#[export] Instance demo_client : Client user client new_thread.
Proof.
  split; [intros X; apply is_fresh|]. intros l t m Hm. exists m, (prog l). split; [done|]. split; [done|].
  do 12 (destruct l as [|l]; [by vm_compute|]). done.
Qed.

(** The kernel booted with program [l] in the main thread and the timer on. *)
Definition boot (l : nat) : sys handlers (kst nat Machine.t) :=
  match Initialize true HTimer 7 l ss m0 with
  | Done k => k
  | _ => mkSys Interrupt Statistics.Statistics (mkK ∅ Queue.empty 0%nat None Queue.empty 1 ss m0)
  end.

Lemma boot_init l : Initialize true HTimer 7 l ss m0 = Done (boot l).
Proof. reflexivity. Qed.

Lemma ss_new s x : ss !! s = Some x → 0 ≤ value x ≤ INT_MAX ∧ Queue.contents (queue x) = [].
Proof.
  unfold ss. intros Hx. rewrite lookup_insert_Some in Hx. destruct Hx as [[<- <-]|[_ Hx]].
  - split; [by vm_compute|done].
  - apply lookup_singleton_Some in Hx as [<- <-]. split; [by vm_compute|done].
Qed.

Lemma ss_sids : sids ⊆ dom ss.
Proof. unfold sids, demo_sids, ss. set_solver. Qed.

Definition at_step (l n : nat) := after user call client new_thread n (boot l).

Lemma boot_ok l : user l = false → kernel_ok user (boot l).
Proof.
  intros Hl. destruct (Initialize_ok user true HTimer 7 l ss m0) as (k & Hk & Hok);
    [done|done|apply m0_wf|apply ss_sids|apply ss_new|]. rewrite boot_init in Hk. congruence.
Qed.

(** Step 17 of the run: thread 1 has woken main, thread 2 is ready. *)
Lemma kernel_never_fails_witness :
  ∃ next, step call client new_thread (at_step 0 17) = Done next.
Proof.
  eapply (kernel_never_fails user call client new_thread true HTimer 7 0%nat ss m0 (boot 0));
    [done|done|apply m0_wf|apply ss_sids|apply ss_new|apply boot_init|apply after_reachable|].
  apply roomb_room. vm_compute. reflexivity.
Defined.

Lemma scheduling_invariant_witness :
  NoDup (ready (dev (at_step 0 17))) ∧ ready (dev (at_step 0 17)) = [2%nat; 0%nat] ∧
  has (dev (at_step 0 17)) 0%nat (λ th, status th = READY).
Proof.
  destruct (scheduling_invariant user call client new_thread true HTimer 7 0%nat ss m0 (boot 0) (at_step 0 17))
    as (_ & _ & Hnd & Hr & _);
    [done|done|apply m0_wf|apply ss_sids|apply ss_new|apply boot_init|apply after_reachable|].
  assert (Heq : ready (dev (at_step 0 17)) = [2%nat; 0%nat]) by (vm_compute; reflexivity).
  split; [exact Hnd|]. split; [exact Heq|]. apply Hr. rewrite Heq. by right; left.
Defined.

(** At step 36 the machine idles, with main waiting for semaphore 1. *)
Lemma no_lost_wakeup_witness :
  ∃ x, sems (dev (at_step 0 36)) !! 1%nat = Some x ∧ Queue.contents (queue x) = [0%nat] ∧ value x = 0.
Proof.
  assert (∃ x, sems (dev (at_step 0 36)) !! 1%nat = Some x ∧ Queue.contents (queue x) = [0%nat])
    as (x & Hx & Hq) by (eexists; split; [vm_compute; reflexivity|reflexivity]).
  exists x. split; [exact Hx|]. split; [exact Hq|].
  assert (∃ th fs, threads (dev (at_step 0 36)) !! currentThread (dev (at_step 0 36)) = Some th ∧
            frames th = FSleepLoop :: fs)
    as (th & fs & Hth & Hfs) by (eexists _, _; split; [vm_compute; reflexivity|reflexivity]).
  eapply (no_lost_wakeup user call client new_thread true HTimer 7 0%nat ss m0 (boot 0) (at_step 0 36) th fs 1%nat x 0%nat);
    [done|done|apply m0_wf|apply ss_sids|apply ss_new|apply boot_init|apply after_reachable
    |exact Hth|exact Hfs| |exact Hx|rewrite Hq; by left].
  vm_compute. reflexivity.
Defined.

(** Thread 2 is second in the list at step 6 and runs within the next 6 steps. *)
Lemma bounded_waiting_witness :
  2%nat ∈ (running_in <$> checked_trace user call client new_thread 6 (at_step 0 6)).
Proof.
  eapply (bounded_waiting user call client new_thread (at_step 0 6)
            (checked_trace user call client new_thread 6 (at_step 0 6)) 1%nat 2%nat).
  - apply (reachable_ok user call client new_thread (boot 0)); [apply boot_ok; reflexivity|apply after_reachable].
  - apply checked_trace_run.
  - vm_compute. reflexivity.
  - apply Nat.ltb_lt. vm_compute. reflexivity.
Defined.

Lemma finish_resumes_parent_witness :
  ∃ k1 k2, step call client new_thread (at_step 3 12) = Done (Some k1) ∧
           step call client new_thread k1 = Done (Some k2) ∧ currentThread (dev k2) = 0%nat.
Proof.
  assert (∃ th fs, threads (dev (at_step 3 12)) !! currentThread (dev (at_step 3 12)) = Some th ∧
            frames th = FCall CFinish :: fs ∧ parent th = Some 0%nat)
    as (th & fs & Hth & Hfs & Hp) by (eexists _, _; split; [vm_compute; reflexivity|split; reflexivity]).
  destruct (finish_resumes_parent user call client new_thread (at_step 3 12) th fs 0%nat)
    as (k1 & k2 & H1 & H2 & _ & Hc & _).
  - apply (reachable_ok user call client new_thread (boot 3)); [apply boot_ok; reflexivity|apply after_reachable].
  - apply roomb_room. vm_compute. reflexivity.
  - exact Hth.
  - exact Hfs.
  - exact Hp.
  - exists k1, k2. split; [exact H1|]. split; [exact H2|exact Hc].
Defined.

Lemma user_registers_roundtrip_witness :
  ∃ th' d3, SaveUserState (Thread_new (L := nat)) (dev (boot 0)) = Done th' ∧
    RestoreUserState th' (dev (boot 3)) = Done d3 ∧
    registers (machine (extra d3)) = registers (machine (extra (dev (boot 0)))).
Proof.
  assert (∃ th', SaveUserState (Thread_new (L := nat)) (dev (boot 0)) = Done th') as (th' & Hs).
  { eexists. apply SaveUserState_spec. apply m0_wf. }
  destruct (user_registers_roundtrip Thread_new th' (dev (boot 0)) (dev (boot 3)))
    as (d3 & Hd & Hr & _); [apply m0_wf|apply m0_wf|exact Hs|]. exists th', d3.
  split; [exact Hs|]. split; [exact Hd|exact Hr].
Defined.

(** Two threads that join the same child: the second overwrites the child's
    parent, and the first is never woken up - at the end of the run, when nothing
    is left to do, main still sleeps in Join. *)
Lemma second_join_loses_first :
  let k := at_step 4 25 in
  (∃ th, threads (dev k) !! 0%nat = Some th ∧ status th = BLOCKED ∧ isJoined th = true) ∧
  threads (dev k) !! 1%nat = None ∧
  match step call client new_thread k with Done None => True | _ => False end.
Proof.
  cbv zeta. split; [eexists; split; [vm_compute; reflexivity|split; reflexivity]|].
  split; [vm_compute; reflexivity|vm_compute; exact I].
Qed.

End KernelDemo.
