(* ===== verification/Interleave.v ===== *)
(** Interleave: the kernel of Threads.v, seen from the programs that run on it.

    What a thread has still to do is the list of kernel calls and program points on its
    stack ([todo]); the queues, the levels, the time slices and the interrupts do not show.
    An [astep] takes the first item of some thread.  Every step of the kernel - scheduling,
    preemption, interrupts included - is an [astep] or is invisible, so what holds in all
    interleavings of the programs holds whenever they run on the kernel.  Programs that use
    processes (Exec, Join) are not considered here. *)
From S2P Require Import Prelude Lists Machine AddrSpace Interrupt Threads.

(** The part of the system that is the programs' own: the machine is not. *)
Class HasEnv (E G : Type) `{!HasMachine E} : Type := {
  env : E → G;
  env_put : ∀ m e, env (put_machine m e) = env e
}.

Module Interleave.
Import Machine Interrupt Threads.

Section abstraction.
Context {L E G : Type} `{!HasMachine E} `{!HasEnv E G}.
Implicit Types d : kst L E.
Implicit Types th : Thread L.

(** A call as the program sees it.  Yield is invisible, and a thread in the loop of P still
    has to acquire the semaphore. *)
Definition visible (f : frame L) : option (cmd L) :=
  match f with
  | FCall CYield => None
  | FCall c => Some c
  | FPLoop s _ => Some (CP s)
  | _ => None
  end.

Definition calls (cs : list (cmd L)) : list (cmd L) := omap (λ c, visible (FCall c)) cs.

(** [None]: the thread has called Finish. *)
Definition finished (f : frame L) : bool := match f with FFinished => true | _ => false end.

Definition todo th : option (list (cmd L)) :=
  if existsb finished (frames th) then None else Some (omap visible (frames th)).

Record view : Type := mkView {
  v_env : G;
  v_todo : gmap tid (list (cmd L));
  v_sems : gmap sid Z
}.

Definition look d : view := mkView (env (extra d)) (omap todo (threads d)) (value <$> sems d).

(** The thread that is to be deleted has finished, and a thread that has finished makes no
    more visible calls. *)
Fixpoint fin_ok (fs : list (frame L)) : Prop :=
  match fs with
  | [] => True
  | f :: fs => (existsb finished fs = true → visible f = None) ∧ fin_ok fs
  end.

Record inv d : Prop := {
  i_carcass : ∀ t, threadToBeDestroyed d = Some t → ∃ th, threads d !! t = Some th ∧ todo th = None;
  i_frames : ∀ t th, threads d !! t = Some th → fin_ok (frames th)
}.

Definition same d d' : Prop := look d' = look d ∧ (inv d → inv d').

Lemma same_refl d : same d d.
Proof. by split. Qed.

Lemma same_trans d1 d2 d3 : same d1 d2 → same d2 d3 → same d1 d3.
Proof. intros [H1 H1'] [H2 H2']. split; [congruence|auto]. Qed.

(** ** Changes that do not show *)

Lemma omap_put t th (m : gmap tid (Thread L)) :
  omap todo (<[t := th]> m) =
  match todo th with Some w => <[t := w]> (omap todo m) | None => delete t (omap todo m) end.
Proof.
  apply map_eq. intros t'. rewrite lookup_omap.
  destruct (decide (t = t')) as [<-|Hne].
  - rewrite lookup_insert_eq. simpl. destruct (todo th); by rewrite ?lookup_insert_eq, ?lookup_delete_eq.
  - rewrite lookup_insert_ne by done.
    destruct (todo th); rewrite ?lookup_insert_ne, ?lookup_delete_ne, lookup_omap by done; done.
Qed.

Lemma todo_same t th th' (m : gmap tid (Thread L)) :
  m !! t = Some th → todo th' = todo th → omap todo (<[t := th']> m) = omap todo m.
Proof.
  intros Ht He. rewrite omap_put, He. destruct (todo th) eqn:Hth.
  - apply insert_id. by rewrite lookup_omap, Ht.
  - apply delete_id. by rewrite lookup_omap, Ht.
Qed.

Lemma inv_put d t th th' :
  threads d !! t = Some th → (todo th = None → todo th' = None) →
  (fin_ok (frames th) → fin_ok (frames th')) → inv d → inv (put_thread t th' d).
Proof.
  intros Ht He Hfin [Hc Hf]. split; intros t'; cbn.
  - intros Hd. destruct (Hc _ Hd) as (th1 & Hth1 & Hn). destruct (decide (t = t')) as [<-|Hne].
    + exists th'. rewrite lookup_insert_eq. split; [done|]. apply He. congruence.
    + exists th1. by rewrite lookup_insert_ne.
  - intros th1. destruct (decide (t = t')) as [<-|Hne].
    + rewrite lookup_insert_eq. intros [= <-]. eauto.
    + rewrite lookup_insert_ne by done. by apply Hf.
Qed.

Lemma same_put d t th th' :
  threads d !! t = Some th → todo th' = todo th →
  (fin_ok (frames th) → fin_ok (frames th')) → same d (put_thread t th' d).
Proof.
  intros Ht He Hfin. split.
  - unfold look, put_thread, set_threads. cbn. f_equal. by eapply todo_same.
  - apply (inv_put _ _ th); [done|congruence|done].
Qed.

Lemma same_fields d d' :
  threads d' = threads d → threadToBeDestroyed d' = threadToBeDestroyed d →
  value <$> sems d' = value <$> sems d → env (extra d') = env (extra d) → same d d'.
Proof.
  intros H1 H2 H3 H4. split.
  - unfold look. by rewrite H1, H3, H4.
  - intros [Hc Hf]. split; rewrite H1, ?H2; auto.
Qed.

Lemma get_thread_Done t d th : get_thread t d = Done th → threads d !! t = Some th.
Proof. unfold get_thread. destruct (threads d !! t); intros; by simplify_eq. Qed.

(** The thread is changed, but not its stack. *)
Lemma on_thread_same t f d d' :
  (∀ th, frames (f th) = frames th) → on_thread t f d = Done d' → same d d'.
Proof.
  intros Hf Ho. unfold on_thread in Ho. inv_res. subst. apply get_thread_Done in Hr.
  eapply same_put; [done| |by rewrite Hf]. unfold todo. by rewrite Hf.
Qed.

(** An invisible frame comes onto the stack or goes off it. *)
Definition plain (f : frame L) : Prop := visible f = None ∧ finished f = false.

Lemma todo_push f fs th : plain f → todo (set_frames (f :: fs) th) = todo (set_frames fs th).
Proof. intros [Hv Hf]. unfold todo. cbn. by rewrite Hf, Hv. Qed.

Lemma todo_frames th : todo (set_frames (frames th) th) = todo th.
Proof. done. Qed.

Lemma on_current_push f d d' : plain f → on_current (push f) d = Done d' → same d d'.
Proof.
  intros Hf Ho. unfold on_current, on_thread in Ho. inv_res. subst. apply get_thread_Done in Hr.
  eapply same_put; [done| |].
  - unfold push. rewrite todo_push by done. apply todo_frames.
  - intros Hfin. split; [|done]. intros _. apply Hf.
Qed.

End abstraction.
(** ** The kernel's own work does not show *)
Section kernel.
Context {H L E G : Type} `{!HasMachine E} `{!HasEnv E G}.
Abbreviation kernel := (sys H (kst L E)).
Context (call : H → kernel → res kernel).
Context (client : L → tid → E → res (E * list (cmd L))).
Context (new_thread : gset tid → tid).
Implicit Types k : kernel.
Implicit Types d : kst L E.

(** The handlers of the devices do not run programs. *)
Class QuietHandlers : Prop :=
  q_call : ∀ h k k', call h k = Done k' → same (dev k) (dev k').
Context `{!QuietHandlers}.

Abbreviation keeps k k' := (same (dev k) (dev k')).

(** Puts the invisible parts of a computation together. *)
Ltac chain :=
  first [ apply same_refl | assumption
        | match goal with
          | Hs : same _ _ |- same _ _ => eapply same_trans; [exact Hs|]; clear Hs; chain
          end ].

Tactic Notation "note" uconstr(lem) :=
  match goal with Hd : _ = Done _ |- _ => apply lem in Hd; [|done..] end.

Lemma extra_same d m : same d (set_extra (put_machine m (extra d)) d).
Proof. apply same_fields; try done. apply env_put. Qed.

Lemma delayed_load_same d d' : delayed_load d = Done d' → same d d'.
Proof. unfold delayed_load. intros Hd. inv_res. subst. apply extra_same. Qed.

Lemma invoke_same p k k' : invoke call delayed_load p k = Done k' → keeps k k'.
Proof.
  unfold invoke. intros Hi. inv_res. subst. cbn.
  eapply same_trans; [by apply delayed_load_same|]. by apply q_call in Hr0.
Qed.

Lemma CheckIfDue_same b k r k' : CheckIfDue call delayed_load b k = Done (r, k') → keeps k k'.
Proof.
  unfold CheckIfDue. intros Hc. inv_res.
  destruct (Queue.SortedRemove _) as [[[w p]|] rest]; [|inv_res; simplify_eq; apply same_refl].
  destruct (_ && _); [inv_res; simplify_eq; apply same_refl|].
  destruct (_ && Queue.IsEmpty _).
  - inv_res. simplify_eq. cbn. destruct (_ && _); apply same_refl.
  - inv_res. simplify_eq. apply invoke_same in Hr0. destruct (_ && _) in Hr0; exact Hr0.
Qed.

Lemma fire_loop_same n k k' : fire_loop call delayed_load n k = Done k' → keeps k k'.
Proof.
  revert k. induction n as [|n IH]; intros k Hf; [done|]. cbn [fire_loop] in Hf. inv_res.
  destruct r as [fired k1]. apply CheckIfDue_same in Hr. destruct fired.
  - eapply same_trans; [done|auto].
  - inv_res. by subst.
Qed.

Lemma OneTick_enter_same k k' : OneTick_enter call delayed_load k = Done k' → keeps k k'.
Proof. unfold OneTick_enter. intros Ho. inv_res. subst. by apply fire_loop_same in Hr. Qed.

Lemma Idle_same k k' : Idle call delayed_load k = Done (Some k') → keeps k k'.
Proof.
  unfold Idle. intros Hi. inv_res. destruct r as [fired k1]. apply CheckIfDue_same in Hr.
  destruct fired; inv_res; simplify_eq. cbn. eapply same_trans; [exact Hr|]. by eapply fire_loop_same.
Qed.

Lemma on_dev_same f k k' :
  (∀ d d', f d = Done d' → same d d') → on_dev f k = Done k' → keeps k k'.
Proof. unfold on_dev. intros Hf Ho. inv_res. subst. by apply Hf. Qed.

Tactic Notation "note_dev" uconstr(lem) :=
  match goal with
  | Hd : on_dev _ _ = Done _ |- _ => apply on_dev_same in Hd; [|solve [intros ? ?; by apply lem]]
  end.

Lemma enter_same f k k' : plain f → enter f k = Done k' → keeps k k'.
Proof. intros Hf. apply on_dev_same. intros d d'. by apply on_current_push. Qed.

Lemma OneTick_same k k' : OneTick call k = Done k' → keeps k k'.
Proof.
  unfold OneTick. intros Ho. inv_res. note OneTick_enter_same.
  destruct (yieldOnReturn _); inv_res; [|by subst]. do 2 note enter_same. chain.
Qed.

Lemma SetLevel_same now k old k' : SetLevel call now k = Done (old, k') → keeps k k'.
Proof.
  unfold SetLevel, SetLevel_enter. intros Hs. inv_res. simplify_eq.
  destruct (_ && _); inv_res; [|subst; apply same_refl]. note OneTick_same. subst. chain.
Qed.

Lemma SetLevel__same now k k' : SetLevel_ call now k = Done k' → keeps k k'.
Proof.
  unfold SetLevel_. intros Hs. inv_res. destruct r. by eapply SetLevel_same.
Qed.

Lemma ReadyToRun_same t d d' : ReadyToRun t d = Done d' → same d d'.
Proof.
  unfold ReadyToRun. intros Hr. inv_res. subst. note on_thread_same.
  eapply same_trans; [done|]. by apply same_fields.
Qed.

Lemma FindNextToRun_same d t d' : FindNextToRun d = (t, d') → same d d'.
Proof.
  unfold FindNextToRun. destruct (Queue.Remove _). intros [= <- <-]. by apply same_fields.
Qed.

Lemma SaveUserState_frames th d th' : SaveUserState th d = Done th' → frames th' = frames th.
Proof. unfold SaveUserState. intros Hs. inv_res. by subst. Qed.

Lemma Run_same next d d' : Run next d = Done d' → same d d'.
Proof.
  unfold Run. intros Hr. inv_res. note get_thread_Done.
  match goal with Hs : match _ with _ => _ end = Done ?x, Ht : threads d !! _ = Some ?y |- _ =>
    assert (Hfr : frames x = frames y)
      by (destruct (Threads.space y); [by eapply SaveUserState_frames|by injection Hs as ->]);
    assert (Hpush : same d (put_thread (currentThread d) (push FRunTail x) d))
      by (eapply same_put; [exact Ht|unfold todo; cbn; by rewrite Hfr|cbn; rewrite Hfr; by split]) end.
  eapply same_trans; [exact Hpush|]. note on_thread_same.
  eapply same_trans; [|done]. by apply same_fields.
Qed.

Lemma destroy_carcass_same d d' : inv d → destroy_carcass d = Done d' → same d d'.
Proof.
  intros Hi. unfold destroy_carcass. destruct (threadToBeDestroyed d) as [t|] eqn:Ht.
  - unfold Thread_delete. intros Hd. inv_res. note get_thread_Done. subst. cbn.
    match goal with Hg : threads d !! t = Some ?x |- _ => rename Hg into Hth, x into th end.
    destruct (i_carcass _ Hi _ Ht) as (th0 & Hth0 & Hnone). assert (th0 = th) as -> by congruence. split.
    + unfold look. cbn. f_equal. rewrite <- (insert_id (threads d) t th) at 2 by done.
      rewrite omap_put, Hnone. apply map_eq. intros t'. rewrite lookup_omap.
      destruct (decide (t = t')) as [<-|]; [by rewrite !lookup_delete_eq|].
      by rewrite !lookup_delete_ne, lookup_omap.
    + intros [_ Hf]. split; [done|]. cbn. intros t' th' [_ Ht']%lookup_delete_Some. eauto.
  - intros [= <-]. apply same_refl.
Qed.

Lemma Run_tail_same d d' : inv d → Run_tail d = Done d' → same d d'.
Proof.
  intros Hi. unfold Run_tail. intros Hr. inv_res. apply destroy_carcass_same in Hr0; [|done].
  destruct (Threads.space _); [|inv_res; by subst]. inv_res. subst.
  eapply same_trans; [done|]. unfold RestoreUserState in Hr1. inv_res. subst.
  eapply same_trans; [apply extra_same|]. apply extra_same.
Qed.

Lemma Yield_same k k' : Yield call k = Done k' → keeps k k'.
Proof.
  unfold Yield. intros Hy. inv_res. destruct r as [old k1]. note SetLevel_same.
  destruct (FindNextToRun (dev k1)) as [next d] eqn:Hn. apply FindNextToRun_same in Hn.
  assert (Hk1 : keeps k1 (set_dev k1 d)) by done.
  destruct next as [next|]; inv_res.
  - note_dev ReadyToRun_same. note enter_same. note_dev Run_same. chain.
  - note SetLevel__same. chain.
Qed.

Lemma Sleep_same k k' : Sleep k = Done k' → keeps k k'.
Proof.
  unfold Sleep. intros Hs. inv_res. note enter_same. note_dev on_thread_same. chain.
Qed.

(** Taking the top frame off the stack of the current thread. *)
Definition popped k (fs : list (frame L)) th : kernel :=
  set_dev k (put_thread (currentThread (dev k)) (set_frames fs th) (dev k)).

Lemma leave_popped k k' th f fs :
  threads (dev k) !! currentThread (dev k) = Some th → frames th = f :: fs →
  leave k = Done k' → k' = popped k fs th.
Proof.
  intros Ht Hf. unfold leave, on_dev, on_current, on_thread, get_thread. rewrite Ht. cbn.
  intros [= <-]. by rewrite Hf.
Qed.

Lemma popped_same k th f fs :
  threads (dev k) !! currentThread (dev k) = Some th → frames th = f :: fs → plain f →
  keeps k (popped k fs th).
Proof.
  intros Ht Hf Hp. eapply same_put; [done| |].
  - rewrite <- (todo_push f fs th Hp), <- Hf. apply todo_frames.
  - rewrite Hf. by intros [_ ?].
Qed.

Lemma Sleep_loop_same k k' th fs :
  threads (dev k) !! currentThread (dev k) = Some th → frames th = FSleepLoop :: fs →
  Sleep_loop call k = Done (Some k') → keeps k k'.
Proof.
  intros Ht Hf. unfold Sleep_loop. destruct (FindNextToRun (dev k)) as [next d] eqn:Hn.
  assert (Htd : threads d !! currentThread d = Some th).
  { unfold FindNextToRun in Hn. destruct (Queue.Remove _). by injection Hn as <- <-. }
  apply FindNextToRun_same in Hn.
  assert (Hk1 : keeps k (set_dev k d)) by done.
  destruct next as [next|]; intros Hs.
  - inv_res. simplify_eq. apply (leave_popped (set_dev k d) _ th FSleepLoop fs) in Hr; [|done..]. subst.
    note_dev Run_same.
    pose proof (popped_same (set_dev k d) th FSleepLoop fs Htd Hf ltac:(done)). chain.
  - apply Idle_same in Hs. chain.
Qed.

(** ** Steps of the programs *)

(** The calls of programs that do not deal with processes. *)
Definition basic (c : cmd L) : bool :=
  match c with CGo _ | CYield | CP _ | CV _ | CFork _ | CFinish => true | _ => false end.

Inductive astep : view → view → Prop :=
| a_go e P S t l ws e' cs :
    P !! t = Some (CGo l :: ws) → client l t e = Done (e', cs) →
    astep (mkView (env e) P S) (mkView (env e') (<[t := calls cs ++ ws]> P) S)
| a_fork g P S t l ws t' :
    P !! t = Some (CFork l :: ws) → P !! t' = None →
    astep (mkView g P S) (mkView g (<[t' := [CGo l; CFinish]]> (<[t := ws]> P)) S)
| a_acquire g P S t s ws v :
    P !! t = Some (CP s :: ws) → S !! s = Some v → v ≠ 0 →
    astep (mkView g P S) (mkView g (<[t := ws]> P) (<[s := s32 (v - 1)]> S))
| a_release g P S t s ws v :
    P !! t = Some (CV s :: ws) → S !! s = Some v →
    astep (mkView g P S) (mkView g (<[t := ws]> P) (<[s := s32 (v + 1)]> S))
| a_finish g P S t ws :
    P !! t = Some (CFinish :: ws) → astep (mkView g P S) (mkView g (delete t P) S).

Lemma fin_ok_none (fs : list (frame L)) : existsb finished fs = false → fin_ok fs.
Proof.
  induction fs as [|f fs IH]; [done|]. cbn. intros [_ Hf]%orb_false_iff. split; [by rewrite Hf|auto].
Qed.

(** The current thread after its top frame, a visible call, was taken off. *)
Record at_call k (c : cmd L) (ws : list (cmd L)) k1 th1 : Prop := {
  ac_todo : v_todo (look (dev k)) !! currentThread (dev k) = Some (c :: ws);
  ac_look : look (dev k1) = mkView (v_env (look (dev k)))
              (<[currentThread (dev k) := ws]> (v_todo (look (dev k)))) (v_sems (look (dev k)));
  ac_inv : inv (dev k1);
  ac_cur : currentThread (dev k1) = currentThread (dev k);
  ac_thread : threads (dev k1) !! currentThread (dev k) = Some th1;
  ac_fin : existsb finished (frames th1) = false;
  ac_frames : omap visible (frames th1) = ws;
  ac_dom : dom (threads (dev k1)) = dom (threads (dev k))
}.

Lemma popped_at_call k th f fs c :
  inv (dev k) → threads (dev k) !! currentThread (dev k) = Some th → frames th = f :: fs →
  visible f = Some c → at_call k c (omap visible fs) (popped k fs th) (set_frames fs th).
Proof.
  intros Hi Ht Hf Hv. pose proof (i_frames _ Hi _ _ Ht) as Hok. rewrite Hf in Hok. destruct Hok as [Hfin Hok].
  assert (Hn : existsb finished fs = false) by (destruct (existsb finished fs); [rewrite Hfin in Hv by done|]; done).
  assert (Hff : finished f = false) by (by destruct f).
  assert (Htd : todo th = Some (c :: omap visible fs)).
  { unfold todo. rewrite Hf. cbn. by rewrite Hff, Hn, Hv. }
  assert (Htd' : todo (set_frames fs th) = Some (omap visible fs)) by (unfold todo; cbn; by rewrite Hn).
  split; cbn.
  - by rewrite lookup_omap, Ht.
  - unfold look. cbn. by rewrite omap_put, Htd'.
  - apply (inv_put _ _ th); [done|by rewrite Htd|by rewrite Hf|done].
  - done.
  - apply lookup_insert_eq.
  - done.
  - done.
  - rewrite dom_insert_L. apply subseteq_union_1_L, singleton_subseteq_l, elem_of_dom. by exists th.
Qed.

(** What a step does, seen from the programs. *)
Definition moves k k' : Prop :=
  (look (dev k') = look (dev k) ∨ astep (look (dev k)) (look (dev k'))) ∧ inv (dev k').

Lemma same_moves k k' : inv (dev k) → keeps k k' → moves k k'.
Proof. intros Hi [Hl Hinv]. split; auto. Qed.

Lemma moves_same k k1 k' : moves k k1 → keeps k1 k' → moves k k'.
Proof. intros [Hm Hi] [Hl Hinv]. split; [|auto]. by rewrite Hl. Qed.

Lemma run_client_moves k l ws k1 th1 k' :
  at_call k (CGo l) ws k1 th1 → run_client client l k1 = Done k' → moves k k'.
Proof.
  intros [Htodo Hlook Hinv Hcur Hth Hfin Hfr _] Hr. unfold run_client in Hr. inv_res. destruct r as [e' cs].
  unfold on_current, on_thread in Hk. inv_res. subst. note get_thread_Done. cbn in *. rewrite Hcur in *.
  match goal with Hg : threads _ !! _ = Some ?x |- _ => assert (x = th1) as -> by congruence end.
  assert (Hnf : existsb finished ((FCall <$> cs) ++ frames th1) = false).
  { rewrite existsb_app, Hfin, orb_false_r. clear. by induction cs. }
  assert (Hvis : omap visible ((FCall <$> cs) ++ frames th1) = calls cs ++ omap visible (frames th1)).
  { rewrite omap_app. f_equal. unfold calls. clear. induction cs as [|c cs IH]; [done|].
    cbn. destruct (visible (FCall c)); by rewrite IH. }
  injection Hlook as He HP HS. split.
  - right. unfold look at 2. cbn. rewrite omap_put. unfold todo at 1. cbn. rewrite Hnf, Hvis, HP, HS, insert_insert_eq.
    unfold look. rewrite <- He. by apply (a_go _ _ _ _ l).
  - apply (inv_put (set_extra e' (dev k1)) _ th1); [done|..].
    + unfold todo. by rewrite Hfin.
    + intros _. by apply fin_ok_none.
    + destruct Hinv. by split.
Qed.

Lemma at_call_dev k c ws k1 th1 k2 : at_call k c ws k1 th1 → dev k2 = dev k1 → at_call k c ws k2 th1.
Proof. intros [] Hd. split; by rewrite ?Hd. Qed.

Lemma SetLevel_off_dev k old k' : SetLevel call IntOff k = Done (old, k') → dev k' = dev k.
Proof.
  unfold SetLevel, SetLevel_enter. intros Hs. inv_res. simplify_eq.
  cbn in Hk. by simplify_eq.
Qed.

Lemma look_put_sem s x d :
  look (put_sem s x d) = mkView (v_env (look d)) (v_todo (look d)) (<[s := value x]> (v_sems (look d))).
Proof. unfold look, put_sem. cbn. by rewrite fmap_insert. Qed.

Lemma inv_put_sem s x d : inv d → inv (put_sem s x d).
Proof. intros [Hc Hf]. by split. Qed.

(** The semaphore is changed after the thread's call. *)
Lemma sem_look k c ws k1 th1 s x x' :
  at_call k c ws k1 th1 → sems (dev k1) !! s = Some x →
  look (put_sem s x' (dev k1)) =
    mkView (v_env (look (dev k))) (<[currentThread (dev k) := ws]> (v_todo (look (dev k))))
      (<[s := value x']> (v_sems (look (dev k)))) ∧
  v_sems (look (dev k)) !! s = Some (value x) ∧ inv (put_sem s x' (dev k1)).
Proof.
  intros [_ Hlook Hinv _ _ _ _ _] Hx. split; [|split].
  - by rewrite look_put_sem, Hlook.
  - injection Hlook as _ _ HS. cbn. by rewrite <- HS, lookup_fmap, Hx.
  - by apply inv_put_sem.
Qed.

Lemma get_sem_Done s d x : get_sem s d = Done x → sems d !! s = Some x.
Proof. unfold get_sem. destruct (sems d !! s); intros; by simplify_eq. Qed.

Lemma P_loop_moves k s ws k1 th1 old k' :
  at_call k (CP s) ws k1 th1 → P_loop call s old k1 = Done k' → moves k k'.
Proof.
  intros Ha Hp. unfold P_loop in Hp. inv_res. note get_sem_Done.
  match goal with Hg : sems _ !! s = Some ?y |- _ => rename Hg into Hs, y into x end.
  destruct (Z.eqb_spec (value x) 0) as [Hz|Hz].
  - inv_res. note Sleep_same. eapply moves_same; [|eassumption].
    destruct (sem_look _ _ _ _ _ s x (mkSem (value x) (Queue.Append (currentThread (dev k1)) (queue x))) Ha Hs)
      as (Hl & Hv & Hi).
    unfold enter, on_dev, on_current, on_thread in Hr. inv_res. subst. note get_thread_Done. cbn in *.
    destruct Ha as [Htodo Hlook Hinv Hcur Hth Hfin Hfr _]. rewrite Hcur in *.
    match goal with Hg : threads _ !! _ = Some ?y |- _ => assert (y = th1) as -> by congruence end.
    injection Hl as He HP HS. split.
    + left. unfold look at 1. cbn. rewrite omap_put. unfold todo at 1. cbn. rewrite Hfin, Hfr, He, HP, insert_insert_eq, HS.
      rewrite (insert_id (omap todo _)) by done. by rewrite insert_id by done.
    + apply (inv_put (put_sem s (mkSem (value x) (Queue.Append (currentThread (dev k)) (queue x))) (dev k1)) _ th1); [done|..|done].
      * unfold todo. by rewrite Hfin.
      * intros Hok. split; [|done]. by rewrite Hfin.
  - note SetLevel__same. eapply moves_same; [|eassumption].
    destruct (sem_look _ _ _ _ _ s x (mkSem (s32 (value x - 1)) (queue x)) Ha Hs) as (Hl & Hv & Hi).
    split; [|done]. right. cbn [dev set_dev]. rewrite Hl. destruct (look (dev k)) as [g P S] eqn:Hlk.
    pose proof (ac_todo _ _ _ _ _ Ha) as Ht. rewrite Hlk in Ht. by apply a_acquire.
Qed.

Lemma P_moves k s ws k1 th1 k' : at_call k (CP s) ws k1 th1 → P call s k1 = Done k' → moves k k'.
Proof.
  intros Ha Hp. unfold P in Hp. inv_res. destruct r as [old k2]. apply SetLevel_off_dev in Hr.
  eapply P_loop_moves; [|done]. by eapply at_call_dev.
Qed.

Lemma V_body_look s x d d' :
  sems d !! s = Some x → V_body s d = Done d' →
  look d' = mkView (v_env (look d)) (v_todo (look d)) (<[s := s32 (value x + 1)]> (v_sems (look d))) ∧
  (inv d → inv d').
Proof.
  intros Hs Hv. unfold V_body, get_sem in Hv. rewrite Hs in Hv. cbn [mbind res_bind] in Hv.
  destruct (Queue.Remove (queue x)) as [t q].
  assert (Hsame : same d (put_sem s (mkSem (value x) q) d)).
  { apply same_fields; try done. cbn. rewrite fmap_insert. apply insert_id. by rewrite lookup_fmap, Hs. }
  inv_res. subst.
  match goal with Ht : match t with _ => _ end = Done ?y |- _ =>
    assert (Hy : same d y) by (destruct t; [eapply same_trans; [exact Hsame|by eapply ReadyToRun_same]|by simplify_eq]) end.
  destruct Hy as [Hl Hi]. rewrite look_put_sem, Hl. split; [done|]. intros Hd. apply inv_put_sem. auto.
Qed.

Lemma V_moves k s ws k1 th1 k' : at_call k (CV s) ws k1 th1 → V call s k1 = Done k' → moves k k'.
Proof.
  intros Ha Hv. unfold V in Hv. inv_res. destruct r as [old k2]. apply SetLevel_off_dev in Hr.
  pose proof (at_call_dev _ _ _ _ _ k2 Ha Hr) as [Htodo Hlook Hinv _ _ _ _ _]. inv_res.
  note SetLevel__same. eapply moves_same; [|eassumption].
  match goal with Ho : on_dev _ _ = Done _ |- _ => unfold on_dev in Ho; rename Ho into Hd end. inv_res. subst.
  match goal with Hb : V_body _ _ = Done _ |- _ => rename Hb into Hbody end.
  destruct (sems (dev k2) !! s) as [x|] eqn:Hx; [|unfold V_body, get_sem in Hbody; by rewrite Hx in Hbody].
  destruct (V_body_look _ _ _ _ Hx Hbody) as [Hl Hi]. split; [|by apply Hi]. right. cbn [dev set_dev].
  rewrite Hl. assert (HS : v_sems (look (dev k2)) !! s = Some (value x)) by (cbn; by rewrite lookup_fmap, Hx).
  rewrite Hlook in *. destruct (look (dev k)) as [g P S]. by apply a_release.
Qed.

Context (new_fresh : ∀ X, new_thread X ∉ X).

Lemma Thread_Fork_moves k l ws k1 th1 k' :
  at_call k (CFork l) ws k1 th1 → Thread_Fork call new_thread l k1 = Done k' → moves k k'.
Proof.
  intros [Htodo Hlook Hinv _ _ _ _ Hdom] Hf. unfold Thread_Fork, Fork in Hf.
  assert (Hnew : threads (dev k1) !! new_tid new_thread k1 = None).
  { apply not_elem_of_dom. apply new_fresh. }
  assert (Hfree : v_todo (look (dev k)) !! new_tid new_thread k1 = None).
  { cbn. rewrite lookup_omap. replace (threads (dev k) !! _) with (@None (Thread L)); [done|].
    symmetry. apply not_elem_of_dom. rewrite <- Hdom. apply new_fresh. }
  set (t := new_tid new_thread k1) in *.
  inv_res. destruct r0 as [old k2]. inv_res.
  do 2 first [note SetLevel__same | note SetLevel_same]. note_dev ReadyToRun_same.
  unfold on_dev, on_thread, get_thread in Hr. cbn in Hr. rewrite lookup_insert_eq in Hr. cbn in Hr. simplify_eq.
  do 3 (eapply moves_same; [|eassumption]). clear Hr0 Hr1 Hk. split.
  - right. unfold look at 2. cbn. rewrite insert_insert_eq, omap_put. injection Hlook as He HP HS.
    cbn. rewrite He, HP, HS. unfold look. by apply a_fork.
  - destruct Hinv as [Hc Hok]. split; cbn; rewrite insert_insert_eq.
    + intros t' Ht'. destruct (Hc _ Ht') as (th' & Hth' & Hn). exists th'.
      by rewrite lookup_insert_ne by congruence.
    + intros t' th'. destruct (decide (t = t')) as [<-|Hne].
      * rewrite lookup_insert_eq. intros [= <-]. by apply fin_ok_none.
      * rewrite lookup_insert_ne by done. apply Hok.
Qed.

Definition frames_ok d : Prop := ∀ t th, threads d !! t = Some th → fin_ok (frames th).

(** What Finish does between its first SetLevel and its Sleep, the stack apart. *)
Lemma wake_parent_look (p : option tid) k k' :
  (match p with Some p => on_dev (WakeUpFromJoin p) k | None => Done k end) = Done k' →
  look (dev k') = look (dev k) ∧ threadToBeDestroyed (dev k') = threadToBeDestroyed (dev k) ∧
  currentThread (dev k') = currentThread (dev k) ∧ (frames_ok (dev k) → frames_ok (dev k')) ∧
  (∀ t th, threads (dev k) !! t = Some th →
     ∃ th', threads (dev k') !! t = Some th' ∧ frames th' = frames th).
Proof.
  destruct p as [p|]; [|intros [= <-]; eauto 10].
  unfold on_dev, WakeUpFromJoin, on_thread. intros Hw. inv_res. subst. note get_thread_Done.
  match goal with Hg : threads _ !! p = Some ?y |- _ => rename Hg into Hp, y into thp end.
  split; [unfold look; cbn; f_equal; by eapply todo_same|]. do 2 (split; [done|]). split; cbn.
  - intros Hok t th. cbn. destruct (decide (p = t)) as [<-|Hne].
    + rewrite lookup_insert_eq. intros [= <-]. by apply (Hok p thp).
    + rewrite lookup_insert_ne by done. apply Hok.
  - intros t th Ht. destruct (decide (p = t)) as [<-|Hne].
    + rewrite lookup_insert_eq. eexists. split; [done|]. cbn. congruence.
    + rewrite lookup_insert_ne by done. eauto.
Qed.

Lemma Finish_moves k ws k1 th1 k' :
  at_call k CFinish ws k1 th1 → Finish call k1 = Done k' → moves k k'.
Proof.
  intros Ha Hf. unfold Finish in Hf. inv_res. destruct r as [old k2]. apply SetLevel_off_dev in Hr.
  apply (at_call_dev _ _ _ _ _ k2) in Ha; [|done]. destruct Ha as [Htodo Hlook Hinv Hcur Hth Hfin Hfr _].
  inv_res. note Sleep_same. eapply moves_same; [|eassumption]. clear Hr.
  match goal with Hp : match _ with _ => _ end = Done _ |- _ => apply wake_parent_look in Hp; rename Hp into Hw end.
  destruct Hw as (Hl & Ht & Hc & Hok & Hfs). cbn in Hl, Ht, Hc, Hfs. rewrite Hcur in *.
  destruct (Hfs _ _ Hth) as (th2 & Hth2 & Hf2).
  match goal with He : enter FFinished _ = Done _ |- _ => rename He into Hent end.
  unfold enter, on_dev, on_current, on_thread, get_thread in Hent. cbn in Hent. rewrite Hc, Hth2 in Hent. cbn in Hent.
  injection Hent as <-. split; cbn.
  - right. unfold look at 2. cbn. rewrite omap_put. cbn. injection Hl as He HP HS. injection Hlook as He' HP' HS'.
    rewrite He, HP, HS, He', HP', HS', delete_insert_eq. unfold look. by eapply a_finish.
  - assert (Hok2 := Hok (i_frames _ Hinv)). split; cbn.
    + rewrite Ht. intros t [= <-]. eexists. by rewrite lookup_insert_eq.
    + intros t th. destruct (decide (currentThread (dev k) = t)) as [<-|Hne].
      * rewrite lookup_insert_eq. intros [= <-]. split; [done|]. by apply (Hok2 _ _ Hth2).
      * rewrite lookup_insert_ne by done. apply Hok2.
Qed.

(** ** The kernel runs the programs *)

Definition basic_view (v : @view L G) : Prop := ∀ t ws, v_todo v !! t = Some ws → Forall basic ws.

Lemma exec_cmd_moves k th c fs k1 k' :
  inv (dev k) → basic_view (look (dev k)) →
  threads (dev k) !! currentThread (dev k) = Some th → frames th = FCall c :: fs →
  k1 = popped k fs th → exec_cmd call client new_thread c k1 = Done k' → moves k k'.
Proof.
  intros Hi Hb Ht Hf -> Hx. destruct (visible (FCall c)) as [c'|] eqn:Hv.
  - assert (c' = c) as -> by (destruct c; cbn in Hv; congruence).
    pose proof (popped_at_call k th _ fs _ Hi Ht Hf Hv) as Ha.
    pose proof (Forall_inv (Hb _ _ (ac_todo _ _ _ _ _ Ha))) as Hbc. cbn beta in Hbc.
    destruct c; try done.
    + by eapply run_client_moves.
    + by eapply P_moves.
    + by eapply V_moves.
    + by eapply Thread_Fork_moves.
    + by eapply Finish_moves.
  - destruct c; try done. apply same_moves; [done|]. apply Yield_same in Hx.
    eapply same_trans; [by apply (popped_same k th _ fs Ht Hf)|done].
Qed.

Lemma step_moves k k' :
  inv (dev k) → basic_view (look (dev k)) → step call client new_thread k = Done (Some k') → moves k k'.
Proof.
  intros Hi Hb Hs. unfold step in Hs. inv_res.
  unfold current_frames in Hr. inv_res. subst. note get_thread_Done.
  match goal with Hg : threads _ !! _ = Some ?y |- _ => rename Hg into Hth, y into th end.
  destruct (frames th) as [|f fs] eqn:Hf; [done|].
  assert (Hplain : plain f → ∀ k1, same (dev (popped k fs th)) (dev k1) → moves k k1).
  { intros Hp k1 Hk1. apply same_moves; [done|]. eapply same_trans; [by eapply popped_same|done]. }
  destruct f; try (by eapply same_moves, Sleep_loop_same); inv_res;
    match goal with Hl : leave k = Done _ |- _ => apply (leave_popped _ _ th _ fs Hth Hf) in Hl; subst end;
    match goal with Hm : _ <$> ?m = Done _ |- _ =>
      destruct m eqn:Hx; [injection Hm as ->|done..] end.
  - by eapply exec_cmd_moves.
  - by eapply Hplain, SetLevel__same.
  - apply Hplain; [done|]. injection Hx as <-. apply same_refl.
  - apply Hplain; [done|]. unfold on_dev in Hx. inv_res. subst. eapply Run_tail_same; [|done].
    by apply (popped_same k th _ fs Hth Hf).
  - eapply P_loop_moves; [by eapply popped_at_call|exact Hx].
  - apply Hplain; [done|]. injection Hx as <-. apply same_refl.
  - done.
Qed.

(** The programs make no calls that deal with processes. *)
Class BasicClient : Prop :=
  bc_calls : ∀ l t e e' cs, client l t e = Done (e', cs) → Forall basic cs.
Context `{!BasicClient}.

Lemma calls_basic cs : Forall basic cs → Forall basic (calls cs).
Proof.
  induction 1 as [|c cs Hc _ IH]; [constructor|]. unfold calls. destruct c; cbn; try done; by constructor.
Qed.

Lemma astep_basic v v' : basic_view v → astep v v' → basic_view v'.
Proof.
  intros Hb Ha t0 ws0. destruct Ha as [e P S t l ws e' cs HP Hc|g P S t l ws t' HP _|g P S t s ws x HP _ _
    |g P S t s ws x HP _|g P S t ws HP]; cbn; pose proof (Hb _ _ HP) as Hws; inv Hws; intros Hl.
  5: { apply lookup_delete_Some in Hl as [_ Hl]. by eapply Hb. }
  all: repeat (apply lookup_insert_Some in Hl as [[_ <-]|[_ Hl]]); try done; try (by eapply Hb).
  - apply Forall_app. split; [|done]. eapply calls_basic, bc_calls, Hc.
  - by repeat constructor.
Qed.

(** The steps the kernel can take, and where they lead. *)
Definition steps : kernel → kernel → Prop := λ k k', step call client new_thread k = Done (Some k').

Lemma steps_interleave k k' :
  inv (dev k) → basic_view (look (dev k)) → rtc steps k k' →
  rtc astep (look (dev k)) (look (dev k')) ∧ inv (dev k').
Proof.
  intros Hi Hb Hs. induction Hs as [k|k k1 k' Hk1 _ IH]; [by split|].
  destruct (step_moves _ _ Hi Hb Hk1) as [[Hl|Ha] Hi1].
  - rewrite <- Hl. apply IH; [done|by rewrite Hl].
  - destruct IH as [Hr Hi']; [done|by eapply astep_basic|]. split; [by eapply rtc_l|done].
Qed.

(** The state after [Initialize], as the programs see it. *)
Definition start (l : L) (ss : gmap sid Semaphore) (e : E) : @view L G :=
  mkView (env e) {[0%nat := [CGo l; CFinish]]} (value <$> ss).

Lemma Schedule_dev h n ty k k' : Schedule h n ty k = Done k' → dev k' = dev k.
Proof. unfold Schedule. intros Hs. inv_res. by subst. Qed.

Lemma Initialize_look y h r l ss e k :
  Initialize (H := H) y h r l ss e = Done k →
  look (dev k) = start l ss e ∧ inv (dev k).
Proof.
  intros Hi.
  assert (Hd : ∃ th, frames th = [FSetLevel IntOn; FCall (CGo l); FCall CFinish] ∧
    dev k = mkK {[0%nat := th]} Queue.empty 0%nat None Queue.empty 1 ss e).
  { unfold Initialize, Timer.Timer in Hi.
    destruct y; [apply Schedule_dev in Hi; rewrite Hi|injection Hi as <-]; eexists (set_frames _ _); split; reflexivity. }
  destruct Hd as (th & Hf & ->).
  assert (Ht : todo th = Some [CGo l; CFinish]) by (unfold todo; by rewrite Hf).
  split.
  - unfold look, start. cbn. f_equal. apply map_eq. intros t. rewrite lookup_omap.
    destruct (decide (t = 0%nat)) as [->|]; [by rewrite !lookup_singleton_eq|by rewrite !lookup_singleton_ne].
  - split; [done|]. cbn. intros t th' [_ <-]%lookup_singleton_Some. apply fin_ok_none. by rewrite Hf.
Qed.

Lemma start_basic l ss e : basic_view (start l ss e).
Proof. intros t ws. cbn. intros [_ <-]%lookup_singleton_Some. by repeat constructor. Qed.

Lemma Initialize_interleaves y h r l ss e k0 k :
  Initialize (H := H) y h r l ss e = Done k0 → rtc steps k0 k →
  rtc astep (start l ss e) (look (dev k)).
Proof.
  intros [Hl Hi]%Initialize_look Hs. rewrite <- Hl.
  apply steps_interleave; [done|rewrite Hl; apply start_basic|done].
Qed.

(** From a state that the kernel has reached on. *)
Lemma reached_interleaves y h r l ss e k0 k k' :
  Initialize (H := H) y h r l ss e = Done k0 → rtc steps k0 k → rtc steps k k' →
  rtc astep (look (dev k)) (look (dev k')).
Proof.
  intros Hin Hs Hs'. pose proof (Initialize_interleaves _ _ _ _ _ _ _ _ Hin Hs) as Hr.
  apply Initialize_look in Hin as [Hl Hi].
  destruct (steps_interleave k0 k) as [_ Hi']; [done|rewrite Hl; apply start_basic|done|].
  apply steps_interleave; [done| |done]. clear -Hr H1. pose proof (start_basic l ss e) as Hb.
  induction Hr as [|v v1 v' Ha _ IH]; [done|]. apply IH. by eapply astep_basic.
Qed.

(** What every step of the programs keeps, the kernel keeps. *)
Lemma Initialize_keeps (I : @view L G → Prop) y h r l ss e k0 k :
  Initialize (H := H) y h r l ss e = Done k0 → rtc steps k0 k →
  I (start l ss e) → (∀ v v', I v → astep v v' → I v') → I (look (dev k)).
Proof.
  intros Hi Hs H0I Hst. pose proof (Initialize_interleaves _ _ _ _ _ _ _ _ Hi Hs) as Hr.
  induction Hr; eauto.
Qed.

(** C10: whatever the timer, the scheduler and the semaphores do, a run of the kernel is
    an interleaving of the programs: from the state Initialize leaves, every state that
    the kernel reaches - in any number of steps, with context switches, waiting, time
    slices and the deletion of finished threads - shows the programs a state that they
    reach by taking the calls of one thread at a time, a P being taken only when the
    semaphore is not 0. The programs are those of [BasicClient], which call Fork, Yield, P,
    V, Finish and no system calls, and the interrupt handlers do not touch them. *)
Theorem kernel_refines_interleaving y h r l ss e k0 k :
  Initialize (H := H) y h r l ss e = Done k0 → rtc steps k0 k →
  rtc astep (start l ss e) (look (dev k)).
Proof. apply Initialize_interleaves. Qed.

End kernel.
End Interleave.
