(* ===== verification/ThreadTest.v ===== *)
(** ThreadTest: the thread demonstrations of src/code/threads/threadtest.cc, programs that
    run on the kernel of Threads.v - shouting threads, zombies, spawning threads, dining
    philosophers and a rock band.

    A demonstration is a module: its globals, its program points ([label]: the places
    behind a call that can switch threads, with the local variables) and [code], which runs
    from a point to the next such call.  A loop goes back to its head with [CGo].  [Main] is
    the branch of ThreadTest that starts the demonstration.

    rand() and the bytes behind the character that getNumber converts are parameters: the
    results of rand are the values [random n].  What is printed is kept, as the format and
    the arguments of each printf. *)
From Stdlib Require Import String.
From S2P Require Import Prelude Lists Machine AddrSpace Interrupt Threads Interleave.

(** * What the programs see of the host *)
Module Host.

Record io : Type := mkIO {
  stdin : list Z;
  draws : nat;
  stdout : list (string * list Z)
}.

Definition printf (fmt : string) (args : list Z) (h : io) : io :=
  mkIO (stdin h) (draws h) (stdout h ++ [(fmt, args)]).

(** EOF is -1. *)
Definition getchar (h : io) : Z * io :=
  match stdin h with
  | [] => (-1, h)
  | c :: s => (c, mkIO s (draws h) (stdout h))
  end.

Definition isdigit (c : Z) : bool := (48 <=? c) && (c <=? 57).

Fixpoint atoi_digits (n : Z) (s : list Z) : Z :=
  match s with
  | c :: s => if isdigit c then atoi_digits (s32 (n * 10 + (c - 48))) s else n
  | [] => n
  end.

(** [atoi] of a string that starts with a digit. *)
Definition atoi (s : list Z) : Z := atoi_digits 0 s.

Section host.
Context (random : nat → Z) (beyond : list Z).

Definition Random (h : io) : Z * io := (random (draws h), mkIO (stdin h) (S (draws h)) (stdout h)).

(** The inner loop of getNumber; [None]: it returns -1.  [toTest] points to one character,
    [beyond] is what follows it in memory. *)
Fixpoint read_line (fuel : nat) (c returnThis : Z) (h : io) : res (option Z * io) :=
  if c =? 10 then Done (Some returnThis, h)
  else
    match fuel with
    | O => Fuel
    | S fuel =>
        let returnThis := s32 (returnThis * 10) in
        if isdigit c then
          let returnThis := s32 (returnThis + atoi (c :: beyond)) in
          let '(c, h) := getchar h in
          read_line fuel (s8 c) returnThis h
        else Done (None, printf "Bad input.  Try again." [] h)
    end.

Fixpoint getNumber_loop (fuel : nat) (returnThis : Z) (h : io) : res (Z * io) :=
  if returnThis <? 1 then
    match fuel with
    | O => Fuel
    | S fuel' =>
        let '(c, h) := getchar h in
        '(r, h) ← read_line fuel (s8 c) returnThis h;
        match r with
        | None => Done (-1, h)
        | Some r =>
            if (1000 <? r) || (r <? 0)
            then getNumber_loop fuel' 0 (printf "Bad input.  Please enter a number between 1 and 999.\n" [] h)
            else getNumber_loop fuel' r h
        end
    end
  else Done (returnThis, h).

(** A turn of either loop reads a character or finds the input at its end. *)
Definition getNumber (h : io) : res (Z * io) := getNumber_loop (S (length (stdin h))) 0 h.

(** [do { n = getNumber(); } while (n < 0);], for ever at the end of the input. *)
Fixpoint ask_loop (fuel : nat) (h : io) : res (Z * io) :=
  match fuel with
  | O => Fuel
  | S fuel =>
      '(n, h) ← getNumber h;
      if n <? 0 then ask_loop fuel h else Done (n, h)
  end.

Definition ask (h : io) : res (Z * io) := ask_loop (S (length (stdin h))) h.

End host.
End Host.

(** [for (i = 0; i < n; i++) { t = new Thread(name); t->Fork(f, i); }] *)
Definition fork_all {L} (f : Z → L) (n : Z) : list (Threads.cmd L) := (λ i, Threads.CFork (f i)) <$> seqZ 0 n.

(** [new T[n]] *)
Definition new_array {A} (n : Z) (x : A) : res (list A) :=
  if n <? 0 then Undef else Done (replicate (Z.to_nat n) x).

(** * ThreadTest: which demonstration *)
Inductive demo : Type := DShouting | DZombies | DSpawn | DPhilosophers | DRockBand | DInvalid.

Definition ThreadTest (threadChoice : Z) : demo :=
  if threadChoice =? 1 then DShouting
  else if threadChoice =? 2 then DZombies
  else if threadChoice =? 3 then DSpawn
  else if (threadChoice =? 4) || (threadChoice =? 5) then DPhilosophers
  else if threadChoice =? 6 then DRockBand
  else DInvalid.

(** * Shouting threads *)
Module Shouting.
Import Host Threads.

Record globals : Type := mkG { numShouters : Z; numShouts : Z; host : io }.

Inductive label : Type :=
| Main
| shoutingThreads (threadNum : Z)
| Shouts (threadNum timesShouted : Z)              (* while (timesShouted < numShouts) *)
| Pause (threadNum timesShouted toShout : Z).      (* while (toShout > 0) *)

Definition set_host (g : globals) h : globals := mkG (numShouters g) (numShouts g) h.
Definition say fmt args (g : globals) : globals := set_host g (printf fmt args (host g)).

Section code.
Context (random : nat → Z) (beyond : list Z).

Definition pause (threadNum timesShouted toShout : Z) (g : globals) : globals * list (cmd label) :=
  if 0 <? toShout then (g, [CYield; CGo (Pause threadNum timesShouted (toShout - 1))])
  else (g, [CGo (Shouts threadNum timesShouted)]).

Definition shouts (threadNum timesShouted : Z) (g : globals) : globals * list (cmd label) :=
  if timesShouted <? numShouts g then
    let g := say "Thread %i yells: " [threadNum] g in
    let '(r, h) := Random random (host g) in
    let toShout := cmod r 4 in
    let g := set_host g h in
    let g := if toShout =? 0 then say "This is the ultimate!\n" [] g
             else if toShout =? 1 then say "CHAOS CONTROL!\n" [] g
             else if toShout =? 2 then say "Maria...\n" [] g
             else if toShout =? 3 then say "Yosh!\n" [] g
             else g in
    let timesShouted := timesShouted + 1 in
    let '(r, h) := Random random (host g) in
    pause threadNum timesShouted (cmod r 5 + 1) (set_host g h)
  else (g, []).

Definition main (g : globals) : res (globals * list (cmd label)) :=
  let g := say "Enter the number of shouting threads: " [] g in
  '(n, h) ← ask beyond (host g);
  let g := mkG n (numShouts g) h in
  let g := say "Enter the number of shouts per thread: " [] g in
  '(n, h) ← ask beyond (host g);
  let g := mkG (numShouters g) n h in
  Done (g, fork_all shoutingThreads (numShouters g)).

Definition code (l : label) (g : globals) : res (globals * list (cmd label)) :=
  match l with
  | Main => main g
  | shoutingThreads threadNum => Done (shouts threadNum 0 g)
  | Shouts threadNum timesShouted => Done (shouts threadNum timesShouted g)
  | Pause threadNum timesShouted toShout => Done (pause threadNum timesShouted toShout g)
  end.

End code.
End Shouting.

(** * Zombies *)
Module Zombies.
Import Host Threads.

Definition HIDE : Z := 0.
Definition RUN : Z := 1.
Definition ZOMBIE : Z := 2.

Record globals : Type := mkG { humans : list Z; zombieFlag : bool; host : io }.

Inductive label : Type :=
| Main
| zombieStuff (which : Z)
| humanStuff (which : Z)
| Hiding (which waitTime : Z).                     (* while (waitTime > 0) *)

Definition set_host (g : globals) h : globals := mkG (humans g) (zombieFlag g) h.
Definition set_humans (g : globals) x : globals := mkG x (zombieFlag g) (host g).
Definition say fmt args (g : globals) : globals := set_host g (printf fmt args (host g)).

(** [for (i = ...; i < 10; i++) if (humans[i] != 2) return true;], [n] turns left. *)
Fixpoint some_human (n : nat) (i : Z) (hs : list Z) : res bool :=
  match n with
  | O => Done false
  | S n =>
      x ← aget hs i;
      if negb (x =? 2) then Done true else some_human n (i + 1) hs
  end.

Definition zombieCheck (g : globals) : res (bool * globals) :=
  b ← some_human 10 0 (humans g);
  if b : bool then Done (true, g)
  else if negb (zombieFlag g)
  then Done (false, mkG (humans g) true (host (say "All humans are now zombies!  Curses!\n" [] g)))
  else Done (false, g).

Section code.
Context (random : nat → Z) (beyond : list Z).

Definition zombies (which : Z) (g : globals) : res (globals * list (cmd label)) :=
  '(b, g) ← zombieCheck g;
  if b : bool then
    let '(r, h) := Random random (host g) in
    let g := set_host g h in
    let omnomnom := cmod r 10 in
    x ← aget (humans g) omnomnom;
    g ← (if x =? RUN then
           let g := say "Zombie %i has captured human %i!  Uh oh!\n" [which; omnomnom] g in
           hs ← aset (humans g) omnomnom ZOMBIE;
           Done (say "Human %i was turned into a zombie!\n" [omnomnom] (set_humans g hs))
         else Done (say "Zombie %i is shambling around!\n" [which] g));
    Done (g, [CYield; CGo (zombieStuff which)])
  else Done (g, []).

Definition hiding (which waitTime : Z) (g : globals) : globals * list (cmd label) :=
  if 0 <? waitTime then (g, [CYield; CGo (Hiding which (waitTime - 1))])
  else (g, [CGo (humanStuff which)]).

(** [while (waitTime < 2) waitTime = Random()%5;], which ends when rand wants it to. *)
Fixpoint wait_time (luck : nat) (waitTime : Z) (h : io) : res (Z * io) :=
  if waitTime <? 2 then
    match luck with
    | O => Fuel
    | S luck => let '(r, h) := Random random h in wait_time luck (cmod r 5) h
    end
  else Done (waitTime, h).

Context (luck : nat).

(** One turn of [while (true)]. *)
Definition human (which : Z) (g : globals) : res (globals * list (cmd label)) :=
  x ← aget (humans g) which;
  if negb (x =? ZOMBIE) then
    let '(r, h) := Random random (host g) in
    let choice := cmod r 2 in
    let '(r, h) := Random random h in
    '(waitTime, h) ← wait_time luck (cmod r 5) h;
    let g := set_host g h in
    hs ← aset (humans g) which choice;
    let g := set_humans g hs in
    if choice =? HIDE then
      Done (hiding which waitTime (say "Human %i is hiding!\n" [which] g))
    else if choice =? RUN then
      Done (say "Human %i got spooked and is running in sheer bloody panic!\n" [which] g,
            [CYield; CGo (humanStuff which)])
    else Done (g, [CGo (humanStuff which)])
  else Done (g, [CGo (zombieStuff which); CFinish; CGo (humanStuff which)]).

Definition main (g : globals) : res (globals * list (cmd label)) :=
  let g := say "Oh snap!  Zombies!  How many unlucky humans? " [] g in
  '(numHumans, h) ← getNumber beyond (host g);
  hs ← new_array numHumans HIDE;
  Done (mkG hs (zombieFlag g) h, CFork (zombieStuff (numHumans + 1)) :: fork_all humanStuff numHumans).

Definition code (l : label) (g : globals) : res (globals * list (cmd label)) :=
  match l with
  | Main => main g
  | zombieStuff which => zombies which g
  | humanStuff which => human which g
  | Hiding which waitTime => Done (hiding which waitTime g)
  end.

End code.
End Zombies.

(** * Spawning threads *)
Module Spawn.
Import Host Threads.

Record globals : Type := mkG { chance : Z; maxThread : Z; host : io }.

Inductive label : Type :=
| Main
| spawn (parent : Z)
| Spawning (parent randomized : Z)                 (* while (randomized <= chance) *)
| Spawned (parent : Z).                            (* after Fork *)

Definition set_host (g : globals) h : globals := mkG (chance g) (maxThread g) h.
Definition say fmt args (g : globals) : globals := set_host g (printf fmt args (host g)).

Section code.
Context (random : nat → Z) (beyond : list Z).

Definition spawning (parent randomized : Z) (g : globals) : globals * list (cmd label) :=
  if randomized <=? chance g then
    let g := mkG (chance g) (s32 (maxThread g + 1)) (host g) in
    let g := say "Thread %i has been born to Thread %i\n" [maxThread g; parent] g in
    (g, [CFork (spawn (maxThread g)); CGo (Spawned parent)])
  else (say "Thread %i has stopped having children.\n" [parent] g, []).

(** [while (chance < 0 && chance <= 99)] is [while (chance < 0)]. *)
Definition main (g : globals) : res (globals * list (cmd label)) :=
  let g := say "Enter the spawn chance (between 1 and 99): " [] g in
  '(n, h) ← ask beyond (host g);
  let g := say "Thread 0 has been born to ***.\n" [] (mkG n 0 h) in
  Done (g, [CFork (spawn 0)]).

Definition code (l : label) (g : globals) : res (globals * list (cmd label)) :=
  match l with
  | Main => main g
  | spawn parent =>
      let '(r, h) := Random random (host g) in
      Done (spawning parent (cmod r 99) (set_host g h))
  | Spawned parent =>
      let '(r, h) := Random random (host g) in
      Done (set_host g h, [CYield; CGo (Spawning parent (cmod r 99))])
  | Spawning parent randomized => Done (spawning parent randomized g)
  end.

End code.
End Spawn.

(** * Dining philosophers, with busy waiting and with semaphores *)
Module Philosophers.
Import Host Threads.

Record globals : Type := mkG {
  numPhilos : Z;
  philoSat : Z;
  numMeals : Z;
  philoAte : Z;
  chopsticks : list sid;
  chops : list bool;
  host : io
}.

(** [sema]: the point is in PhiloSema, otherwise in PhiloBusy. *)
Inductive label : Type :=
| Main
| Philo (sema : bool) (phID : Z)
| Sitting (sema : bool) (phID : Z)                 (* while (philoSat < numPhilos) *)
| Dine (sema : bool) (phID timesToLoop : Z)        (* while (philoAte < numMeals) *)
| Left (phID timesToLoop : Z)                      (* while (!chops[left]) *)
| Right (phID timesToLoop : Z)                     (* while (!chops[right]) *)
| GotLeft (phID timesToLoop : Z)                   (* after chopsticks[left]->P() *)
| GotRight (phID timesToLoop : Z)                  (* after chopsticks[right]->P() *)
| Eating (sema : bool) (phID timesToLoop : Z)      (* the first while (timesToLoop > 0) *)
| PutLeft (phID timesToLoop : Z)                   (* after chopsticks[left]->V() *)
| PutRight (phID timesToLoop : Z)                  (* after chopsticks[right]->V() *)
| Thinking (sema : bool) (phID timesToLoop : Z).   (* the second while (timesToLoop > 0) *)

Definition set_host (g : globals) h : globals :=
  mkG (numPhilos g) (philoSat g) (numMeals g) (philoAte g) (chopsticks g) (chops g) h.
Definition set_philoSat (g : globals) x : globals :=
  mkG (numPhilos g) x (numMeals g) (philoAte g) (chopsticks g) (chops g) (host g).
Definition set_philoAte (g : globals) x : globals :=
  mkG (numPhilos g) (philoSat g) (numMeals g) x (chopsticks g) (chops g) (host g).
Definition set_chops (g : globals) x : globals :=
  mkG (numPhilos g) (philoSat g) (numMeals g) (philoAte g) (chopsticks g) x (host g).
Definition say fmt args (g : globals) : globals := set_host g (printf fmt args (host g)).

(** [left] is [phID]. *)
Definition right (g : globals) (phID : Z) : Z := if numPhilos g <=? phID + 1 then 0 else phID + 1.

Section code.
Context (random : nat → Z) (beyond : list Z).

(** [timesToLoop = Random()%5 + 1] *)
Definition draw (g : globals) : Z * globals :=
  let '(r, h) := Random random (host g) in (cmod r 5 + 1, set_host g h).

Definition thinking (sema : bool) (phID timesToLoop : Z) (g : globals) : globals * list (cmd label) :=
  if 0 <? timesToLoop then
    (say "Philosoraptor %d is thinking, oddly enough.\n" [phID] g,
     [CYield; CGo (Thinking sema phID (timesToLoop - 1))])
  else
    let '(timesToLoop, g) := draw g in
    (g, [CGo (Dine sema phID timesToLoop)]).

(** What follows the meal: in PhiloSema up to the first V. *)
Definition put_down (sema : bool) (phID timesToLoop : Z) (g : globals) : res (globals * list (cmd label)) :=
  if sema then
    s ← aget (chopsticks g) phID;
    Done (g, [CV s; CGo (PutLeft phID timesToLoop)])
  else
    cs ← aset (chops g) phID true;
    let g := say "   Philosoraptor %d has put down his left chopstick(#%d).\n" [phID; phID] (set_chops g cs) in
    cs ← aset (chops g) (right g phID) true;
    let g := say "   Philosoraptor %d has put down his right chopstick(#%d).\n" [phID; right g phID] (set_chops g cs) in
    Done (thinking false phID timesToLoop g).

Definition eating (sema : bool) (phID timesToLoop : Z) (g : globals) : res (globals * list (cmd label)) :=
  if 0 <? timesToLoop then Done (g, [CYield; CGo (Eating sema phID (timesToLoop - 1))])
  else
    let '(timesToLoop, g) := draw g in
    put_down sema phID timesToLoop g.

(** [if (philoAte >= numMeals) ... else ...] *)
Definition meal (sema : bool) (phID timesToLoop : Z) (g : globals) : res (globals * list (cmd label)) :=
  let g := say "   Philosoraptor %d has picked up his right chopstick(#%d).\n" [phID; right g phID] g in
  if numMeals g <=? philoAte g then
    put_down sema phID timesToLoop (say "   But there are no more meals.  Sad day. :(\n" [] g)
  else
    let g := set_philoAte g (philoAte g + 1) in
    let g := say "     %d Philosoraptor(s) has/have nommed so far.\n" [philoAte g] g in
    eating sema phID timesToLoop g.

Definition take_right (phID timesToLoop : Z) (g : globals) : res (globals * list (cmd label)) :=
  free ← aget (chops g) (right g phID);
  if negb free then Done (g, [CYield; CGo (Right phID timesToLoop)])
  else
    cs ← aset (chops g) (right g phID) false;
    meal false phID timesToLoop (set_chops g cs).

Definition take_left (phID timesToLoop : Z) (g : globals) : res (globals * list (cmd label)) :=
  free ← aget (chops g) phID;
  if negb free then Done (g, [CYield; CGo (Left phID timesToLoop)])
  else
    cs ← aset (chops g) phID false;
    take_right phID timesToLoop
      (say "   Philosoraptor %d has picked up his left chopstick(#%d).\n" [phID; phID] (set_chops g cs)).

Definition dine (sema : bool) (phID timesToLoop : Z) (g : globals) : res (globals * list (cmd label)) :=
  if philoAte g <? numMeals g then
    if sema then
      s ← aget (chopsticks g) phID;
      Done (g, [CP s; CGo (GotLeft phID timesToLoop)])
    else take_left phID timesToLoop g
  else Done (say "Philosoraptor %d runs off, stalking new prey.\n" [phID] g, []).

Definition sitting (sema : bool) (phID : Z) (g : globals) : res (globals * list (cmd label)) :=
  if philoSat g <? numPhilos g then Done (g, [CYield; CGo (Sitting sema phID)])
  else
    let g := if philoSat g =? numPhilos g then
               let g := say "All philosoraptors are here, surprisingly.\n\n" [] g in
               set_philoSat g (philoSat g + 1)
             else g in
    let '(timesToLoop, g) := draw g in
    dine sema phID timesToLoop g.

(** The branch for 4 and 5: [threadChoice == 2] is tested in it all the same. *)
Definition main (threadChoice : Z) (g : globals) : res (globals * list (cmd label)) :=
  let g := mkG 0 0 0 0 (chopsticks g) (chops g) (host g) in
  let g := say "How many philosoraptors dining today? " [] g in
  '(n, h) ← getNumber beyond (host g);
  let g := say "And how many meals? " [] (mkG n 0 0 0 (chopsticks g) (chops g) h) in
  '(m, h) ← getNumber beyond (host g);
  _ ← new_array n ();
  let g := mkG n 0 m 0 (seq 0 (Z.to_nat n)) (chops g) h in
  if threadChoice =? 2 then Done (g, fork_all (Philo true) n)
  else
    cs ← new_array n true;
    Done (set_chops g cs, fork_all (Philo false) n).

Definition code (threadChoice : Z) (l : label) (g : globals) : res (globals * list (cmd label)) :=
  match l with
  | Main => main threadChoice g
  | Philo sema phID =>
      let g := say "Philosoraptor %d has staggered in.\n" [phID] g in
      sitting sema phID (set_philoSat g (philoSat g + 1))
  | Sitting sema phID => sitting sema phID g
  | Dine sema phID timesToLoop => dine sema phID timesToLoop g
  | Left phID timesToLoop => take_left phID timesToLoop g
  | Right phID timesToLoop => take_right phID timesToLoop g
  | GotLeft phID timesToLoop =>
      let g := say "   Philosoraptor %d has picked up his left chopstick(#%d).\n" [phID; phID] g in
      s ← aget (chopsticks g) (right g phID);
      Done (g, [CP s; CGo (GotRight phID timesToLoop)])
  | GotRight phID timesToLoop => meal true phID timesToLoop g
  | Eating sema phID timesToLoop => eating sema phID timesToLoop g
  | PutLeft phID timesToLoop =>
      let g := say "   Philosoraptor %d has put down his left chopstick(#%d).\n" [phID; phID] g in
      s ← aget (chopsticks g) (right g phID);
      Done (g, [CV s; CGo (PutRight phID timesToLoop)])
  | PutRight phID timesToLoop =>
      let g := say "   Philosoraptor %d has put down his right chopstick(#%d).\n" [phID; right g phID] g in
      Done (thinking true phID timesToLoop g)
  | Thinking sema phID timesToLoop => Done (thinking sema phID timesToLoop g)
  end.

End code.
End Philosophers.

(** * The rock band *)
Module RockBand.
Import Host Threads.

Inductive rockBand : Type := READYTOPLAY | NOTREADY | SPECTATOR | WANTING.

#[export] Instance rockBand_eq_dec : EqDecision rockBand.
Proof. solve_decision. Defined.

Definition NOTTAKEN : Z := 0.
Definition TAKEN : Z := 1.

Record globals : Type := mkG {
  players : list rockBand;
  instruments : list Z;
  songsPlayed : Z;
  numPlayers : Z;
  numSongs : Z;
  numIns : Z;
  numSpecs : Z;
  specFlag : bool;
  songFlag : bool;
  incrementFlag : bool;
  arrivalFlag : bool;
  numReady : Z;
  leaving : Z;
  leavingFlag : bool;
  host : io
}.

(** [new Semaphore("Blah!", 1)], the only semaphore of the demonstration. *)
Definition getInstrument : sid := 0%nat.

Inductive label : Type :=
| Main
| Enter (threadNum : Z)
| Arriving (threadNum temp : Z)        (* while (!arrivalFlag) *)
| Songs (threadNum temp : Z)           (* while (songsPlayed < numSongs) *)
| Picking (threadNum : Z)              (* after the first getInstrument->P() *)
| Gathering (threadNum temp : Z)       (* while (!RockCheck()) *)
| Playing (threadNum temp : Z)         (* while (!songFlag) *)
| Dropping (threadNum temp : Z)        (* after the second getInstrument->P() *)
| Dropped (threadNum temp : Z)         (* after the Yield that follows its V() *)
| Checking (threadNum temp : Z)        (* the loop of ReadyCheck *)
| Clearing (threadNum temp : Z)        (* numReady = 0 *)
| Leaving (threadNum : Z).             (* while (leaving < numPlayers && !leavingFlag) *)

Section fields.
Implicit Types g : globals.
Definition set_players g x : globals := mkG x (instruments g) (songsPlayed g) (numPlayers g) (numSongs g) (numIns g) (numSpecs g) (specFlag g) (songFlag g) (incrementFlag g) (arrivalFlag g) (numReady g) (leaving g) (leavingFlag g) (host g).
Definition set_instruments g x : globals := mkG (players g) x (songsPlayed g) (numPlayers g) (numSongs g) (numIns g) (numSpecs g) (specFlag g) (songFlag g) (incrementFlag g) (arrivalFlag g) (numReady g) (leaving g) (leavingFlag g) (host g).
Definition set_numSpecs g x : globals := mkG (players g) (instruments g) (songsPlayed g) (numPlayers g) (numSongs g) (numIns g) x (specFlag g) (songFlag g) (incrementFlag g) (arrivalFlag g) (numReady g) (leaving g) (leavingFlag g) (host g).
Definition set_specFlag g x : globals := mkG (players g) (instruments g) (songsPlayed g) (numPlayers g) (numSongs g) (numIns g) (numSpecs g) x (songFlag g) (incrementFlag g) (arrivalFlag g) (numReady g) (leaving g) (leavingFlag g) (host g).
Definition set_songFlag g x : globals := mkG (players g) (instruments g) (songsPlayed g) (numPlayers g) (numSongs g) (numIns g) (numSpecs g) (specFlag g) x (incrementFlag g) (arrivalFlag g) (numReady g) (leaving g) (leavingFlag g) (host g).
Definition set_songsPlayed g x : globals := mkG (players g) (instruments g) x (numPlayers g) (numSongs g) (numIns g) (numSpecs g) (specFlag g) (songFlag g) (incrementFlag g) (arrivalFlag g) (numReady g) (leaving g) (leavingFlag g) (host g).
Definition set_incrementFlag g x : globals := mkG (players g) (instruments g) (songsPlayed g) (numPlayers g) (numSongs g) (numIns g) (numSpecs g) (specFlag g) (songFlag g) x (arrivalFlag g) (numReady g) (leaving g) (leavingFlag g) (host g).
Definition set_arrivalFlag g x : globals := mkG (players g) (instruments g) (songsPlayed g) (numPlayers g) (numSongs g) (numIns g) (numSpecs g) (specFlag g) (songFlag g) (incrementFlag g) x (numReady g) (leaving g) (leavingFlag g) (host g).
Definition set_numReady g x : globals := mkG (players g) (instruments g) (songsPlayed g) (numPlayers g) (numSongs g) (numIns g) (numSpecs g) (specFlag g) (songFlag g) (incrementFlag g) (arrivalFlag g) x (leaving g) (leavingFlag g) (host g).
Definition set_leaving g x : globals := mkG (players g) (instruments g) (songsPlayed g) (numPlayers g) (numSongs g) (numIns g) (numSpecs g) (specFlag g) (songFlag g) (incrementFlag g) (arrivalFlag g) (numReady g) x (leavingFlag g) (host g).
Definition set_leavingFlag g x : globals := mkG (players g) (instruments g) (songsPlayed g) (numPlayers g) (numSongs g) (numIns g) (numSpecs g) (specFlag g) (songFlag g) (incrementFlag g) (arrivalFlag g) (numReady g) (leaving g) x (host g).
Definition set_host g x : globals := mkG (players g) (instruments g) (songsPlayed g) (numPlayers g) (numSongs g) (numIns g) (numSpecs g) (specFlag g) (songFlag g) (incrementFlag g) (arrivalFlag g) (numReady g) (leaving g) (leavingFlag g) x.
Definition say fmt args g : globals := set_host g (printf fmt args (host g)).

(** [for (i = ...; i < numPlayers; i++)], [n] turns left. *)
Fixpoint RockCheck_loop (n : nat) (i : Z) (ps : list rockBand) : res bool :=
  match n with
  | O => Done true
  | S n =>
      p ← aget ps i;
      if bool_decide (p = NOTREADY) || bool_decide (p = WANTING) then Done false
      else RockCheck_loop n (i + 1) ps
  end.

Definition RockCheck g : res bool := RockCheck_loop (Z.to_nat (numPlayers g)) 0 (players g).

Definition count_specs g : res Z :=
  for_up (Z.to_nat (numPlayers g)) 0
    (λ i n, p ← aget (players g) i; Done (if bool_decide (p = SPECTATOR) then n + 1 else n)) 0.

End fields.

Section code.
Context (random : nat → Z) (beyond : list Z).
Implicit Types g : globals.

(** From the end of the big loop. *)
Definition leaving_loop (threadNum : Z) g : globals * list (cmd label) :=
  if (leaving g <? numPlayers g) && negb (leavingFlag g) then (g, [CYield; CGo (Leaving threadNum)])
  else
    let g := say "Thread %i has dropped the mic and left.\n" [threadNum] g in
    let g := set_leaving g (s32 (leaving g - 1)) in
    (if leaving g =? 0 then say "All threads have skedaddled.\n" [] g else g, []).

Definition leave_band (threadNum : Z) g : globals * list (cmd label) :=
  let g := set_leaving g (s32 (leaving g + 1)) in
  let g := if leaving g =? numPlayers g then
             set_leavingFlag (say "All threads are ready to leave!\n" [] g) true
           else g in
  leaving_loop threadNum g.

Definition checking (threadNum temp : Z) g : globals * list (cmd label) :=
  if numReady g <? numPlayers g then (g, [CYield; CGo (Checking threadNum temp)])
  else if numReady g =? numPlayers g then (g, [CYield; CGo (Clearing threadNum temp)])
  else (g, [CGo (Clearing threadNum temp)]).

(** ReadyCheck from its start. *)
Definition ReadyCheck (threadNum temp : Z) g : globals * list (cmd label) :=
  checking threadNum temp (set_numReady g (s32 (numReady g + 1))).

(** From the [if (!incrementFlag)]. *)
Definition song_over (threadNum temp : Z) g : res (globals * list (cmd label)) :=
  let g := if negb (incrementFlag g) then
             let g := set_songsPlayed g (s32 (songsPlayed g + 1)) in
             set_incrementFlag (say "*** Total songs played: %i\n" [songsPlayed g] g) true
           else g in
  p ← aget (players g) threadNum;
  if bool_decide (p = READYTOPLAY) then Done (g, [CP getInstrument; CGo (Dropping threadNum temp)])
  else if bool_decide (p = SPECTATOR) then
    ps ← aset (players g) threadNum NOTREADY;
    Done (ReadyCheck threadNum temp (set_players g ps))
  else Done (ReadyCheck threadNum temp g).

Definition playing (threadNum temp : Z) g : res (globals * list (cmd label)) :=
  if negb (songFlag g) then
    p ← aget (players g) threadNum;
    let g := if bool_decide (p = SPECTATOR) then
               if 1 <? numSpecs g then
                 let g := say "%i, " [threadNum] g in set_numSpecs g (s32 (numSpecs g - 1))
               else if numSpecs g =? 1 then set_songFlag (say "%i!\n" [threadNum] g) true
               else g
             else g in
    Done (g, [CYield; CGo (Playing threadNum temp)])
  else song_over threadNum temp g.

Definition gathering (threadNum temp : Z) g : res (globals * list (cmd label)) :=
  ok ← RockCheck g;
  if negb ok then Done (g, [CYield; CGo (Gathering threadNum temp)])
  else
    g ← (if negb (specFlag g) then
           n ← count_specs g;
           Done (set_specFlag (set_numSpecs (say "Spectators: " [] g) n) true)
         else Done g);
    let g := if numSpecs g =? 0 then set_songFlag (say "none.\n" [] g) true else g in
    playing threadNum temp g.

Definition picking (threadNum : Z) g : res (globals * list (cmd label)) :=
  if numIns g =? 0 then Undef
  else
    let '(r, h) := Random random (host g) in
    let g := set_host g h in
    let temp := cmod r (numIns g) in
    x ← aget (instruments g) temp;
    g ← (if negb (x =? TAKEN) then
           let g := say "Thread %i took instrument %i!\n" [threadNum; temp] g in
           ins ← aset (instruments g) temp TAKEN;
           ps ← aset (players g) threadNum READYTOPLAY;
           Done (set_players (set_instruments g ins) ps)
         else
           ps ← aset (players g) threadNum SPECTATOR;
           Done (set_players g ps));
    Done (g, [CV getInstrument; CGo (Gathering threadNum temp)]).

Definition songs (threadNum temp : Z) g : res (globals * list (cmd label)) :=
  if songsPlayed g <? numSongs g then
    let '(r, h) := Random random (host g) in
    let g := set_host g h in
    if cmod r 99 <? 50 then
      ps ← aset (players g) threadNum WANTING;
      Done (set_players g ps, [CP getInstrument; CGo (Picking threadNum)])
    else
      ps ← aset (players g) threadNum SPECTATOR;
      gathering threadNum temp (set_players g ps)
  else Done (leave_band threadNum g).

Definition arriving (threadNum temp : Z) g : res (globals * list (cmd label)) :=
  if negb (arrivalFlag g) then Done (g, [CYield; CGo (Arriving threadNum temp)])
  else songs threadNum temp g.

Definition enter (threadNum : Z) g : res (globals * list (cmd label)) :=
  let temp := 0 in
  let g := say "Thread %i has arrived!\n" [threadNum] g in
  if threadNum =? numPlayers g - 1 then
    let g := say "All threads are here!  Let's rock!\n" [] g in
    Done (set_arrivalFlag g true, [CYield; CGo (Arriving threadNum temp)])
  else arriving threadNum temp g.

Definition main g : res (globals * list (cmd label)) :=
  let g := say "Thread Rock Band!  How many players? " [] g in
  '(np, h) ← getNumber beyond (host g);
  let g := say "How many instruments? " [] (set_host g h) in
  '(ni, h) ← getNumber beyond (host g);
  let g := say "How many songs? " [] (set_host g h) in
  '(ns, h) ← getNumber beyond (host g);
  ps ← new_array np NOTREADY;
  ins ← new_array ni NOTTAKEN;
  Done (mkG ps ins 0 np ns ni (numSpecs g) false false false false 0 (leaving g) false h,
        fork_all Enter np).

Definition code (l : label) g : res (globals * list (cmd label)) :=
  match l with
  | Main => main g
  | Enter threadNum => enter threadNum g
  | Arriving threadNum temp => arriving threadNum temp g
  | Songs threadNum temp => songs threadNum temp g
  | Picking threadNum => picking threadNum g
  | Gathering threadNum temp => gathering threadNum temp g
  | Playing threadNum temp => playing threadNum temp g
  | Dropping threadNum temp =>
      let g := say "Thread %i dropped instrument %i!\n" [threadNum; temp] g in
      ins ← aset (instruments g) temp NOTTAKEN;
      Done (set_instruments g ins, [CV getInstrument; CYield; CGo (Dropped threadNum temp)])
  | Dropped threadNum temp =>
      ps ← aset (players g) threadNum NOTREADY;
      Done (ReadyCheck threadNum temp (set_players g ps))
  | Checking threadNum temp => Done (checking threadNum temp g)
  | Clearing threadNum temp =>
      let g := set_numReady g 0 in
      let g := set_specFlag (set_songFlag (set_incrementFlag g false) false) false in
      Done (g, [CGo (Songs threadNum temp)])
  | Leaving threadNum => Done (leaving_loop threadNum g)
  end.

End code.
End RockBand.

(** * Running a demonstration on the kernel: the globals and the machine *)
#[export] Program Instance pair_HasMachine (G : Type) : HasMachine (G * Machine.t) := {
  machine e := e.2;
  put_machine m e := (e.1, m)
}.
Next Obligation. done. Qed.

#[export] Program Instance pair_HasEnv (G : Type) : HasEnv (G * Machine.t) G := { env := fst }.
Next Obligation. done. Qed.

Definition program {L G : Type} (code : L → G → res (G * list (Threads.cmd L)))
    (l : L) (_ : Threads.tid) (e : G * Machine.t) : res (G * Machine.t * list (Threads.cmd L)) :=
  '(g, cs) ← code l e.1;
  Done (g, e.2, cs).
