(* ===== verification/ThreadTestSpec.v ===== *)
(** ThreadTestSpec: what the demonstrations of ThreadTest.v keep to, in every state that a
    run of the kernel reaches, whatever the timer and the scheduler do. *)
From Stdlib Require Import String.
From S2P Require Import Prelude Lists Machine AddrSpace Interrupt Threads Interleave ThreadTest.

(** * Threads that hold things
    A thread's stack has one program point on it, and what the thread holds is a function
    of that point and the globals. *)
Module Pool.
Import Interrupt Threads Interleave.

Section pool.
Context {L G : Type}.
Implicit Types (ws cs : list (cmd L)) (g : G).
Abbreviation pool := (gmap tid (list (cmd L))).

Definition is_go (c : cmd L) : bool := match c with CGo _ => true | _ => false end.

Definition quiet ws : Prop := Forall (λ c, is_go c = false) ws.

Fixpoint single ws : Prop :=
  match ws with
  | [] => True
  | CGo _ :: ws => quiet ws
  | _ :: ws => single ws
  end.

Fixpoint point ws : option L :=
  match ws with
  | [] => None
  | CGo l :: _ => Some l
  | _ :: ws => point ws
  end.

(** Finish is the last call of a thread. *)
Fixpoint ends ws : Prop :=
  match ws with
  | [] => False
  | CFinish :: ws => ws = []
  | _ :: ws => ends ws
  end.

Lemma ends_app cs ws : CFinish ∉ cs → ends ws → ends (cs ++ ws).
Proof.
  induction cs as [|c cs IH]; intros Hc He; [done|]. apply not_elem_of_cons in Hc as [Hne Hc].
  destruct c; cbn; auto. done.
Qed.

Lemma quiet_point ws : quiet ws → point ws = None.
Proof. induction 1 as [|c ws Hc _ IH]; [done|]. by destruct c. Qed.

Lemma point_app cs ws : quiet ws → point (cs ++ ws) = point cs.
Proof. intros Hq. induction cs as [|c cs IH]; [by apply quiet_point|]. by destruct c. Qed.

Lemma quiet_single ws : quiet ws → single ws.
Proof. induction 1 as [|c ws Hc _ IH]; [done|]. by destruct c. Qed.

Lemma single_app cs ws : single cs → quiet ws → single (cs ++ ws).
Proof.
  induction cs as [|c cs IH]; intros Hs Hq; [by apply quiet_single|].
  destruct c; cbn in *; auto. by apply Forall_app.
Qed.

Lemma single_tail c ws : single (c :: ws) → single ws.
Proof. destruct c; try done. apply quiet_single. Qed.

(** ** Exclusion *)
Context (taken : G → Z → Prop) (hold : G → L → list Z).

Definition held g ws : list Z := match point ws with Some l => hold g l | None => [] end.

Record excl g (P : pool) : Prop := {
  ex_single : ∀ t ws, P !! t = Some ws → single ws;
  ex_taken : ∀ t ws j, P !! t = Some ws → j ∈ held g ws → taken g j;
  ex_apart : ∀ t t' ws ws' j, t ≠ t' → P !! t = Some ws → P !! t' = Some ws' →
    j ∈ held g ws → j ∉ held g ws'
}.

(** A thread goes from [ws] to [ws']: what it gets was free, and it releases only what it
    held. *)
Lemma excl_move g g' P t ws ws' :
  excl g P → P !! t = Some ws → single ws' →
  (∀ j, j ∈ held g' ws' → taken g' j ∧ (j ∈ held g ws ∨ ¬ taken g j)) →
  (∀ j, taken g j → j ∉ held g ws → taken g' j) →
  (∀ t2 ws2, t ≠ t2 → P !! t2 = Some ws2 → held g' ws2 = held g ws2) →
  excl g' (<[t := ws']> P).
Proof.
  intros [Hs Ht Ha] HP Hs' Hnew Hkeep Hframe.
  assert (Hother : ∀ t2 ws2 j, t ≠ t2 → P !! t2 = Some ws2 → j ∈ held g ws2 → j ∉ held g' ws').
  { intros t2 ws2 j Hne H2 Hj [_ [Hj'|Hj']]%Hnew; [exact (Ha _ _ _ _ _ Hne HP H2 Hj' Hj)|]. apply Hj'. by eapply Ht. }
  split.
  - intros t1 ws1 [[_ <-]|[_ H1]]%lookup_insert_Some; eauto.
  - intros t1 ws1 j [[_ <-]|[Hne H1]]%lookup_insert_Some Hj; [by apply Hnew|].
    rewrite (Hframe t1 ws1) in Hj by done. apply Hkeep; [by eapply Ht|]. intros Hj'. by apply (Ha t t1 ws ws1 j).
  - intros t1 t2 ws1 ws2 j Hne [[<- <-]|[Hne1 H1]]%lookup_insert_Some [[<- <-]|[Hne2 H2]]%lookup_insert_Some; [done|..].
    + rewrite (Hframe t2 ws2) by done. intros Hj Hj2. by apply (Hother t2 ws2 j).
    + rewrite (Hframe t1 ws1) by done. intros Hj. by apply (Hother t1 ws1 j).
    + rewrite (Hframe t1 ws1), (Hframe t2 ws2) by done. by apply Ha with t1 t2.
Qed.

(** A call that is no program point. *)
Lemma excl_call g P t c ws : excl g P → P !! t = Some (c :: ws) → is_go c = false → excl g (<[t := ws]> P).
Proof.
  intros He HP Hc. assert (Hh : held g (c :: ws) = held g ws) by (unfold held; by destruct c).
  eapply excl_move; [done|exact HP|by eapply single_tail, ex_single|..]; [|done..].
  rewrite Hh. intros j Hj. split; [|by left]. eapply (ex_taken _ _ He); [done|]. by rewrite Hh.
Qed.

Lemma excl_fork g P t ws : excl g P → P !! t = None → single ws → held g ws = [] → excl g (<[t := ws]> P).
Proof.
  intros [Hs Ht Ha] HP Hw Hn. split.
  - intros t1 ws1 [[_ <-]|[_ H1]]%lookup_insert_Some; eauto.
  - intros t1 ws1 j [[_ <-]|[_ H1]]%lookup_insert_Some; [rewrite Hn; set_solver|eauto].
  - intros t1 t2 ws1 ws2 j Hne [[<- <-]|[Hne1 H1]]%lookup_insert_Some [[<- <-]|[Hne2 H2]]%lookup_insert_Some;
      rewrite ?Hn; [done|set_solver|set_solver|eauto].
Qed.

Lemma excl_finish g P t : excl g P → excl g (delete t P).
Proof.
  intros [Hs Ht Ha]. split.
  - intros t1 ws1 [_ H1]%lookup_delete_Some. eauto.
  - intros t1 ws1 j [_ H1]%lookup_delete_Some. eauto.
  - intros t1 t2 ws1 ws2 j Hne [_ H1]%lookup_delete_Some [_ H2]%lookup_delete_Some. eauto.
Qed.

(** ** Threads with numbers: each number belongs to one thread, or to one that is to be made *)
Context (who : L → list Z).

Definition ids ws : list Z := ws ≫= (λ c, match c with CGo l | CFork l => who l | _ => [] end).

Record numbered (P : pool) : Prop := {
  nb_nodup : ∀ t ws, P !! t = Some ws → NoDup (ids ws);
  nb_apart : ∀ t t' ws ws' i, t ≠ t' → P !! t = Some ws → P !! t' = Some ws' → i ∈ ids ws → i ∉ ids ws'
}.

Lemma ids_app cs ws : ids (cs ++ ws) = ids cs ++ ids ws.
Proof. apply bind_app. Qed.

Lemma point_ids ws l i : point ws = Some l → i ∈ who l → i ∈ ids ws.
Proof.
  unfold ids. induction ws as [|c ws IH]; [done|]. intros Hp Hi. rewrite bind_cons, elem_of_app.
  destruct c; cbn in Hp; simplify_eq; [by left|right; auto..].
Qed.

Lemma numbered_move P t ws ws' :
  numbered P → P !! t = Some ws → ids ws' `sublist_of` ids ws → numbered (<[t := ws']> P).
Proof.
  intros [Hn Ha] HP Hs.
  assert (Hin : ∀ i, i ∈ ids ws' → i ∈ ids ws) by (intros i Hi; by eapply elem_of_sublist).
  split.
  - intros t1 ws1 [[_ <-]|[_ H1]]%lookup_insert_Some; [|eauto]. eapply sublist_NoDup; eauto.
  - intros t1 t2 ws1 ws2 i Hne [[<- <-]|[Hne1 H1]]%lookup_insert_Some [[<- <-]|[Hne2 H2]]%lookup_insert_Some Hi;
      [done|by apply (Ha t t2 ws ws2); auto| |by apply (Ha t1 t2 ws1 ws2)].
    intros Hi'. exact (Ha t1 t ws1 ws i Hne H1 HP Hi (Hin _ Hi')).
Qed.

Lemma numbered_fork P t l ws t' :
  numbered P → P !! t = Some (CFork l :: ws) → P !! t' = None →
  numbered (<[t' := [CGo l; CFinish]]> (<[t := ws]> P)).
Proof.
  intros Hnb HP HP'. pose proof (nb_nodup _ Hnb _ _ HP) as Hnd. change (NoDup (who l ++ ids ws)) in Hnd.
  apply NoDup_app in Hnd as (Hl & Hlw & Hw).
  assert (Hid : ids [CGo l; CFinish] = who l) by apply app_nil_r.
  assert (Hmv : numbered (<[t := ws]> P)).
  { eapply numbered_move; [done|exact HP|]. apply sublist_inserts_l. done. }
  assert (Hfresh : ∀ t2 ws2 i, <[t := ws]> P !! t2 = Some ws2 → i ∈ ids ws2 → i ∉ who l).
  { intros t2 ws2 i [[<- <-]|[Hne H2]]%lookup_insert_Some Hi Hi'; [by eapply Hlw|].
    eapply (nb_apart _ Hnb t t2 _ _ i Hne HP H2); [|done]. apply elem_of_app. by left. }
  destruct Hmv as [Hn Ha]. split.
  - intros t1 ws1 [[_ <-]|[_ H1]]%lookup_insert_Some; [by rewrite Hid|eauto].
  - intros t1 t2 ws1 ws2 i Hne [[<- <-]|[Hne1 H1]]%lookup_insert_Some [[<- <-]|[Hne2 H2]]%lookup_insert_Some;
      rewrite ?Hid; [done|..|by apply (Ha t1 t2)].
    + intros Hi Hi2. by apply (Hfresh t2 ws2 i).
    + intros Hi. by apply (Hfresh t1 ws1 i).
Qed.

Lemma numbered_finish P t : numbered P → numbered (delete t P).
Proof.
  intros [Hn Ha]. split.
  - intros t1 ws1 [_ H1]%lookup_delete_Some. eauto.
  - intros t1 t2 ws1 ws2 j Hne [_ H1]%lookup_delete_Some [_ H2]%lookup_delete_Some. eauto.
Qed.

(** The calls of [Main]. *)
Lemma calls_fork_all (f : Z → L) n : calls (fork_all f n) = fork_all f n.
Proof. unfold calls, fork_all. induction (seqZ 0 n) as [|i l IH]; [done|]. cbn. by f_equal. Qed.

Lemma quiet_fork_all (f : Z → L) n : quiet (fork_all f n).
Proof. unfold fork_all. apply Forall_fmap, Forall_true. done. Qed.

Lemma fork_all_Forall (f : Z → L) n (Q : cmd L → Prop) :
  (∀ i, 0 ≤ i < n → Q (CFork (f i))) → Forall Q (fork_all f n).
Proof.
  intros HQ. unfold fork_all. apply Forall_fmap, Forall_forall. intros i Hi%elem_of_seqZ. apply HQ. lia.
Qed.

Lemma fork_all_cons (f : Z → L) n : 0 < n → ∃ cs, fork_all f n = CFork (f 0) :: cs.
Proof. intros Hn. unfold fork_all. rewrite seqZ_cons by done. by eexists. Qed.

Lemma numbered_singleton t ws : NoDup (ids ws) → numbered {[t := ws]}.
Proof.
  intros Hn. split.
  - by intros t1 ws1 [_ <-]%lookup_singleton_Some.
  - by intros t1 t2 ws1 ws2 j Hne [<- <-]%lookup_singleton_Some [<- <-]%lookup_singleton_Some.
Qed.

Lemma ids_fork_all (f : Z → L) n : (∀ i, who (f i) = [i]) → ids (fork_all f n ++ [CFinish]) = seqZ 0 n.
Proof.
  intros Hw. rewrite ids_app. cbn. rewrite app_nil_r. unfold ids, fork_all.
  induction (seqZ 0 n) as [|i l IH]; [done|]. cbn. rewrite Hw. cbn. by f_equal.
Qed.

(** A pool of one thread that holds nothing. *)
Lemma excl_singleton g t ws : quiet ws → excl g {[t := ws]}.
Proof.
  intros Hq. assert (Hn : held g ws = []) by (unfold held; by rewrite quiet_point).
  split.
  - intros t1 ws1 [_ <-]%lookup_singleton_Some. by apply quiet_single.
  - intros t1 ws1 j [_ <-]%lookup_singleton_Some. rewrite Hn. by intros []%elem_of_nil.
  - by intros t1 t2 ws1 ws2 j Hne [<- <-]%lookup_singleton_Some [<- <-]%lookup_singleton_Some.
Qed.

End pool.

(** ** What every step of the programs keeps, semaphores apart *)
Section keeps.
Context {L G : Type} (code : L → G → res (G * list (cmd L))).
Abbreviation pool := (gmap tid (list (cmd L))).

Record kept (I : G → pool → Prop) : Prop := {
  kp_go g P t l ws g' cs :
    I g P → P !! t = Some (CGo l :: ws) → code l g = Done (g', cs) → I g' (<[t := calls cs ++ ws]> P);
  kp_fork g P t l ws t' :
    I g P → P !! t = Some (CFork l :: ws) → P !! t' = None →
    I g (<[t' := [CGo l; CFinish]]> (<[t := ws]> P));
  kp_sem g P t c ws s : c = CP s ∨ c = CV s → I g P → P !! t = Some (c :: ws) → I g (<[t := ws]> P);
  kp_finish g P t ws : I g P → P !! t = Some (CFinish :: ws) → I g (delete t P)
}.

Lemma program_Done l t e e' cs :
  program code l t e = Done (e', cs) → code l e.1 = Done (e'.1, cs).
Proof. unfold program. intros Hp. inv_res. destruct r. by inv_res; simplify_eq. Qed.

Lemma kept_step I v v' : kept I → I (v_env v) (v_todo v) → astep (program code) v v' → I (v_env v') (v_todo v').
Proof.
  intros [Hgo Hfork Hsem Hfin] Hi Hs. destruct Hs as [e P S t l ws e' cs HP Hcl|g P S t l ws t' HP HP'|g P S t s ws x HP _ _
    |g P S t s ws x HP _|g P S t ws HP]; cbn in *.
  - apply program_Done in Hcl. exact (Hgo _ _ _ _ _ _ _ Hi HP Hcl).
  - eauto.
  - by apply (Hsem _ _ _ (CP s) _ s); [left|..].
  - by apply (Hsem _ _ _ (CV s) _ s); [right|..].
  - eauto.
Qed.

(** The calls of a piece of code, found by going through its branches. *)
Definition calm (m : res (G * list (cmd L))) : Prop := ∀ g cs, m = Done (g, cs) → Forall basic cs.

Lemma calm_Done g cs : Forall basic cs → calm (Done (g, cs)).
Proof. intros Hb g' cs' [= <- <-]. done. Qed.

Lemma calm_bind {A} (m : res A) f : (∀ a, calm (f a)) → calm (m ≫= f).
Proof. intros Hf g cs Hm. inv_res. by eapply Hf. Qed.

Lemma calm_client : (∀ l g, calm (code l g)) → BasicClient (program code).
Proof. intros Hc l t e e' cs Hp%program_Done. by eapply Hc. Qed.

Lemma fork_all_basic (f : Z → L) n : Forall basic (fork_all f n).
Proof. by apply fork_all_Forall. Qed.

Context {H : Type} (call : H → sys H (kst L (G * Machine.t)) → res (sys H (kst L (G * Machine.t)))).
Context `{!QuietHandlers (G := G) call} `{!BasicClient (program code)}.
Context (new_thread : gset tid → tid) (new_fresh : ∀ X, new_thread X ∉ X).

Abbreviation runs k0 k := (rtc (steps call (program code) new_thread) k0 k).

(** On the kernel: the invariant holds once [Main] has been run. *)
Lemma kernel_keeps I y h r (main : L) ss g0 m k0 k :
  kept I →
  (∀ g' cs, code main g0 = Done (g', cs) → I g' {[0%nat := calls cs ++ [CFinish]]}) →
  Initialize (H := H) y h r main ss (g0, m) = Done k0 → runs k0 k →
  (v_env (look (dev k)) = g0 ∧ v_todo (look (dev k)) = {[0%nat := [CGo main; CFinish]]}) ∨
  I (v_env (look (dev k))) (v_todo (look (dev k))).
Proof.
  intros Hk Hm Hi Hr.
  apply (Initialize_keeps call _ new_thread new_fresh (λ v,
    (v_env v = g0 ∧ v_todo v = {[0%nat := [CGo main; CFinish]]}) ∨ I (v_env v) (v_todo v)) _ _ _ _ _ _ _ _ Hi Hr).
  - by left.
  - intros v v' [[Hg HP]|HI] Hs; [|right; by eapply kept_step].
    right. destruct Hs as [e P S t l ws e' cs Ht Hcl|g P S t l ws t' Ht _|g P S t s ws x Ht _ _
      |g P S t s ws x Ht _|g P S t ws Ht]; cbn in *; subst; apply lookup_singleton_Some in Ht as [<- Ht]; simplify_eq.
    apply program_Done in Hcl. rewrite insert_singleton_eq. by apply Hm.
Qed.

(** ** Threads that wait for each other for ever *)

(** The thread looks, finds nothing changed, and yields. *)
Definition parked (g : G) (ws : list (cmd L)) : Prop :=
  ∃ l post, ws = CGo l :: post ∧ code l g = Done (g, [CYield; CGo l]).

Lemma parked_step v v' :
  (∀ t ws, v_todo v !! t = Some ws → parked (v_env v) ws) → astep (program code) v v' → v' = v.
Proof.
  intros Hp Hs. destruct Hs as [e P S t l ws e' cs HP Hcl|g P S t l ws t' HP _|g P S t s ws x HP _ _
    |g P S t s ws x HP _|g P S t ws HP]; destruct (Hp _ _ HP) as (l0 & post & Heq & Hc); [|done..].
  injection Heq as <- <-. apply program_Done in Hcl. cbn in Hc. rewrite Hc in Hcl. injection Hcl as He <-. cbn.
  rewrite He. f_equal. by apply insert_id.
Qed.

Lemma parked_for_ever y h r main ss e k0 k k' :
  Initialize (H := H) y h r main ss e = Done k0 → runs k0 k →
  (∀ t ws, v_todo (look (dev k)) !! t = Some ws → parked (v_env (look (dev k))) ws) →
  runs k k' → look (dev k') = look (dev k).
Proof.
  intros Hi Hr Hp Hr'. pose proof (reached_interleaves call _ new_thread new_fresh _ _ _ _ _ _ _ _ _ Hi Hr Hr') as Ha.
  induction Ha as [|v v1 v' H1 _ IH]; [done|]. pose proof (parked_step _ _ Hp H1) as ->. auto.
Qed.

End keeps.

Create HintDb calm.

Ltac calm_steps :=
  cbv zeta;
  repeat match goal with
  | |- _ => solve [auto with calm nocore]
  | |- calm (_ ≫= _) => apply calm_bind; intros
  | |- calm (Done (_, _)) => apply calm_Done; first [by repeat constructor | apply fork_all_basic | constructor; [done|apply fork_all_basic]]
  | |- calm (let '(_, _) := ?x in _) => destruct x
  | |- calm (Done (if ?b then _ else _)) => destruct b
  | |- calm (Done (let '(_, _) := ?x in _)) => destruct x
  | |- calm (match ?x with _ => _ end) => destruct x
  | |- calm _ => by intros ?
  end.
End Pool.

(** * getNumber *)
Module HostSpec.
Import Host.

Section host.
Context (beyond : list Z).

(** What is asked for is never 0: -1 for an error, otherwise 1 to 1000. *)
Lemma getNumber_loop_range fuel r h n h' :
  r ≤ 1000 → getNumber_loop beyond fuel r h = Done (n, h') → n = -1 ∨ 1 ≤ n ≤ 1000.
Proof.
  revert r h. induction fuel as [|fuel IH]; intros r h Hr Hg; cbn in Hg; destruct (r <? 1) eqn:Hlt; simplify_tests.
  - done.
  - inv_res. simplify_eq. lia.
  - destruct (getchar h) as [c h1]. inv_res. destruct r0 as [[r1|] h2]; [|inv_res; simplify_eq; by left].
    destruct (_ || _) eqn:Hb; simplify_tests; (eapply IH; [|eassumption]); lia.
  - inv_res. simplify_eq. lia.
Qed.

Lemma getNumber_range h n h' : getNumber beyond h = Done (n, h') → n = -1 ∨ 1 ≤ n ≤ 1000.
Proof. by apply getNumber_loop_range. Qed.

End host.
End HostSpec.

(** * The philosophers *)
Module PhiloSpec.
Import Host HostSpec Interrupt Threads Interleave Pool Philosophers.

(** The chopsticks a philosopher has in his hands. *)
Definition hold (g : globals) (l : label) : list Z :=
  match l with
  | Right phID _ => [phID]
  | Eating false phID _ => [phID; right g phID]
  | _ => []
  end.

Definition taken_in (cs : list bool) (j : Z) : Prop := aget cs j = Done false.
Definition taken (g : globals) (j : Z) : Prop := taken_in (chops g) j.

Definition busy_label (l : label) : bool :=
  match l with
  | Philo sema _ | Sitting sema _ | Dine sema _ _ | Eating sema _ _ | Thinking sema _ _ => negb sema
  | Left _ _ | Right _ _ => true
  | _ => false
  end.

(** What a thread of the demonstration can have on its stack. *)
Definition busy_cmd (c : cmd label) : bool :=
  match c with
  | CGo l => busy_label l
  | CFork (Philo sema _) => negb sema
  | CFinish => true
  | _ => false
  end.

(** The code ends in [g'] with the calls [cs], from a state with the chopsticks [ch], [n]
    philosophers, [m] meals and [a] meals eaten, [hs] being in the hands of the thread. *)
Record eff (hs : list Z) (ch : list bool) (n m a : Z) (g' : globals) (cs : list (cmd label)) : Prop := {
  f_new j : j ∈ held hold g' (calls cs) → taken g' j ∧ (j ∈ hs ∨ ¬ taken_in ch j);
  f_keep j : taken_in ch j → j ∉ hs → taken g' j;
  f_philos : numPhilos g' = n;
  f_meals : numMeals g' = m;
  f_ate : a ≤ philoAte g' ≤ Z.max a m;
  f_calls : (numMeals g' ≤ philoAte g' ∧ calls cs = []) ∨ (∃ l, calls cs = [CGo l] ∧ busy_label l)
}.

Section code.
Context (random : nat → Z) (beyond : list Z).

Abbreviation effect hs g r := (∀ g' cs, r = Done (g', cs) →
  eff hs (chops g) (numPhilos g) (numMeals g) (philoAte g) g' cs).

Lemma thinking_eff ph n g g' cs :
  thinking random false ph n g = (g', cs) →
  eff [] (chops g) (numPhilos g) (numMeals g) (philoAte g) g' cs.
Proof.
  unfold thinking. destruct (0 <? n); intros [= <- <-];
    (split; [by intros j Hj%elem_of_nil|auto|done|done|cbn; lia|right; by eexists]).
Qed.

(** A chopstick is picked up. *)
Lemma eff_take hs ch j n m a g' cs :
  aget ch j = Done true → eff (j :: hs) (<[Z.to_nat j := false]> ch) n m a g' cs → eff hs ch n m a g' cs.
Proof.
  intros Hj [Hn Hk]. apply aget_Done in Hj as [H0 Hj].
  assert (Htk : ∀ i, taken_in ch i → taken_in (<[Z.to_nat j := false]> ch) i).
  { intros i. unfold taken_in. rewrite !aget_Done. intros [Hi Hc]. split; [done|].
    destruct (decide (i = j)) as [->|Hne]; [congruence|]. rewrite list_lookup_insert_ne by lia. done. }
  assert (Hfree : ¬ taken_in ch j).
  { unfold taken_in. rewrite aget_Done. intros [_ Hc]. congruence. }
  split; try done.
  - intros i Hi. destruct (Hn _ Hi) as [Ht [Hin|Hnt]]; (split; [done|]).
    + apply elem_of_cons in Hin as [->|Hin]; auto.
    + right. auto.
  - intros i Hi Hni. apply Hk; [auto|]. intros [->|Hin]%elem_of_cons; auto.
Qed.

(** A chopstick is put down. *)
Lemma eff_put hs ch j n m a g' cs :
  0 ≤ j → eff hs (<[Z.to_nat j := true]> ch) n m a g' cs → eff (j :: hs) ch n m a g' cs.
Proof.
  intros H0 [Hn Hk].
  assert (Htk : ∀ i, i ≠ j → taken_in ch i ↔ taken_in (<[Z.to_nat j := true]> ch) i).
  { intros i Hne. unfold taken_in. rewrite !aget_Done.
    destruct (decide (0 ≤ i)); [by rewrite list_lookup_insert_ne by lia|split; intros [? _]; lia]. }
  split; try done.
  - intros i Hi. destruct (Hn _ Hi) as [Ht [Hin|Hnt]]; (split; [done|]); [left; by right|].
    destruct (decide (i = j)) as [->|Hne]; [left; by left|]. right. by rewrite Htk.
  - intros i Hi [Hne Hni]%not_elem_of_cons. apply Hk; [by rewrite <- Htk|done].
Qed.

Lemma put_down_eff ph n g : effect [ph; right g ph] g (put_down random false ph n g).
Proof.
  intros g' cs Hp. unfold put_down in Hp. inv_res. apply aset_Done in Hr as [Hl ->], Hr0 as [Hl' ->].
  apply thinking_eff in Hk0. apply eff_put; [lia|]. apply eff_put; [apply Hl'|]. exact Hk0.
Qed.

#[local] Instance eff_Proper : Proper ((≡ₚ) ==> eq ==> eq ==> eq ==> eq ==> eq ==> eq ==> impl) eff.
Proof.
  intros hs hs' Hp ? ch -> ? n -> ? m -> ? a -> ? g -> ? cs -> [Hn Hk]. split; try done.
  - intros j. rewrite <- Hp. apply Hn.
  - intros j. rewrite <- Hp. apply Hk.
Qed.

(** The thread waits with what it has. *)
Lemma eff_wait g l :
  (∀ j, j ∈ hold g l → taken g j) → busy_label l →
  eff (hold g l) (chops g) (numPhilos g) (numMeals g) (philoAte g) g [CYield; CGo l].
Proof.
  intros Ht Hb. split; try done; [auto|lia|right; by eexists].
Qed.

Lemma eating_eff ph n g :
  (∀ j, j ∈ [ph; right g ph] → taken g j) → effect [ph; right g ph] g (eating random false ph n g).
Proof.
  intros Ht g' cs He. unfold eating in He. destruct (0 <? n).
  - inv_res. simplify_eq. by apply (eff_wait g' (Eating false ph (n - 1))).
  - by apply put_down_eff in He.
Qed.

(** A meal is eaten. *)
Lemma eff_meal hs ch n m a g' cs : a < m → eff hs ch n m (a + 1) g' cs → eff hs ch n m a g' cs.
Proof. intros Ha []. split; try done. lia. Qed.

Lemma meal_eff ph n g :
  (∀ j, j ∈ [ph; right g ph] → taken g j) → effect [ph; right g ph] g (meal random false ph n g).
Proof.
  intros Ht g' cs Hm. unfold meal in Hm. destruct (_ <=? _) eqn:Hle in Hm; simplify_tests.
  - by apply put_down_eff in Hm.
  - apply eating_eff in Hm; [|done]. by apply eff_meal.
Qed.

Lemma taken_insert ch j hs :
  0 ≤ j < Z.of_nat (length ch) → (∀ i, i ∈ hs → taken_in ch i) →
  ∀ i, i ∈ j :: hs → taken_in (<[Z.to_nat j := false]> ch) i.
Proof.
  intros Hj Hh i Hi. destruct (decide (i = j)) as [->|Hne].
  - apply aget_Some; [lia|]. apply list_lookup_insert_eq. lia.
  - apply elem_of_cons in Hi as [?|Hi]; [done|]. apply Hh, aget_Done in Hi as [? Hi].
    apply aget_Some; [done|]. by rewrite list_lookup_insert_ne by lia.
Qed.

Lemma take_right_eff ph n g :
  taken g ph → effect [ph] g (take_right random ph n g).
Proof.
  intros Ht g' cs Hr. unfold take_right in Hr. inv_res. destruct r; cbn in *.
  - inv_res. apply aset_Done in Hr as [Hl ->]. eapply eff_take; [eassumption|].
    apply meal_eff in Hk0; [by rewrite (Permutation_swap ph (right g ph) [])|].
    intros j Hj. apply (taken_insert _ _ [ph]); [done|by intros i ->%list_elem_of_singleton|].
    rewrite !elem_of_cons in *. tauto.
  - simplify_eq. apply (eff_wait g' (Right ph n)); [|done]. by intros j ->%list_elem_of_singleton.
Qed.

Lemma take_left_eff ph n g : effect [] g (take_left random ph n g).
Proof.
  intros g' cs Hr. unfold take_left in Hr. inv_res. destruct r; cbn in *.
  - inv_res. apply aset_Done in Hr as [Hl ->]. eapply eff_take; [eassumption|].
    apply take_right_eff in Hk0; [done|]. apply (taken_insert _ _ []); [done|by intros j []%elem_of_nil|by left].
  - simplify_eq. by apply (eff_wait g' (Left ph n)); [intros j []%elem_of_nil|].
Qed.

Lemma dine_eff ph n g : effect [] g (dine random false ph n g).
Proof.
  intros g' cs Hd. unfold dine in Hd. destruct (_ <? _) eqn:Hlt; simplify_tests; [by apply take_left_eff in Hd|].
  inv_res. simplify_eq. split; [by intros j []%elem_of_nil|auto|done|done|cbn; lia|by left].
Qed.

Lemma sitting_eff ph g : effect [] g (sitting random false ph g).
Proof.
  intros g' cs Hs. unfold sitting in Hs. destruct (_ <? _).
  - inv_res. simplify_eq. by apply (eff_wait g' (Sitting false ph)); [intros j []%elem_of_nil|].
  - destruct (_ =? _); by apply dine_eff in Hs.
Qed.

(** Every piece of PhiloBusy. *)
Lemma philo_code_eff c l g :
  busy_label l → (∀ j, j ∈ hold g l → taken g j) → effect (hold g l) g (code random beyond c l g).
Proof.
  intros Hb Ht g' cs Hc. destruct l as [|[] ?|[] ?|[] ? ?|? ?|? ?|? ?|? ?|[] ? ?|? ?|? ?|[] ? ?]; try done; cbn in Hc.
  - by apply sitting_eff in Hc.
  - by apply sitting_eff in Hc.
  - by apply dine_eff in Hc.
  - by apply take_left_eff in Hc.
  - apply take_right_eff in Hc; [done|]. apply Ht. by left.
  - by apply eating_eff in Hc.
  - inv_res. by apply thinking_eff in Hc.
Qed.

(** ** In every interleaving *)

Definition working (ws : list (cmd label)) : Prop := match ws with CGo _ :: _ | CFork _ :: _ => True | _ => False end.

Record busy_inv (g : globals) (P : gmap tid (list (cmd label))) : Prop := {
  b_excl : excl taken hold g P;
  b_cmds t ws : P !! t = Some ws → Forall busy_cmd ws;
  b_ate : 0 ≤ philoAte g ≤ Z.max 0 (numMeals g);
  b_end : numMeals g ≤ philoAte g ∨ ∃ t ws, P !! t = Some ws ∧ working ws
}.

Lemma busy_go c g P t l ws g' cs :
  busy_inv g P → P !! t = Some (CGo l :: ws) → code random beyond c l g = Done (g', cs) →
  busy_inv g' (<[t := calls cs ++ ws]> P).
Proof.
  intros [He Hc Ha Hw] HP Hcode. pose proof (Hc _ _ HP) as Hws. inversion_clear Hws as [|?? Hb Hbs].
  pose proof (ex_single _ _ _ _ He _ _ HP) as Hq. cbn in Hq.
  apply philo_code_eff in Hcode as [Hn Hk Hnp Hnm Hat Hcs]; [|done|intros j; exact (ex_taken _ _ _ _ He _ _ j HP)].
  assert (Hframe : ∀ ws2, held hold g' ws2 = held hold g ws2).
  { intros ws2. unfold held. destruct (point ws2) as [l'|]; [|done].
    destruct l' as [| | | | | | | |[]| | |]; try done. cbn. unfold right. by rewrite Hnp. }
  assert (Hpt : held hold g' (calls cs ++ ws) = held hold g' (calls cs)).
  { unfold held. by rewrite point_app. }
  split.
  - eapply excl_move; [done|exact HP|..]; [|by rewrite Hpt|done|auto].
    apply single_app; [|done]. destruct Hcs as [[_ ->]|(l' & -> & _)]; by constructor.
  - intros t1 ws1 [[_ <-]|[_ H1]]%lookup_insert_Some; [|eauto].
    apply Forall_app. split; [|done]. destruct Hcs as [[_ ->]|(l' & -> & ?)]; by repeat constructor.
  - lia.
  - destruct Hcs as [[Hd _]|(l' & -> & _)]; [by left|]. right. exists t. eexists. by rewrite lookup_insert_eq.
Qed.

(** The threads other than the one that moves. *)
Lemma working_other (P : gmap tid (list (cmd label))) t ws :
  P !! t = Some ws → ¬ working ws → (∃ t ws, P !! t = Some ws ∧ working ws) →
  ∃ t1 ws1, delete t P !! t1 = Some ws1 ∧ working ws1.
Proof.
  intros Ht Hn (t1 & ws1 & H1 & Hw). exists t1, ws1.
  assert (t ≠ t1) by (intros ->; congruence). by rewrite lookup_delete_ne by done.
Qed.

Lemma busy_kept c : kept (code random beyond c) busy_inv.
Proof.
  split.
  - apply busy_go.
  - intros g P t l ws t' [He Hc Ha Hw] HP HP'. pose proof (Hc _ _ HP) as Hws.
    inversion_clear Hws as [|?? Hb Hbs]. destruct l as [|[] ph| | | | | | | | | |]; try done.
    assert (Hne : t ≠ t') by congruence. split.
    + apply excl_fork; [by eapply excl_call|by rewrite lookup_insert_ne|by repeat constructor|done].
    + intros t1 ws1 [[_ <-]|[_ [[_ <-]|[_ H1]]%lookup_insert_Some]]%lookup_insert_Some; [|done|eauto].
      by repeat constructor.
    + done.
    + right. exists t'. eexists. by rewrite lookup_insert_eq.
  - intros g P t cm ws s Hcm [_ Hc _ _] HP. pose proof (Hc _ _ HP) as Hws.
    inversion_clear Hws as [|?? Hb Hbs]. by destruct Hcm as [-> | ->].
  - intros g P t ws [He Hc Ha Hw] HP. split; [by apply excl_finish| |done|].
    + intros t1 ws1 [_ H1]%lookup_delete_Some. eauto.
    + destruct Hw as [?|Hw]; [by left|right].
      apply (working_other P t _ HP); [intros []|done].
Qed.

(** ** On the kernel *)

Lemma main_busy c g g' cs :
  c ≠ 2 → code random beyond c Main g = Done (g', cs) → busy_inv g' {[0%nat := calls cs ++ [CFinish]]}.
Proof.
  intros Hc Hm. unfold code, main in Hm. rewrite (proj2 (Z.eqb_neq c 2)) in Hm by done.
  inv_res. destruct r as [n h]. inv_res. destruct r as [m h']. inv_res. simplify_eq.
  match goal with Hn : getNumber _ _ = Done (n, h) |- _ => apply getNumber_range in Hn; rename Hn into Hn' end.
  match goal with Ha : new_array n () = Done _ |- _ => unfold new_array in Ha; rename Ha into Hnew end.
  destruct (n <? 0) eqn:Hneg; simplify_tests; [done|].
  destruct (fork_all_cons (Philo false) n) as [ds Hds]; [lia|].
  rewrite calls_fork_all. split.
  - apply excl_singleton, Forall_app. split; [apply quiet_fork_all|by repeat constructor].
  - intros t ws [_ <-]%lookup_singleton_Some. apply Forall_app. split; [|by repeat constructor].
    by apply fork_all_Forall.
  - cbn. lia.
  - right. exists 0%nat. eexists. rewrite lookup_singleton_eq. split; [done|]. by rewrite Hds.
Qed.

Lemma thinking_calm b ph n g : calm (Done (thinking random b ph n g)).
Proof. unfold thinking. calm_steps. Qed.
#[local] Hint Resolve thinking_calm : calm.
Lemma put_down_calm b ph n g : calm (put_down random b ph n g).
Proof. unfold put_down. calm_steps. Qed.
#[local] Hint Resolve put_down_calm : calm.
Lemma eating_calm b ph n g : calm (eating random b ph n g).
Proof. unfold eating. calm_steps. Qed.
#[local] Hint Resolve eating_calm : calm.
Lemma meal_calm b ph n g : calm (meal random b ph n g).
Proof. unfold meal. calm_steps. Qed.
#[local] Hint Resolve meal_calm : calm.
Lemma take_right_calm ph n g : calm (take_right random ph n g).
Proof. unfold take_right. calm_steps. Qed.
#[local] Hint Resolve take_right_calm : calm.
Lemma take_left_calm ph n g : calm (take_left random ph n g).
Proof. unfold take_left. calm_steps. Qed.
#[local] Hint Resolve take_left_calm : calm.
Lemma dine_calm b ph n g : calm (dine random b ph n g).
Proof. unfold dine. calm_steps. Qed.
#[local] Hint Resolve dine_calm : calm.
Lemma sitting_calm b ph g : calm (sitting random b ph g).
Proof. unfold sitting. calm_steps. Qed.
#[local] Hint Resolve sitting_calm : calm.

#[export] Instance philo_code_basic c : BasicClient (program (code random beyond c)).
Proof. apply calm_client. intros l g. destruct l; unfold code, main; calm_steps. Qed.

Context {H : Type} (call : H → sys H (kst label (globals * Machine.t)) → res (sys H (kst label (globals * Machine.t)))).
Context `{!QuietHandlers (G := globals) call}.
Context (new_thread : gset tid → tid) (new_fresh : ∀ X, new_thread X ∉ X).

Lemma choice_not_sema c : ThreadTest c = DPhilosophers → c ≠ 2.
Proof. by intros Hc ->. Qed.

(** C19: the dining philosophers of PhiloBusy (-A 4 and -A 5), in every state a run of the
    kernel reaches: two philosophers who are eating share no chopstick; no more meals are
    eaten than there are; and when all threads have finished, all meals have been eaten. *)
Theorem philosophers_safe c y h r ss g0 m k0 k :
  ThreadTest c = DPhilosophers →
  Initialize (H := H) y h r Main ss (g0, m) = Done k0 →
  rtc (steps call (program (code random beyond c)) new_thread) k0 k →
  let g := v_env (look (dev k)) in
  let P := v_todo (look (dev k)) in
  P = {[0%nat := [CGo Main; CFinish]]} ∨
  (∀ t t' ph ph' n n' ws ws', t ≠ t' →
     P !! t = Some (CGo (Eating false ph n) :: ws) → P !! t' = Some (CGo (Eating false ph' n') :: ws') →
     ph ≠ ph' ∧ ph ≠ right g ph' ∧ right g ph ≠ ph' ∧ right g ph ≠ right g ph') ∧
  0 ≤ philoAte g ≤ Z.max 0 (numMeals g) ∧
  (P = ∅ → philoAte g = Z.max 0 (numMeals g)).
Proof.
  intros Hc%choice_not_sema Hi Hr g P.
  destruct (kernel_keeps _ call new_thread new_fresh busy_inv y h r Main ss g0 m k0 k (busy_kept c))
    as [[_ HP]|[He _ Ha Hw]]; [by intros; eapply main_busy|done|done|by left|].
  right. split; [|split].
  - intros t t' ph ph' n n' ws ws' Hne Ht Ht'. pose proof (ex_apart _ _ _ _ He t t' _ _ ph Hne Ht Ht') as H1.
    pose proof (ex_apart _ _ _ _ He t t' _ _ (right g ph) Hne Ht Ht') as H2.
    cbn in H1, H2. rewrite !elem_of_cons, elem_of_nil in H1, H2. fold g in H1, H2. tauto.
  - done.
  - intros HP. unfold P in HP. rewrite HP in Hw. destruct Hw as [?|(t & ws & Hl & _)]; [unfold g in *; lia|done].
Qed.

End code.
End PhiloSpec.

(** * The rock band *)
Module RockSpec.
Import Host HostSpec Interrupt Threads Interleave Pool RockBand.

(** A player who is ready to play has the instrument [temp]. *)
Definition has (ps : list rockBand) (threadNum temp : Z) : list Z :=
  match aget ps threadNum with Done READYTOPLAY => [temp] | _ => [] end.

Definition hold (g : globals) (l : label) : list Z :=
  match l with
  | Gathering threadNum temp | Playing threadNum temp => has (players g) threadNum temp
  | Dropping _ temp => [temp]
  | _ => []
  end.

Definition taken_in (ins : list Z) (j : Z) : Prop := aget ins j = Done TAKEN.
Definition taken (g : globals) (j : Z) : Prop := taken_in (instruments g) j.

Definition who (l : label) : list Z :=
  match l with
  | Main => []
  | Enter t | Arriving t _ | Songs t _ | Picking t | Gathering t _ | Playing t _ | Dropping t _
  | Dropped t _ | Checking t _ | Clearing t _ | Leaving t => [t]
  end.

(** The code of thread [t] ends in [g'] with the calls [cs], from a state with the players
    [ps] and the instruments [ins], of which the thread had [hs]. *)
Record eff (t : Z) (hs : list Z) (ps : list rockBand) (ins : list Z) (g' : globals) (cs : list (cmd label)) : Prop := {
  f_new j : j ∈ held hold g' (calls cs) → taken g' j ∧ (j ∈ hs ∨ ¬ taken_in ins j);
  f_keep j : taken_in ins j → j ∉ hs → taken g' j;
  f_others i : i ≠ t → aget (players g') i = aget ps i;
  f_calls : calls cs = [] ∨ ∃ l, who l = [t] ∧
    (calls cs = [CGo l] ∨ calls cs = [CP getInstrument; CGo l] ∨ calls cs = [CV getInstrument; CGo l])
}.

Section code.
Context (random : nat → Z) (beyond : list Z).

Abbreviation effect t hs g r := (∀ g' cs, r = Done (g', cs) → eff t hs (players g) (instruments g) g' cs).
Abbreviation effect' t hs g r := (∀ g' cs, r = (g', cs) → eff t hs (players g) (instruments g) g' cs).

(** The code goes to a point without touching an instrument. *)
Lemma eff_goto t hs ps ins g l cs :
  players g = ps → instruments g = ins →
  calls cs = [CGo l] ∨ calls cs = [CP getInstrument; CGo l] → who l = [t] → hold g l = hs →
  (∀ j, j ∈ hs → taken g j) → eff t hs ps ins g cs.
Proof.
  intros <- <- Hcs Hw Hh Ht.
  assert (Hhd : held hold g (calls cs) = hs) by (unfold held; by destruct Hcs as [-> | ->]).
  split; [|done..|right; exists l; tauto]. rewrite Hhd. auto.
Qed.

Lemma eff_return t ps ins g cs :
  players g = ps → instruments g = ins → calls cs = [] → eff t [] ps ins g cs.
Proof.
  intros <- <- Hcs. split; [|auto..|by left]. unfold held. rewrite Hcs. by intros j []%elem_of_nil.
Qed.

(** The thread waits, or goes on, with nothing in its hands. *)
Ltac goes := first [by apply eff_return | eapply eff_goto; [done|done|by left|done|done|by intros ? []%elem_of_nil]].

(** The player's own entry is changed first. *)
Lemma eff_player t hs ps x ps' ins g' cs :
  aset ps t x = Done ps' → eff t hs ps' ins g' cs → eff t hs ps ins g' cs.
Proof.
  intros [Hr ->]%aset_Done [Hn Hk Ho Hc]. split; [done..| |done].
  intros i Hne. rewrite Ho by done. destruct (decide (0 ≤ i)).
  - unfold aget. destruct (0 <=? i); [|done]. by rewrite list_lookup_insert_ne by lia.
  - by rewrite !aget_Undef by lia.
Qed.

Lemma leaving_loop_eff t g : effect' t [] g (leaving_loop t g).
Proof.
  unfold leaving_loop. intros g' cs. destruct (_ && _); intros [= <- <-]; [goes|]. destruct (_ =? 0); goes.
Qed.

Lemma leave_band_eff t g : effect' t [] g (leave_band t g).
Proof. intros g' cs. unfold leave_band. by destruct (_ =? _); intros Hl%leaving_loop_eff. Qed.

Lemma checking_eff t temp g : effect' t [] g (checking t temp g).
Proof.
  intros g' cs. unfold checking. destruct (_ <? _); [|destruct (_ =? _)]; intros [= <- <-]; goes.
Qed.

Lemma ReadyCheck_eff t temp g : effect' t [] g (ReadyCheck t temp g).
Proof. intros g' cs. unfold ReadyCheck. by intros Hc%checking_eff. Qed.

Lemma song_over_eff t temp g :
  (∀ j, j ∈ has (players g) t temp → taken g j) →
  effect t (has (players g) t temp) g (song_over t temp g).
Proof.
  intros Ht g' cs Hs. unfold song_over in Hs.
  set (g1 := if negb (incrementFlag g) then _ else g) in Hs.
  assert (Hg1 : players g1 = players g ∧ instruments g1 = instruments g) by (unfold g1; by destruct (negb _)).
  clearbody g1. destruct Hg1 as [Hp1 Hi1]. inv_res. rewrite Hp1 in *.
  unfold has in *. match goal with Hg : aget _ t = Done ?x |- _ => rewrite Hg in *; rename x into p end.
  destruct p; repeat first [rewrite bool_decide_eq_true_2 in Hk by done | rewrite bool_decide_eq_false_2 in Hk by done]; inv_res.
  - simplify_eq. eapply eff_goto; [done|done|by right|done|done|]. unfold taken. by rewrite Hi1.
  - apply ReadyCheck_eff in Hk. by rewrite Hp1, Hi1 in Hk.
  - apply ReadyCheck_eff in Hk0. cbn in Hk0. rewrite Hi1 in Hk0. by eapply eff_player.
  - apply ReadyCheck_eff in Hk. by rewrite Hp1, Hi1 in Hk.
Qed.

Lemma playing_eff t temp g :
  (∀ j, j ∈ has (players g) t temp → taken g j) → effect t (has (players g) t temp) g (playing t temp g).
Proof.
  intros Ht g' cs Hp. unfold playing in Hp. destruct (negb _); [|by apply song_over_eff].
  inv_res. match goal with Hc : _ = cs |- _ => subst cs end.
  assert (Hg' : players g' = players g ∧ instruments g' = instruments g).
  { subst g'. by destruct (bool_decide _); [destruct (1 <? _); [|destruct (_ =? 1)]|]. }
  destruct Hg' as [Hp' Hi']. eapply eff_goto; [done|done|by left|done|cbn; by rewrite Hp'|].
  unfold taken. by rewrite Hi'.
Qed.

Lemma gathering_eff t temp g :
  (∀ j, j ∈ has (players g) t temp → taken g j) → effect t (has (players g) t temp) g (gathering t temp g).
Proof.
  intros Ht g' cs Hp. unfold gathering in Hp. inv_res. destruct (negb _).
  - inv_res. simplify_eq. eapply eff_goto; [done|done|by left|done|done|done].
  - inv_res.
    match goal with Hg : (if _ then _ else _) = Done ?x |- _ =>
      assert (Hg1 : players x = players g ∧ instruments x = instruments g)
        by (destruct (negb _); inv_res; by simplify_eq); clear Hg; rename x into g1 end.
    destruct Hg1 as [Hp1 Hi1]. set (g2 := if numSpecs g1 =? 0 then _ else g1) in Hk0.
    assert (Hg2 : players g2 = players g ∧ instruments g2 = instruments g) by (unfold g2; by destruct (_ =? 0)).
    clearbody g2. destruct Hg2 as [Hp2 Hi2]. apply playing_eff in Hk0; [by rewrite Hp2, Hi2 in Hk0|].
    unfold taken. by rewrite Hp2, Hi2.
Qed.

Lemma has_eq ps t x ps' temp : aset ps t x = Done ps' → has ps' t temp = if bool_decide (x = READYTOPLAY) then [temp] else [].
Proof.
  intros [Hr ->]%aset_Done. unfold has. erewrite aget_Some; [|lia|apply list_lookup_insert_eq; lia]. by destruct x.
Qed.

(** The instrument is taken up, or laid down. *)
Lemma taken_set ins j x ins' i :
  aset ins j x = Done ins' → i ≠ j → taken_in ins' i ↔ taken_in ins i.
Proof.
  intros [Hr ->]%aset_Done Hne. unfold taken_in. rewrite !aget_Done.
  destruct (decide (0 ≤ i)); [by rewrite list_lookup_insert_ne by lia|split; intros [? _]; lia].
Qed.

Lemma picking_eff t g : effect t [] g (picking random t g).
Proof.
  intros g' cs Hp. unfold picking in Hp. destruct (_ =? 0); [done|]. cbn in Hp. inv_res.
  set (temp := cmod (random (draws (host g))) (numIns g)) in *. subst r0 cs.
  assert (Hpl : ∀ ps' x, aset (players g) t x = Done ps' → ∀ i, i ≠ t → aget ps' i = aget (players g) i).
  { intros ps' x Hs. apply (f_others t [] (players g) (instruments g) (set_players g ps') []).
    eapply eff_player; [done|]. by apply eff_return. }
  destruct (r =? TAKEN) eqn:Hx; cbn [negb] in Hr0; simplify_tests; inv_res; subst g'.
  - split; cbn; [|done|by eapply Hpl|right; exists (Gathering t temp); auto].
    unfold held. cbn. erewrite has_eq by done. by intros j []%elem_of_nil.
  - assert (Hfree : ¬ taken_in (instruments g) temp) by (unfold taken_in; congruence).
    match goal with Ha : aset (instruments g) _ _ = Done ?y |- _ => rename Ha into Hins, y into ins' end.
    assert (Htk : taken_in ins' temp).
    { apply aset_Done in Hins as [Hl ->]. apply aget_Some; [lia|]. apply list_lookup_insert_eq. lia. }
    split; cbn; [| |by eapply Hpl|right; exists (Gathering t temp); auto].
    + unfold held. cbn. erewrite has_eq by done. rewrite bool_decide_eq_true_2 by done.
      intros j ->%list_elem_of_singleton. auto.
    + intros j Hj _. unfold taken. cbn. destruct (decide (j = temp)) as [->|Hne]; [done|].
      by rewrite (taken_set _ _ _ _ _ Hins).
Qed.

Lemma songs_eff t temp g : effect t [] g (songs random t temp g).
Proof.
  intros g' cs Hs. unfold songs in Hs. destruct (_ <? _); [|injection Hs as Hs; by apply leave_band_eff in Hs].
  cbn in Hs. destruct (_ <? 50); inv_res.
  - subst. eapply eff_player; [done|]. eapply eff_goto; [done|done|by right|done|done|by intros j []%elem_of_nil].
  - apply gathering_eff in Hk; cbn [set_players players] in *; erewrite has_eq in * by done; cbn in *.
    + by eapply eff_player.
    + by intros j []%elem_of_nil.
Qed.

Lemma arriving_eff t temp g : effect t [] g (arriving random t temp g).
Proof.
  intros g' cs Ha. unfold arriving in Ha. destruct (negb _); [|by apply songs_eff in Ha]. inv_res. subst. goes.
Qed.

Lemma enter_eff t g : effect t [] g (enter random t g).
Proof.
  intros g' cs Ha. unfold enter in Ha. destruct (_ =? _); [|by apply arriving_eff in Ha]. inv_res. subst. goes.
Qed.

(** Every piece of RockBand. *)
Lemma rock_code_eff l t g :
  who l = [t] → (∀ j, j ∈ hold g l → taken g j) → effect t (hold g l) g (code random beyond l g).
Proof.
  intros Hw Ht g' cs Hc. destruct l; try done; injection Hw as ->; cbn [code] in Hc.
  - by apply enter_eff in Hc.
  - by apply arriving_eff in Hc.
  - by apply songs_eff in Hc.
  - by apply picking_eff in Hc.
  - by apply gathering_eff in Hc.
  - by apply playing_eff in Hc.
  - inv_res. subst.
    match goal with Ha : aset _ _ _ = Done ?y |- _ => rename Ha into Hins, y into ins' end. cbn in Hins.
    split; cbn; [by intros j []%elem_of_nil| |done|right; exists (Dropped t temp); auto].
    intros j Hj [Hne _]%not_elem_of_cons. unfold taken. cbn. by rewrite (taken_set _ _ _ _ _ Hins).
  - inv_res. apply ReadyCheck_eff in Hk. by eapply eff_player.
  - inv_res. by apply checking_eff in Hc.
  - inv_res. subst. goes.
  - inv_res. by apply leaving_loop_eff in Hc.
Qed.

Record rock_inv (g : globals) (P : gmap tid (list (cmd label))) : Prop := {
  r_excl : excl taken hold g P;
  r_numbers : numbered who P;
  r_started t ws : P !! t = Some ws → Forall (λ c, match c with CGo Main => False | CFork l => ∃ i, l = Enter i | _ => True end) ws
}.

(** The calls of a piece of code are about the thread that runs it. *)
Lemma calls_shape t cs :
  (calls cs = [] ∨ ∃ l, who l = [t] ∧
    (calls cs = [CGo l] ∨ calls cs = [CP getInstrument; CGo l] ∨ calls cs = [CV getInstrument; CGo l])) →
  single (calls cs) ∧ ids who (calls cs) `sublist_of` [t] ∧
  Forall (λ c, match c with CGo Main => False | CFork l => ∃ i, l = Enter i | _ => True end) (calls cs).
Proof.
  intros [-> |(l & Hl & [-> | [-> | ->]])]; [by repeat constructor|..]; cbn; rewrite Hl; (split; [by constructor|split; [done|]]);
    repeat constructor; by destruct l.
Qed.

Lemma rock_go g P t l ws g' cs :
  rock_inv g P → P !! t = Some (CGo l :: ws) → code random beyond l g = Done (g', cs) →
  rock_inv g' (<[t := calls cs ++ ws]> P).
Proof.
  intros [He Hn Hc] HP Hcode. pose proof (Hc _ _ HP) as Hws. inversion_clear Hws as [|?? Hb Hbs].
  assert (Hw : ∃ i, who l = [i]) by (destruct l; by eauto). destruct Hw as [i Hi].
  pose proof (ex_single _ _ _ _ He _ _ HP) as Hq. cbn in Hq.
  apply (rock_code_eff l i) in Hcode as [Hnw Hk Ho Hcs]; [|done|intros j; exact (ex_taken _ _ _ _ He _ _ j HP)].
  apply calls_shape in Hcs as (Hsi & Hsub & Hfs).
  assert (Hpt : held hold g' (calls cs ++ ws) = held hold g' (calls cs)) by (unfold held; by rewrite point_app).
  split.
  - eapply excl_move; [done|exact HP|by apply single_app|by rewrite Hpt|done|].
    intros t2 ws2 Hne H2. unfold held. destruct (point ws2) as [l2|] eqn:Hp2; [|done].
    assert (Hi2 : i ∉ who l2).
    { intros Hin. apply (nb_apart _ _ Hn t t2 _ _ i Hne HP H2); [|by eapply point_ids].
      unfold ids. rewrite bind_cons, Hi. by left. }
    destruct l2; try done; cbn in *; unfold has; (rewrite Ho; [done|intros ->; apply Hi2; by left]).
  - eapply numbered_move; [done|exact HP|]. rewrite ids_app. unfold ids at 3. rewrite bind_cons, Hi.
    by apply sublist_app.
  - intros t1 ws1 [[_ <-]|[_ H1]]%lookup_insert_Some; [|eauto]. by apply Forall_app.
Qed.

Lemma rock_kept : kept (code random beyond) rock_inv.
Proof.
  split.
  - apply rock_go.
  - intros g P t l ws t' [He Hn Hc] HP HP'. pose proof (Hc _ _ HP) as Hws.
    inversion_clear Hws as [|?? Hl Hbs]. destruct Hl as [i ->]. assert (Hne : t ≠ t') by congruence. split.
    + apply excl_fork; [by eapply excl_call|by rewrite lookup_insert_ne|by repeat constructor|done].
    + by apply numbered_fork.
    + intros t1 ws1 [[_ <-]|[_ [[_ <-]|[_ H1]]%lookup_insert_Some]]%lookup_insert_Some; [|done|eauto].
      by repeat constructor.
  - intros g P t c ws s Hcm [He Hn Hc] HP. pose proof (Hc _ _ HP) as Hws. inversion_clear Hws as [|?? _ Hbs]. split.
    + eapply excl_call; [done|exact HP|]. by destruct Hcm as [-> | ->].
    + eapply numbered_move; [done|exact HP|]. by destruct Hcm as [-> | ->].
    + intros t1 ws1 [[_ <-]|[_ H1]]%lookup_insert_Some; [done|eauto].
  - intros g P t ws [He Hn Hc] HP. split; [by apply excl_finish|by apply numbered_finish|].
    intros t1 ws1 [_ H1]%lookup_delete_Some. eauto.
Qed.

Lemma main_rock g g' cs :
  code random beyond Main g = Done (g', cs) → rock_inv g' {[0%nat := calls cs ++ [CFinish]]}.
Proof.
  intros Hm. unfold code, main in Hm. inv_res. destruct r as [np h]. inv_res. destruct r as [ni h']. inv_res.
  destruct r as [ns h'']. inv_res. subst. rewrite calls_fork_all. split.
  - apply excl_singleton, Forall_app. split; [apply quiet_fork_all|by repeat constructor].
  - apply numbered_singleton. rewrite ids_fork_all by done. apply NoDup_seqZ.
  - intros t ws [_ <-]%lookup_singleton_Some. apply Forall_app. split; [|by repeat constructor].
    apply fork_all_Forall. by eexists.
Qed.

Lemma song_over_calm t temp g : calm (song_over t temp g).
Proof. unfold song_over, ReadyCheck, checking. calm_steps. Qed.
#[local] Hint Resolve song_over_calm : calm.
Lemma playing_calm t temp g : calm (playing t temp g).
Proof. unfold playing. calm_steps. Qed.
#[local] Hint Resolve playing_calm : calm.
Lemma gathering_calm t temp g : calm (gathering t temp g).
Proof. unfold gathering. calm_steps. Qed.
#[local] Hint Resolve gathering_calm : calm.
Lemma leave_band_calm t g : calm (Done (leave_band t g)).
Proof. unfold leave_band, leaving_loop. calm_steps. Qed.
#[local] Hint Resolve leave_band_calm : calm.
Lemma songs_calm t temp g : calm (songs random t temp g).
Proof. unfold songs. calm_steps. Qed.
#[local] Hint Resolve songs_calm : calm.

#[export] Instance rock_code_basic : BasicClient (program (code random beyond)).
Proof.
  apply calm_client. intros l g.
  destruct l; unfold code, main, enter, arriving, picking, ReadyCheck, checking, leaving_loop; calm_steps.
Qed.

Context {H : Type} (call : H → sys H (kst label (globals * Machine.t)) → res (sys H (kst label (globals * Machine.t)))).
Context `{!QuietHandlers (G := globals) call}.
Context (new_thread : gset tid → tid) (new_fresh : ∀ X, new_thread X ∉ X).

(** A thread that is ready to play: it is anywhere between taking its instrument and
    dropping it. *)
Definition plays (g : globals) (ws : list (cmd label)) (i : Z) : Prop := held hold g ws = [i].

(** C28: no instrument is played by two threads: in every state a run of the kernel
    reaches, two threads that are ready to play have different instruments, and the
    instrument of each is marked as taken, whatever the other threads do between the
    turns of a player. *)
Theorem instruments_are_exclusive y h r ss g0 m k0 k :
  Initialize (H := H) y h r Main ss (g0, m) = Done k0 →
  rtc (steps call (program (code random beyond)) new_thread) k0 k →
  let g := v_env (look (dev k)) in
  let P := v_todo (look (dev k)) in
  ∀ t ws i, P !! t = Some ws → plays g ws i →
    aget (instruments g) i = Done TAKEN ∧
    ∀ t' ws' i', t ≠ t' → P !! t' = Some ws' → plays g ws' i' → i ≠ i'.
Proof.
  intros Hi Hr g P.
  destruct (kernel_keeps _ call new_thread new_fresh rock_inv y h r Main ss g0 m k0 k rock_kept)
    as [[_ HP]|[He _ _]]; [intros; by eapply main_rock|done|done|..]; intros t ws i Ht Hpl.
  - unfold P in Ht. rewrite HP in Ht. by apply lookup_singleton_Some in Ht as [_ <-].
  - split.
    + apply (ex_taken _ _ _ _ He t ws i Ht). fold g. rewrite Hpl. by left.
    + intros t' ws' i' Hne Ht' Hpl' <-. apply (ex_apart _ _ _ _ He t t' ws ws' i Hne Ht Ht'); fold g.
      * rewrite Hpl. by left.
      * rewrite Hpl'. by left.
Qed.

End code.
End RockSpec.
