(* ===== verification/ThreadTestRuns.v ===== *)
(** ThreadTestRuns: the other demonstrations of ThreadTest.v - the shouting threads, the
    zombies, the spawning threads - and getNumber, against the numbers that the lines of
    the input denote; and runs of a concrete kernel, among
    them one in which the rock band hangs. *)
From Stdlib Require Import String.
From S2P Require Import Prelude Lists Machine AddrSpace Interrupt Threads KernelRuns Interleave ThreadTest ThreadTestSpec.

(** * getNumber *)
Module NumberSpec.
Import Host.

Section host.
Context (beyond : list Z).

Lemma read_line_returns fuel c r h :
  (length (stdin h) + 2 ≤ fuel)%nat →
  ∃ o h', read_line beyond fuel c r h = Done (o, h') ∧ (length (stdin h') ≤ length (stdin h))%nat.
Proof.
  revert c r h. induction fuel as [|fuel IH]; intros c r h Hf; [lia|]. cbn [read_line].
  destruct (c =? 10); [by eauto|]. destruct (isdigit c); [|by eauto].
  unfold getchar. destruct (stdin h) as [|c' s] eqn:Hs; cbn in Hf.
  - destruct fuel as [|fuel]; [lia|]. cbn. do 2 eexists. split; [done|]. cbn. by rewrite Hs.
  - destruct (IH (s8 c') (s32 (s32 (r * 10) + atoi (c :: beyond))) (mkIO s (draws h) (stdout h)))
      as (o & h' & Hr & Hl); [cbn; lia|]. exists o, h'. split; [done|]. cbn in Hl. cbn. lia.
Qed.

Lemma getNumber_loop_returns fuel r h :
  (length (stdin h) < fuel)%nat → ∃ n h', getNumber_loop beyond fuel r h = Done (n, h').
Proof.
  revert r h. induction fuel as [|fuel IH]; intros r h Hf; [lia|]. cbn [getNumber_loop].
  destruct (r <? 1); [|by eauto]. unfold getchar. destruct (stdin h) as [|c s] eqn:Hs; [cbn; by eauto|].
  cbn in Hf. destruct (read_line_returns (S fuel) (s8 c) r (mkIO s (draws h) (stdout h))) as (o & h' & Hr & Hl);
    [cbn; lia|]. rewrite Hr. cbn [mbind res_bind]. cbn in Hl. destruct o as [n|]; [|by eauto].
  destruct (_ || _); apply IH; cbn; lia.
Qed.

(** ** What is read

    A line of digits denotes a number, as a word of the machine: long lines wrap around. *)
Definition digits_value (ds : list Z) : Z := foldl (λ n d, n * 10 + (d - 48)) 0 ds.
Definition is_digit (d : Z) : Prop := 48 ≤ d ≤ 57.
#[export] Instance is_digit_dec d : Decision (is_digit d) := ltac:(unfold is_digit; apply _).
Definition line_value (ds : list Z) : Z := s32 (digits_value ds).

Definition try_again : string * list Z := ("Bad input.  Try again."%string, []).
Definition out_of_range : string * list Z :=
  ("Bad input.  Please enter a number between 1 and 999.\n"%string, []).

(** [reads s n rest ms]: the input [s] is read as the number [n], line by line; [rest] is
    left of it, and the messages [ms] are printed.  A line of digits that denotes a number
    from 1 to 1000 is the answer; lines that denote 0 are passed over, and so are, with a
    message, those out of range.  The first other character ends it with -1, and so does the
    end of the input. *)
Inductive reads : list Z → Z → list Z → list (string * list Z) → Prop :=
| reads_number ds rest :
    Forall is_digit ds → 1 ≤ line_value ds ≤ 1000 → reads (ds ++ 10 :: rest) (line_value ds) rest []
| reads_zero ds s n rest ms :
    Forall is_digit ds → line_value ds = 0 → reads s n rest ms → reads (ds ++ 10 :: s) n rest ms
| reads_outside ds s n rest ms :
    Forall is_digit ds → ¬ 0 ≤ line_value ds ≤ 1000 → reads s n rest ms →
    reads (ds ++ 10 :: s) n rest (out_of_range :: ms)
| reads_other ds c rest :
    Forall is_digit ds → ¬ is_digit c → c ≠ 10 → reads (ds ++ c :: rest) (-1) rest [try_again]
| reads_end ds : Forall is_digit ds → reads ds (-1) [] [try_again].

Lemma digits_split s :
  ∃ ds s', s = ds ++ s' ∧ Forall is_digit ds ∧ (s' = [] ∨ ∃ c r, s' = c :: r ∧ ¬ is_digit c).
Proof.
  induction s as [|c s (ds & s' & -> & Hd & Hs)]; [by exists [], []; eauto|].
  destruct (decide (is_digit c)) as [Hc|Hc].
  - exists (c :: ds), s'. auto.
  - exists [], (c :: ds ++ s'). eauto 10.
Qed.

Lemma reads_total s : ∃ n rest ms, reads s n rest ms.
Proof.
  remember (length s) as k eqn:Hk. revert s Hk. induction (lt_wf k) as [k _ IH]. intros s ->.
  destruct (digits_split s) as (ds & s' & -> & Hd & [->|(c & r & -> & Hc)]).
  - rewrite app_nil_r. eauto using reads_end.
  - destruct (decide (c = 10)) as [->|]; [|eauto using reads_other].
    destruct (decide (1 ≤ line_value ds ≤ 1000)) as [|Hout]; [eauto using reads_number|].
    assert (Hlt : (length r < length (ds ++ 10%Z :: r))%nat) by (rewrite length_app; cbn; lia).
    destruct (IH (length r) Hlt r eq_refl) as (n & rest & ms & Hr).
    destruct (decide (line_value ds = 0)); [eauto using reads_zero|].
    assert (¬ 0 ≤ line_value ds ≤ 1000) by lia. eauto using reads_outside.
Qed.

(** What follows the character that is converted ends its digits. *)
Definition beyond_ends : Prop := match beyond with [] => True | c :: _ => isdigit c = false end.

Lemma isdigit_spec c : is_byte c → isdigit (s8 c) = bool_decide (is_digit c).
Proof.
  intros Hc. unfold is_digit, isdigit, is_byte, s8 in *. apply eq_true_iff_eq.
  rewrite andb_true_iff, bool_decide_eq_true, !Z.leb_le.
  change (2 ^ 7) with 128. change (2 ^ 8) with 256. Z.div_mod_to_equations. lia.
Qed.

Lemma is_digit_s8 d : is_digit d → s8 d = d.
Proof. unfold is_digit. intros. int_lia. Qed.

Lemma is_digit_byte d : is_digit d → is_byte d.
Proof. unfold is_digit, is_byte. lia. Qed.

Section reading.
Hypothesis Hbeyond : beyond_ends.

Lemma atoi_one d : is_digit d → atoi (d :: beyond) = d - 48.
Proof.
  intros Hd. unfold atoi. cbn [atoi_digits]. rewrite <- (is_digit_s8 d Hd) at 1.
  rewrite isdigit_spec, bool_decide_true by auto using is_digit_byte.
  assert (He : ∀ n, atoi_digits n beyond = n).
  { intros n. unfold beyond_ends in Hbeyond. destruct beyond; cbn; [done|]. by rewrite Hbeyond. }
  rewrite He. unfold is_digit in Hd. rewrite s32_id by (unfold_int; lia). lia.
Qed.

(** A character is read, and the inner loop runs with it. *)
Definition read_from (fuel : nat) (r : Z) (h : io) : res (option Z * io) :=
  let '(c, h) := getchar h in read_line beyond fuel (s8 c) r h.

Lemma s32_digit x d : s32 (s32 (s32 x * 10) + (d - 48)) = s32 (x * 10 + (d - 48)).
Proof. int_lia. Qed.

Lemma read_from_digits f ds x s n o :
  Forall is_digit ds →
  read_from (length ds + f) (s32 x) (mkIO (ds ++ s) n o) =
  read_from f (s32 (foldl (λ n d, n * 10 + (d - 48)) x ds)) (mkIO s n o).
Proof.
  intros Hd. revert x. induction Hd as [|d ds Hd _ IH]; intros x; [done|].
  transitivity (read_from (length ds + f) (s32 (x * 10 + (d - 48))) (mkIO (ds ++ s) n o)); [|apply IH].
  unfold read_from at 1. cbn [app getchar stdin draws stdout length Nat.add read_line].
  rewrite is_digit_s8 by done. pose proof Hd as Hd'. unfold is_digit in Hd'.
  rewrite (proj2 (Z.eqb_neq d 10)) by lia. rewrite <- (is_digit_s8 d Hd) at 1.
  rewrite isdigit_spec, bool_decide_true by auto using is_digit_byte.
  by rewrite atoi_one, s32_digit.
Qed.

(** What the inner loop makes of a line: of one that ends, of one with another character,
    of one cut off by the end of the input. *)
Lemma read_number_line fuel ds s n o :
  Forall is_digit ds → (length ds < fuel)%nat →
  read_from fuel 0 (mkIO (ds ++ 10 :: s) n o) = Done (Some (line_value ds), mkIO s n o) ∧
  (∀ c, is_byte c → ¬ is_digit c → c ≠ 10 →
     read_from fuel 0 (mkIO (ds ++ c :: s) n o) = Done (None, mkIO s n (o ++ [try_again]))) ∧
  read_from fuel 0 (mkIO ds n o) = Done (None, mkIO [] n (o ++ [try_again])).
Proof.
  intros Hd Hf. replace fuel with (length ds + S (fuel - length ds - 1))%nat by lia.
  change 0 with (s32 0). split; [|split].
  - rewrite read_from_digits by done. reflexivity.
  - intros c Hb Hc Hn. rewrite read_from_digits by done.
    unfold read_from. cbn [getchar stdin draws stdout read_line].
    rewrite isdigit_spec, bool_decide_false by done.
    rewrite (proj2 (Z.eqb_neq _ 10)); [done|]. unfold is_byte in Hb. int_lia.
  - pose proof (read_from_digits (S (fuel - length ds - 1)) ds 0 [] n o Hd) as E.
    rewrite app_nil_r in E. by rewrite E.
Qed.

Lemma getNumber_loop_S fuel h :
  getNumber_loop beyond (S fuel) 0 h =
    ('(r, h) ← read_from (S fuel) 0 h;
     match r with
     | None => Done (-1, h)
     | Some r =>
         if (1000 <? r) || (r <? 0)
         then getNumber_loop beyond fuel 0 (mkIO (stdin h) (draws h) (stdout h ++ [out_of_range]))
         else getNumber_loop beyond fuel r h
     end).
Proof. unfold read_from. cbn [getNumber_loop Z.ltb Z.compare]. by destruct (getchar h). Qed.

Lemma getNumber_loop_reads s n rest ms fuel k o :
  reads s n rest ms → Forall is_byte s → (length s < fuel)%nat →
  getNumber_loop beyond fuel 0 (mkIO s k o) = Done (n, mkIO rest k (o ++ ms)).
Proof.
  intros Hr. revert fuel o.
  induction Hr as [ds rest Hd Hv|ds s n rest ms Hd Hv _ IH|ds s n rest ms Hd Hv _ IH|ds c rest Hd Hc Hn|ds Hd];
    intros fuel o Hb Hf; rewrite ?length_app in Hf; cbn [length] in Hf;
    (destruct fuel as [|fuel]; [lia|]); rewrite getNumber_loop_S; rewrite ?Forall_app, ?Forall_cons in Hb.
  - rewrite (proj1 (read_number_line (S fuel) ds rest k o Hd ltac:(lia))). cbn [mbind res_bind].
    rewrite (proj2 (Z.ltb_ge 1000 _)), (proj2 (Z.ltb_ge _ 0)) by lia. cbn [orb]. rewrite app_nil_r.
    destruct fuel; cbn [getNumber_loop]; by rewrite (proj2 (Z.ltb_ge _ 1)) by lia.
  - rewrite (proj1 (read_number_line (S fuel) ds s k o Hd ltac:(lia))). cbn [mbind res_bind].
    rewrite Hv. cbn [orb Z.ltb Z.compare]. apply IH; [tauto|lia].
  - rewrite (proj1 (read_number_line (S fuel) ds s k o Hd ltac:(lia))). cbn [mbind res_bind].
    replace ((1000 <? line_value ds) || (line_value ds <? 0)) with true
      by (symmetry; rewrite orb_true_iff, !Z.ltb_lt; lia).
    cbn [stdin draws stdout]. rewrite IH by (tauto || lia). by rewrite <- app_assoc.
  - by rewrite (proj1 (proj2 (read_number_line (S fuel) ds rest k o Hd ltac:(lia)))) by tauto.
  - by rewrite (proj2 (proj2 (read_number_line (S fuel) ds [] k o Hd ltac:(lia)))).
Qed.
End reading.

(** C37: getNumber always returns, on any input, even one that ends, and with -1 or a
    number from 1 to 1000 (the prompt says 999).  What it returns is what the lines of
    the input denote, in decimal and in 32 bits: the value of the first line of digits
    that is not 0 and within these bounds, -1 if another character or the end of the
    input comes first; the rest of the input, behind that line or character, is left for
    the next reader, and one message is printed for each line out of range and one for
    the -1.  This is so if what follows the converted character in memory is no digit,
    for getNumber hands the address of a single character to atoi. *)
Theorem getNumber_terminates h :
  (∃ n h', getNumber beyond h = Done (n, h') ∧ (n = -1 ∨ 1 ≤ n ≤ 1000)) ∧
  (beyond_ends → Forall is_byte (stdin h) →
   ∃ n rest ms, getNumber beyond h = Done (n, mkIO rest (draws h) (stdout h ++ ms)) ∧
     ∀ n' rest' ms', reads (stdin h) n' rest' ms' ↔ (n', rest', ms') = (n, rest, ms)).
Proof.
  split.
  - destruct (getNumber_loop_returns (S (length (stdin h))) 0 h) as (n & h' & Hg); [lia|].
    exists n, h'. split; [done|]. by eapply HostSpec.getNumber_range.
  - intros Hb Hs. destruct (reads_total (stdin h)) as (n & rest & ms & Hr).
    assert (Hg : ∀ n rest ms, reads (stdin h) n rest ms →
      getNumber beyond h = Done (n, mkIO rest (draws h) (stdout h ++ ms))).
    { intros n0 rest0 ms0 H0. destruct h. unfold getNumber. apply getNumber_loop_reads; auto. }
    exists n, rest, ms. split; [by apply Hg|]. intros n' rest' ms'. split; [|by intros [= -> -> ->]].
    intros H'. pose proof (Hg _ _ _ Hr) as E. rewrite (Hg _ _ _ H') in E. injection E as -> -> E.
    apply app_inv_head in E. by subst.
Qed.

End host.

(** Lines "0", "4000" and "0042", and more behind them. *)
Definition demo_input : io := mkIO [48; 10; 52; 48; 48; 48; 10; 48; 48; 52; 50; 10; 65] 0 [].

Lemma getNumber_terminates_witness :
  getNumber [0] demo_input = Done (42, mkIO [65] 0 [out_of_range]) ∧
  ∃ n rest ms, getNumber [0] demo_input = Done (n, mkIO rest 0 ([] ++ ms)) ∧
     ∀ n' rest' ms', reads (stdin demo_input) n' rest' ms' ↔ (n', rest', ms') = (n, rest, ms).
Proof.
  split; [vm_compute; reflexivity|].
  apply (getNumber_terminates [0] demo_input); [reflexivity|].
  cbn. repeat constructor; lia.
Defined.

(** The digits are added up in an int: the line "4294967338" is read as 42. *)
Lemma long_line_wraps :
  getNumber [0] (mkIO [52; 50; 57; 52; 57; 54; 55; 51; 51; 56; 10] 0 []) = Done (42, mkIO [] 0 []).
Proof. vm_compute. reflexivity. Qed.
End NumberSpec.

(** * The shouting threads *)
Module ShoutSpec.
Import Host HostSpec Interrupt Threads Interleave Pool Shouting.

Definition is_shout (i : Z) (p : string * list Z) : bool :=
  String.eqb p.1 "Thread %i yells: " && bool_decide (p.2 = [i]).

(** How often thread [i] has shouted. *)
Definition shouted (i : Z) (g : globals) : Z := Z.of_nat (length (filter (λ p, is_shout i p = true) (stdout (host g)))).

Definition who (l : label) : list Z :=
  match l with Main => [] | shoutingThreads i | Shouts i _ | Pause i _ _ => [i] end.

(** The local variable [timesShouted] says how often the thread has shouted. *)
Definition label_ok (g : globals) (l : label) : Prop :=
  match l with
  | Main => False
  | shoutingThreads i => shouted i g = 0
  | Shouts i s | Pause i s _ => shouted i g = s ∧ s ≤ numShouts g
  end.

Definition cmd_ok (g : globals) (c : cmd label) : Prop :=
  match c with
  | CGo l => label_ok g l
  | CFork l => ∃ i, l = shoutingThreads i ∧ shouted i g = 0
  | CFinish => True
  | _ => False
  end.

Lemma shouted_say i fmt args g :
  shouted i (say fmt args g) = shouted i g + (if is_shout i (fmt, args) then 1 else 0).
Proof.
  unfold shouted. change (stdout (host (say fmt args g))) with (stdout (host g) ++ [(fmt, args)]).
  rewrite filter_app, length_app.
  destruct (is_shout i (fmt, args)) eqn:Hs.
  - rewrite filter_cons_True by done. cbn. lia.
  - rewrite filter_cons_False by (by rewrite Hs). cbn. lia.
Qed.

Section code.
Context (random : nat → Z) (beyond : list Z).

(** The code of thread [i] changes what thread [i] has shouted and nothing else. *)
Record eff (i : Z) (g g' : globals) (cs : list (cmd label)) : Prop := {
  f_shouts : numShouts g' = numShouts g;
  f_shouters : numShouters g' = numShouters g;
  f_others j : j ≠ i → shouted j g' = shouted j g;
  f_calls : (calls cs = [] ∧ shouted i g' = numShouts g) ∨
    ∃ l, calls cs = [CGo l] ∧ who l = [i] ∧ label_ok g' l
}.

Lemma pause_eff i s n g g' cs :
  shouted i g = s → s ≤ numShouts g → pause i s n g = (g', cs) → eff i g g' cs.
Proof.
  intros Hs Hle. unfold pause. destruct (0 <? n); intros [= <- <-];
    (split; [done..|right; eexists; split; [done|]; done]).
Qed.

(** What one turn of the loop prints: the shout of thread [i], and some other text. *)
Lemma shouted_turn i g g1 g2 :
  stdout (host g1) = stdout (host (say "Thread %i yells: " [i] g)) →
  (g2 = g1 ∨ ∃ fmt, String.eqb fmt "Thread %i yells: " = false ∧ g2 = say fmt [] g1) →
  ∀ j, shouted j g2 = shouted j g + (if decide (j = i) then 1 else 0).
Proof.
  intros Hg1 Hg2 j.
  assert (Hs1 : shouted j g1 = shouted j g + (if decide (j = i) then 1 else 0)).
  { unfold shouted at 1. rewrite Hg1. change (shouted j (say "Thread %i yells: " [i] g) = shouted j g + (if decide (j = i) then 1 else 0)).
    rewrite shouted_say. unfold is_shout. cbn [fst snd]. rewrite String.eqb_refl. cbn [andb].
    destruct (decide (j = i)) as [->|Hne]; [by rewrite bool_decide_eq_true_2|].
    rewrite bool_decide_eq_false_2; [done|congruence]. }
  destruct Hg2 as [->|(fmt & Hf & ->)]; [done|]. rewrite shouted_say. unfold is_shout. cbn [fst]. rewrite Hf. cbn. lia.
Qed.

Lemma shouts_eff i s g g' cs :
  shouted i g = s → s ≤ numShouts g → shouts random i s g = (g', cs) → eff i g g' cs.
Proof.
  intros Hs Hle Hsh. unfold shouts in Hsh. destruct (s <? numShouts g) eqn:Hlt; simplify_tests.
  - unfold Random at 1 in Hsh.
    set (g1 := set_host (say "Thread %i yells: " [i] g) _) in Hsh.
    set (g2 := if _ =? 0 then _ else _) in Hsh.
    assert (Hg2 : g2 = g1 ∨ ∃ fmt, String.eqb fmt "Thread %i yells: " = false ∧ g2 = say fmt [] g1).
    { unfold g2. repeat case_match; first [right; eexists; split; [|reflexivity]; reflexivity | by left]. }
    assert (Hn2 : numShouts g2 = numShouts g ∧ numShouters g2 = numShouters g).
    { destruct Hg2 as [->|(fmt & _ & ->)]; done. }
    pose proof (shouted_turn i g g1 g2 eq_refl Hg2) as Hcount. clearbody g2. destruct Hn2 as [Hn2 Hm2].
    cbn [Random] in Hsh. apply pause_eff in Hsh as [H1 H2 H3 H4].
    + split; [by rewrite H1|by rewrite H2| |].
      * intros j Hj. rewrite H3 by done. change (shouted j (set_host g2 _)) with (shouted j g2).
        rewrite Hcount, decide_False by done. lia.
      * destruct H4 as [[? H4]|?]; [left|by right]. split; [done|]. rewrite H4. exact Hn2.
    + change (shouted i (set_host g2 _)) with (shouted i g2). rewrite Hcount, decide_True by done. lia.
    + cbn. lia.
  - simplify_eq. split; try done. left. split; [done|lia].
Qed.

Lemma shout_code_eff l i g g' cs :
  who l = [i] → label_ok g l → 0 ≤ numShouts g → code random beyond l g = Done (g', cs) → eff i g g' cs.
Proof.
  intros Hw Hl H0 Hc. destruct l; try done; injection Hw as ->; cbn in Hl, Hc; injection Hc as Hc.
  - by eapply shouts_eff; [..|done]; rewrite ?Hl.
  - destruct Hl. by eapply shouts_eff.
  - destruct Hl. by eapply pause_eff.
Qed.

Record shout_inv (g : globals) (P : gmap tid (list (cmd label))) : Prop := {
  s_numbers : numbered who P;
  s_cmds t ws : P !! t = Some ws → Forall (cmd_ok g) ws ∧ ends ws;
  s_positive : 0 ≤ numShouts g;
  s_bound i : shouted i g ≤ numShouts g;
  s_all i : 0 ≤ i < numShouters g → shouted i g = numShouts g ∨ ∃ t ws, P !! t = Some ws ∧ i ∈ ids who ws
}.

(** What is on a stack stays right while another thread shouts. *)
Lemma cmds_frame i g g' ws cs :
  eff i g g' cs → i ∉ ids who ws → Forall (cmd_ok g) ws → Forall (cmd_ok g') ws.
Proof.
  intros [Hn _ Ho _] Hi Hf. induction Hf as [|c ws Hc Hf IH]; [constructor|].
  unfold ids in Hi. rewrite bind_cons, elem_of_app in Hi. constructor; [|apply IH; tauto].
  assert (Hic : i ∉ match c with CGo l | CFork l => who l | _ => [] end) by tauto.
  destruct c as [l| | | |l| | | | | |]; try done; cbn in *.
  - destruct l as [|j|j s|j s n]; [done|..]; (assert (j ≠ i) by (intros ->; apply Hic; by left));
      cbn in *; rewrite Ho, ?Hn by done; done.
  - destruct Hc as (j & -> & Hj). exists j. split; [done|]. rewrite Ho; [done|]. intros ->. apply Hic. by left.
Qed.

Lemma shout_go g P t l ws g' cs :
  shout_inv g P → P !! t = Some (CGo l :: ws) → code random beyond l g = Done (g', cs) →
  shout_inv g' (<[t := calls cs ++ ws]> P).
Proof.
  intros [Hnb Hc H0 Hb Ha] HP Hcode. destruct (Hc _ _ HP) as [Hws He]. inversion_clear Hws as [|?? Hl Hbs].
  assert (Hw : ∃ i, who l = [i]) by (destruct l; by eauto). destruct Hw as [i Hi].
  assert (Hit : i ∈ ids who (CGo l :: ws)) by (unfold ids; rewrite bind_cons, Hi; by left).
  pose proof (nb_nodup _ _ Hnb _ _ HP) as Hnd. unfold ids in Hnd. rewrite bind_cons, Hi in Hnd.
  apply NoDup_cons in Hnd as [Hiw _].
  apply (shout_code_eff l i) in Hcode; [|done..]. pose proof Hcode as [Hn Hm Ho Hcs].
  assert (Hsub : ids who (calls cs) `sublist_of` [i]).
  { destruct Hcs as [[-> _]|(l' & -> & Hl' & _)]; [apply sublist_nil_l|]. cbn. by rewrite Hl'. }
  split.
  - eapply numbered_move; [done|exact HP|]. rewrite ids_app. unfold ids at 3. rewrite bind_cons, Hi. by apply sublist_app.
  - intros t1 ws1 [[_ <-]|[Hne H1]]%lookup_insert_Some.
    + split; [apply Forall_app; split; [|by eapply cmds_frame]|].
      * destruct Hcs as [[-> _]|(l' & -> & _ & ?)]; by repeat constructor.
      * apply ends_app; [|done].
        destruct Hcs as [[-> _]|(l' & -> & _ & ?)]; [by intros []%elem_of_nil|by intros [= ?]%list_elem_of_singleton].
    + destruct (Hc _ _ H1) as [Hf1 He1]. split; [|done].
      eapply cmds_frame; [done| |done]. by apply (nb_apart _ _ Hnb t t1 _ _ i Hne HP H1).
  - by rewrite Hn.
  - intros j. rewrite Hn. destruct (decide (j = i)) as [->|Hne]; [|by rewrite Ho].
    destruct Hcs as [[_ ->]|(l' & _ & Hl' & Hok)]; [done|].
    destruct l'; try done; injection Hl' as ->; cbn in Hok; rewrite ?Hn in Hok; lia.
  - intros j. rewrite Hm, Hn. intros Hj. destruct (decide (j = i)) as [->|Hne].
    + destruct Hcs as [[_ ->]|(l' & -> & Hl' & Hok)]; [by left|]. right. exists t. eexists.
      rewrite lookup_insert_eq. split; [done|]. cbn. rewrite Hl'. by left.
    + rewrite Ho by done. destruct (Ha j Hj) as [?|(t1 & ws1 & H1 & Hin)]; [by left|right].
      destruct (decide (t = t1)) as [<-|Hnt].
      * exists t. eexists. rewrite lookup_insert_eq. split; [done|]. rewrite ids_app. apply elem_of_app. right.
        rewrite HP in H1. injection H1 as <-. unfold ids in Hin. rewrite bind_cons, Hi in Hin.
        apply elem_of_cons in Hin as [?|?]; [done|done].
      * exists t1, ws1. by rewrite lookup_insert_ne.
Qed.

(** The number [j] is somewhere after the thread [t] has made its call. *)
Lemma ids_after (P : gmap tid (list (cmd label))) t c ws j :
  P !! t = Some (c :: ws) → (∃ t ws, P !! t = Some ws ∧ j ∈ ids who ws) →
  j ∈ ids who [c] ∨ ∃ t1 ws1, <[t := ws]> P !! t1 = Some ws1 ∧ j ∈ ids who ws1.
Proof.
  intros HP (t1 & ws1 & H1 & Hj). destruct (decide (t = t1)) as [<-|Hne].
  - rewrite HP in H1. injection H1 as <-. change (c :: ws) with ([c] ++ ws) in Hj. rewrite ids_app in Hj.
    apply elem_of_app in Hj as [?|?]; [by left|right]. exists t, ws. by rewrite lookup_insert_eq.
  - right. exists t1, ws1. by rewrite lookup_insert_ne.
Qed.

Lemma shout_kept : kept (code random beyond) shout_inv.
Proof.
  split.
  - apply shout_go.
  - intros g P t l ws t' [Hnb Hc H0 Hb Ha] HP HP'. destruct (Hc _ _ HP) as [Hws He].
    inversion_clear Hws as [|?? Hl Hbs]. destruct Hl as (i & -> & Hi). split; [by apply numbered_fork| |done..|].
    + intros t1 ws1 [[_ <-]|[_ [[_ <-]|[_ H1]]%lookup_insert_Some]]%lookup_insert_Some; [|done|eauto].
      split; [by repeat constructor|done].
    + intros j Hj. destruct (Ha j Hj) as [?|Hex]; [by left|right].
      destruct (ids_after _ _ _ _ j HP Hex) as [Hin|(t1 & ws1 & H1 & Hin)].
      * exists t'. eexists. by rewrite lookup_insert_eq.
      * exists t1, ws1. rewrite lookup_insert_ne; [done|]. intros <-.
        apply lookup_insert_Some in H1 as [[<- _]|[_ H1]]; congruence.
  - intros g P t c ws s Hcm [_ Hc _ _ _] HP. destruct (Hc _ _ HP) as [Hws _].
    inversion_clear Hws as [|?? Hl Hbs]. by destruct Hcm as [-> | ->].
  - intros g P t ws [Hnb Hc H0 Hb Ha] HP. destruct (Hc _ _ HP) as [_ He]. cbn in He. subst ws.
    split; [by apply numbered_finish| |done..|].
    + intros t1 ws1 [_ H1]%lookup_delete_Some. eauto.
    + intros j Hj. destruct (Ha j Hj) as [?|(t1 & ws1 & H1 & Hin)]; [by left|right].
      exists t1, ws1. rewrite lookup_delete_ne; [done|]. intros <-. rewrite HP in H1. injection H1 as <-.
      by apply elem_of_nil in Hin.
Qed.

Lemma ask_range fuel h n h' : ask_loop beyond fuel h = Done (n, h') → 0 ≤ n.
Proof.
  revert h. induction fuel as [|fuel IH]; intros h Ha; [done|]. cbn in Ha. inv_res. destruct r as [n1 h1].
  destruct (n1 <? 0) eqn:Hlt; simplify_tests; [by eapply IH|]. by inv_res; simplify_eq.
Qed.

(** Nothing is shouted while the numbers are read. *)
Definition silent (h : io) : Prop := Forall (λ p, String.eqb p.1 "Thread %i yells: " = false) (stdout h).

Lemma printf_silent fmt args h :
  String.eqb fmt "Thread %i yells: " = false → silent h → silent (printf fmt args h).
Proof. intros Hf Hs. apply Forall_app. by repeat constructor. Qed.

Lemma getchar_silent h : silent h → silent (getchar h).2.
Proof. unfold getchar. by destruct (stdin h). Qed.

Lemma read_line_silent fuel c r h o h' : silent h → read_line beyond fuel c r h = Done (o, h') → silent h'.
Proof.
  revert c r h. induction fuel as [|fuel IH]; intros c r h Hs Hr; cbn [read_line] in Hr; destruct (c =? 10);
    try (by inv_res; simplify_eq); destruct (isdigit c).
  - destruct (getchar h) as [c' h1] eqn:Hg. eapply IH; [|exact Hr]. pose proof (getchar_silent h Hs) as Hs'. by rewrite Hg in Hs'.
  - inv_res. simplify_eq. by apply printf_silent.
Qed.

Lemma getNumber_loop_silent fuel r h n h' :
  silent h → getNumber_loop beyond fuel r h = Done (n, h') → silent h'.
Proof.
  revert r h. induction fuel as [|fuel IH]; intros r h Hs Hg; cbn [getNumber_loop] in Hg;
    (destruct (r <? 1); [|by inv_res; simplify_eq]); [done|].
  destruct (getchar h) as [c h1] eqn:Hc. pose proof (getchar_silent h Hs) as Hs1. rewrite Hc in Hs1.
  inv_res. destruct r0 as [[r1|] h2]; apply read_line_silent in Hr; try done; [|by inv_res; simplify_eq].
  destruct (_ || _); (eapply IH; [|exact Hk]); [by apply printf_silent|done].
Qed.

Lemma ask_loop_silent fuel h n h' : silent h → ask_loop beyond fuel h = Done (n, h') → silent h'.
Proof.
  revert h. induction fuel as [|fuel IH]; intros h Hs Ha; [done|]. cbn [ask_loop] in Ha. inv_res.
  destruct r as [n1 h1]. apply getNumber_loop_silent in Hr; [|done].
  destruct (n1 <? 0); [by eapply IH|]. by inv_res; simplify_eq.
Qed.

Lemma silent_shouted i g : silent (host g) → shouted i g = 0.
Proof.
  unfold silent, shouted. induction 1 as [|p l Hp _ IH]; [done|].
  rewrite filter_cons_False; [done|]. unfold is_shout. by rewrite Hp.
Qed.

Lemma main_shout g g' cs :
  stdout (host g) = [] → code random beyond Main g = Done (g', cs) → shout_inv g' {[0%nat := calls cs ++ [CFinish]]}.
Proof.
  intros Hu Hm. unfold code, main in Hm. inv_res. destruct r as [n h]. inv_res. destruct r as [m h']. inv_res.
  subst g' cs. pose proof (ask_range _ _ _ _ Hr0) as Hm0. apply ask_loop_silent in Hr.
  2: { apply printf_silent; [done|]. unfold silent. by rewrite Hu. }
  apply ask_loop_silent in Hr0; [|by apply printf_silent].
  assert (Hz : ∀ i, shouted i (mkG n m h') = 0) by (intros i; by apply silent_shouted).
  cbn [numShouters]. rewrite calls_fork_all. split.
  - apply numbered_singleton. rewrite ids_fork_all by done. apply NoDup_seqZ.
  - intros t ws [_ <-]%lookup_singleton_Some. split.
    + apply Forall_app. split; [|by repeat constructor]. apply fork_all_Forall. intros i _. by exists i.
    + apply ends_app; [|done]. unfold fork_all. by intros (i & [=] & _)%list_elem_of_fmap.
  - done.
  - intros i. by rewrite Hz.
  - intros i Hi. right. exists 0%nat. eexists. rewrite lookup_singleton_eq. split; [done|].
    rewrite ids_fork_all by done. apply elem_of_seqZ. cbn in Hi. lia.
Qed.

#[export] Instance shout_code_basic : BasicClient (program (code random beyond)).
Proof. apply calm_client. intros l g. destruct l; unfold code, main, shouts, pause; calm_steps. Qed.

Context {H : Type} (call : H → sys H (kst label (globals * Machine.t)) → res (sys H (kst label (globals * Machine.t)))).
Context `{!QuietHandlers (G := globals) call}.
Context (new_thread : gset tid → tid) (new_fresh : ∀ X, new_thread X ∉ X).

(** the shouting threads: whatever the scheduler does, no thread shouts more often than
    it was asked to, and when all threads have finished, each of the numShouters threads
    has shouted exactly numShouts times. *)
Theorem shouts_are_counted y h r ss g0 m k0 k :
  stdout (host g0) = [] →
  Initialize (H := H) y h r Main ss (g0, m) = Done k0 →
  rtc (steps call (program (code random beyond)) new_thread) k0 k →
  let g := v_env (look (dev k)) in
  let P := v_todo (look (dev k)) in
  P = {[0%nat := [CGo Main; CFinish]]} ∨
  (∀ i, shouted i g ≤ numShouts g) ∧
  (P = ∅ → ∀ i, 0 ≤ i < numShouters g → shouted i g = numShouts g).
Proof.
  intros Hu Hi Hr g P.
  destruct (kernel_keeps _ call new_thread new_fresh shout_inv y h r Main ss g0 m k0 k shout_kept)
    as [[_ HP]|[_ _ _ Hb Ha]]; [intros; by eapply main_shout|done|done|by left|]. right. split; [done|].
  intros HP i Hj. destruct (Ha i Hj) as [?|(t & ws & Ht & _)]; [done|]. unfold P in HP. by rewrite HP in Ht.
Qed.

End code.
End ShoutSpec.

(** * The zombies *)
Module ZombieSpec.
Import Host HostSpec Interrupt Threads Interleave Pool Zombies.

Definition is_fork (c : cmd label) : Prop := match c with CFork _ => True | _ => False end.

(** A thread that is, or will make, human [i]. *)
Definition lives (i : Z) (ws : list (cmd label)) : Prop :=
  (∃ l post, ws = CGo l :: post ∧ (l = humanStuff i ∨ ∃ w, l = Hiding i w)) ∨
  (∃ pre post, ws = pre ++ CFork (humanStuff i) :: post ∧ Forall is_fork pre).

Definition human_at (i : Z) (hs : list Z) : Prop := ∃ x, hs !! Z.to_nat i = Some x ∧ x ≠ ZOMBIE.

Record zombie_inv (g : globals) (P : gmap tid (list (cmd label))) : Prop := {
  z_started t ws : P !! t = Some ws → (CGo Main ∉ ws) ∧ (CFork Main ∉ ws);
  z_human i : 10 ≤ i < Z.of_nat (length (humans g)) → human_at i (humans g);
  z_lives i : 10 ≤ i < Z.of_nat (length (humans g)) → ∃ t ws, P !! t = Some ws ∧ lives i ws
}.

Section code.
Context (random : nat → Z) (beyond : list Z) (luck : nat).

(** What the code does to the humans from 10 on: nothing, or a human sets its own state. *)
Record eff (l : label) (g g' : globals) (cs : list (cmd label)) : Prop := {
  f_length : length (humans g') = length (humans g);
  f_humans i : 10 ≤ i → human_at i (humans g) → human_at i (humans g');
  f_main : (CGo Main ∉ calls cs) ∧ (CFork Main ∉ calls cs);
  f_lives i : (l = humanStuff i ∨ ∃ w, l = Hiding i w) → human_at i (humans g) →
    ∃ l' post, calls cs = CGo l' :: post ∧ (l' = humanStuff i ∨ ∃ w, l' = Hiding i w)
}.

Ltac no_main := cbn; rewrite ?not_elem_of_cons; repeat split; try done; apply not_elem_of_nil.

Lemma human_other i j x hs hs' :
  0 ≤ i → aset hs j x = Done hs' → (i ≠ j ∨ x ≠ ZOMBIE) → human_at i hs → human_at i hs'.
Proof.
  intros Hi [Hj ->]%aset_Done Hx (y & Hy & Hne). destruct (decide (i = j)) as [->|Hn].
  - exists x. rewrite list_lookup_insert_eq by lia. split; [done|]. by destruct Hx.
  - exists y. by rewrite list_lookup_insert_ne by lia.
Qed.

Lemma aset_length {A} (l l' : list A) i x : aset l i x = Done l' → length l' = length l.
Proof. intros [_ ->]%aset_Done. apply length_insert. Qed.

Lemma zombieCheck_humans g b g' : zombieCheck g = Done (b, g') → humans g' = humans g.
Proof.
  unfold zombieCheck. intros Hz. inv_res. destruct r; [|destruct (negb _)]; inv_res; by simplify_eq.
Qed.

Lemma cmod_lt a b : 0 < b → cmod a b < b.
Proof. intros Hb. unfold cmod. pose proof (Z.rem_bound_abs a b). lia. Qed.

Lemma zombies_eff w g g' cs : zombies random w g = Done (g', cs) → eff (zombieStuff w) g g' cs.
Proof.
  unfold zombies. intros Hz. inv_res. destruct r as [b g1]. apply zombieCheck_humans in Hr.
  destruct b; [|inv_res; subst; split; [by rewrite Hr|by rewrite Hr|no_main|by intros i [?|[? ?]]]].
  cbn in Hk. inv_res. subst. set (o := cmod _ 10) in *.
  assert (Ho : o < 10) by (apply cmod_lt; lia).
  assert (Hg : length (humans g') = length (humans g) ∧ ∀ i, 10 ≤ i → human_at i (humans g) → human_at i (humans g')).
  { destruct (_ =? RUN); inv_res; subst; cbn; [|by rewrite Hr]. rewrite Hr in *.
    match goal with Ha : aset _ _ _ = Done _ |- _ => rename Ha into Hs end. split; [by eapply aset_length|].
    intros i Hi. eapply human_other; [lia|exact Hs|left; lia]. }
  destruct Hg as [Hl Hh]. split; [done|done|no_main|by intros i [?|[? ?]]].
Qed.

Lemma hiding_cases j w g g' cs :
  hiding j w g = (g', cs) → g' = g ∧ ∃ l', calls cs = [CGo l'] ∧ (l' = humanStuff j ∨ ∃ w, l' = Hiding j w).
Proof. unfold hiding. destruct (0 <? w); intros [= <- <-]; (split; [done|]); eexists; (split; [done|]); eauto. Qed.

(** A human that is no zombie goes on as a human. *)
Lemma human_eff j g g' cs : human random luck j g = Done (g', cs) → eff (humanStuff j) g g' cs.
Proof.
  unfold human. intros Hh. inv_res. apply aget_Done in Hr as [Hj0 Hj].
  destruct (_ =? ZOMBIE) eqn:Hz; cbn [negb] in Hk; simplify_tests.
  - inv_res. subst. split; [done|done|no_main|]. intros i [[= <-]|[? ?]] (y & Hy & Hne); [congruence|done].
  - cbn [Random] in Hk. inv_res. destruct r0 as [w h]. inv_res.
    match goal with Ha : aset _ _ _ = Done ?y |- _ => rename Ha into Hs, y into hs end.
    set (choice := cmod (random _) 2) in *.
    assert (Hch : choice ≠ ZOMBIE) by (unfold ZOMBIE; pose proof (cmod_lt (random (draws (host g))) 2); lia).
    assert (Hg : humans g' = hs ∧ ∃ l', calls cs = [CGo l'] ∧ (l' = humanStuff j ∨ ∃ w, l' = Hiding j w)).
    { destruct (choice =? HIDE); [|destruct (choice =? RUN)]; inv_res.
      - match goal with Hd : hiding _ _ _ = _ |- _ => apply hiding_cases in Hd as [-> Hd] end. done.
      - subst. split; [done|]. eexists. split; [done|]. by left.
      - subst. split; [done|]. eexists. split; [done|]. by left. }
    destruct Hg as [Hg (l' & Hcs & Hl')]. split.
    + rewrite Hg. by eapply aset_length.
    + intros i Hi. rewrite Hg. eapply human_other; [lia|exact Hs|by right].
    + rewrite Hcs. destruct Hl' as [-> |[? ->]]; no_main.
    + intros i [[= <-]|[? ?]] _; [|done]. exists l', []. done.
Qed.

Lemma zombie_code_eff l g g' cs : l ≠ Main → code random beyond luck l g = Done (g', cs) → eff l g g' cs.
Proof.
  intros Hm Hc. destruct l as [|w|j|j w]; cbn [code] in Hc; [done|by apply zombies_eff|by apply human_eff|].
  injection Hc as Hc. apply hiding_cases in Hc as [-> (l' & Hcs & Hl')]. split; [done|done| |].
  - rewrite Hcs. destruct Hl' as [-> |[? ->]]; no_main.
  - intros i [?|[? [= <- _]]] _; [done|]. exists l', []. done.
Qed.

Lemma lives_call i c ws : is_go c = false → lives i (c :: ws) → c = CFork (humanStuff i) ∨ (is_fork c ∧ lives i ws).
Proof.
  intros Hc [(l & post & [= -> _] & _)|(pre & post & Hws & Hf)]; [done|].
  destruct pre as [|d pre]; injection Hws as -> ->; [by left|]. inversion_clear Hf as [|?? Hd Hf'].
  right. split; [done|]. right. by exists pre, post.
Qed.

Lemma lives_kept (P : gmap tid (list (cmd label))) t ws ws' i :
  P !! t = Some ws → (lives i ws → lives i ws') → (∃ t ws, P !! t = Some ws ∧ lives i ws) →
  ∃ t1 ws1, <[t := ws']> P !! t1 = Some ws1 ∧ lives i ws1.
Proof.
  intros HP Hl (t1 & ws1 & H1 & Hw). destruct (decide (t = t1)) as [<-|Hne].
  - exists t, ws'. rewrite lookup_insert_eq. split; [done|]. apply Hl. congruence.
  - exists t1, ws1. by rewrite lookup_insert_ne.
Qed.

Lemma zombie_go g P t l ws g' cs :
  zombie_inv g P → P !! t = Some (CGo l :: ws) → code random beyond luck l g = Done (g', cs) →
  zombie_inv g' (<[t := calls cs ++ ws]> P).
Proof.
  intros [Hs Hh Hl] HP Hc. destruct (Hs _ _ HP) as [Hm Hf]. apply not_elem_of_cons in Hm as [Hlm Hm], Hf as [_ Hf].
  apply zombie_code_eff in Hc as [Hlen Hhum [Hm' Hf'] Hlv]; [|congruence]. split.
  - intros t1 ws1 [[_ <-]|[_ H1]]%lookup_insert_Some; [|eauto]. rewrite !not_elem_of_app. done.
  - rewrite Hlen. intros i Hi. apply Hhum; [lia|auto].
  - rewrite Hlen. intros i Hi. apply (lives_kept _ _ _ _ i HP); [|auto].
    intros [(l0 & post & [= <- <-] & Hl0)|(pre & post & Hws & Hfk)].
    + destruct (Hlv i Hl0 (Hh i Hi)) as (l' & post & -> & Hl'). left. exists l', (post ++ ws). done.
    + destruct pre as [|d pre]; [done|]. injection Hws as <- ->. by inversion_clear Hfk.
Qed.

Lemma zombie_kept : kept (code random beyond luck) zombie_inv.
Proof.
  split.
  - apply zombie_go.
  - intros g P t l ws t' [Hs Hh Hl] HP HP'. destruct (Hs _ _ HP) as [Hm Hf].
    apply not_elem_of_cons in Hm as [_ Hm], Hf as [Hlm Hf]. split; [|done|].
    + intros t1 ws1 [[_ <-]|[_ [[_ <-]|[_ H1]]%lookup_insert_Some]]%lookup_insert_Some; [|done|eauto].
      rewrite !not_elem_of_cons. repeat split; try apply not_elem_of_nil; congruence.
    + intros i Hi. destruct (Hl i Hi) as (t1 & ws1 & H1 & Hw). destruct (decide (t = t1)) as [<-|Hne].
      * rewrite HP in H1. injection H1 as <-. apply lives_call in Hw as [[= ->]|[_ Hw]]; [|..|done].
        -- exists t'. eexists. rewrite lookup_insert_eq. split; [done|]. left. eexists _, _. split; [done|]. by left.
        -- exists t, ws. rewrite lookup_insert_ne, lookup_insert_eq by congruence. done.
      * exists t1, ws1. rewrite lookup_insert_ne, lookup_insert_ne by congruence. done.
  - intros g P t c ws s Hcm [Hs Hh Hl] HP. destruct (Hs _ _ HP) as [Hm Hf].
    apply not_elem_of_cons in Hm as [_ Hm], Hf as [_ Hf]. split; [|done|].
    + intros t1 ws1 [[_ <-]|[_ H1]]%lookup_insert_Some; [done|eauto].
    + intros i Hi. apply (lives_kept _ _ _ _ i HP); [|auto].
      intros Hw. apply lives_call in Hw; destruct Hcm as [-> | ->]; [by destruct Hw as [?|[? _]]..|done|done].
  - intros g P t ws [Hs Hh Hl] HP. split; [|done|].
    + intros t1 ws1 [_ H1]%lookup_delete_Some. eauto.
    + intros i Hi. destruct (Hl i Hi) as (t1 & ws1 & H1 & Hw). exists t1, ws1. split; [|done].
      rewrite lookup_delete_ne; [done|]. intros <-. rewrite HP in H1. injection H1 as <-.
      apply lives_call in Hw; [|done]. by destruct Hw as [?|[? _]].
Qed.

Lemma main_zombie g g' cs :
  code random beyond luck Main g = Done (g', cs) → zombie_inv g' {[0%nat := calls cs ++ [CFinish]]}.
Proof.
  intros Hm. unfold code, main in Hm. inv_res. destruct r as [n h]. inv_res. subst.
  unfold new_array in *. destruct (n <? 0) eqn:Hn; simplify_tests; [done|].
  match goal with Hx : Done _ = Done _ |- _ => injection Hx as <- | Hx : replicate _ _ = _ |- _ => subst end.
  change (calls (CFork (zombieStuff (n + 1)) :: fork_all humanStuff n)) with
    (CFork (zombieStuff (n + 1)) :: calls (fork_all humanStuff n)). rewrite calls_fork_all.
  assert (Hfk : Forall is_fork (fork_all humanStuff n)) by (by apply fork_all_Forall).
  split; cbn [humans]; rewrite ?length_replicate.
  - intros t ws [_ <-]%lookup_singleton_Some. cbn. rewrite !not_elem_of_cons, !not_elem_of_app, !not_elem_of_cons.
    repeat split; try done; try apply not_elem_of_nil; by intros (i & [=] & _)%list_elem_of_fmap.
  - intros i Hi. exists HIDE. split; [|done]. apply lookup_replicate. split; [done|lia].
  - intros i Hi. exists 0%nat. eexists. rewrite lookup_singleton_eq. split; [done|]. right.
    assert (Hin : CFork (humanStuff i) ∈ fork_all humanStuff n).
    { apply list_elem_of_fmap. exists i. split; [done|]. apply elem_of_seqZ. lia. }
    apply list_elem_of_split in Hin as (pre & post & Heq). rewrite Heq in *.
    apply Forall_app in Hfk as [Hpre _].
    exists (CFork (zombieStuff (n + 1)) :: pre), (post ++ [CFinish]). split; [cbn; by rewrite <- app_assoc|by constructor].
Qed.

#[export] Instance zombie_code_basic : BasicClient (program (code random beyond luck)).
Proof. apply calm_client. intros l g. destruct l; unfold code, main, zombies, human, hiding; calm_steps. Qed.

Context {H : Type} (call : H → sys H (kst label (globals * Machine.t)) → res (sys H (kst label (globals * Machine.t)))).
Context `{!QuietHandlers (G := globals) call}.
Context (new_thread : gset tid → tid) (new_fresh : ∀ X, new_thread X ∉ X).

(** With more than ten humans the demonstration never ends: the zombies only reach for the
    first ten, so the humans from 10 on are never caught, and their threads never finish. *)
Lemma humans_beyond_ten_survive y h r ss g0 m k0 k :
  Initialize (H := H) y h r Main ss (g0, m) = Done k0 →
  rtc (steps call (program (code random beyond luck)) new_thread) k0 k →
  let g := v_env (look (dev k)) in
  let P := v_todo (look (dev k)) in
  P = {[0%nat := [CGo Main; CFinish]]} ∨
  ∀ i, 10 ≤ i < Z.of_nat (length (humans g)) →
    aget (humans g) i ≠ Done ZOMBIE ∧ ∃ t ws, P !! t = Some ws ∧ lives i ws.
Proof.
  intros Hi Hr g P.
  destruct (kernel_keeps _ call new_thread new_fresh zombie_inv y h r Main ss g0 m k0 k zombie_kept)
    as [[_ HP]|[_ Hh Hl]]; [intros; by eapply main_zombie|done|done|by left|]. right. intros i Hin. split; [|auto].
  destruct (Hh i Hin) as (x & Hx & Hne). rewrite aget_Done. intros [_ Hz]. unfold g in Hz. congruence.
Qed.

End code.

(** With fewer than ten humans a zombie reaches beyond the array. *)
Example zombie_overrun :
  zombies (λ _, 5) 2 (mkG [HIDE] false (mkIO [] 0 [])) = Undef.
Proof. reflexivity. Qed.

End ZombieSpec.

(** * The spawning threads *)
Module SpawnSpec.
Import Host HostSpec Interrupt Threads Interleave Pool Spawn.

(** The points at which a thread is having children: Random()%99 is at most 98. *)
Definition spawns (l : label) : Prop :=
  match l with
  | Main => False
  | spawn _ | Spawned _ => True
  | Spawning _ r => r ≤ 98
  end.

(** The stacks: of main, which has one thread to make or is at its end, and of the others,
    which go on for ever. *)
Inductive shape : list (cmd label) → Prop :=
| sh_end : shape [CFinish]
| sh_main n : shape [CFork (spawn n); CFinish]
| sh_fork n l : spawns l → shape [CFork (spawn n); CGo l; CFinish]
| sh_go l : spawns l → shape [CGo l; CFinish].

Record spawn_inv (g : globals) (P : gmap tid (list (cmd label))) : Prop := {
  p_chance : 98 ≤ chance g;
  p_shape t ws : P !! t = Some ws → shape ws;
  p_spawns : ∃ t ws, P !! t = Some ws ∧ ws ≠ [CFinish]
}.

Section code.
Context (random : nat → Z) (beyond : list Z).

Lemma spawning_goes p r g g' cs :
  98 ≤ chance g → r ≤ 98 → spawning p r g = (g', cs) →
  chance g' = chance g ∧ ∃ n, calls cs = [CFork (spawn n); CGo (Spawned p)].
Proof.
  intros Hc Hr. unfold spawning. rewrite (proj2 (Z.leb_le r (chance g))) by lia. intros [= <- <-].
  split; [done|]. by eexists.
Qed.

Lemma code_goes l g g' cs :
  98 ≤ chance g → spawns l → code random beyond l g = Done (g', cs) →
  chance g' = chance g ∧ shape (calls cs ++ [CFinish]) ∧ calls cs ≠ [].
Proof.
  intros Hc Hs Hl. pose proof (ZombieSpec.cmod_lt (random (draws (host g))) 99 ltac:(lia)) as Hr.
  destruct l as [|p|p r|p]; try done; cbn in Hl; injection Hl as Hl.
  - apply spawning_goes in Hl as (? & n & ->); [|done|lia]. split; [done|]. by split; [constructor|].
  - apply spawning_goes in Hl as (? & n & ->); [|done|done]. split; [done|]. by split; [constructor|].
  - intros. simplify_eq. split; [done|]. split; [constructor; cbn; lia|done].
Qed.

Lemma spawn_kept : kept (code random beyond) spawn_inv.
Proof.
  split.
  - intros g P t l ws g' cs [Hc Hs Hw] HP Hl. pose proof (Hs _ _ HP) as Hsh. inversion Hsh; subst.
    apply code_goes in Hl as (Hc' & Hs' & Hne); [|done..]. split; [by rewrite Hc'|..].
    + intros t1 ws1 [[_ <-]|[_ H1]]%lookup_insert_Some; eauto.
    + exists t. eexists. rewrite lookup_insert_eq. split; [done|]. by destruct (calls cs) as [|? [|? ?]].
  - intros g P t l ws t' [Hc Hs Hw] HP HP'. pose proof (Hs _ _ HP) as Hsh. split; [done|..].
    + intros t1 ws1 [[_ <-]|[_ [[_ <-]|[_ H1]]%lookup_insert_Some]]%lookup_insert_Some; [| |eauto].
      * inversion Hsh; subst; by constructor.
      * inversion Hsh; subst; by constructor.
    + exists t'. eexists. by rewrite lookup_insert_eq.
  - intros g P t c ws s Hcm [_ Hs _] HP. pose proof (Hs _ _ HP) as Hsh. destruct Hcm as [-> | ->]; inversion Hsh.
  - intros g P t ws [Hc Hs (t1 & ws1 & H1 & Hne)] HP. split; [done|..].
    + intros t2 ws2 [_ H2]%lookup_delete_Some. eauto.
    + exists t1, ws1. rewrite lookup_delete_ne; [done|]. intros <-. pose proof (Hs _ _ HP) as Hsh. inversion Hsh; subst.
      congruence.
Qed.

#[export] Instance spawn_code_basic : BasicClient (program (code random beyond)).
Proof. apply calm_client. intros l g. destruct l; unfold code, main, spawning; calm_steps. Qed.

Context {H : Type} (call : H → sys H (kst label (globals * Machine.t)) → res (sys H (kst label (globals * Machine.t)))).
Context `{!QuietHandlers (G := globals) call}.
Context (new_thread : gset tid → tid) (new_fresh : ∀ X, new_thread X ∉ X).

(** With a spawn chance of 98 or 99, which the prompt asks for, no thread ever stops having
    children: the demonstration never ends. *)
Lemma spawning_never_ends y h r ss g0 m k0 k :
  (∀ g' cs, code random beyond Main g0 = Done (g', cs) → 98 ≤ chance g') →
  Initialize (H := H) y h r Main ss (g0, m) = Done k0 →
  rtc (steps call (program (code random beyond)) new_thread) k0 k →
  v_todo (look (dev k)) ≠ ∅.
Proof.
  intros Hch Hi Hr.
  destruct (kernel_keeps _ call new_thread new_fresh spawn_inv y h r Main ss g0 m k0 k spawn_kept)
    as [[_ HP]|[_ _ (t & ws & Ht & _)]]; [|done|done|by rewrite HP|intros HP; by rewrite HP in Ht].
  intros g' cs Hm. pose proof (Hch _ _ Hm) as Hge. unfold code, main in Hm. inv_res. destruct r0 as [n h']. inv_res. subst.
  split; [done|..].
  - intros t ws [_ <-]%lookup_singleton_Some. constructor.
  - exists 0%nat. eexists. by rewrite lookup_singleton_eq.
Qed.

End code.
End SpawnSpec.

(** * A concrete kernel with a timer *)
Module ThreadTestDemo.
Import Host Interrupt Threads Interleave Pool.

Inductive handlers : Type := HTimer.

(** The time stands for the random number of a time slice. *)
Definition call {D} (h : handlers) (k : sys handlers D) : res (sys handlers D) :=
  match h with HTimer => Timer.TimerExpired HTimer true (totalTicks k) Timer.TimerInterruptHandler k end.

#[export] Instance call_quiet {L G} :
  QuietHandlers (G := G) (L := L) (E := G * Machine.t) (call (D := kst L (G * Machine.t))).
Proof.
  intros [] k k'. unfold call, Timer.TimerExpired, Timer.TimerInterruptHandler, YieldOnReturn.
  intros Hc. inv_res. apply Schedule_dev in Hr.
  assert (Hd : dev k' = dev k) by (destruct (bool_decide _); inv_res; by subst). rewrite Hd. apply same_refl.
Qed.

Definition new_thread (X : gset tid) : tid := fresh X.

Lemma new_fresh X : new_thread X ∉ X.
Proof. apply is_fresh. Qed.

(** A stand-in for rand(). *)
Definition rand (seed : Z) (n : nat) : Z := ((Z.of_nat n + seed) * 1103515245 + 12345) mod 2147483648 / 65536.

(** Lines of one digit each, as input. *)
Definition input (l : list Z) : io := mkIO (l ≫= (λ d, [48 + d; 10])) 0 [].

Section runs.
Context {L G : Type} (code : L → G → res (G * list (cmd L))).
Abbreviation kernel := (sys handlers (kst L (G * Machine.t))).

Definition sticks : gmap sid Semaphore := {[0%nat := Semaphore_new 1; 1%nat := Semaphore_new 1]}.

Definition boot (randomYield : bool) (main : L) (g : G) : kernel :=
  match Initialize randomYield HTimer 7 main sticks (g, KernelDemo.m0) with
  | Done k => k
  | _ => mkSys Interrupt Statistics.Statistics (mkK ∅ Queue.empty 0%nat None Queue.empty 1 ∅ (g, KernelDemo.m0))
  end.

Lemma boot_eq y main g : Initialize y HTimer 7 main sticks (g, KernelDemo.m0) = Done (boot y main g).
Proof. by destruct y. Qed.

Abbreviation runs := (rtc (steps call (program code) new_thread)).

(** The state after [n] steps. *)
Definition after (n : nat) (k : kernel) : kernel :=
  match run call (program code) new_thread n k with Done (Some k') => k' | _ => k end.

Lemma run_steps n k k' : run call (program code) new_thread n k = Done (Some k') → runs k k'.
Proof.
  revert k. induction n as [|n IH]; intros k Hr; cbn in Hr; [by inv_res; simplify_eq|].
  inv_res. destruct r as [k1|]; [|done]. eapply rtc_l; [exact Hr0|auto].
Qed.

Lemma after_runs n k : runs k (after n k).
Proof.
  unfold after. destruct (run _ _ _ n k) as [[k'|]| | | |] eqn:Hr; try done. by eapply run_steps.
Qed.

(** All threads of a concrete state wait for each other. *)
Lemma all_parked (k : kernel) l :
  map_to_list (v_todo (look (dev k))) = l → Forall (λ p, parked code (v_env (look (dev k))) p.2) l →
  ∀ t ws, v_todo (look (dev k)) !! t = Some ws → parked code (v_env (look (dev k))) ws.
Proof.
  intros Hl Hf t ws Ht%elem_of_map_to_list. rewrite Hl in Ht. rewrite Forall_forall in Hf. by apply (Hf (t, ws)).
Qed.

End runs.

Ltac park := repeat constructor; do 2 eexists; (split; [done|]); by vm_compute.

(** ** The rock band *)
Definition rock0 (players instruments songs : Z) : RockBand.globals :=
  RockBand.mkG [] [] 0 0 0 0 0 false false false false 0 0 false (input [players; instruments; songs]).

Definition rock_code (seed : Z) := RockBand.code (rand seed) [].

#[export] Instance rock_basic seed : BasicClient (program (rock_code seed)).
Proof. apply RockSpec.rock_code_basic. Qed.

Definition rock_boot (np ni ns : Z) := boot true RockBand.Main (rock0 np ni ns).
Definition rock_at (seed np ni ns : Z) (n : nat) := after (rock_code seed) n (rock_boot np ni ns).

(** Two players, one instrument, one song. *)
Definition hung := rock_at 1 2 1 1 60.

Lemma hung_todo : map_to_list (v_todo (look (dev hung))) =
  [(2%nat, [CGo (RockBand.Checking 1 0); CFinish]); (1%nat, [CGo (RockBand.Gathering 0 0); CFinish])].
Proof. by vm_compute. Qed.

(** the rock band can hang.  With time slices (-rs), two players, one instrument and
    one song, the kernel reaches a state in which a player who has taken the instrument
    still waits for all to be ready, while the spectator has gone through the song,
    counted it, made itself not ready again and waits in ReadyCheck: from there on nothing
    ever changes, and no thread leaves. *)
Theorem rock_band_hangs :
  rtc (steps call (program (rock_code 1)) new_thread) (rock_boot 2 1 1) hung ∧
  RockBand.songsPlayed (v_env (look (dev hung))) = 1 ∧
  RockBand.players (v_env (look (dev hung))) = [RockBand.READYTOPLAY; RockBand.NOTREADY] ∧
  ∀ k, rtc (steps call (program (rock_code 1)) new_thread) hung k →
    look (dev k) = look (dev hung) ∧ size (v_todo (look (dev k))) = 2%nat.
Proof.
  split; [apply after_runs|]. split; [by vm_compute|]. split; [by vm_compute|]. intros k Hk.
  assert (Hl : look (dev k) = look (dev hung)).
  { eapply (parked_for_ever (rock_code 1) call new_thread new_fresh);
      [apply (boot_eq true RockBand.Main (rock0 2 1 1))|apply after_runs|apply (all_parked _ _ _ hung_todo); park|exact Hk]. }
  split; [done|]. rewrite Hl. by vm_compute.
Qed.

(** Three players: two of them play, with different instruments. *)
Lemma instruments_are_exclusive_witness :
  aget (RockBand.instruments (v_env (look (dev (rock_at 3 3 2 1 60))))) 0 = Done RockBand.TAKEN ∧ (0 ≠ 1).
Proof.
  destruct (RockSpec.instruments_are_exclusive (rand 3) [] call new_thread new_fresh true HTimer 7 sticks
    (rock0 3 2 1) KernelDemo.m0 (rock_boot 3 2 1) (rock_at 3 3 2 1 60) (boot_eq _ _ _) (after_runs _ _ _)
    3%nat [CGo (RockBand.Gathering 2 0); CFinish] 0) as [Htk Hap]; [by vm_compute|by vm_compute|].
  split; [exact Htk|].
  apply (Hap 1%nat [CGo (RockBand.Gathering 0 1); CFinish] 1); [done|by vm_compute|by vm_compute].
Defined.

(** The same run, as an interleaving. *)
Lemma kernel_refines_interleaving_witness :
  rtc (astep (program (rock_code 3))) (start RockBand.Main sticks (rock0 3 2 1, KernelDemo.m0))
    (look (dev (rock_at 3 3 2 1 60))).
Proof.
  apply (kernel_refines_interleaving call (program (rock_code 3)) new_thread new_fresh true HTimer 7 RockBand.Main sticks
    (rock0 3 2 1, KernelDemo.m0) (rock_boot 3 2 1)); [apply boot_eq|apply after_runs].
Defined.

(** ** The philosophers *)
Definition philo0 (philos meals : Z) : Philosophers.globals := Philosophers.mkG 0 0 0 0 [] [] (input [philos; meals]).
Definition philo_code := Philosophers.code (rand 1) [] 4.
#[export] Instance philo_basic : BasicClient (program philo_code).
Proof. apply PhiloSpec.philo_code_basic. Qed.

Definition philo_boot (np nm : Z) := boot true Philosophers.Main (philo0 np nm).
Definition philo_at (np nm : Z) (n : nat) := after philo_code n (philo_boot np nm).

(** Four philosophers: 3 and 1 are eating. *)
Lemma philosophers_safe_witness :
  3 ≠ Philosophers.right (v_env (look (dev (philo_at 4 3 60)))) 1.
Proof.
  pose proof (PhiloSpec.philosophers_safe (rand 1) [] call new_thread new_fresh 4 true HTimer 7 sticks
    (philo0 4 3) KernelDemo.m0 (philo_boot 4 3) (philo_at 4 3 60) eq_refl (boot_eq _ _ _)
    (after_runs philo_code 60 (philo_boot 4 3))) as Hsafe.
  destruct Hsafe as [Hm|[Hex _]].
  { apply (f_equal size) in Hm. vm_compute in Hm. discriminate Hm. }
  apply (Hex 4%nat 2%nat 3 1 3 2 [CFinish] [CFinish]); [done|by vm_compute|by vm_compute].
Defined.

(** A philosopher alone at the table: his right chopstick is his left one, for which he
    waits for ever. *)
Definition alone := philo_at 1 1 30.

Lemma alone_todo : map_to_list (v_todo (look (dev alone))) = [(1%nat, [CGo (Philosophers.Right 0 4); CFinish])].
Proof. by vm_compute. Qed.

Lemma lone_philosopher_starves k :
  rtc (steps call (program philo_code) new_thread) alone k → look (dev k) = look (dev alone).
Proof.
  apply (parked_for_ever philo_code call new_thread new_fresh true HTimer 7 Philosophers.Main sticks
    (philo0 1 1, KernelDemo.m0) (philo_boot 1 1)); [apply boot_eq|apply after_runs|].
  apply (all_parked _ _ _ alone_todo). park.
Qed.

(** Three philosophers, nine meals: each has his left chopstick. *)
Definition starving := philo_at 3 9 400.

Lemma starving_todo : map_to_list (v_todo (look (dev starving))) =
  [(2%nat, [CGo (Philosophers.Right 1 1); CFinish]); (3%nat, [CGo (Philosophers.Right 2 4); CFinish]);
   (1%nat, [CGo (Philosophers.Right 0 4); CFinish])].
Proof. by vm_compute. Qed.

(** The philosophers of PhiloBusy can starve: with time slices (-rs), three of them and
    nine meals, the kernel reaches a state in which six meals have been eaten and every
    philosopher has his left chopstick and waits for his right one; from there on they
    yield to each other for ever. *)
Theorem philosophers_can_starve :
  rtc (steps call (program philo_code) new_thread) (philo_boot 3 9) starving ∧
  Philosophers.philoAte (v_env (look (dev starving))) = 6 ∧
  ∀ k, rtc (steps call (program philo_code) new_thread) starving k → look (dev k) = look (dev starving).
Proof.
  split; [apply after_runs|]. split; [by vm_compute|]. intros k Hk.
  eapply (parked_for_ever philo_code call new_thread new_fresh);
    [apply (boot_eq true Philosophers.Main (philo0 3 9))|apply after_runs|apply (all_parked _ _ _ starving_todo); park|exact Hk].
Qed.

(** PhiloSema, which ThreadTest never starts, can deadlock: both philosophers sleep, and the
    machine halts, with three of nine meals eaten. *)
Definition sema_code := Philosophers.code (rand 7) [] 2.
Definition deadlocked := after sema_code 143 (philo_boot 2 9).

Lemma sema_philosophers_deadlock :
  step call (program sema_code) new_thread deadlocked = Done None ∧
  Philosophers.philoAte (v_env (look (dev deadlocked))) = 3 ∧
  map_to_list (v_todo (look (dev deadlocked))) =
    [(2%nat, [CP 0; CGo (Philosophers.GotRight 1 1); CFinish]);
     (1%nat, [CP 1; CGo (Philosophers.GotRight 0 2); CFinish])].
Proof. split; [by vm_compute|]. split; by vm_compute. Qed.

(** ** The shouting threads *)
Definition shout0 : Shouting.globals := Shouting.mkG 0 0 (input [2; 2]).
Definition shout_code := Shouting.code (rand 1) [].
Definition shout_end := after shout_code 79 (boot true Shouting.Main shout0).

Lemma shouts_are_counted_witness : ShoutSpec.shouted 1 (v_env (look (dev shout_end))) = 2.
Proof.
  destruct (ShoutSpec.shouts_are_counted (rand 1) [] call new_thread new_fresh true HTimer 7 sticks
    shout0 KernelDemo.m0 (boot true Shouting.Main shout0) shout_end eq_refl (boot_eq _ _ _) (after_runs _ _ _))
    as [Hm|[_ Hend]]; [apply (f_equal size) in Hm; vm_compute in Hm; discriminate Hm|].
  apply (Hend (ltac:(by vm_compute)) 1). vm_compute. done.
Defined.

End ThreadTestDemo.
