(* ===== verification/Network.v ===== *)
(** Network: the network device of src/code/machine/network.{h,cc}, the locks and
    synchronised lists of src/code/threads/synch.cc and synchlist.cc, and the post
    office of src/code/network/post.{h,cc}.

    The UNIX sockets the device sends through are a parameter ([Datagrams]), and so
    are the values of Random().  A [double] is a [spec_float] of 53 bits.  The two
    semaphores of the post office are their values: a thread that finds one at 0
    stops ([Blocks]) and tries again later.  A thread can lose the processor only in
    a call that sets the interrupt level, so [Send] and the loop of [PostalDelivery]
    are cut at their calls of [P].  The debug output is left out. *)

From Stdlib Require Import SpecFloat.
From S2P Require Import Prelude Lists Machine Interrupt.

(** * UNIX datagram sockets

    A socket is named by the number in its file name, "SOCKET_<n>"; [dg_bind]
    unlinks the name and binds it.  Datagrams between local sockets are neither lost
    nor reordered; sending to a name that nobody has bound fails. *)
Class Datagrams (W : Type) : Type := {
  dg_queue : W → Z → option (list (list Z));
  dg_bind : W → Z → option W;
  dg_send : W → Z → list Z → option W;
  dg_poll : W → Z → bool;
  dg_recv : W → Z → option (list Z * W);
  dg_bind_free : ∀ w a, dg_queue w a = None →
    ∃ w', dg_bind w a = Some w' ∧ dg_queue w' a = Some [] ∧
          ∀ b, b ≠ a → dg_queue w' b = dg_queue w b;
  dg_send_bound : ∀ w a q p, dg_queue w a = Some q →
    ∃ w', dg_send w a p = Some w' ∧ dg_queue w' a = Some (q ++ [p]) ∧
          ∀ b, b ≠ a → dg_queue w' b = dg_queue w b;
  dg_poll_queue : ∀ w a q, dg_queue w a = Some q → dg_poll w a = negb (bool_decide (q = []));
  dg_recv_queue : ∀ w a p q, dg_queue w a = Some (p :: q) →
    ∃ w', dg_recv w a = Some (p, w') ∧ dg_queue w' a = Some q ∧
          ∀ b, b ≠ a → dg_queue w' b = dg_queue w b
}.

(** * The device *)
Module Network.
Import Interrupt.

(** ** Doubles *)
Abbreviation double := spec_float.
Definition double_of_int (n : Z) : double := binary_normalize 53 1024 n 0 false.
Definition double_mul : double → double → double := SFmul 53 1024.

Definition MaxWireSize : Z := 64.
Definition sizeof_PacketHeader : Z := 12.
Definition MaxPacketSize : Z := MaxWireSize - sizeof_PacketHeader.

Record PacketHeader : Type := mkPH {
  to : Z;
  from : Z;
  ph_length : Z
}.

(** The bytes of two [int]s and an [unsigned], and back. *)
Definition words_bytes (a b c : Z) : list Z := bytes_of 4 (u32 a) ++ bytes_of 4 (u32 b) ++ bytes_of 4 c.
Definition words_of (bs : list Z) : Z * Z * Z :=
  (s32 (word_of (take 4 bs)), s32 (word_of (take 4 (drop 4 bs))), word_of (take 4 (drop 8 bs))).

Definition header_bytes (h : PacketHeader) : list Z := words_bytes (to h) (from h) (ph_length h).
Definition header_of (bs : list Z) : PacketHeader :=
  let '(t, f, l) := words_of bs in mkPH t f l.

Record t : Type := mk {
  ident : Z;
  chanceToWork : double;
  sendBusy : bool;
  inHdr : PacketHeader;
  inbox : list Z
}.

Definition set_sendBusy (n : t) x : t := mk (ident n) (chanceToWork n) x (inHdr n) (inbox n).
Definition set_inHdr (n : t) x : t := mk (ident n) (chanceToWork n) (sendBusy n) x (inbox n).
Definition set_inbox (n : t) x : t := mk (ident n) (chanceToWork n) (sendBusy n) (inHdr n) x.

(** ** The socket routines of sysdep.cc *)
Section sockets.
Context {W : Type} `{!Datagrams W}.

Definition AssignNameToSocket (w : W) (addr : Z) : res W :=
  match dg_bind w addr with Some w => Done w | None => Assert end.

Definition SendToSocket (w : W) (buffer : list Z) (toName : Z) : res W :=
  match dg_send w toName buffer with Some w => Done w | None => Assert end.

(** Aborts unless a whole packet was read. *)
Definition ReadFromSocket (w : W) (addr packetSize : Z) : res (list Z * W) :=
  match dg_recv w addr with
  | Some (buffer, w) => ASSERT (Z.of_nat (length buffer) =? packetSize);; Done (buffer, w)
  | None => Assert
  end.

End sockets.

(** The device and the sockets in the rest of the system. *)
Class HasNetwork (D W : Type) : Type := {
  net : D → t;
  put_net : t → D → D;
  wire : D → W;
  put_wire : W → D → D
}.

Section ops.
Context {H D W : Type} `{!Datagrams W} `{!HasNetwork D W} `{!FreshMemory}.
Context (NetworkReadPoll NetworkSendDone : H).
Context (readHandler writeHandler : sys H D → res (sys H D)).
Implicit Types s : sys H D.

Definition clamp (reliability : double) : double :=
  if SFltb reliability (double_of_int 0) then double_of_int 0
  else if SFltb (double_of_int 1) reliability then double_of_int 1
  else reliability.

(** The constructor; [hdr0] and [inbox0] are the uninitialised members. *)
Definition Network (addr : Z) (reliability : double) (hdr0 : PacketHeader) (inbox0 : list Z) s :
    res (sys H D) :=
  let n := mk addr (clamp reliability) false (mkPH (to hdr0) (from hdr0) 0) inbox0 in
  w ← AssignNameToSocket (wire (dev s)) addr;
  Schedule NetworkReadPoll Statistics.NetworkTime NetworkRecvInt
    (set_dev s (put_wire w (put_net n (dev s)))).

Definition CheckPktAvail s : res (sys H D) :=
  s ← Schedule NetworkReadPoll Statistics.NetworkTime NetworkRecvInt s;
  let n := net (dev s) in
  if negb (ph_length (inHdr n) =? 0) then Done s
  else if negb (dg_poll (wire (dev s)) (ident n)) then Done s
  else
    '(buffer, w) ← ReadFromSocket (wire (dev s)) (ident n) MaxWireSize;
    let hdr := header_of buffer in
    ASSERT ((to hdr =? ident n) && (ph_length hdr <=? MaxPacketSize));;
    data ← slice buffer sizeof_PacketHeader (ph_length hdr);
    box ← blit (inbox n) 0 data;
    let s := set_dev s (put_wire w (put_net (set_inbox (set_inHdr n hdr) box) (dev s))) in
    readHandler (set_stats s (Statistics.packet_recvd (stats s))).

Definition SendDone s : res (sys H D) :=
  let s := set_dev s (put_net (set_sendBusy (net (dev s)) false) (dev s)) in
  writeHandler (set_stats s (Statistics.packet_sent (stats s))).

(** [Random() % 100 >= chanceToWork * 100] *)
Definition lost (chance : double) (r : Z) : bool :=
  SFleb (double_mul chance (double_of_int 100)) (double_of_int (cmod r 100)).

(** [sendBusy] is tested and never set. *)
Definition Send (r : Z) (hdr : PacketHeader) (data : list Z) s : res (sys H D) :=
  let n := net (dev s) in
  ASSERT (negb (sendBusy n) && (0 <? ph_length hdr) && (ph_length hdr <=? MaxPacketSize) && (from hdr =? ident n));;
  s ← Schedule NetworkSendDone Statistics.NetworkTime NetworkSendInt s;
  if lost (chanceToWork n) r then Done s
  else
    buffer ← blit (fresh_bytes MaxWireSize) 0 (header_bytes hdr);
    bs ← slice data 0 (ph_length hdr);
    buffer ← blit buffer sizeof_PacketHeader bs;
    w ← SendToSocket (wire (dev s)) buffer (to hdr);
    Done (set_dev s (put_wire w (dev s))).

(** The header that is returned, and what is in [data] afterwards. *)
Definition Receive (data : list Z) (n : t) : res (PacketHeader * list Z * t) :=
  let hdr := inHdr n in
  let n := set_inHdr n (mkPH (to hdr) (from hdr) 0) in
  data ← (if negb (ph_length hdr =? 0) then
            bs ← slice (inbox n) 0 (ph_length hdr); blit data 0 bs
          else Done data);
  Done (hdr, data, n).

End ops.
End Network.

(** * Locks, condition variables and synchronised lists *)
Module Synch.

Definition Acquire : res () := Done ().
Definition Release : res () := Done ().
Definition Wait : res () := ASSERT false.
Definition Signal : res () := Done ().

End Synch.

Module SynchList.
Section ops.
Context {A : Type}.

Definition SynchList : Queue.queue A := Queue.empty.

Definition Append (item : A) (q : Queue.queue A) : res (Queue.queue A) :=
  Synch.Acquire;;
  let q := Queue.Append item q in
  Synch.Signal;;
  Synch.Release;;
  Done q.

(** The loop around [Wait] is left in its first turn: [Wait] does not return. *)
Definition Remove (q : Queue.queue A) : res (A * Queue.queue A) :=
  Synch.Acquire;;
  (if Queue.IsEmpty q then Synch.Wait else Done ());;
  let '(item, q) := Queue.Remove q in
  match item with
  | Some item => Synch.Release;; Done (item, q)
  | None => Assert
  end.

(** [func] is called on each item in turn. *)
Fixpoint Mapcar_loop {T} (func : A → T → res T) (xs : list A) (st : T) : res T :=
  match xs with
  | [] => Done st
  | x :: xs => st ← func x st; Mapcar_loop func xs st
  end.

Definition Mapcar {T} (func : A → T → res T) (q : Queue.queue A) (st : T) : res T :=
  Synch.Acquire;;
  st ← Mapcar_loop func (Queue.contents q) st;
  Synch.Release;;
  Done st.

End ops.
End SynchList.

(** * The post office *)
Module PostOffice.
Import Interrupt Network.

Definition sizeof_MailHeader : Z := 12.
Definition MaxMailSize : Z := MaxPacketSize - sizeof_MailHeader.

Record MailHeader : Type := mkMH {
  mh_to : Z;
  mh_from : Z;
  mh_length : Z
}.

Definition mail_header_bytes (h : MailHeader) : list Z := words_bytes (mh_to h) (mh_from h) (mh_length h).
Definition mail_header_of (bs : list Z) : MailHeader :=
  let '(t, f, l) := words_of bs in mkMH t f l.

Record Mail : Type := mkMail {
  pktHdr : PacketHeader;
  mailHdr : MailHeader;
  data : list Z
}.

(** Where the postal worker is in its loop: before [messageAvailable->P()], or
    behind it. *)
Inductive worker : Type := AtP | AtReceive.

Record t : Type := mk {
  network : Network.t;
  netAddr : Z;
  boxes : list (Queue.queue Mail);
  numBoxes : Z;
  messageAvailable : Z;
  messageSent : Z;
  postalWorker : worker;
  buffer : list Z           (* of PostalDelivery *)
}.

Definition set_network (p : t) x : t := mk x (netAddr p) (boxes p) (numBoxes p) (messageAvailable p) (messageSent p) (postalWorker p) (buffer p).
Definition set_boxes (p : t) x : t := mk (network p) (netAddr p) x (numBoxes p) (messageAvailable p) (messageSent p) (postalWorker p) (buffer p).
Definition set_available (p : t) x : t := mk (network p) (netAddr p) (boxes p) (numBoxes p) x (messageSent p) (postalWorker p) (buffer p).
Definition set_sent (p : t) x : t := mk (network p) (netAddr p) (boxes p) (numBoxes p) (messageAvailable p) x (postalWorker p) (buffer p).
Definition set_worker (p : t) x : t := mk (network p) (netAddr p) (boxes p) (numBoxes p) (messageAvailable p) (messageSent p) x (buffer p).
Definition set_buffer (p : t) x : t := mk (network p) (netAddr p) (boxes p) (numBoxes p) (messageAvailable p) (messageSent p) (postalWorker p) x.

Inductive handlers : Type := NetworkReadPoll | NetworkSendDone.

Section ops.
Context {W : Type} `{!Datagrams W} `{!FreshMemory}.
Abbreviation state := (sys handlers (t * W)).
Implicit Types s : state.

#[export] Instance office_network : HasNetwork (t * W) W := {
  net d := network d.1;
  put_net n d := (set_network d.1 n, d.2);
  wire d := d.2;
  put_wire w d := (d.1, w)
}.

Definition on_office (f : t → t) s : state := set_dev s (f (dev s).1, (dev s).2).

(** ** Mail boxes *)

Definition Mail_new (pktH : PacketHeader) (mailH : MailHeader) (msgData : list Z) : res Mail :=
  ASSERT (mh_length mailH <=? MaxMailSize);;
  bs ← slice msgData 0 (mh_length mailH);
  d ← blit (fresh_bytes MaxMailSize) 0 bs;
  Done (mkMail pktH mailH d).

Definition Put (pktH : PacketHeader) (mailH : MailHeader) (d : list Z) (messages : Queue.queue Mail) :
    res (Queue.queue Mail) :=
  mail ← Mail_new pktH mailH d;
  SynchList.Append mail messages.

(** The headers and the bytes copied into the caller's buffer. *)
Definition Get (messages : Queue.queue Mail) :
    res (PacketHeader * MailHeader * list Z * Queue.queue Mail) :=
  '(mail, messages) ← SynchList.Remove messages;
  bs ← slice (data mail) 0 (mh_length (mailHdr mail));
  Done (pktHdr mail, mailHdr mail, bs, messages).

(** ** Interrupt handlers: [Semaphore::V], with interrupts off *)

Definition V (f : t → t) s : res state :=
  '(s, oldLevel, _) ← SetLevel_enter IntOff s;
  '(s, _, _) ← SetLevel_enter oldLevel (on_office f s);
  Done s.

Definition IncomingPacket s : res state := V (λ p, set_available p (s32 (messageAvailable p + 1))) s.
Definition PacketSent s : res state := V (λ p, set_sent p (s32 (messageSent p + 1))) s.

Definition call (h : handlers) s : res state :=
  match h with
  | NetworkReadPoll => CheckPktAvail NetworkReadPoll IncomingPacket s
  | NetworkSendDone => SendDone PacketSent s
  end.

(** ** The operations *)

(** [n0] is the memory of the network before its constructor; [buffer] belongs to
    the thread that is forked. *)
Definition PostOffice (addr : Z) (reliability : double) (nBoxes : Z) (n0 : Network.t) (w : W)
    (s : sys handlers ()) : res state :=
  if nBoxes <? 0 then Undef else
  let p := mk n0 addr (replicate (Z.to_nat nBoxes) SynchList.SynchList) nBoxes 0 0 AtP
             (fresh_bytes MaxPacketSize) in
  Network.Network NetworkReadPoll addr reliability (inHdr n0) (inbox n0)
    (mkSys (intr s) (stats s) (p, w)).

(** [Send] up to [messageSent->P()]. *)
Definition Send_enter (r : Z) (pktH : PacketHeader) (mailH : MailHeader) (d : list Z) s : res state :=
  let p := (dev s).1 in
  ASSERT (mh_length mailH <=? MaxMailSize);;
  ASSERT ((0 <=? mh_to mailH) && (mh_to mailH <? numBoxes p));;
  let pktH := mkPH (to pktH) (netAddr p) (u32 (mh_length mailH + sizeof_MailHeader)) in
  buf ← blit (fresh_bytes MaxPacketSize) 0 (mail_header_bytes mailH);
  bs ← slice d 0 (mh_length mailH);
  buf ← blit buf sizeof_MailHeader bs;
  Synch.Acquire;;
  Send NetworkSendDone r pktH buf s.

(** [messageSent->P()] and the rest of [Send]. *)
Definition Send_leave s : res state :=
  let p := (dev s).1 in
  if messageSent p =? 0 then Blocks
  else Synch.Release;; Done (on_office (λ p, set_sent p (s32 (messageSent p - 1))) s).

(** The postal worker, from one call of [messageAvailable->P()] to the next. *)
Definition PostalDelivery_wait s : res state :=
  let p := (dev s).1 in
  if messageAvailable p =? 0 then Blocks
  else Done (on_office (λ p, set_worker (set_available p (s32 (messageAvailable p - 1))) AtReceive) s).

Definition PostalDelivery_deliver s : res state :=
  let p := (dev s).1 in
  '(pktH, buf, n) ← Network.Receive (buffer p) (network p);
  let mailH := mail_header_of buf in
  ASSERT ((0 <=? mh_to mailH) && (mh_to mailH <? numBoxes p));;
  ASSERT (mh_length mailH <=? MaxMailSize);;
  msg ← slice buf sizeof_MailHeader (MaxPacketSize - sizeof_MailHeader);
  box ← aget (boxes p) (mh_to mailH);
  box ← Put pktH mailH msg box;
  bxs ← aset (boxes p) (mh_to mailH) box;
  Done (on_office (λ p, set_worker (set_buffer (set_boxes (set_network p n) bxs) buf) AtP) s).

Definition PostalDelivery s : res state :=
  match postalWorker (dev s).1 with
  | AtP => PostalDelivery_wait s
  | AtReceive => PostalDelivery_deliver s
  end.

Definition Receive (box : Z) s : res (PacketHeader * MailHeader * list Z * state) :=
  let p := (dev s).1 in
  ASSERT ((0 <=? box) && (box <? numBoxes p));;
  messages ← aget (boxes p) box;
  '(pktH, mailH, d, messages) ← Get messages;
  ASSERT (mh_length mailH <=? MaxMailSize);;
  bxs ← aset (boxes p) box messages;
  Done (pktH, mailH, d, on_office (λ p, set_boxes p bxs) s).

End ops.
End PostOffice.
