(* ===== verification/PostSpec.v ===== *)
(** PostSpec: what the post office of Network.v promises (src/code/network/post.h):
    messages can be dropped, but they are delivered in order and never corrupted.

    A [world] is a set of machines with their post offices, connected by the sockets
    of the host.  An [event] is what one machine does until the next point where
    another thread can run. *)

From Stdlib Require Import SpecFloat.
From S2P Require Import Prelude Lists Machine Interrupt Network.

Module PostSpec.
Import Interrupt Network PostOffice.

(** * Messages and their framing *)

Record msg : Type := mkMsg {
  m_pkt : PacketHeader;
  m_mail : MailHeader;
  m_data : list Z
}.

(** The message in a buffer that starts with the mail header. *)
Definition unpack (h : PacketHeader) (bs : list Z) : msg :=
  let mh := mail_header_of bs in mkMsg h mh (take (Z.to_nat (mh_length mh)) (drop 12 bs)).

(** The message in a packet. *)
Definition decode (p : list Z) : msg := unpack (header_of p) (drop 12 p).

Definition mail_msg (m : Mail) : msg :=
  mkMsg (pktHdr m) (mailHdr m) (take (Z.to_nat (mh_length (mailHdr m))) (data m)).

Lemma words_bytes_length a b c : length (words_bytes a b c) = 12%nat.
Proof. unfold words_bytes. by autorewrite with nachos_len. Qed.

Lemma take_take_le {A} (k l : nat) (x y : list A) : (k ≤ l)%nat → take l x = take l y → take k x = take k y.
Proof. intros Hk Ht. apply (f_equal (take k)) in Ht. by rewrite !take_take, Nat.min_l in Ht by lia. Qed.

Lemma take_drop_le {A} (k j l : nat) (x y : list A) :
  (j + k ≤ l)%nat → take l x = take l y → take k (drop j x) = take k (drop j y).
Proof.
  intros Hk Ht. rewrite !take_drop_commute. f_equal. by apply take_take_le with l.
Qed.

Lemma words_of_take x y : take 12 x = take 12 y → words_of x = words_of y.
Proof.
  intros Ht. unfold words_of.
  rewrite (take_take_le 4 12 x y), (take_drop_le 4 4 12 x y), (take_drop_le 4 8 12 x y) by (lia || done).
  done.
Qed.

Lemma word_of_bytes4 z : is_u32 z → word_of (bytes_of 4 z) = z.
Proof. intros Hz. rewrite word_of_bytes_of. change (256 ^ Z.of_nat 4) with (2 ^ 32). by apply u32_id. Qed.

Lemma words_of_bytes a b c rest :
  is_s32 a → is_s32 b → is_u32 c → words_of (words_bytes a b c ++ rest) = (a, b, c).
Proof.
  intros Ha Hb Hc. unfold words_of, words_bytes. rewrite <- !app_assoc.
  assert (Hd : ∀ x (r : list Z), drop 4 (bytes_of 4 x ++ r) = r) by done.
  assert (Htk : ∀ x (r : list Z), take 4 (bytes_of 4 x ++ r) = bytes_of 4 x) by done.
  change 8%nat with (4 + 4)%nat. rewrite <- drop_drop, !Hd, !Htk.
  rewrite !word_of_bytes4 by (auto with nachos || done).
  by rewrite !s32_u32, !s32_id by done.
Qed.

(** Only the bytes of the header and of the data count. *)
Lemma unpack_take h x y (l : nat) :
  (12 ≤ l)%nat → take l x = take l y → mh_length (mail_header_of x) + 12 ≤ Z.of_nat l →
  unpack h x = unpack h y.
Proof.
  intros Hl Ht Hm. unfold unpack.
  assert (Hmh : mail_header_of x = mail_header_of y).
  { unfold mail_header_of. by rewrite (words_of_take x y) by (by apply take_take_le with l). }
  rewrite <- Hmh. f_equal. apply take_drop_le with l; [lia|done].
Qed.

Lemma mail_header_of_take x y : take 12 x = take 12 y → mail_header_of x = mail_header_of y.
Proof. intros Ht. unfold mail_header_of. by rewrite (words_of_take x y). Qed.

Lemma header_of_take x y : take 12 x = take 12 y → header_of x = header_of y.
Proof. intros Ht. unfold header_of. by rewrite (words_of_take x y). Qed.

(** What can be on its way to a box of machine [b], every machine having [n] boxes. *)
Record msg_ok (n b : Z) (m : msg) : Prop := {
  mo_to : to (m_pkt m) = b;
  mo_plen : ph_length (m_pkt m) = mh_length (m_mail m) + 12;
  mo_mlen : 0 ≤ mh_length (m_mail m) ≤ 40;
  mo_box : 0 ≤ mh_to (m_mail m) < n
}.

Definition packet_ok (n b : Z) (p : list Z) : Prop := length p = 64%nat ∧ msg_ok n b (decode p).

(** Overwriting the start of a buffer. *)
Lemma blit_start {A} (dst src : list A) :
  (length src ≤ length dst)%nat → blit dst 0 src = Done (src ++ drop (length src) dst).
Proof. intros. by rewrite blit_in_range by lia. Qed.

Lemma blit_after {A} (a r src : list A) off :
  off = Z.of_nat (length a) → (length src ≤ length r)%nat →
  blit (a ++ r) off src = Done (a ++ src ++ drop (length src) r).
Proof.
  intros -> Hl. rewrite blit_in_range by (rewrite ?length_app; lia).
  rewrite Nat2Z.id, take_app_length. do 3 f_equal.
  by rewrite drop_app_ge, Nat.add_comm, Nat.add_sub by lia.
Qed.

(** The packet that [PostOffice::Send] and [Network::Send] build. *)
Lemma framing_roundtrip (mem : FreshMemory) pktH mailH d :
  is_s32 (to pktH) → is_s32 (from pktH) → ph_length pktH = mh_length mailH + 12 →
  is_s32 (mh_to mailH) → is_s32 (mh_from mailH) →
  0 ≤ mh_length mailH ≤ 40 → mh_length mailH ≤ Z.of_nat (length d) →
  ∃ buf0 buf p0 p,
    blit (fresh_bytes MaxPacketSize) 0 (mail_header_bytes mailH) = Done buf0 ∧
    blit buf0 12 (take (Z.to_nat (mh_length mailH)) d) = Done buf ∧ length buf = 52%nat ∧
    blit (fresh_bytes MaxWireSize) 0 (header_bytes pktH) = Done p0 ∧
    blit p0 12 (take (Z.to_nat (ph_length pktH)) buf) = Done p ∧ length p = 64%nat ∧
    decode p = mkMsg pktH mailH (take (Z.to_nat (mh_length mailH)) d).
Proof.
  intros Ht Hf Hp Hmt Hmf Hm Hd. set (body := take _ d).
  assert (Hb : length body = Z.to_nat (mh_length mailH)) by (unfold body; rewrite length_take; lia).
  assert (Hf1 : length (fresh_bytes MaxPacketSize) = 52%nat) by by rewrite fresh_length.
  assert (Hf2 : length (fresh_bytes MaxWireSize) = 64%nat) by by rewrite fresh_length.
  assert (Hl1 : length (mail_header_bytes mailH) = 12%nat) by apply words_bytes_length.
  assert (Hl2 : length (header_bytes pktH) = 12%nat) by apply words_bytes_length.
  rewrite !blit_start by (rewrite ?Hl1, ?Hl2; lia). do 4 eexists. split; [done|].
  rewrite (blit_after (mail_header_bytes mailH)) by (rewrite ?length_drop; lia). split; [done|].
  set (buf := mail_header_bytes mailH ++ _).
  assert (Hbuf : length buf = 52%nat) by (unfold buf; autorewrite with nachos_len; lia).
  split; [done|]. split; [done|].
  rewrite (blit_after (header_bytes pktH)) by (autorewrite with nachos_len; lia). split; [done|].
  set (rest := drop _ (drop _ _)).
  assert (Hrest : length rest = (52 - Z.to_nat (ph_length pktH))%nat)
    by (unfold rest; autorewrite with nachos_len; lia).
  split; [autorewrite with nachos_len; lia|].
  unfold decode. rewrite drop_app_length' by done.
  replace (header_of _) with pktH.
  2: { unfold header_of, header_bytes. rewrite words_of_bytes by (done || int_lia). by destruct pktH. }
  assert (Hmh : mail_header_of buf = mailH).
  { unfold mail_header_of, buf, mail_header_bytes. rewrite words_of_bytes by (done || int_lia). by destruct mailH. }
  rewrite <- (unpack_take _ buf _ (Z.to_nat (ph_length pktH))).
  - unfold unpack. rewrite Hmh. f_equal. unfold buf. rewrite drop_app_length' by done.
    rewrite take_app_le by lia. apply take_ge. lia.
  - lia.
  - rewrite take_app_le by (autorewrite with nachos_len; lia). by rewrite take_take, Nat.min_id.
  - rewrite Hmh. lia.
Qed.

(** * One post office *)
Section office.
Context {W : Type} `{!Datagrams W} {mem : FreshMemory} (n : Z).
Abbreviation state := (sys handlers (PostOffice.t * W)).
Implicit Types s : state.
Implicit Types p : PostOffice.t.

Definition mail_ok (m : Mail) : Prop := length (data m) = 40%nat ∧ 0 ≤ mh_length (mailHdr m) ≤ 40.

Definition box_ok (q : Queue.queue Mail) : Prop := Forall mail_ok (Queue.contents q).

(** The packet buffered in the network, if there is one. *)
Definition buffered p : list msg :=
  let net := network p in
  if ph_length (inHdr net) =? 0 then [] else [unpack (inHdr net) (inbox net)].

(** [messageAvailable] and the postal worker agree with the network about whether
    a packet is buffered. *)
Definition gate_ok (a : Z) p : Prop :=
  (buffered p = [] ∧ messageAvailable p = 0 ∧ postalWorker p = AtP) ∨
  (∃ m, buffered p = [m] ∧ msg_ok n a m ∧
    (messageAvailable p = 1 ∧ postalWorker p = AtP ∨ messageAvailable p = 0 ∧ postalWorker p = AtReceive)).

Record office_ok (a : Z) p : Prop := {
  oo_ident : ident (network p) = a;
  oo_addr : netAddr p = a;
  oo_s32 : is_s32 a;
  oo_boxes : numBoxes p = n;
  oo_length : Z.of_nat (length (boxes p)) = n;
  oo_busy : sendBusy (network p) = false;
  oo_inbox : length (inbox (network p)) = 52%nat;
  oo_buffer : length (buffer p) = 52%nat;
  oo_mail : Forall box_ok (boxes p);
  oo_gate : gate_ok a p
}.

(** Machine [a] with the messages [ms] on their way to its boxes. *)
Definition node_ok (a : Z) (ms : list msg) (d : PostOffice.t * W) : Prop :=
  office_ok a d.1 ∧
  ∃ q, dg_queue d.2 a = Some q ∧ Forall (packet_ok n a) q ∧ ms = buffered d.1 ++ (decode <$> q).

Lemma unpack_header h bs : m_pkt (unpack h bs) = h.
Proof. done. Qed.

(** ** The interrupt handlers *)

Lemma V_off f s :
  level (intr s) = IntOff →
  ∃ s', V f s = Done s' ∧ quiet s s' ∧ dev s' = (f (dev s).1, (dev s).2).
Proof.
  intros Hl. unfold V, SetLevel_enter. rewrite bind_ASSERT by done. cbn [mbind res_bind].
  rewrite Hl. rewrite bind_ASSERT by done. eexists. split; [done|]. split; [|done].
  split; try done.
Qed.

Lemma quiet_same_intr s s' : intr s' = intr s → same_clock (stats s') (stats s) → quiet s s'.
Proof.
  intros Hi Hc. split; try congruence; unfold items; rewrite Hi; done.
Qed.

(** The packet that is read is the oldest one; nothing on its way is lost. *)
Lemma CheckPktAvail_ok a ms s :
  node_ok a ms (dev s) → level (intr s) = IntOff →
  0 ≤ totalTicks s → totalTicks s + 100 ≤ INT_MAX →
  ∃ s', CheckPktAvail NetworkReadPoll IncomingPacket s = Done s' ∧ quiet s s' ∧
    node_ok a ms (dev s') ∧ boxes (dev s').1 = boxes (dev s).1 ∧
    ∀ b, b ≠ a → dg_queue (dev s').2 b = dg_queue (dev s).2 b.
Proof.
  intros Hn Hl Hlo Hhi. unfold CheckPktAvail.
  destruct (Schedule_quiet NetworkReadPoll Statistics.NetworkTime NetworkRecvInt s)
    as (s1 & -> & Hq1 & Hd1 & _); [done..|]. cbn [mbind res_bind].
  rewrite Hd1. destruct (dev s) as [p w] eqn:Hdev. destruct Hn as [Ho (q & Hqq & Hpk & Hms)].
  cbn [fst snd] in *. simpl net. simpl wire.
  destruct (ph_length (inHdr (network p)) =? 0) eqn:E; simplify_tests; cbn [negb].
  2: { exists s1. rewrite Hd1. split; [done|]. split; [done|]. split; [|done].
       split; [done|]. by exists q. }
  rewrite (oo_ident _ _ Ho), (dg_poll_queue _ _ _ Hqq). rewrite negb_involutive.
  case_bool_decide as Hnil.
  { exists s1. rewrite Hd1. split; [done|]. split; [done|]. split; [|done].
    split; [done|]. by exists q. }
  destruct q as [|pk q]; [done|]. apply Forall_cons in Hpk as [[Hlen Hok] Hpk].
  destruct (dg_recv_queue _ _ _ _ Hqq) as (w' & Hrv & Hq' & Hoth).
  unfold ReadFromSocket. rewrite Hrv, Hlen. rewrite bind_ASSERT by done. cbn [mbind res_bind].
  pose proof (mo_to _ _ _ Hok) as Hto. pose proof (mo_plen _ _ _ Hok) as Hpl.
  pose proof (mo_mlen _ _ _ Hok) as Hml. unfold decode in Hto, Hpl, Hml. simpl m_pkt in Hto, Hpl.
  set (hdr := header_of pk) in *. set (mh := mail_header_of (drop 12 pk)) in *.
  change (m_mail (unpack hdr (drop 12 pk))) with mh in Hpl, Hml.
  rewrite bind_ASSERT.
  2: { rewrite andb_true_iff, Z.eqb_eq, Z.leb_le. split; [done|]. change MaxPacketSize with 52. lia. }
  rewrite slice_in_range by (change sizeof_PacketHeader with 12; lia). cbn [mbind res_bind].
  change (Z.to_nat sizeof_PacketHeader) with 12%nat.
  set (data := take _ _).
  assert (Hdl : length data = Z.to_nat (ph_length hdr)).
  { unfold data. rewrite length_take, length_drop. lia. }
  rewrite blit_start by (rewrite Hdl, (oo_inbox _ _ Ho); lia). cbn [mbind res_bind].
  set (box := data ++ _). set (net' := set_inbox _ box).
  match goal with |- context [IncomingPacket ?x] => set (s2 := x) end.
  destruct (V_off (λ p, set_available p (s32 (messageAvailable p + 1))) s2) as (s' & Hs' & Hqt & Hd').
  { unfold s2. simpl. by rewrite (q_level _ _ Hq1). }
  exists s'. split; [exact Hs'|].
  assert (Hun : unpack hdr box = decode pk).
  { unfold decode. symmetry. apply (unpack_take _ _ _ (Z.to_nat (ph_length hdr))).
    - lia.
    - unfold box. rewrite take_app_le by lia. unfold data. by rewrite take_take, Nat.min_id.
    - fold mh. lia. }
  assert (Hbl : length box = 52%nat).
  { unfold box. rewrite length_app, length_drop, (oo_inbox _ _ Ho). lia. }
  clearbody box. clear data Hdl. clearbody hdr mh.
  split.
  { eapply quiet_trans; [exact Hq1|]. eapply quiet_trans; [|exact Hqt].
    apply quiet_same_intr; [done|]. by split_and!. }
  rewrite Hd'. unfold s2, net'. cbn. destruct Ho. split.
  - split.
    + split; try done. right. exists (decode pk). unfold buffered. simpl.
      assert (Hnz : (ph_length hdr =? 0) = false) by (apply Z.eqb_neq; lia).
      rewrite Hnz, Hun. split; [done|]. split; [done|]. left.
      destruct oo_gate0 as [(_ & Hav & Hw)|(m & Hb & _)].
      * by rewrite Hav.
      * unfold buffered in Hb. by rewrite E in Hb.
    + exists q. split; [done|]. split; [done|]. rewrite Hms. unfold buffered. simpl.
      assert (Hnz : (ph_length hdr =? 0) = false) by (apply Z.eqb_neq; lia).
      rewrite Hnz, E, Hun. done.
  - done.
Qed.

Lemma SendDone_ok a ms s :
  node_ok a ms (dev s) → level (intr s) = IntOff →
  ∃ s', SendDone PacketSent s = Done s' ∧ quiet s s' ∧
    node_ok a ms (dev s') ∧ boxes (dev s').1 = boxes (dev s).1 ∧ (dev s').2 = (dev s).2.
Proof.
  intros [Ho (q & Hq & Hpk & Hms)] Hl. unfold SendDone.
  match goal with |- context [PacketSent ?x] => set (s2 := x) end.
  destruct (V_off (λ p, set_sent p (s32 (messageSent p + 1))) s2) as (s' & Hs' & Hqt & Hd'); [done|].
  exists s'. split; [exact Hs'|]. split.
  { eapply quiet_trans; [|exact Hqt]. apply quiet_same_intr; [done|]. by split_and!. }
  rewrite Hd'. split; [|done]. destruct Ho. split; [by split|]. by exists q.
Qed.

(** What stays the same when the handlers of machine [a] run. *)
Definition node_inv (a : Z) (ms : list msg) (bxs : list (Queue.queue Mail)) (w0 : W) (d : PostOffice.t * W) : Prop :=
  node_ok a ms d ∧ boxes d.1 = bxs ∧ ∀ b, b ≠ a → dg_queue d.2 b = dg_queue w0 b.

#[local] Instance office_handlers (a : Z) (ms : list msg) (bxs : list (Queue.queue Mail)) (w0 : W) : Handlers (call (W := W)) Done.
Proof.
  refine {| h_inv := node_inv a ms bxs w0; h_delay := 100 |}.
  - done.
  - intros d Hd. by exists d.
  - intros h s (Hn & Hb & Ho) Hl _ Hlo Hhi. destruct h.
    + destruct (CheckPktAvail_ok a ms s) as (s' & Hs' & Hq & Hn' & Hb' & Ho'); [done..|].
      exists s'. split; [exact Hs'|]. split; [done|]. split; [done|]. split; [congruence|].
      intros b Hba. rewrite Ho' by done. by apply Ho.
    + destruct (SendDone_ok a ms s) as (s' & Hs' & Hq & Hn' & Hb' & Ho'); [done..|].
      exists s'. split; [exact Hs'|]. split; [done|]. split; [done|]. split; [congruence|].
      intros b Hba. rewrite Ho'. by apply Ho.
Defined.

(** ** The operations of the threads *)

Definition sent_msg p (pktH : PacketHeader) (mailH : MailHeader) (d : list Z) : msg :=
  mkMsg (mkPH (to pktH) (netAddr p) (u32 (mh_length mailH + sizeof_MailHeader))) mailH
    (take (Z.to_nat (mh_length mailH)) d).

(** What a caller of [Send] has to respect. *)
Record sendable p (mailH : MailHeader) (d : list Z) : Prop := {
  sb_box : 0 ≤ mh_to mailH < numBoxes p;
  sb_from : is_s32 (mh_from mailH);
  sb_length : 0 ≤ mh_length mailH ≤ 40;
  sb_data : mh_length mailH ≤ Z.of_nat (length d)
}.

Lemma sent_msg_ok a p pktH mailH d :
  office_ok a p → sendable p mailH d → msg_ok n (to pktH) (sent_msg p pktH mailH d).
Proof.
  intros Ho [Hb _ Hl _]. split; simpl; try done.
  - rewrite u32_id; [done|]. change sizeof_MailHeader with 12. int_lia.
  - by rewrite <- (oo_boxes _ _ Ho).
Qed.

Lemma Send_enter_ok a r pktH mailH d s q :
  office_ok a (dev s).1 → sendable (dev s).1 mailH d → n ≤ INT_MAX → is_s32 (to pktH) →
  dg_queue (dev s).2 (to pktH) = Some q → 0 ≤ totalTicks s → totalTicks s + 100 ≤ INT_MAX →
  ∃ s', Send_enter r pktH mailH d s = Done s' ∧ quiet s s' ∧ stats s' = stats s ∧ (dev s').1 = (dev s).1 ∧
    if lost (chanceToWork (network (dev s).1)) r then (dev s').2 = (dev s).2
    else (∃ pk, length pk = 64%nat ∧ decode pk = sent_msg (dev s).1 pktH mailH d ∧
            dg_queue (dev s').2 (to pktH) = Some (q ++ [pk])) ∧
         ∀ b, b ≠ to pktH → dg_queue (dev s').2 b = dg_queue (dev s).2 b.
Proof.
  intros Ho [Hb Hf Hl Hd] Hn Hto Hq Hlo Hhi. unfold Send_enter.
  rewrite bind_ASSERT by (apply Z.leb_le; change MaxMailSize with 40; lia).
  rewrite bind_ASSERT by (rewrite andb_true_iff, Z.leb_le, Z.ltb_lt; lia).
  set (h := mkPH _ _ _).
  assert (Hhl : ph_length h = mh_length mailH + 12).
  { unfold h. simpl. rewrite u32_id; [done|]. change sizeof_MailHeader with 12. int_lia. }
  assert (Hhf : from h = ident (network (dev s).1)).
  { unfold h. simpl. by rewrite (oo_ident _ _ Ho), (oo_addr _ _ Ho). }
  rewrite (oo_boxes _ _ Ho) in Hb.
  destruct (framing_roundtrip mem h mailH d) as (buf0 & buf & p0 & pk & H1 & H2 & H3 & H4 & H5 & H6 & H7);
    try done.
  { rewrite Hhf, (oo_ident _ _ Ho). apply Ho. }
  { split; [unfold INT_MIN|]; lia. }
  rewrite H1. cbn [mbind res_bind]. rewrite slice_in_range by lia. cbn [mbind res_bind].
  rewrite drop_0. change sizeof_MailHeader with 12. rewrite H2. cbn [mbind res_bind Synch.Acquire].
  unfold Send. simpl net.
  rewrite bind_ASSERT.
  2: { rewrite (oo_busy _ _ Ho), Hhf, Z.eqb_refl, Hhl. change MaxPacketSize with 52.
       rewrite !andb_true_iff, Z.ltb_lt, Z.leb_le. split_and!; (done || lia). }
  destruct (Schedule_quiet NetworkSendDone Statistics.NetworkTime NetworkSendInt s)
    as (s1 & -> & Hq1 & Hd1 & Hst1 & _); [done..|]. cbn [mbind res_bind].
  destruct (lost _ r).
  { exists s1. by rewrite Hd1. }
  rewrite H4. cbn [mbind res_bind]. rewrite slice_in_range by lia. cbn [mbind res_bind].
  rewrite drop_0. change sizeof_PacketHeader with 12. rewrite H5. cbn [mbind res_bind].
  simpl wire. rewrite Hd1. unfold SendToSocket.
  destruct (dg_send_bound _ _ _ pk Hq) as (w' & Hw & Hq' & Hoth).
  change (to h) with (to pktH). rewrite Hw. eexists. split; [done|].
  split. { eapply quiet_trans; [exact Hq1|]. apply quiet_same_intr; [done|]. by split_and!. }
  cbn. split; [done|]. split; [done|]. split; [|done]. by exists pk.
Qed.

(** Taking the buffered packet off the network and putting it into its box. *)
Lemma deliver_ok a ms s :
  node_ok a ms (dev s) → postalWorker (dev s).1 = AtReceive →
  ∃ s' m ms' q ml, PostalDelivery_deliver s = Done s' ∧ intr s' = intr s ∧ stats s' = stats s ∧
    (dev s').2 = (dev s).2 ∧ ms = m :: ms' ∧ node_ok a ms' (dev s') ∧ mail_ok ml ∧ mail_msg ml = m ∧
    0 ≤ mh_to (m_mail m) < n ∧ boxes (dev s).1 !! Z.to_nat (mh_to (m_mail m)) = Some q ∧
    boxes (dev s').1 = <[Z.to_nat (mh_to (m_mail m)) := Queue.Append ml q]> (boxes (dev s).1).
Proof.
  intros [Ho (qu & Hqu & Hpk & Hms)] Hw. unfold PostalDelivery_deliver.
  destruct (dev s) as [p w] eqn:Hdev. cbn [fst snd] in *.
  destruct (oo_gate _ _ Ho) as [(_ & _ & ?)|(m & Hb & Hm & [[_ ?]|[Hav _]])]; [congruence..|].
  destruct Hm as [Hto Hpl Hml Hbx]. unfold buffered in Hb, Hms.
  destruct (ph_length (inHdr (network p)) =? 0) eqn:E; [done|]. injection Hb as Hb.
  unfold Network.Receive. rewrite E. cbn [negb]. simpl inbox.
  set (hdr := inHdr (network p)) in *.
  assert (Hhdr : m_pkt m = hdr) by by rewrite <- Hb.
  rewrite Hhdr in Hpl.
  rewrite slice_in_range by (rewrite ?(oo_inbox _ _ Ho); lia). rewrite drop_0. cbn [mbind res_bind].
  set (bs := take _ _).
  assert (Hbs : length bs = Z.to_nat (ph_length hdr)).
  { unfold bs. rewrite length_take, (oo_inbox _ _ Ho). lia. }
  rewrite blit_start by (rewrite Hbs, (oo_buffer _ _ Ho); lia). cbn [mbind res_bind].
  set (buf := bs ++ _).
  assert (Hbl : length buf = 52%nat).
  { unfold buf. rewrite length_app, length_drop, (oo_buffer _ _ Ho). lia. }
  assert (Hun : unpack hdr buf = m).
  { rewrite <- Hb. symmetry. apply (unpack_take _ _ _ (Z.to_nat (ph_length hdr))).
    - lia.
    - unfold buf. rewrite take_app_le by lia. unfold bs. by rewrite take_take, Nat.min_id.
    - change (mail_header_of (inbox (network p))) with (m_mail (unpack hdr (inbox (network p)))).
      rewrite Hb. lia. }
  clearbody buf. clear bs Hbs.
  assert (Hmh : mail_header_of buf = m_mail m) by by rewrite <- Hun.
  assert (Hdt : take (Z.to_nat (mh_length (m_mail m))) (drop 12 buf) = m_data m)
    by by rewrite <- Hmh, <- Hun.
  rewrite Hmh. rewrite bind_ASSERT by (rewrite (oo_boxes _ _ Ho), andb_true_iff, Z.leb_le, Z.ltb_lt; lia).
  rewrite bind_ASSERT by (apply Z.leb_le; change MaxMailSize with 40; lia).
  change sizeof_MailHeader with 12. change (MaxPacketSize - 12) with 40.
  rewrite slice_in_range by lia. cbn [mbind res_bind].
  destruct (aget_in_range (boxes p) (mh_to (m_mail m))) as (q & -> & Hq); [rewrite (oo_length _ _ Ho); lia|].
  cbn [mbind res_bind]. unfold Put, Mail_new.
  rewrite bind_ASSERT by (apply Z.leb_le; change MaxMailSize with 40; lia).
  change (Z.to_nat 40) with 40%nat. change (Z.to_nat 12) with 12%nat.
  rewrite slice_in_range by (rewrite ?length_take, ?length_drop; lia). cbn [mbind res_bind].
  rewrite drop_0, take_take, Nat.min_l, Hdt by lia.
  assert (Hml' : length (m_data m) = Z.to_nat (mh_length (m_mail m)))
    by (rewrite <- Hdt, length_take, length_drop; lia).
  rewrite blit_start by (rewrite fresh_length by done; change (Z.to_nat MaxMailSize) with 40%nat; lia).
  cbn [mbind res_bind]. set (ml := mkMail _ _ _). unfold SynchList.Append. cbn [mbind res_bind Synch.Acquire Synch.Signal Synch.Release].
  rewrite aset_in_range by (rewrite (oo_length _ _ Ho); lia). cbn [mbind res_bind].
  assert (Hmok : mail_ok ml).
  { unfold mail_ok, ml. simpl. rewrite length_app, length_drop, fresh_length by done.
    change (Z.to_nat MaxMailSize) with 40%nat. lia. }
  eexists _, m, (decode <$> qu), q, ml. split; [done|].
  do 2 (split; [done|]). split; [unfold on_office; simpl; by rewrite Hdev|]. split; [by rewrite Hms, Hb|].
  split; [|split; [done|]; split; [|done]].
  - unfold on_office. cbn [dev set_dev]. rewrite Hdev. split; [|by exists qu].
    destruct Ho. split; simpl; try done.
    + by rewrite length_insert.
    + apply Forall_insert; [done|]. unfold box_ok, Queue.contents. simpl. rewrite fmap_app.
      apply Forall_app. split; [|by constructor]. by apply (Forall_lookup_1 _ _ _ _ oo_mail0 Hq).
    + left. unfold buffered. simpl. done.
  - unfold mail_msg, ml. simpl. rewrite take_app_le by lia. rewrite take_ge by lia.
    rewrite <- Hhdr. by destruct m.
Qed.

Lemma PostalDelivery_wait_ok a ms s :
  node_ok a ms (dev s) → postalWorker (dev s).1 = AtP →
  (PostalDelivery_wait s = Blocks ∧ buffered (dev s).1 = []) ∨
  ∃ s', PostalDelivery_wait s = Done s' ∧ intr s' = intr s ∧ stats s' = stats s ∧
    (dev s').2 = (dev s).2 ∧ boxes (dev s').1 = boxes (dev s).1 ∧ node_ok a ms (dev s').
Proof.
  intros [Ho (q & Hq & Hpk & Hms)] Hw. unfold PostalDelivery_wait.
  destruct (oo_gate _ _ Ho) as [(Hb & -> & _)|(m & Hb & Hm & [[Hav _]|[_ ?]])]; [by left| |congruence].
  right. rewrite Hav. eexists. split; [done|]. do 4 (split; [done|]).
  split; [|by exists q]. destruct Ho. split; try done. right. exists m.
  split; [exact Hb|]. split; [done|]. right. simpl. by rewrite Hav.
Qed.

Lemma Receive_empty a ms i s q :
  node_ok a ms (dev s) → 0 ≤ i < n → boxes (dev s).1 !! Z.to_nat i = Some q → Queue.contents q = [] →
  Receive i s = Assert.
Proof.
  intros [Ho _] Hi Hq Hc. unfold Receive.
  rewrite bind_ASSERT by (rewrite (oo_boxes _ _ Ho), andb_true_iff, Z.leb_le, Z.ltb_lt; lia).
  rewrite (aget_Some _ _ q) by (lia || done). cbn [mbind res_bind].
  unfold Get, SynchList.Remove, Queue.IsEmpty. apply fmap_nil_inv in Hc. by rewrite Hc.
Qed.

Lemma Receive_ok a ms i s q ml rest :
  node_ok a ms (dev s) → 0 ≤ i < n → boxes (dev s).1 !! Z.to_nat i = Some q → Queue.contents q = ml :: rest →
  ∃ s' q', Receive i s = Done (pktHdr ml, mailHdr ml, m_data (mail_msg ml), s') ∧
    intr s' = intr s ∧ stats s' = stats s ∧ (dev s').2 = (dev s).2 ∧ node_ok a ms (dev s') ∧
    Queue.contents q' = rest ∧ boxes (dev s').1 = <[Z.to_nat i := q']> (boxes (dev s).1).
Proof.
  intros [Ho (qu & Hqu & Hpk & Hms)] Hi Hq Hc. unfold Receive.
  rewrite bind_ASSERT by (rewrite (oo_boxes _ _ Ho), andb_true_iff, Z.leb_le, Z.ltb_lt; lia).
  rewrite (aget_Some _ _ q) by (lia || done). cbn [mbind res_bind].
  pose proof (Forall_lookup_1 _ _ _ _ (oo_mail _ _ Ho) Hq) as Hbox. unfold box_ok in Hbox.
  rewrite Hc in Hbox. apply Forall_cons in Hbox as [[Hdl Hlen] Hrest].
  unfold Get, SynchList.Remove, Queue.Remove, Queue.SortedRemove, Queue.IsEmpty.
  destruct q as [[|[k x] xs] sz]; [done|]. injection Hc as -> Hc.
  cbn [mbind res_bind Synch.Acquire Synch.Release Queue.items fmap option_fmap option_map snd].
  rewrite slice_in_range by lia. cbn [mbind res_bind].
  rewrite bind_ASSERT by (apply Z.leb_le; change MaxMailSize with 40; lia).
  rewrite aset_in_range by (rewrite (oo_length _ _ Ho); lia). cbn [mbind res_bind].
  eexists _, (Queue.mkQ xs _). split; [done|]. do 3 (split; [done|]).
  split; [|split; [exact Hc|reflexivity]].
  split; [|by exists qu]. destruct Ho. split; simpl; try done.
  - by rewrite length_insert.
  - apply Forall_insert; [done|]. rewrite <- Hc in Hrest. exact Hrest.
Qed.

End office.

End PostSpec.
