(* ===== verification/PostRuns.v ===== *)
(** PostRuns: machines that send mail to each other.

    A [world] is a set of machines, each with the post office of Network.v, and the
    sockets of the host that connect them.  An [event] is what one machine does up to
    the next point where something else can happen: a clock tick or a wait for the
    next interrupt (whose handlers poll the network), the two halves of
    PostOffice::Send, a turn of the postal worker, a call of PostOffice::Receive.
    The theorems are about every sequence of events. *)

From Stdlib Require Import SpecFloat.
From S2P Require Import Prelude Lists Machine Interrupt Network PostSpec.

Module PostRuns.
Import Interrupt InterruptSpec Network PostOffice PostSpec.

Section world.
Context {W : Type} `{!Datagrams W} {mem : FreshMemory} (n : Z).
Abbreviation machine := (sys handlers PostOffice.t).

Record world : Type := mkWorld {
  nodes : gmap Z machine;
  sockets : W
}.

Definition plug (s : machine) (w : W) : sys handlers (PostOffice.t * W) :=
  mkSys (intr s) (stats s) (dev s, w).
Definition unplug (s : sys handlers (PostOffice.t * W)) : machine :=
  mkSys (intr s) (stats s) (dev s).1.

(** ** Starting the machines *)

Definition boot_node (w : world) (x : Z * double * Network.t) : res world :=
  let '(addr, reliability, n0) := x in
  s ← PostOffice addr reliability n n0 (sockets w) (mkSys Interrupt Statistics.Statistics ());
  Done (mkWorld (<[addr := unplug s]> (nodes w)) (dev s).2).

Fixpoint boot (xs : list (Z * double * Network.t)) (w : world) : res world :=
  match xs with
  | [] => Done w
  | x :: xs => w ← boot_node w x; boot xs w
  end.

(** ** Events *)

Inductive event : Type :=
| ETick (a : Z)
| EIdle (a : Z)
| ESend (a r : Z) (pktH : PacketHeader) (mailH : MailHeader) (d : list Z)
| ESent (a : Z)
| EWorker (a : Z)
| EReceive (a i : Z).

Inductive obs : Type :=
| OSent (m : msg) (dropped : bool)
| OReceived (a i : Z) (m : msg).

Definition quietly {A} (m : res A) : res (A * list obs) := s ← m; Done (s, []).

Definition exec_node (e : event) (s : sys handlers (PostOffice.t * W)) :
    res (sys handlers (PostOffice.t * W) * list obs) :=
  match e with
  | ETick _ => quietly (OneTick_enter call Done s)
  | EIdle _ =>
      r ← Idle call Done (ChangeLevel IntOff s);
      match r with Some s => Done (s, []) | None => Blocks end
  | ESend _ r pktH mailH d =>
      s' ← Send_enter r pktH mailH d s;
      Done (s', [OSent (sent_msg (dev s).1 pktH mailH d) (lost (chanceToWork (network (dev s).1)) r)])
  | ESent _ => quietly (Send_leave s)
  | EWorker _ => quietly (PostalDelivery s)
  | EReceive a i =>
      '(p, m, d, s) ← Receive i s;
      Done (s, [OReceived a i (mkMsg p m d)])
  end.

Definition event_node (e : event) : Z :=
  match e with
  | ETick a | EIdle a | ESend a _ _ _ _ | ESent a | EWorker a | EReceive a _ => a
  end.

Definition exec (e : event) (w : world) : res (world * list obs) :=
  match nodes w !! event_node e with
  | None => Undef
  | Some s =>
      '(s', o) ← exec_node e (plug s (sockets w));
      Done (mkWorld (<[event_node e := unplug s']> (nodes w)) (dev s').2, o)
  end.

(** What the callers respect; the clocks have not run out of their 31 bits. *)
Definition enabled (w : world) (e : event) : Prop :=
  ∃ s, nodes w !! event_node e = Some s ∧
  match e with
  | ETick _ => totalTicks s + 110 ≤ INT_MAX
  | EIdle _ => totalTicks s + 100 ≤ INT_MAX ∧ ∀ t x, (t, x) ∈ items s → t + 100 ≤ INT_MAX
  | ESend _ _ pktH mailH d =>
      sendable (dev s) mailH d ∧ is_Some (nodes w !! to pktH) ∧ totalTicks s + 100 ≤ INT_MAX
  | ESent _ | EWorker _ => True
  | EReceive _ i => 0 ≤ i < n
  end.

(** ** What is where *)

Definition for_box (i : Z) (ms : list msg) : list msg := filter (λ m, mh_to (m_mail m) = i) ms.

(** On its way to machine [a]: in the network's buffer or in the socket. *)
Definition in_transit (w : world) (a : Z) : list msg :=
  match nodes w !! a with
  | Some s => buffered (dev s) ++ (decode <$> default [] (dg_queue (sockets w) a))
  | None => []
  end.

Definition boxed (p : PostOffice.t) (i : Z) : list msg :=
  match boxes p !! Z.to_nat i with
  | Some q => mail_msg <$> Queue.contents q
  | None => []
  end.

(** In box [i] of machine [a]. *)
Definition waiting (w : world) (a i : Z) : list msg :=
  match nodes w !! a with Some s => boxed (dev s) i | None => [] end.

(** The messages for box [i] of machine [a] that the network did not drop, in the
    order in which they were sent; and those that were received. *)
Definition accepted (o : list obs) (a i : Z) : list msg :=
  omap (λ x, match x with
             | OSent m false => if decide (to (m_pkt m) = a ∧ mh_to (m_mail m) = i) then Some m else None
             | _ => None
             end) o.
Definition received (o : list obs) (a i : Z) : list msg :=
  omap (λ x, match x with
             | OReceived b j m => if decide (b = a ∧ j = i) then Some m else None
             | _ => None
             end) o.

Lemma accepted_app o o' a i : accepted (o ++ o') a i = accepted o a i ++ accepted o' a i.
Proof. apply omap_app. Qed.
Lemma received_app o o' a i : received (o ++ o') a i = received o a i ++ received o' a i.
Proof. apply omap_app. Qed.

(** ** The invariant *)

Record clock_ok (s : machine) : Prop := {
  ck_handler : inHandler (intr s) = false;
  ck_sorted : Queue.sorted (items s);
  ck_low : 0 ≤ totalTicks s;
  ck_accounted : Statistics.accounted (stats s)
}.

Record world_ok (o : list obs) (w : world) : Prop := {
  wo_clock : ∀ a s, nodes w !! a = Some s → clock_ok s;
  wo_node : ∀ a s, nodes w !! a = Some s → node_ok n a (in_transit w a) (dev s, sockets w);
  wo_order : ∀ a s i, nodes w !! a = Some s → 0 ≤ i < n →
    accepted o a i = received o a i ++ boxed (dev s) i ++ for_box i (in_transit w a)
}.

Lemma node_ok_transit w a s ms :
  nodes w !! a = Some s → node_ok n a ms (dev s, sockets w) → in_transit w a = ms.
Proof. intros Hs [_ (q & Hq & _ & ->)]. unfold in_transit. simpl in Hq. by rewrite Hs, Hq. Qed.

(** A step of machine [a]. *)
Lemma world_ok_step o o' w a s' w' ms' :
  world_ok o w → clock_ok s' →
  (∀ b sb, <[a := s']> (nodes w) !! b = Some sb → node_ok n b (ms' b) (dev sb, w')) →
  (∀ b sb i, <[a := s']> (nodes w) !! b = Some sb → 0 ≤ i < n →
     accepted (o ++ o') b i = received (o ++ o') b i ++ boxed (dev sb) i ++ for_box i (ms' b)) →
  world_ok (o ++ o') (mkWorld (<[a := s']> (nodes w)) w').
Proof.
  intros Hw Hc Hn Ho.
  assert (Ht : ∀ b sb, <[a := s']> (nodes w) !! b = Some sb →
    in_transit (mkWorld (<[a := s']> (nodes w)) w') b = ms' b).
  { intros b sb Hb. by apply node_ok_transit with sb; [|apply Hn]. }
  split; simpl.
  - intros b sb Hb. apply lookup_insert_Some in Hb as [[<- <-]|[_ Hb]]; [done|]. by apply (wo_clock _ _ Hw b).
  - intros b sb Hb. rewrite (Ht b sb Hb). by apply Hn.
  - intros b sb i Hb Hi. rewrite (Ht b sb Hb). by apply Ho.
Qed.

(** A step of machine [a] that sends nothing: only its own mail moves. *)
Lemma world_ok_local o o' w a s s' w' ms' :
  world_ok o w → nodes w !! a = Some s → clock_ok s' →
  node_ok n a ms' (dev s', w') → (∀ b, b ≠ a → dg_queue w' b = dg_queue (sockets w) b) →
  (∀ b i, accepted o' b i = []) → (∀ b i, b ≠ a → received o' b i = []) →
  (∀ i, 0 ≤ i < n → boxed (dev s) i ++ for_box i (in_transit w a) =
                    received o' a i ++ boxed (dev s') i ++ for_box i ms') →
  world_ok (o ++ o') (mkWorld (<[a := s']> (nodes w)) w').
Proof.
  intros Hw Hs Hc Hn Hoth Hac Hrc Hmv.
  apply world_ok_step with (λ b, if decide (b = a) then ms' else in_transit w b); [done|done|..].
  - intros b sb Hb. apply lookup_insert_Some in Hb as [[<- <-]|[Hne Hb]].
    + by rewrite decide_True.
    + rewrite decide_False by done. destruct (wo_node _ _ Hw b sb Hb) as [Ho (q & Hq & Hpk & Hms)].
      split; [done|]. exists q. simpl in *. by rewrite Hoth.
  - intros b sb i Hb Hi. rewrite accepted_app, received_app, Hac, app_nil_r.
    apply lookup_insert_Some in Hb as [[<- <-]|[Hne Hb]].
    + rewrite decide_True by done. rewrite (wo_order _ _ Hw a s i Hs Hi), Hmv by done. by rewrite <- app_assoc.
    + rewrite decide_False by done. rewrite Hrc, app_nil_r by done. by apply (wo_order _ _ Hw b sb).
Qed.

(** ** Every event keeps it *)

(** A machine whose interrupts run. *)
Abbreviation fit a s w ms := (ready (call (W := W)) Done (Handlers0 := office_handlers n a ms (boxes (dev s)) w)).

Lemma fit_start a s w ms (s0 : sys handlers (PostOffice.t * W)) :
  clock_ok s → node_ok n a ms (dev s, w) → dev s0 = (dev s, w) →
  level (intr s0) = IntOff → inHandler (intr s0) = inHandler (intr s) → items s0 = items s →
  0 ≤ totalTicks s0 → totalTicks s0 + 100 ≤ INT_MAX → fit a s w ms s0.
Proof.
  intros Hc Hn Hd Hl Hh Hi Hlo Hhi. split; try done.
  - by rewrite Hh, (ck_handler _ Hc).
  - rewrite Hd. split; [done|]. by split.
  - rewrite Hi. apply (ck_sorted _ Hc).
Qed.

(** Handlers move mail only from the sockets to the network's buffer. *)
Lemma handlers_keep o w a s ms (s0 s' : sys handlers (PostOffice.t * W)) :
  world_ok o w → nodes w !! a = Some s → ms = in_transit w a → fit a s (sockets w) ms s0 →
  Statistics.accounted (stats s0) →
  inHandler (intr s') = inHandler (intr s0) → items s' = items s0 → stats s' = stats s0 → dev s' = dev s0 →
  world_ok o (mkWorld (<[a := unplug s']> (nodes w)) (dev s').2).
Proof.
  intros Hw Hs -> [_ Hh (Hn & Hb & Hoth) Hsrt Hlo _] Hacc Hh' Hi' Hst' Hd'.
  rewrite <- (app_nil_r o). apply world_ok_local with s (in_transit w a); try done.
  - split; simpl.
    + congruence.
    + change (Queue.sorted (items s')). by rewrite Hi'.
    + change (0 ≤ totalTicks s'). unfold totalTicks in *. by rewrite Hst'.
    + by rewrite Hst'.
  - rewrite Hd'. unfold unplug. cbn [dev]. rewrite Hd'. by destruct (dev s0).
  - intros b Hb'. rewrite Hd'. by apply Hoth.
  - intros i Hi. simpl. unfold boxed. rewrite Hd'. by rewrite Hb.
Qed.

Lemma exec_tick o w a s :
  world_ok o w → nodes w !! a = Some s → totalTicks s + 110 ≤ INT_MAX →
  ∃ w', exec (ETick a) w = Done (w', []) ∧ world_ok o w'.
Proof.
  intros Hw Hs Hmax. unfold exec, exec_node, quietly. cbn [event_node]. rewrite Hs.
  pose proof (wo_clock _ _ Hw a s Hs) as Hc. pose proof (ck_low _ Hc) as Hlo.
  assert (Ht : totalTicks (ticked (plug s (sockets w))) = totalTicks s + 10 ∨
               totalTicks (ticked (plug s (sockets w))) = totalTicks s + 1).
  { unfold ticked, totalTicks in *. simpl. destruct (status (intr s)); simpl;
      rewrite s32_id by (unfold Statistics.SystemTick, Statistics.UserTick; int_lia); auto. }
  destruct (OneTick_returns (call (W := W)) Done
    (Handlers0 := office_handlers n a (in_transit w a) (boxes (dev s)) (sockets w)) (plug s (sockets w)))
    as (s' & -> & Hr & _ & Hck).
  { apply fit_start; try done; [by apply (wo_node _ _ Hw)|lia|lia]. }
  eexists. split; [done|]. eapply handlers_keep; [done|done|reflexivity|exact Hr| |done..].
  simpl. eapply same_clock_accounted; [done|]. apply ticked_accounted. apply (ck_accounted _ Hc).
Qed.

Lemma exec_idle o w a s :
  world_ok o w → nodes w !! a = Some s → totalTicks s + 100 ≤ INT_MAX →
  (∀ t x, (t, x) ∈ items s → t + 100 ≤ INT_MAX) →
  exec (EIdle a) w = Blocks ∨ ∃ w', exec (EIdle a) w = Done (w', []) ∧ world_ok o w'.
Proof.
  intros Hw Hs Hmax Hit. unfold exec, exec_node. cbn [event_node]. rewrite Hs.
  pose proof (wo_clock _ _ Hw a s Hs) as Hc. pose proof (ck_low _ Hc) as Hlo.
  destruct (Idle_returns (call (W := W)) Done
    (Handlers0 := office_handlers n a (in_transit w a) (boxes (dev s)) (sockets w))
    (ChangeLevel IntOff (plug s (sockets w)))) as [->|(s' & -> & Hr & _ & Hacc)]; [..|by left|].
  { apply fit_start; try done. by apply (wo_node _ _ Hw). }
  { exact Hit. }
  { apply (ck_accounted _ Hc). }
  right. eexists. split; [done|]. by eapply handlers_keep.
Qed.

(** A thread's own work leaves the clock and the interrupts alone. *)
Lemma clock_ok_same (s : machine) (s' : sys handlers (PostOffice.t * W)) :
  clock_ok s → intr s' = intr s → stats s' = stats s → clock_ok (unplug s').
Proof. intros [] Hi Hs. split; unfold items, totalTicks in *; simpl; by rewrite ?Hi, ?Hs. Qed.

Lemma exec_sent o w a s :
  world_ok o w → nodes w !! a = Some s →
  (exec (ESent a) w = Blocks ∧ messageSent (dev s) = 0) ∨
  ∃ w', exec (ESent a) w = Done (w', []) ∧ world_ok o w'.
Proof.
  intros Hw Hs. unfold exec, exec_node, quietly, Send_leave. cbn [event_node]. rewrite Hs. simpl.
  destruct (messageSent (dev s) =? 0) eqn:E; simplify_tests; [by left|right].
  eexists. split; [done|]. rewrite <- (app_nil_r o).
  destruct (wo_node _ _ Hw a s Hs) as [Ho (q & Hq & Hpk & Hms)].
  apply world_ok_local with s (in_transit w a); try done.
  - eapply clock_ok_same; [by apply (wo_clock _ _ Hw a)|done..].
  - destruct Ho. split; [by split|]. by exists q.
Qed.

Lemma boxed_lookup p i q : boxes p !! Z.to_nat i = Some q → boxed p i = mail_msg <$> Queue.contents q.
Proof. unfold boxed. by intros ->. Qed.

Lemma boxed_insert p p' i j q q' :
  0 ≤ i → 0 ≤ j → boxes p !! Z.to_nat i = Some q → boxes p' = <[Z.to_nat i := q']> (boxes p) →
  boxed p' j = if decide (j = i) then mail_msg <$> Queue.contents q' else boxed p j.
Proof.
  intros Hi Hj Hq Hb. unfold boxed. rewrite Hb. case_decide as Hd.
  - subst. rewrite list_lookup_insert_eq; [done|]. by apply lookup_lt_Some in Hq.
  - rewrite list_lookup_insert_ne by lia. done.
Qed.

Lemma for_box_cons i m ms :
  for_box i (m :: ms) = (if decide (mh_to (m_mail m) = i) then [m] else []) ++ for_box i ms.
Proof. unfold for_box. rewrite filter_cons. by case_decide. Qed.

Lemma exec_worker o w a s :
  world_ok o w → nodes w !! a = Some s →
  (exec (EWorker a) w = Blocks ∧ buffered (dev s) = []) ∨
  ∃ w', exec (EWorker a) w = Done (w', []) ∧ world_ok o w'.
Proof.
  intros Hw Hs. unfold exec, exec_node, quietly, PostalDelivery. cbn [event_node]. rewrite Hs.
  pose proof (wo_node _ _ Hw a s Hs) as Hn. pose proof (wo_clock _ _ Hw a s Hs) as Hc.
  change (postalWorker (dev (plug s (sockets w))).1) with (postalWorker (dev s)).
  destruct (postalWorker (dev s)) eqn:Hwk.
  - destruct (PostalDelivery_wait_ok n a (in_transit w a) (plug s (sockets w)))
      as [[-> Hb]|(s' & -> & Hi & Hst & Hd2 & Hbx & Hn')]; [done..|by left|].
    right. eexists. split; [done|]. rewrite <- (app_nil_r o).
    apply world_ok_local with s (in_transit w a); try done.
    + by eapply clock_ok_same.
    + by rewrite Hd2.
    + intros i _. simpl. unfold boxed. by rewrite Hbx.
  - destruct (deliver_ok n a (in_transit w a) (plug s (sockets w)))
      as (s' & m & ms' & q & ml & -> & Hi & Hst & Hd2 & Hms & Hn' & _ & Hml & Hbox & Hq & Hbx); [done..|].
    right. eexists. split; [done|]. rewrite <- (app_nil_r o).
    apply world_ok_local with s ms'; try done.
    + by eapply clock_ok_same.
    + by rewrite Hd2.
    + intros i Hi'. rewrite Hms, for_box_cons. simpl.
      rewrite (boxed_insert (dev s) (dev s').1 (mh_to (m_mail m)) i q (Queue.Append ml q)) by (done || lia).
      destruct (decide (i = mh_to (m_mail m))) as [->|Hne].
      * rewrite decide_True, (boxed_lookup _ _ q) by done. unfold Queue.contents. simpl.
        rewrite !fmap_app. simpl. by rewrite Hml, <- app_assoc.
      * by rewrite decide_False by done.
Qed.

Lemma exec_receive o w a s i :
  world_ok o w → nodes w !! a = Some s → 0 ≤ i < n →
  (exec (EReceive a i) w = Assert ∧ waiting w a i = []) ∨
  ∃ w' m, exec (EReceive a i) w = Done (w', [OReceived a i m]) ∧
          world_ok (o ++ [OReceived a i m]) w' ∧ waiting w a i = m :: waiting w' a i.
Proof.
  intros Hw Hs Hi. unfold exec, exec_node, waiting. cbn [event_node]. rewrite Hs.
  pose proof (wo_node _ _ Hw a s Hs) as Hn. pose proof (wo_clock _ _ Hw a s Hs) as Hc.
  destruct (lookup_lt_is_Some_2 (boxes (dev s)) (Z.to_nat i)) as [q Hq].
  { destruct Hn as [Ho _]. pose proof (oo_length _ _ _ Ho). simpl in *. lia. }
  rewrite (boxed_lookup _ _ q) by done.
  destruct (Queue.contents q) as [|ml rest] eqn:Hcq.
  { left. by rewrite (Receive_empty n a (in_transit w a) i _ q). }
  right. destruct (Receive_ok n a (in_transit w a) i (plug s (sockets w)) q ml rest)
    as (s' & q' & -> & Hin & Hst & Hd2 & Hn' & Hcq' & Hbx); [done..|].
  assert (Hbi : ∀ j, 0 ≤ j → boxed (dev s').1 j = if decide (j = i) then mail_msg <$> rest else boxed (dev s) j).
  { intros j Hj. rewrite (boxed_insert (dev s) (dev s').1 i j q q') by (done || lia). by rewrite Hcq'. }
  eexists _, (mail_msg ml). split; [done|]. split.
  - apply world_ok_local with s (in_transit w a); try done.
    + by eapply clock_ok_same.
    + by rewrite Hd2.
    + intros b j Hb. simpl. rewrite decide_False by naive_solver. done.
    + intros j Hj. simpl. rewrite Hbi by lia. destruct (decide (j = i)) as [->|Hne].
      * rewrite decide_True, (boxed_lookup _ _ q), Hcq by done. done.
      * rewrite decide_False by naive_solver. done.
  - simpl. rewrite lookup_insert_eq. simpl. rewrite Hbi, decide_True by (done || lia). done.
Qed.

Lemma exec_send o w a s r pktH mailH d :
  n ≤ INT_MAX → world_ok o w → nodes w !! a = Some s → sendable (dev s) mailH d →
  is_Some (nodes w !! to pktH) → totalTicks s + 100 ≤ INT_MAX →
  ∃ w', exec (ESend a r pktH mailH d) w =
          Done (w', [OSent (sent_msg (dev s) pktH mailH d) (lost (chanceToWork (network (dev s))) r)]) ∧
        world_ok (o ++ [OSent (sent_msg (dev s) pktH mailH d) (lost (chanceToWork (network (dev s))) r)]) w'.
Proof.
  intros Hnm Hw Hs Hsb [sd Hsd] Hmax. unfold exec, exec_node. cbn [event_node]. rewrite Hs.
  destruct (wo_node _ _ Hw a s Hs) as [Ho _]. pose proof (wo_clock _ _ Hw a s Hs) as Hc.
  destruct (wo_node _ _ Hw (to pktH) sd Hsd) as [Hod (q & Hq & Hpk & Hms)]. cbn [fst snd] in *.
  pose proof (sent_msg_ok n a (dev s) pktH mailH d Ho Hsb) as Hm.
  destruct (Send_enter_ok n a r pktH mailH d (plug s (sockets w)) q)
    as (s' & -> & Hqt & Hst & Hd1 & Hd2); [done|done|done|apply Hod|done|apply (ck_low _ Hc)|done|].
  cbn [mbind res_bind]. eexists. split; [done|].
  change (dev (plug s (sockets w))) with (dev s, sockets w) in *. cbn [fst snd] in Hd1, Hd2.
  set (m := sent_msg _ _ _ _) in *. set (lo := lost _ r) in *.
  assert (Hdev : ∀ b sb, <[a := unplug s']> (nodes w) !! b = Some sb →
    ∃ sb0, nodes w !! b = Some sb0 ∧ dev sb = dev sb0).
  { intros b sb Hb. apply lookup_insert_Some in Hb as [[<- <-]|[_ Hb]]; eauto. }
  apply world_ok_step with (λ b, in_transit w b ++ (if decide (to pktH = b ∧ lo = false) then [m] else []));
    [done|..].
  - destruct Hc as [Hh Hsrt Hlo Hacc], Hqt. split; simpl.
    + by rewrite q_inHandler.
    + by apply q_sorted.
    + unfold totalTicks in *. simpl. by rewrite Hst.
    + by rewrite Hst.
  - intros b sb Hb. destruct (Hdev b sb Hb) as (sb0 & Hb0 & ->).
    destruct (wo_node _ _ Hw b sb0 Hb0) as [Hob (qb & Hqb & Hpkb & Hmsb)]. cbn [fst snd] in *.
    split; [done|]. cbn [fst snd]. destruct lo.
    { exists qb. rewrite decide_False, app_nil_r by naive_solver. by rewrite Hd2. }
    destruct Hd2 as [(pk & Hpl & Hdc & Hq') Hoth]. destruct (decide (to pktH = b)) as [<-|Hne].
    + rewrite decide_True by done. exists (qb ++ [pk]). assert (qb = q) as -> by congruence.
      split; [done|]. split.
      * apply Forall_app. split; [done|]. constructor; [|done]. split; [done|]. by rewrite Hdc.
      * rewrite Hmsb, fmap_app, app_assoc. simpl. by rewrite Hdc.
    + rewrite decide_False, app_nil_r by naive_solver. exists qb. by rewrite Hoth.
  - intros b sb i Hb Hi. destruct (Hdev b sb Hb) as (sb0 & Hb0 & ->).
    rewrite accepted_app, received_app, (wo_order _ _ Hw b sb0 i Hb0 Hi).
    unfold for_box. rewrite filter_app. simpl. rewrite app_nil_r, <- !app_assoc. do 3 f_equal.
    change (to (m_pkt m)) with (to pktH). destruct lo.
    { rewrite decide_False by naive_solver. done. }
    destruct (decide (to pktH = b)) as [<-|Hne].
    + rewrite (decide_True (P := to pktH = to pktH ∧ false = false)) by done. rewrite filter_cons, filter_nil.
      destruct (decide (mh_to (m_mail m) = i)); [rewrite decide_True by done|rewrite decide_False by naive_solver]; done.
    + by rewrite !decide_False by naive_solver.
Qed.

(** ** Reachable worlds *)

Record config_ok (xs : list (Z * double * Network.t)) (w0 : W) : Prop := {
  co_n : 0 ≤ n ≤ INT_MAX;
  co_nodup : NoDup (fst ∘ fst <$> xs);
  co_free : ∀ x, x ∈ xs → dg_queue w0 x.1.1 = None;
  co_node : ∀ x, x ∈ xs → is_s32 x.1.1 ∧ length (inbox x.2) = 52%nat
}.

Inductive reach (xs : list (Z * double * Network.t)) (w0 : W) : world → list obs → Prop :=
| reach_boot w : boot xs (mkWorld ∅ w0) = Done w → reach xs w0 w []
| reach_step w o e w' o' :
    reach xs w0 w o → enabled w e → exec e w = Done (w', o') → reach xs w0 w' (o ++ o').

Lemma boot_node_ok w a rel n0 :
  0 ≤ n → world_ok [] w → dg_queue (sockets w) a = None → is_s32 a → length (inbox n0) = 52%nat →
  ∃ w', boot_node w (a, rel, n0) = Done w' ∧ world_ok [] w' ∧
        ∀ b, b ≠ a → dg_queue (sockets w') b = dg_queue (sockets w) b.
Proof.
  intros Hn Hw Hq Ha Hin. unfold boot_node, PostOffice.
  assert (Hn' : (n <? 0) = false) by (apply Z.ltb_ge; lia). rewrite Hn'. unfold Network.Network, AssignNameToSocket.
  simpl wire. destruct (dg_bind_free _ _ Hq) as (w' & -> & Hq' & Hoth). cbn [mbind res_bind].
  match goal with |- context [Schedule _ _ _ ?x] => set (s0 := x) end.
  destruct (Schedule_quiet NetworkReadPoll Statistics.NetworkTime NetworkRecvInt s0)
    as (s & -> & Hqt & Hd & Hst & _); [done..|]. cbn [mbind res_bind].
  eexists. split; [done|]. rewrite Hd. split; [|done].
  apply (world_ok_step [] [] w a (unplug s) w' (λ b, if decide (b = a) then [] else in_transit w b)); [done|..].
  - destruct Hqt. split; simpl.
    + by rewrite q_inHandler.
    + apply q_sorted. constructor.
    + unfold totalTicks. simpl. by rewrite Hst.
    + rewrite Hst. done.
  - intros b sb Hb. apply lookup_insert_Some in Hb as [[<- <-]|[Hne Hb]].
    + rewrite decide_True by done. unfold unplug. cbn [dev]. rewrite Hd. split; cbn.
      * split; simpl; try done.
        -- rewrite length_replicate. lia.
        -- by rewrite fresh_length.
        -- apply Forall_replicate. by constructor.
        -- by left.
      * by exists [].
    + rewrite decide_False by done. destruct (wo_node _ _ Hw b sb Hb) as [Ho (q & Hqb & Hpk & Hms)].
      split; [done|]. exists q. simpl in *. by rewrite Hoth.
  - intros b sb i Hb Hi. apply lookup_insert_Some in Hb as [[<- <-]|[Hne Hb]].
    + rewrite decide_True by done. simpl. unfold boxed. rewrite Hd. simpl.
      destruct (replicate _ _ !! Z.to_nat i) eqn:E; [|done].
      apply lookup_replicate in E as [-> _]. done.
    + rewrite decide_False by done. by apply (wo_order _ _ Hw b sb).
Qed.

Lemma boot_world_ok xs w :
  0 ≤ n → world_ok [] w → NoDup (fst ∘ fst <$> xs) → (∀ x, x ∈ xs → dg_queue (sockets w) x.1.1 = None) →
  (∀ x, x ∈ xs → is_s32 x.1.1 ∧ length (inbox x.2) = 52%nat) →
  ∃ w', boot xs w = Done w' ∧ world_ok [] w'.
Proof.
  intros Hn. revert w. induction xs as [|[[a rel] n0] xs IH]; intros w Hw Hnd Hfree Hnode; [by exists w|].
  cbn [fmap list_fmap] in Hnd. apply NoDup_cons in Hnd as [Hnin Hnd].
  destruct (Hnode (a, rel, n0)) as [Ha Hin]; [apply list_elem_of_here|].
  destruct (boot_node_ok w a rel n0) as (w1 & Hb & Hw1 & Hoth); try done.
  { apply (Hfree (a, rel, n0)), list_elem_of_here. }
  cbn [boot]. rewrite Hb. cbn [mbind res_bind]. apply IH; [done|done|..].
  - intros x Hx. rewrite Hoth; [apply Hfree, list_elem_of_further, Hx|].
    intros Heq. apply Hnin. apply list_elem_of_fmap. exists x. split; [done|exact Hx].
  - intros x Hx. apply Hnode, list_elem_of_further, Hx.
Qed.

Lemma world_ok_empty w0 : world_ok [] (mkWorld ∅ w0).
Proof. split; simpl; intros a s; rewrite lookup_empty; done. Qed.

Lemma exec_ok o w e :
  n ≤ INT_MAX → world_ok o w → enabled w e →
  (∃ w' o', exec e w = Done (w', o') ∧ world_ok (o ++ o') w') ∨
  (exec e w = Blocks ∧
   match e with
   | EIdle _ => True
   | ESent a => messageSent <$> (dev <$> nodes w !! a) = Some 0
   | EWorker a => buffered <$> (dev <$> nodes w !! a) = Some []
   | _ => False
   end) ∨
  (exec e w = Assert ∧ ∃ a i, e = EReceive a i ∧ waiting w a i = []).
Proof.
  intros Hn Hw (s & Hs & He). destruct e; cbn [event_node] in Hs; rewrite ?Hs.
  - destruct (exec_tick o w a s) as (w' & -> & Hw'); [done..|]. left. exists w', []. by rewrite app_nil_r.
  - destruct He as [He1 He2]. destruct (exec_idle o w a s) as [->|(w' & -> & Hw')]; [done..|by right; left|].
    left. exists w', []. by rewrite app_nil_r.
  - destruct He as (He1 & He2 & He3). left.
    destruct (exec_send o w a s r pktH mailH d) as (w' & -> & Hw'); [done..|]. eauto.
  - destruct (exec_sent o w a s) as [[-> Hz]|(w' & -> & Hw')]; [done..| |].
    + right. left. split; [done|]. simpl. by rewrite Hz.
    + left. exists w', []. by rewrite app_nil_r.
  - destruct (exec_worker o w a s) as [[-> Hz]|(w' & -> & Hw')]; [done..| |].
    + right. left. split; [done|]. simpl. by rewrite Hz.
    + left. exists w', []. by rewrite app_nil_r.
  - destruct (exec_receive o w a s i) as [[-> Hz]|(w' & m & -> & Hw' & _)]; [done..| |].
    + right. right. eauto.
    + left. eauto.
Qed.

Lemma reach_ok xs w0 w o : config_ok xs w0 → reach xs w0 w o → world_ok o w.
Proof.
  intros Hc Hr. induction Hr as [w Hb|w o e w' o' Hr IH He Hx].
  - destruct (boot_world_ok xs (mkWorld ∅ w0)) as (w1 & Hb' & Hw1); try apply Hc.
    + apply world_ok_empty.
    + rewrite Hb in Hb'. injection Hb' as ->. exact Hw1.
  - destruct (exec_ok o w e) as [(w1 & o1 & Hx' & Hok)|[[Hx' _]|[Hx' _]]]; try done; [apply Hc|..]; congruence.
Qed.

(** ** Runs by evaluation *)

Definition enabledb (w : world) (e : event) : bool :=
  match nodes w !! event_node e with
  | None => false
  | Some s =>
      match e with
      | ETick _ => totalTicks s + 110 <=? INT_MAX
      | EIdle _ => (totalTicks s + 100 <=? INT_MAX) && forallb (λ p, p.1 + 100 <=? INT_MAX) (items s)
      | ESend _ _ pktH mailH d =>
          (0 <=? mh_to mailH) && (mh_to mailH <? numBoxes (dev s)) &&
          (INT_MIN <=? mh_from mailH) && (mh_from mailH <=? INT_MAX) &&
          (0 <=? mh_length mailH) && (mh_length mailH <=? 40) &&
          (mh_length mailH <=? Z.of_nat (length d)) &&
          bool_decide (is_Some (nodes w !! to pktH)) && (totalTicks s + 100 <=? INT_MAX)
      | ESent _ | EWorker _ => true
      | EReceive _ i => (0 <=? i) && (i <? n)
      end
  end.

Lemma enabledb_enabled w e : enabledb w e = true → enabled w e.
Proof.
  unfold enabledb, enabled. destruct (nodes w !! event_node e) as [s|]; [|done]. intros He.
  exists s. split; [done|]. destruct e; simplify_tests; try done.
  - split; [done|]. intros t x Hx. rewrite forallb_forall in H0. apply list_elem_of_In in Hx.
    apply H0 in Hx. by simplify_tests.
  - split; [by split|]. by split; [apply (bool_decide_eq_true_1 _ H1)|].
Qed.

Fixpoint checked_run (es : list event) (w : world) (o : list obs) : option (world * list obs) :=
  match es with
  | [] => Some (w, o)
  | e :: es =>
      if enabledb w e then
        match exec e w with Done (w', o') => checked_run es w' (o ++ o') | _ => None end
      else None
  end.

Lemma checked_run_reach xs w0 es w o w' o' :
  reach xs w0 w o → checked_run es w o = Some (w', o') → reach xs w0 w' o'.
Proof.
  revert w o. induction es as [|e es IH]; intros w o Hr Hc; cbn [checked_run] in Hc; [by simplify_eq|].
  destruct (enabledb w e) eqn:He; [|done]. destruct (exec e w) as [[w1 o1]| | | |] eqn:Hx; try done.
  apply (IH w1 (o ++ o1)); [|done]. eapply reach_step; [done|by apply enabledb_enabled|done].
Qed.

(** C9: Mail is delivered in order and uncorrupted.  However the machines' clock
    ticks, interrupts, sends, postal workers and receives interleave, the messages
    for one mailbox that the network did not drop are, in the order in which they
    were sent and with the headers and bytes they were sent with: those received so
    far, then those waiting in the mailbox, then those on their way (in the network's
    buffer and in the socket). *)
Theorem mail_in_order xs w0 w o a s i :
  config_ok xs w0 → reach xs w0 w o → nodes w !! a = Some s → 0 ≤ i < n →
  accepted o a i = received o a i ++ waiting w a i ++ for_box i (in_transit w a).
Proof.
  intros Hc Hr Hs Hi. unfold waiting. rewrite Hs. by apply (wo_order _ _ (reach_ok _ _ _ _ Hc Hr)).
Qed.

(** The calls that are not legal. *)
Lemma illegal_asserts w o a s :
  world_ok o w → nodes w !! a = Some s →
  (∀ r pktH mailH d, ¬ (mh_length mailH ≤ 40 ∧ 0 ≤ mh_to mailH < n) → exec (ESend a r pktH mailH d) w = Assert) ∧
  (∀ i, ¬ 0 ≤ i < n → exec (EReceive a i) w = Assert).
Proof.
  intros Hw Hs. destruct (wo_node _ _ Hw a s Hs) as [Ho _]. pose proof (oo_boxes _ _ _ Ho) as Hn. cbn [fst] in Hn.
  unfold exec, exec_node. cbn [event_node]. rewrite Hs. split.
  - intros r pktH mailH d Hill. unfold Send_enter. change (dev (plug s (sockets w))).1 with (dev s). rewrite Hn.
    change MaxMailSize with 40. destruct (mh_length mailH <=? 40) eqn:E; [|done].
    destruct ((0 <=? mh_to mailH) && (mh_to mailH <? n)) eqn:E'; [|done]. simplify_tests. by destruct Hill.
  - intros i Hill. unfold Receive. change (dev (plug s (sockets w))).1 with (dev s). rewrite Hn.
    destruct ((0 <=? i) && (i <? n)) eqn:E'; [|done]. simplify_tests. by destruct Hill.
Qed.

(** C30: No operation of the post office runs into an assertion or undefined
    behaviour, with one exception: a call of Receive for a mailbox that is empty
    aborts the machine (Condition::Wait is not implemented).  The only operations
    that have to wait are the end of Send before its interrupt has come and the
    postal worker when no packet is buffered.  This is so on machines that have all
    the same number of mailboxes, while their clocks have not run out of their 31 bits,
    for calls that are legal: Send of 0 to 40 bytes, not more than the caller has, to a
    mailbox that exists on a machine that has booted, and Receive from a mailbox that
    exists.  A call of Send with more than 40 bytes or of either with a mailbox that does
    not exist fails an assertion, always. *)
Theorem post_office_outcomes xs w0 w o :
  config_ok xs w0 → reach xs w0 w o →
  (∀ e, enabled w e →
   match exec e w with
   | Done (w', o') => reach xs w0 w' (o ++ o') ∧ ∀ a i, e = EReceive a i → waiting w a i ≠ []
   | Blocks =>
       match e with
       | EIdle _ => True
       | ESent a => messageSent <$> (dev <$> nodes w !! a) = Some 0
       | EWorker a => buffered <$> (dev <$> nodes w !! a) = Some []
       | _ => False
       end
   | Assert => ∃ a i, e = EReceive a i ∧ waiting w a i = []
   | Undef | Fuel => False
   end) ∧
  (∀ a s, nodes w !! a = Some s →
   (∀ r pktH mailH d, ¬ (mh_length mailH ≤ 40 ∧ 0 ≤ mh_to mailH < n) → exec (ESend a r pktH mailH d) w = Assert) ∧
   (∀ i, ¬ 0 ≤ i < n → exec (EReceive a i) w = Assert)).
Proof.
  intros Hc Hr. pose proof (reach_ok _ _ _ _ Hc Hr) as Hw. split; [|intros a s; by apply (illegal_asserts _ o)].
  intros e He.
  destruct (exec_ok o w e) as [(w' & o' & Hx & Hok)|[[Hx Hb]|[Hx Ha]]]; [apply Hc|done|done|..];
    rewrite Hx; [|done|done].
  split; [by eapply reach_step|]. intros a i ->. destruct He as (s & Hs & Hi). cbn [event_node] in Hs.
  destruct (exec_receive o w a s i) as [[Hx' _]|(? & ? & _ & _ & ->)]; [done..|congruence|done].
Qed.

End world.
End PostRuns.

(** * Two machines *)

(** Sockets as queues of datagrams. *)
#[export] Instance socket_queues : Datagrams (gmap Z (list (list Z))).
Proof.
  refine {|
    dg_queue w a := w !! a;
    dg_bind w a := Some (<[a := []]> w);
    dg_send w a p := q ← w !! a; Some (<[a := q ++ [p]]> w);
    dg_poll w a := match w !! a with Some (_ :: _) => true | _ => false end;
    dg_recv w a := match w !! a with Some (p :: q) => Some (p, <[a := q]> w) | _ => None end
  |}.
  - intros w a _. eexists. split; [done|]. split; [apply lookup_insert_eq|].
    intros b Hb. by apply lookup_insert_ne.
  - intros w a q p ->. eexists. split; [done|]. split; [apply lookup_insert_eq|].
    intros b Hb. by apply lookup_insert_ne.
  - intros w a q ->. by destruct q.
  - intros w a p q ->. eexists. split; [done|]. split; [apply lookup_insert_eq|].
    intros b Hb. by apply lookup_insert_ne.
Defined.

Module PostDemo.
Import Network PostOffice PostSpec PostRuns.

#[local] Instance memory : FreshMemory.
Proof.
  refine {| fresh_bytes z := replicate (Z.to_nat z) 170 |}.
  - intros z _. apply length_replicate.
  - intros z. apply Forall_replicate. unfold is_byte. lia.
Defined.

Definition n0 : Network.t := Network.mk 0 (double_of_int 0) false (mkPH 0 0 0) (replicate 52 170).
Definition config : list (Z * double * Network.t) := [(1, double_of_int 1, n0); (2, double_of_int 1, n0)].

Lemma demo_config : config_ok 3 config (∅ : gmap Z (list (list Z))).
Proof.
  split.
  - unfold INT_MAX. lia.
  - by apply (bool_decide_unpack _).
  - intros x _. apply lookup_empty.
  - intros x Hx. unfold config in Hx. rewrite !elem_of_cons, elem_of_nil in Hx.
    destruct Hx as [->|[->|[]]]; by split; [unfold_int|].
Qed.

Definition start : world := match boot 3 config (mkWorld ∅ ∅) with Done w => w | _ => mkWorld ∅ ∅ end.

(** Machine 1 sends two messages to box 1 of machine 2; the second one is still in
    the box when the first one has been received. *)
Definition events : list event :=
  [ESend 1 50 (mkPH 2 0 0) (mkMH 1 0 3) [97; 98; 99]; ESend 1 99 (mkPH 2 0 0) (mkMH 1 0 1) [100];
   EIdle 1; ESent 1; ETick 2; EIdle 2; EWorker 2; EWorker 2; EIdle 2; EWorker 2; EWorker 2; EReceive 2 1].

Definition final : world * list obs :=
  match checked_run 3 events start [] with Some r => r | None => (start, []) end.

Lemma demo_reach : reach 3 config ∅ final.1 final.2.
Proof.
  apply (checked_run_reach 3 config ∅ events start []); [|by vm_compute].
  apply reach_boot. by vm_compute.
Qed.

Lemma mail_in_order_witness :
  m_data <$> received final.2 2 1 = [[97; 98; 99]] ∧ m_data <$> waiting final.1 2 1 = [[100]] ∧
  accepted final.2 2 1 = received final.2 2 1 ++ waiting final.1 2 1 ++ for_box 1 (in_transit final.1 2).
Proof.
  split; [by vm_compute|]. split; [by vm_compute|].
  destruct (nodes final.1 !! 2) as [s|] eqn:Hs; [|by vm_compute in Hs].
  apply (mail_in_order 3 config ∅ final.1 final.2 2 s 1 demo_config demo_reach Hs). lia.
Defined.

(** Box 0 is empty. *)
Lemma post_office_outcomes_witness :
  exec (EReceive 2 0) final.1 = Assert ∧ ∃ a i, EReceive 2 0 = EReceive a i ∧ waiting final.1 a i = [].
Proof.
  assert (Hx : exec (EReceive 2 0) final.1 = Assert) by (vm_compute; reflexivity). split; [exact Hx|].
  destruct (post_office_outcomes 3 config ∅ final.1 final.2 demo_config demo_reach) as [Ho _].
  specialize (Ho (EReceive 2 0)). rewrite Hx in Ho. apply Ho. apply enabledb_enabled. vm_compute. reflexivity.
Defined.

(** The extremes of the reliability: 1 never loses a packet, 0 loses every one. *)
Lemma reliability_extremes r :
  0 ≤ r → lost (clamp (double_of_int 1)) r = false ∧ lost (clamp (double_of_int 0)) r = true.
Proof.
  intros Hr. unfold lost. rewrite cmod_nonneg by lia.
  assert (Hall : forallb (λ k, negb (SFleb (double_mul (clamp (double_of_int 1)) (double_of_int 100)) (double_of_int k))
    && SFleb (double_mul (clamp (double_of_int 0)) (double_of_int 100)) (double_of_int k)) (seqZ 0 100) = true)
    by (vm_compute; reflexivity).
  rewrite forallb_forall in Hall. specialize (Hall (r mod 100)).
  rewrite andb_true_iff, negb_true_iff in Hall. apply Hall.
  apply list_elem_of_In, elem_of_seqZ. pose proof (Z.mod_pos_bound r 100). lia.
Qed.

End PostDemo.
