(* ===== verification/NetTest.v ===== *)
(** NetTest: MailTest of src/code/network/nettest.cc, as a program on the post office.

    Two machines run MailTest against each other.  A step is an operation of the network
    hardware or of a postal worker (PostRuns.v), or the next call of one of the two tests;
    the steps come in any order. *)
From S2P Require Import Prelude Lists Interrupt Network PostSpec PostRuns.

Module NetTest.
Import Interrupt InterruptSpec Network PostOffice PostSpec PostRuns.

(** The strings with their terminating 0. *)
Definition data : list Z := [72; 101; 108; 108; 111; 32; 116; 104; 101; 114; 101; 33; 0].
Definition ack : list Z := [71; 111; 116; 32; 105; 116; 33; 0].

(** The call a test is at, with what it has received so far. *)
Inductive stage : Type :=
| SendData                     (* postOffice->Send(..., data) *)
| SendingData                  (* the end of that call *)
| ReceiveData                  (* postOffice->Receive(0, ...) *)
| SendAck (m : msg)
| SendingAck (m : msg)
| ReceiveAck (m : msg)         (* postOffice->Receive(1, ...) *)
| Halted (m m' : msg).         (* interrupt->Halt() *)

(** The next call on machine [a].  [junk] is the packet header on the stack, of which only
    [to] is set; [r] is the random number the network draws. *)
Definition call (a farAddr : Z) (junk : PacketHeader) (r : Z) (st : stage) : option event :=
  match st with
  | SendData => Some (ESend a r (mkPH farAddr (from junk) (ph_length junk)) (mkMH 0 1 13) data)
  | SendingData => Some (ESent a)
  | ReceiveData => Some (EReceive a 0)
  | SendAck m =>
      Some (ESend a r (mkPH (from (m_pkt m)) (from junk) (ph_length junk)) (mkMH (mh_from (m_mail m)) 1 8) ack)
  | SendingAck _ => Some (ESent a)
  | ReceiveAck _ => Some (EReceive a 1)
  | Halted _ _ => None
  end.

(** Where the test is after the call, which has observed [o]. *)
Definition after (st : stage) (o : list obs) : stage :=
  match st, o with
  | SendData, _ => SendingData
  | SendingData, _ => ReceiveData
  | ReceiveData, [OReceived _ _ m] => SendAck m
  | SendAck m, _ => SendingAck m
  | SendingAck m, _ => ReceiveAck m
  | ReceiveAck m, [OReceived _ _ m'] => Halted m m'
  | _, _ => st
  end.

(** [printf("Got \"%s\" from %d, box %d\n", ...)]: the bytes, the machine and the box. *)
Definition got (m : msg) : list Z * Z * Z := (m_data m, from (m_pkt m), mh_from (m_mail m)).

Definition printed (st : stage) : list (list Z * Z * Z) :=
  match st with
  | SendAck m | SendingAck m | ReceiveAck m => [got m]
  | Halted m m' => [got m; got m']
  | _ => []
  end.

Section runs.
Context {W : Type} `{!Datagrams W} {mem : FreshMemory} (n : Z).

Record sys : Type := mkSys' { net : world (W := W); observed : list obs; tests : gmap Z (Z * stage) }.

Definition hardware (e : event) : bool :=
  match e with ETick _ | EIdle _ | EWorker _ => true | _ => false end.

Inductive step : sys → sys → Prop :=
| step_hardware w o ts e w' o' :
    hardware e = true → enabled n w e → exec e w = Done (w', o') →
    step (mkSys' w o ts) (mkSys' w' (o ++ o') ts)
| step_test w o ts a farAddr st junk r e w' o' :
    ts !! a = Some (farAddr, st) → call a farAddr junk r st = Some e → enabled n w e → exec e w = Done (w', o') →
    step (mkSys' w o ts) (mkSys' w' (o ++ o') (<[a := (farAddr, after st o')]> ts)).

Inductive run (xs : list (Z * double * Network.t)) (w0 : W) (a b : Z) : sys → Prop :=
| run_boot w : boot n xs (mkWorld ∅ w0) = Done w →
    run xs w0 a b (mkSys' w [] (<[a := (b, SendData)]> {[b := (a, SendData)]}))
| run_step s s' : run xs w0 a b s → step s s' → run xs w0 a b s'.

(** ** What is sent *)

Definition is_data (src dst : Z) (m : msg) : Prop := m = mkMsg (mkPH dst src 25) (mkMH 0 1 13) data.
Definition is_ack (src dst : Z) (m : msg) : Prop := m = mkMsg (mkPH dst src 20) (mkMH 1 1 8) ack.

Definition sent_ok (a b : Z) (x : obs) : Prop :=
  match x with
  | OSent m _ => is_data a b m ∨ is_data b a m ∨ is_ack a b m ∨ is_ack b a m
  | OReceived _ _ _ => True
  end.

Definition stage_ok (src dst : Z) (st : stage) : Prop :=
  match st with
  | SendData | SendingData | ReceiveData => True
  | SendAck m | SendingAck m | ReceiveAck m => is_data src dst m
  | Halted m m' => is_data src dst m ∧ is_ack src dst m'
  end.

Record sys_ok (xs : list (Z * double * Network.t)) (w0 : W) (a b : Z) (s : sys) : Prop := {
  so_reach : reach n xs w0 (net s) (observed s);
  so_a : is_Some (nodes (net s) !! a);
  so_b : is_Some (nodes (net s) !! b);
  so_sent : Forall (sent_ok a b) (observed s);
  so_tests : ∀ x far st, tests s !! x = Some (far, st) →
    (x = a ∧ far = b ∨ x = b ∧ far = a) ∧ stage_ok far x st
}.

Lemma far_node xs w0 a b s x far st :
  sys_ok xs w0 a b s → tests s !! x = Some (far, st) →
  is_Some (nodes (net s) !! x) ∧ is_Some (nodes (net s) !! far).
Proof.
  intros Hs Ht. destruct (so_tests _ _ _ _ _ Hs x far st Ht) as [[[-> ->]|[-> ->]] _];
    split; apply Hs.
Qed.

(** ** Machines stay *)

Lemma exec_nodes e w w' o x :
  exec e w = Done (w', o) → is_Some (nodes w !! x) → is_Some (nodes w' !! x).
Proof.
  unfold exec. intros Hx Hn. destruct (nodes w !! event_node e) as [s|]; [|done].
  destruct (exec_node e _) as [[s' o']| | | |]; try done. cbn [mbind res_bind] in Hx.
  injection Hx as <- <-. cbn [nodes]. destruct (decide (event_node e = x)) as [->|Hne].
  - by rewrite lookup_insert_eq.
  - by rewrite lookup_insert_ne.
Qed.

Lemma boot_nodes xs w w' :
  boot n xs w = Done w' →
  (∀ x, is_Some (nodes w !! x) → is_Some (nodes w' !! x)) ∧
  ∀ x, x ∈ (fst ∘ fst <$> xs) → is_Some (nodes w' !! x).
Proof.
  revert w. induction xs as [|[[a rel] n0] xs IH]; intros w Hb; cbn [boot] in Hb.
  { injection Hb as <-. split; [done|]. intros x Hx. by apply elem_of_nil in Hx. }
  destruct (boot_node n w (a, rel, n0)) as [w1| | | |] eqn:Hb1; try done. cbn [mbind res_bind] in Hb.
  destruct (IH w1 Hb) as [Hkeep Hnew].
  assert (Hw1 : is_Some (nodes w1 !! a) ∧ ∀ x, is_Some (nodes w !! x) → is_Some (nodes w1 !! x)).
  { unfold boot_node in Hb1. destruct (PostOffice _ _ _ _ _ _) as [s| | | |]; try done.
    cbn [mbind res_bind] in Hb1. injection Hb1 as <-. cbn [nodes].
    split; [by rewrite lookup_insert_eq|]. intros x Hx. destruct (decide (a = x)) as [->|Hne].
    - by rewrite lookup_insert_eq.
    - by rewrite lookup_insert_ne. }
  split.
  - intros x Hx. by apply Hkeep, Hw1.
  - intros x Hx. rewrite fmap_cons, elem_of_cons in Hx. destruct Hx as [Hx|Hx]; [|by apply Hnew].
    rewrite Hx. apply Hkeep. exact (proj1 Hw1).
Qed.

(** ** What a call observes *)

Lemma hardware_silent e w w' o : hardware e = true → exec e w = Done (w', o) → o = [].
Proof.
  unfold exec. intros He Hx. destruct (nodes w !! event_node e) as [s|]; [|done].
  destruct e; try done; cbn [exec_node] in Hx; unfold quietly in Hx.
  - destruct (OneTick_enter _ _ _); try done. by injection Hx.
  - destruct (Idle _ _ _) as [[s'|]| | | |]; try done. by injection Hx.
  - destruct (PostalDelivery _); try done. by injection Hx.
Qed.

Lemma sent_silent a w w' o : exec (ESent a) w = Done (w', o) → o = [].
Proof.
  unfold exec, exec_node, quietly. intros Hx. destruct (nodes w !! _) as [s|]; [|done].
  destruct (Send_leave _); try done. by injection Hx.
Qed.

(** What has been received has been sent, to that machine and that box. *)
Lemma received_was_sent o w x s i m :
  world_ok n o w → nodes w !! x = Some s → 0 ≤ i < n → OReceived x i m ∈ o →
  OSent m false ∈ o ∧ to (m_pkt m) = x ∧ mh_to (m_mail m) = i.
Proof.
  intros Hw Hs Hi Hm. assert (Ha : m ∈ accepted o x i).
  { rewrite (wo_order _ _ _ Hw x s i Hs Hi). apply elem_of_app. left. unfold received.
    apply list_elem_of_omap. exists (OReceived x i m). split; [done|]. by rewrite decide_True. }
  unfold accepted in Ha. apply list_elem_of_omap in Ha as (y & Hy & Hm').
  destruct y as [m' [|]|]; try done. case_decide as Hd; [|done]. by simplify_eq.
Qed.

Lemma receive_observes o w x i w' o' :
  world_ok n o w → enabled n w (EReceive x i) → exec (EReceive x i) w = Done (w', o') →
  ∃ m, o' = [OReceived x i m] ∧
       OSent m false ∈ o ∧ to (m_pkt m) = x ∧ mh_to (m_mail m) = i.
Proof.
  intros Hw (s & Hs & Hi) Hx. cbn [event_node] in Hs.
  destruct (exec_receive n o w x s i Hw Hs Hi) as [[Hx' _]|(w1 & m & Hx' & Hw1 & _)]; [congruence|].
  rewrite Hx in Hx'. injection Hx' as <- ->. exists m.
  destruct (exec_nodes _ _ _ _ x Hx) as [s' Hs']; [by eexists|].
  destruct (received_was_sent (o ++ [OReceived x i m]) w' x s' i m) as (Hin & Hto & Hbox); [done..| |].
  { apply elem_of_app. right. apply list_elem_of_here. }
  split; [done|]. split; [|done].
  apply elem_of_app in Hin as [Hin|Hin]; [done|]. by apply list_elem_of_singleton in Hin.
Qed.

Lemma send_observes o w x r pktH mailH d w' o' :
  n ≤ INT_MAX → world_ok n o w → enabled n w (ESend x r pktH mailH d) →
  exec (ESend x r pktH mailH d) w = Done (w', o') →
  ∃ dropped, o' = [OSent (mkMsg (mkPH (to pktH) x (u32 (mh_length mailH + sizeof_MailHeader))) mailH
                            (take (Z.to_nat (mh_length mailH)) d)) dropped].
Proof.
  intros Hn Hw (s & Hs & Hsb & Hto & Ht) Hx. cbn [event_node] in Hs.
  destruct (exec_send n o w x s r pktH mailH d) as (w1 & Hx' & _); [done..|].
  rewrite Hx in Hx'. injection Hx' as _ ->. unfold sent_msg.
  destruct (wo_node _ _ _ Hw x s Hs) as [Ho _]. pose proof (oo_addr _ _ _ Ho) as Hn'. simpl in Hn'. rewrite Hn'. by eexists.
Qed.

(** Which of the four messages one is, from its destination and its box. *)
Lemma sent_to a b x far m i :
  a ≠ b → (x = a ∧ far = b ∨ x = b ∧ far = a) →
  is_data a b m ∨ is_data b a m ∨ is_ack a b m ∨ is_ack b a m →
  to (m_pkt m) = x → mh_to (m_mail m) = i →
  (i = 0 → is_data far x m) ∧ (i = 1 → is_ack far x m).
Proof.
  intros Hab Hx Hm Hto Hi. unfold is_data, is_ack in *.
  destruct Hm as [-> | [-> | [-> | -> ] ] ]; simpl in Hto, Hi; destruct Hx as [[? ?]|[? ?]]; simplify_eq;
    split; intros; simplify_eq; done.
Qed.

(** ** Every step keeps the invariant *)

Lemma step_hardware_ok xs w0 a b w o ts e w' o' :
  sys_ok xs w0 a b (mkSys' w o ts) → hardware e = true → enabled n w e → exec e w = Done (w', o') →
  sys_ok xs w0 a b (mkSys' w' (o ++ o') ts).
Proof.
  intros [Hr Ha Hb Hs Ht] He Hen Hx. simpl in *. split; simpl; [|by eapply exec_nodes..| |done].
  - by eapply reach_step.
  - rewrite (hardware_silent _ _ _ _ He Hx), app_nil_r. done.
Qed.

(** What the call of a test at [st] observes, and where it leads. *)
Lemma call_ok xs w0 a b s x far st junk r e w' o' :
  config_ok n xs w0 → a ≠ b → sys_ok xs w0 a b s → tests s !! x = Some (far, st) →
  call x far junk r st = Some e → enabled n (net s) e → exec e (net s) = Done (w', o') →
  Forall (sent_ok a b) o' ∧ stage_ok far x (after st o').
Proof.
  intros Hc Hab Hs Ht Hcall Hen Hx.
  pose proof (reach_ok n _ _ _ _ Hc (so_reach _ _ _ _ _ Hs)) as Hw.
  destruct (so_tests _ _ _ _ _ Hs x far st Ht) as [Hfar Hst].
  assert (Hn : n ≤ INT_MAX) by apply Hc.
  assert (Hrecv : ∀ i, e = EReceive x i → ∃ m, o' = [OReceived x i m] ∧
    (i = 0 → is_data far x m) ∧ (i = 1 → is_ack far x m)).
  { intros i ->. destruct (receive_observes _ _ _ _ _ _ Hw Hen Hx) as (m & -> & Hin & Hto & Hi).
    exists m. split; [done|]. eapply sent_to; try done.
    exact (proj1 (Forall_forall _ _) (so_sent _ _ _ _ _ Hs) _ Hin). }
  destruct st; simpl in Hcall; try done; injection Hcall as <-.
  - destruct (send_observes _ _ _ _ _ _ _ _ _ Hn Hw Hen Hx) as [dr ->].
    split; [|done]. constructor; [|done]. unfold sent_ok, is_data. simpl.
    destruct Hfar as [[-> ->]|[-> ->]]; auto.
  - by rewrite (sent_silent _ _ _ _ Hx).
  - destruct (Hrecv 0 eq_refl) as (m & -> & Hm & _). split; [by constructor|]. by apply Hm.
  - destruct (send_observes _ _ _ _ _ _ _ _ _ Hn Hw Hen Hx) as [dr ->].
    split; [|done]. constructor; [|done]. simpl in Hst. rewrite Hst. unfold sent_ok, is_ack. simpl.
    destruct Hfar as [[-> ->]|[-> ->]]; auto.
  - by rewrite (sent_silent _ _ _ _ Hx).
  - destruct (Hrecv 1 eq_refl) as (m' & -> & _ & Hm'). split; [by constructor|]. split; [done|]. by apply Hm'.
Qed.

Lemma test_step_ok xs w0 a b s s' :
  config_ok n xs w0 → a ≠ b → sys_ok xs w0 a b s → step s s' → sys_ok xs w0 a b s'.
Proof.
  intros Hc Hab Hs Hst. destruct Hst as [w o ts e w' o' He Hen Hx|w o ts x far st junk r e w' o' Ht Hcall Hen Hx].
  { by eapply step_hardware_ok. }
  destruct (call_ok _ _ _ _ _ _ _ _ _ _ _ _ _ Hc Hab Hs Ht Hcall Hen Hx) as [Hsent Hstage].
  destruct Hs as [Hr Ha Hb Hsn Hts]. simpl in *. split; simpl; [|by eapply exec_nodes..| |].
  - by eapply reach_step.
  - by apply Forall_app.
  - intros y f t Hy. apply lookup_insert_Some in Hy as [[<- Heq]|[_ Hy]]; [|by apply Hts].
    injection Heq as <- <-. split; [|done]. by apply (Hts x far st).
Qed.

Lemma run_ok xs w0 a b s :
  config_ok n xs w0 → a ≠ b → a ∈ (fst ∘ fst <$> xs) → b ∈ (fst ∘ fst <$> xs) →
  run xs w0 a b s → sys_ok xs w0 a b s.
Proof.
  intros Hc Hab Ha Hb Hr. induction Hr as [w Hboot|s s' _ IH Hst]; [|by eapply test_step_ok].
  destruct (boot_nodes _ _ _ Hboot) as [_ Hn]. split; simpl; [by constructor|by apply Hn..|by constructor|].
  intros x far st Hx. apply lookup_insert_Some in Hx as [[<- Heq]|[_ Hx]].
  - injection Heq as <- <-. split; [auto|done].
  - apply lookup_singleton_Some in Hx as [<- Heq]. injection Heq as <- <-. split; [auto|done].
Qed.

(** ** No call can go wrong but a [Receive] from an empty box *)

Lemma call_enabled xs w0 a b s x far st junk r e sx :
  sys_ok xs w0 a b s → config_ok n xs w0 → 2 ≤ n → tests s !! x = Some (far, st) →
  call x far junk r st = Some e → nodes (net s) !! x = Some sx → totalTicks sx + 100 ≤ INT_MAX →
  enabled n (net s) e.
Proof.
  intros Hs Hc Hn Ht Hcall Hx Htk. destruct (far_node _ _ _ _ _ _ _ _ Hs Ht) as [_ Hfar].
  pose proof (reach_ok n _ _ _ _ Hc (so_reach _ _ _ _ _ Hs)) as Hw.
  destruct (wo_node _ _ _ Hw x sx Hx) as [Ho _]. pose proof (oo_boxes _ _ _ Ho) as Hbx. simpl in Hbx.
  destruct (so_tests _ _ _ _ _ Hs x far st Ht) as [_ Hst].
  destruct st; simpl in Hcall; try done; injection Hcall as <-; exists sx; (split; [exact Hx|]); try done; try lia.
  - split; [|done]. split; simpl; try lia. unfold_int. lia.
  - simpl in Hst. rewrite Hst. split; [|done]. split; simpl; try lia. unfold_int. lia.
Qed.

(** ** Runs by evaluation *)

(** A move of the hardware, or of the test on a machine with the random number [r]. *)
Inductive move : Type := Hw (e : event) | Test (x r : Z).

Definition checked_exec (e : event) (w : world) : option (world * list obs) :=
  if enabledb n w e then match exec e w with Done r => Some r | _ => None end else None.

Definition move_step (mv : move) (s : sys) : option sys :=
  match mv with
  | Hw e =>
      if hardware e then
        '(w', o') ← checked_exec e (net s); Some (mkSys' w' (observed s ++ o') (tests s))
      else None
  | Test x r =>
      '(far, st) ← tests s !! x;
      e ← call x far (mkPH 0 0 0) r st;
      '(w', o') ← checked_exec e (net s);
      Some (mkSys' w' (observed s ++ o') (<[x := (far, after st o')]> (tests s)))
  end.

Fixpoint drive (mvs : list move) (s : sys) : option sys :=
  match mvs with
  | [] => Some s
  | mv :: mvs => s' ← move_step mv s; drive mvs s'
  end.

Lemma checked_exec_Some e w r : checked_exec e w = Some r → enabled n w e ∧ exec e w = Done r.
Proof.
  unfold checked_exec. destruct (enabledb n w e) eqn:He; [|done].
  destruct (exec e w) eqn:Hx; try done. intros [= ->]. split; [by apply enabledb_enabled|done].
Qed.

Lemma move_step_step mv s s' : move_step mv s = Some s' → step s s'.
Proof.
  intros Hm. destruct s as [w o ts]. destruct mv as [e|x r]; simpl in Hm.
  - destruct (hardware e) eqn:He; [|done].
    apply bind_Some in Hm as ([w' o'] & Hx & [= <-]). apply checked_exec_Some in Hx as [Hen Hx].
    by eapply step_hardware.
  - apply bind_Some in Hm as ([far st] & Ht & Hm). apply bind_Some in Hm as (e & Hcall & Hm).
    apply bind_Some in Hm as ([w' o'] & Hx & [= <-]). apply checked_exec_Some in Hx as [Hen Hx].
    by eapply step_test.
Qed.

Lemma drive_run xs w0 a b mvs s s' : run xs w0 a b s → drive mvs s = Some s' → run xs w0 a b s'.
Proof.
  revert s. induction mvs as [|mv mvs IH]; intros s Hr Hd; cbn [drive] in Hd; [by simplify_eq|].
  apply bind_Some in Hd as (s1 & Hm & Hd). apply (IH s1); [|done].
  eapply run_step; [done|by apply move_step_step with mv].
Qed.

(** C17: The two tests exchange their messages.  However the two machines, their postal
    workers and the network interleave, and whatever the network drops: what a test receives
    in box 0 is the other machine's greeting and what it receives in box 1 is the other
    machine's acknowledgement, byte for byte, so that a test that comes to its Halt has
    printed both lines.  A test's next call is carried out, or has to wait for the packet to
    leave the network, or aborts the machine: the last only for a Receive from a box that is
    still empty. *)
Theorem MailTest_exchange xs w0 a b s x far st sx :
  config_ok n xs w0 → a ≠ b → a ∈ (fst ∘ fst <$> xs) → b ∈ (fst ∘ fst <$> xs) → 2 ≤ n →
  run xs w0 a b s → tests s !! x = Some (far, st) → nodes (net s) !! x = Some sx →
  printed st `prefix_of` [(data, far, 1); (ack, far, 1)] ∧
  (∀ m m', st = Halted m m' → printed st = [(data, far, 1); (ack, far, 1)]) ∧
  (totalTicks sx + 100 ≤ INT_MAX → ∀ junk r e, call x far junk r st = Some e →
    (∃ w' o', exec e (net s) = Done (w', o') ∧
       step s (mkSys' w' (observed s ++ o') (<[x := (far, after st o')]> (tests s)))) ∨
    (exec e (net s) = Blocks ∧ e = ESent x ∧ messageSent (dev sx) = 0) ∨
    (exec e (net s) = Assert ∧ ∃ i, e = EReceive x i ∧ waiting (net s) x i = [])).
Proof.
  intros Hc Hab Ha Hb Hn Hr Ht Hx. pose proof (run_ok _ _ _ _ _ Hc Hab Ha Hb Hr) as Hs.
  destruct (so_tests _ _ _ _ _ Hs x far st Ht) as [_ Hst]. split_and!.
  - destruct st as [| | |m|m|m|m m']; simpl in Hst; [..|destruct Hst as [Hst ->]]; rewrite ?Hst;
      simpl; unfold got; simpl; eauto using prefix_nil, prefix_cons.
  - intros m m' ->. destruct Hst as [-> ->]. done.
  - intros Htk junk r e Hcall.
    pose proof (call_enabled _ _ _ _ _ _ _ _ _ _ _ _ Hs Hc Hn Ht Hcall Hx Htk) as Hen.
    pose proof (reach_ok n _ _ _ _ Hc (so_reach _ _ _ _ _ Hs)) as Hw.
    destruct (exec_ok n _ _ e (proj2 (co_n _ _ _ Hc)) Hw Hen) as [(w' & o' & He & _)|[[He Hbl]|[He (y & i & -> & Hwt)]]].
    + left. exists w', o'. split; [done|]. destruct s. by eapply step_test.
    + right. left. split; [done|]. destruct st; simpl in Hcall; try done; injection Hcall as <-; try done;
        (split; [done|]); rewrite Hx in Hbl; by injection Hbl.
    + right. right. split; [done|]. exists i. destruct st; simpl in Hcall; try done; injection Hcall as <- <-; done.
Qed.

End runs.
End NetTest.

(** Machines 1 and 2, to the end of the test on machine 1; machine 2 still waits for its
    acknowledgement. *)
Module NetTestDemo.
Import Interrupt Network PostOffice PostSpec PostRuns PostDemo NetTest.

#[local] Existing Instance memory.

Definition deliver (x : Z) : list move := [Hw (EIdle x); Hw (EWorker x); Hw (EWorker x)].
Definition moves : list move :=
  [Test 1 0; Test 2 0; Hw (EIdle 1); Hw (EIdle 2); Hw (EIdle 1); Hw (EIdle 2); Test 1 0; Test 2 0]
  ++ deliver 1 ++ deliver 2 ++ [Test 1 0; Test 2 0; Test 2 7; Test 1 3; Hw (EIdle 1)] ++ deliver 1 ++ [Test 1 0; Test 1 0].

Definition started : NetTest.sys (W := gmap Z (list (list Z))) :=
  mkSys' start [] (<[1 := (2, SendData)]> {[2 := (1, SendData)]}).

Definition halted : NetTest.sys (W := gmap Z (list (list Z))) :=
  match drive 3 moves started with Some s => s | None => started end.

Lemma halted_run : run 3 config ∅ 1 2 halted.
Proof.
  apply (drive_run 3 config ∅ 1 2 moves started); [|by vm_compute].
  apply run_boot. by vm_compute.
Qed.

Definition greeting : msg := mkMsg (mkPH 1 2 25) (mkMH 0 1 13) data.
Definition reply : msg := mkMsg (mkPH 1 2 20) (mkMH 1 1 8) ack.

Lemma MailTest_exchange_witness :
  tests halted !! 1 = Some (2, Halted greeting reply) ∧
  printed (Halted greeting reply) = [(data, 2, 1); (ack, 2, 1)] ∧
  (tests started !! 1 = Some (2, SendData) ∧
   ∃ w o, exec (ESend 1 0 (mkPH 2 0 0) (mkMH 0 1 13) data) (net started) = Done (w, o)).
Proof.
  assert (Ht : tests halted !! 1 = Some (2, Halted greeting reply)) by by vm_compute.
  split; [exact Ht|].
  assert (H1 : 1 ∈ (fst ∘ fst <$> config)) by apply list_elem_of_here.
  assert (H2 : 2 ∈ (fst ∘ fst <$> config)) by apply list_elem_of_further, list_elem_of_here.
  split.
  - destruct (nodes (net halted) !! 1) as [sx|] eqn:Hx; [|by vm_compute in Hx].
    refine (proj1 (proj2 (MailTest_exchange 3 config ∅ 1 2 halted 1 2 _ sx demo_config _ H1 H2 _ halted_run Ht Hx))
      greeting reply eq_refl); lia.
  - split; [done|]. destruct (nodes (net started) !! 1) as [sx|] eqn:Hx; [|by vm_compute in Hx].
    assert (Hr : run 3 config ∅ 1 2 started) by (apply run_boot; by vm_compute).
    assert (Htk : totalTicks sx + 100 ≤ INT_MAX).
    { apply Z.leb_le. apply (f_equal (λ m, from_option (λ s, totalTicks s + 100 <=? INT_MAX) true m)) in Hx.
      simpl in Hx. rewrite <- Hx. by vm_compute. }
    destruct (proj2 (proj2 (MailTest_exchange 3 config ∅ 1 2 started 1 2 SendData sx demo_config
      ltac:(lia) H1 H2 ltac:(lia) Hr eq_refl Hx)) Htk (mkPH 0 0 0) 0 _ eq_refl)
      as [(w & o & He & _)|[(_ & He & _)|(_ & i & He & _)]]; [by exists w, o|done..].
Defined.

(** The box is empty when the call comes: a test that asks for its message before it has
    arrived aborts its machine. *)
Definition early : NetTest.sys (W := gmap Z (list (list Z))) :=
  match drive 3 [Test 1 0; Hw (EIdle 1); Hw (EIdle 1); Test 1 0] started with Some s => s | None => started end.

Lemma MailTest_can_abort :
  tests early !! 1 = Some (2, ReceiveData) ∧ exec (EReceive 1 0) (net early) = Assert.
Proof. split; by vm_compute. Qed.

End NetTestDemo.
