(* ===== verification/Syscall.v ===== *)
(** Syscall: the entry point of user programs into the kernel,
    src/code/userprog/exception.cc, and the loop that runs them, Machine::Run.

    The handler works on the address spaces of AddrSpace.v and the machine.  What it
    does to threads (Yield, Join, Finish, Fork of a new process) is the last thing it
    does, so it hands these calls to the kernel of Threads.v as a list ([calls]).  An
    exception inside the kernel's own accesses to user memory comes back to the same
    handler; such an exception is a page fault or fatal, never a system call.

    The terminal is the list of characters printed; what scanf reads are the words
    typed at the keyboard.  The other printed messages are left out. *)

From S2P Require Import Prelude Bitmap Lists Machine Mips AddrSpace Interrupt Threads.

(** UNIX calls on open files.  [None] is an error or the end of the file. *)
Class HostCalls (F : Type) : Type := {
  open_file : F → list Z → option Z;
  read_char : F → Z → option (Z * F);
  write_chars : F → Z → list Z → option F
}.

Module Syscall.
Import Machine AddrSpace.

Definition SC_Halt : Z := 0.
Definition SC_Exit : Z := 1.
Definition SC_Exec : Z := 2.
Definition SC_Join : Z := 3.
Definition SC_Read : Z := 6.
Definition SC_Write : Z := 7.
Definition SC_Yield : Z := 10.

(** Whether the handler returns to the program. *)
Inductive control : Type := Returns | Finishes | Halts.

#[export] Instance control_eq_dec : EqDecision control.
Proof. solve_decision. Defined.

Section handler.
Context {B F L : Type} `{!BitmapLike B} `{!HostFiles F} `{!HostCalls F} `{!FreshMemory}.
Context (be : bool) (rand : nat → Z).
Context (is_main : Z → bool).     (* the thread's name is "main" *)
Context (user_code : L).          (* a thread in Machine::Run *)

Record t : Type := mk {
  vm : AddrSpace.vm (B := B) (F := F);
  mode : MachineStatus;           (* interrupt->status *)
  terminal : list Z;
  keyboard : list (list Z);
  calls : list (Threads.cmd L);
  ctl : control;
  threadID : Z;                   (* the global of system.cc: the next process *)
  killNewChild : bool             (* of the current thread *)
}.

Definition set_vm (u : t) x : t :=
  mk x (mode u) (terminal u) (keyboard u) (calls u) (ctl u) (threadID u) (killNewChild u).
Definition set_mode (x : MachineStatus) (u : t) : t :=
  mk (vm u) x (terminal u) (keyboard u) (calls u) (ctl u) (threadID u) (killNewChild u).
Definition set_terminal (u : t) x : t :=
  mk (vm u) (mode u) x (keyboard u) (calls u) (ctl u) (threadID u) (killNewChild u).
Definition set_keyboard (u : t) x : t :=
  mk (vm u) (mode u) (terminal u) x (calls u) (ctl u) (threadID u) (killNewChild u).
Definition add_calls (u : t) x c : t :=
  mk (vm u) (mode u) (terminal u) (keyboard u) (calls u ++ x) c (threadID u) (killNewChild u).
Definition set_threadID (u : t) x : t :=
  mk (vm u) (mode u) (terminal u) (keyboard u) (calls u) (ctl u) x (killNewChild u).
Definition set_killNewChild (u : t) x : t :=
  mk (vm u) (mode u) (terminal u) (keyboard u) (calls u) (ctl u) (threadID u) x.

Definition mach (u : t) : Machine.t := machine (vm u).
Definition put_mach (u : t) (m : Machine.t) : t := set_vm u (set_machine (vm u) m).

(** ** Exceptions *)

(** [if (currentThread->space) delete currentThread->space; currentThread->Finish();] *)
Definition finish_process (u : t) : res t :=
  v ← (match thread_space (vm u) !! currentThread (vm u) with
       | Some s => AddrSpace_delete (vm u) s
       | None => Done (vm u)
       end);
  Done (add_calls (set_vm u v) [Threads.CFinish] Finishes).

(** The cases of the switch other than system calls. *)
Definition fault_handler (which : ExceptionType) (u : t) : res t :=
  match which with
  | NoException | SyscallException => Done u
  | PageFaultException => v ← PageFault rand (vm u); Done (set_vm u v)
  | ReadOnlyException | BusErrorException | AddressErrorException
  | OverflowException | IllegalInstrException | NumExceptionTypes =>
      ASSERT (negb (is_main (currentThread (vm u))));;
      finish_process u
  end.

(** ** User memory *)

Definition on_fault (which : ExceptionType) (u : t) (m : Machine.t) : res (t * Machine.t) :=
  u ← fault_handler which (put_mach u m);
  Done (u, mach u).

(** [machine->ReadMem(addr, 1, &value)], [None] being FALSE. *)
Definition read_user (addr : Z) (u : t) : res (option Z * t) :=
  '(v, u, m) ← ReadMem be set_mode on_fault addr 1 u (mach u);
  Done (v, put_mach u m).

(** [machine->WriteMem(addr, 1, value)]; the code does not look at the result. *)
Definition write_user (addr value : Z) (u : t) : res t :=
  '(_, u, m) ← WriteMem be set_mode on_fault addr 1 value u (mach u);
  Done (put_mach u m).

Definition gone (u : t) : bool := negb (bool_decide (ctl u = Returns)).

(** ** SC_Write *)

(** The loop that copies the string into [ch]: a read that failed is tried again.
    [None]: the thread is gone. *)
Fixpoint copy_string (fuel : nat) (arg1 j : Z) (ch : list Z) (u : t) : res (option (list Z) * t) :=
  match fuel with
  | O => Fuel
  | S fuel =>
      '(i, u) ← read_user (s32 (arg1 + j)) u;
      match i with
      | None => if gone u then Done (None, u) else copy_string fuel arg1 j ch u
      | Some i =>
          ch ← aset ch j (u8 i);
          if u8 i =? 0 then Done (Some (take (Z.to_nat j) ch), u)
          else copy_string fuel arg1 (j + 1) ch u
      end
  end.

Definition SWrite (buffer : list Z) (id : Z) (u : t) : res t :=
  let u := if id =? 1 then set_terminal u (terminal u ++ buffer) else u in
  if 2 <=? id then
    match write_chars (hostfs (vm u)) id buffer with
    | Some f => Done (set_vm u (set_hostfs (vm u) f))
    | None => Assert
    end
  else Done u.

Definition Write (fuel : nat) (arg1 arg3 : Z) (u : t) : res t :=
  '(s, u) ← copy_string fuel arg1 0 (fresh_bytes 500) u;
  match s with
  | None => Done u
  | Some s => if (length s =? 0)%nat then Done u else SWrite s arg3 u
  end.

(** ** SC_Read *)

(** The string at the start of a buffer. *)
Fixpoint cstring (bs : list Z) : list Z :=
  match bs with
  | [] => []
  | b :: bs => if b =? 0 then [] else b :: cstring bs
  end.

(** [for (num = ...; num < Result; num++)] storing [buffer]; the value of [num]. *)
Fixpoint store_buffer (n : nat) (addr num : Z) (buffer : list Z) (u : t) : res (Z * t) :=
  match n with
  | O => Done (num, u)
  | S n =>
      b ← aget buffer num;
      u ← write_user (s32 (addr + num)) (s8 b) u;
      if gone u || (b =? 0) then Done (num, u) else store_buffer n addr (num + 1) buffer u
  end.

(** The same, reading each character from the file first. *)
Fixpoint read_file (n : nat) (addr num id : Z) (buffer : list Z) (u : t) : res (Z * t) :=
  match n with
  | O => Done (num, u)
  | S n =>
      match read_char (hostfs (vm u)) id with
      | None => Assert
      | Some (c, f) =>
          buffer ← aset buffer num c;
          u ← write_user (s32 (addr + num)) (s8 c) (set_vm u (set_hostfs (vm u) f));
          if gone u || (c =? 0) then Done (num, u) else read_file n addr (num + 1) id buffer u
      end
  end.

Definition SRead (addr size id : Z) (u : t) : res (Z * t) :=
  if (size + 10 <=? 0) || (INT_MAX <? size + 10) then Undef else
  let buffer := fresh_bytes (size + 10) in
  if id =? 0 then
    match keyboard u with
    | [] => Blocks
    | word :: words =>
        buffer ← blit buffer 0 (word ++ [0]);
        let num := Z.of_nat (length (cstring buffer)) in
        let result := if size + 1 <? num then size + 1 else num + 1 in
        buffer ← aset buffer result 0;
        store_buffer (Z.to_nat result) addr 0 buffer (set_keyboard u words)
    end
  else read_file (Z.to_nat size) addr 0 id buffer u.

Definition Read (arg1 arg2 arg3 : Z) (u : t) : res t :=
  '(result, u) ← SRead arg1 arg2 arg3 u;
  if gone u then Done u else
  m ← WriteRegister 2 result (mach u);
  Done (put_mach u m).

(** ** SC_Exec *)

(** [while (j != 0)]: the name so far, or [None] for the return in the loop.  A name
    that fills the buffer has no terminating 0. *)
Fixpoint copy_name (room : nat) (addr j : Z) (filename : list Z) (u : t) : res (option (list Z) * t) :=
  match room with
  | O => Undef
  | S room =>
      if j =? 0 then Done (Some filename, u) else
      let filename := filename ++ [u8 j] in
      '(j, u) ← read_user (s32 (addr + 1)) u;
      match j with
      | None => Done (None, u)
      | Some j => copy_name room (s32 (addr + 1)) j filename u
      end
  end.

(** What the allocations of this call return: the swap file, and the addresses of the
    page table, the AddrSpace and the Thread, with the uninitialised members. *)
Record allocs : Type := mkAl {
  al_swap : Z;
  al_table : Z;
  al_space : Z;
  al_thread : Z;
  al_swapped : list bool;
  al_start : Z
}.

Definition new_space (al : allocs) (executable : Z) (u : t) : res (AddrSpace.t * t) :=
  let v := vm u in
  r ← StubFile.ReadAt (hostfs v) executable 40 0;
  h ← blit (fresh_bytes 40) 0 (default [] r);
  '(sp, m) ← AddrSpace be (header_of_bytes h) executable (al_swap al) (al_table al)
               (al_swapped al) (al_start al) (memMap v) (machine v);
  Done (sp, set_vm u (set_spaces (set_machine v m) (<[al_space al := sp]> (spaces v)))).

Definition set_thread_space (v : AddrSpace.vm (B := B) (F := F)) x : AddrSpace.vm :=
  mkVM (machine v) (memMap v) (pageList v) (ipt v) (pageLock v) (spaces v) x
    (currentThread v) (swapChoice v) (numPageFaults v) (hostfs v) (rand_calls v).

(** [new Thread], [Append] and [Fork] are [Threads.Exec], to which the call is handed;
    its number, register 2 and the flag are set here as well, for they are what the
    program sees. *)
Definition new_process (al : allocs) (sp : AddrSpace.t) (u : t) : res t :=
  if negb (killNewChild u) then
    let u := set_vm u (set_thread_space (vm u) (<[al_thread al := al_space al]> (thread_space (vm u)))) in
    m ← WriteRegister 2 (threadID u) (mach u);
    let u := set_threadID (put_mach u m) (s32 (threadID u + 1)) in
    Done (add_calls u [Threads.CExec sp user_code] (ctl u))
  else
    m ← WriteRegister 2 (s32 (-1 * s32 (threadID u + 1))) (mach u);
    Done (set_killNewChild (put_mach u m) false).

Definition Exec (al : allocs) (arg1 : Z) (u : t) : res t :=
  '(j, u) ← read_user arg1 u;
  '(j, u) ← (match j with
             | Some j => Done (Some j, u)
             | None => if gone u then Done (None, u) else read_user arg1 u
             end);
  if gone u then Done u else
  match j with
  | None => Undef                              (* j is not initialised *)
  | Some j =>
      '(name, u) ← copy_name 100 arg1 j [] u;
      match name with
      | None => Done u
      | Some name =>
          match open_file (hostfs (vm u)) name with
          | None => Done u
          | Some executable =>
              '(sp, u) ← new_space al executable u;
              new_process al sp u
          end
      end
  end.

(** ** The handler *)

Definition advance_pc (m : Machine.t) : Machine.t :=
  let m := set_reg m PrevPCReg (reg m PCReg) in
  let m := set_reg m PCReg (reg m NextPCReg) in
  set_reg m NextPCReg (s32 (reg m NextPCReg + 4)).

Definition system_call (al : allocs) (fuel : nat) (type arg1 arg2 arg3 : Z) (u : t) : res t :=
  if type =? SC_Halt then Done (add_calls u [] Halts)
  else if type =? SC_Read then Read arg1 arg2 arg3 u
  else if type =? SC_Write then Write fuel arg1 arg3 u
  else if type =? SC_Exec then Exec al arg1 u
  else if type =? SC_Join then Done (add_calls u [Threads.CJoin arg1] (ctl u))
  else if type =? SC_Exit then finish_process u
  else if type =? SC_Yield then Done (add_calls u [Threads.CYield; Threads.CRestore] (ctl u))
  else Done u.

Definition ExceptionHandler (al : allocs) (fuel : nat) (which : ExceptionType) (u : t) : res t :=
  type ← ReadRegister 2 (mach u);
  arg1 ← ReadRegister 4 (mach u);
  arg2 ← ReadRegister 5 (mach u);
  arg3 ← ReadRegister 6 (mach u);
  match which with
  | SyscallException => system_call al fuel type arg1 arg2 arg3 (put_mach u (advance_pc (mach u)))
  | _ => fault_handler which u
  end.

(** One turn of the loop of Machine::Run, up to interrupt->OneTick(). *)
Definition user_step (al : allocs) (fuel : nat) (u : t) : res t :=
  '(u, m) ← Mips.OneInstruction be set_mode
              (λ which u m, u ← ExceptionHandler al fuel which (put_mach u m); Done (u, mach u))
              u (mach u);
  Done (put_mach u m).

End handler.
End Syscall.
