(* ===== verification/Progtest.v ===== *)
(** Progtest: StartProcess of src/code/userprog/progtest.cc, and what a new address space
    looks like.

    [StartProcess] is what the main thread does up to the call of Machine::Run; as in
    Syscall.v, its effect on the thread is handed to Threads.v as a call ([Threads.CLoad]).
    The theorems connect the constructor of AddrSpace with the invariant of Paging.v: a new
    space keeps it, and the first one establishes it, so that the page faults of the program
    that starts can be served. *)
From S2P Require Import Prelude Bitmap Lists Machine AddrSpace Paging Threads Syscall.

Module Progtest.
Import Machine AddrSpace Syscall.

Section start.
Context {B F L : Type} `{!BitmapLike B} `{!HostFiles F} `{!HostCalls F} `{!FreshMemory}.
Context (be : bool) (user_code : L).

(** A semaphore of value 1 for each frame; nothing else happens when the file cannot be
    opened. *)
Definition StartProcess (al : allocs) (filename : list Z) (u : Syscall.t (B := B) (F := F) (L := L)) :
    res Syscall.t :=
  let u := set_vm u (set_pageLock (vm u) (replicate (Z.to_nat NumPhysPages) 1)) in
  match open_file (hostfs (vm u)) filename with
  | None => Done u
  | Some executable =>
      '(sp, u) ← new_space be al executable u;
      let u := set_vm u (set_thread_space (vm u) (<[currentThread (vm u) := al_space al]> (thread_space (vm u)))) in
      Done (add_calls u [Threads.CLoad sp; Threads.CGo user_code] (ctl u))
  end.

End start.
End Progtest.

Module ProgtestSpec.
Import Machine AddrSpace Paging Syscall Progtest.

Section start.
Context {B F L : Type} `{!BitmapLike B} `{!HostFiles F} `{!HostCalls F} `{!FreshMemory}.
Context (be : bool) (user_code : L).
Abbreviation vm := (@AddrSpace.vm B F).

(** The header of an executable, in the byte order of the host. *)
Definition header_in (hf : F) (fd : Z) (h : NoffHeader) : Prop :=
  ∃ bs, h_read hf fd 0 40 = Some bs ∧ length bs = 40%nat ∧
    let h0 := header_of_bytes bs in
    h = (if negb (noffMagic h0 =? NOFFMAGIC) && (swap_word be (noffMagic h0) =? NOFFMAGIC) then SwapHeader be h0 else h0) ∧
    noffMagic h = NOFFMAGIC.

(** The bytes of the segments and the stack. *)
Definition total (h : NoffHeader) : Z :=
  seg_size (code h) + seg_size (initData h) + seg_size (uninitData h) + UserStackSize.

Definition pages_of (h : NoffHeader) : Z := divRoundUp (total h) PageSize.

(** What the allocations return: new objects, and swap marks that happen to be clear. *)
Record fresh (v : vm) (h : NoffHeader) (al : allocs) : Prop := {
  fr_space : spaces v !! al_space al = None;
  fr_table : ∀ s sp, spaces v !! s = Some sp → as_pageTable sp ≠ al_table al;
  fr_swapped : al_swapped al = replicate (Z.to_nat (pages_of h)) false
}.

Definition invalid_entry (vp : Z) : TranslationEntry := mkTE vp (-1) false false false false.

Lemma start_search_returns (mm : B) pages start0 :
  bm_ok mm → bm_size mm = NumPhysPages → ∃ start, start_search mm pages start0 = Done start.
Proof.
  intros Hok Hsz. unfold start_search.
  match goal with |- context [for_up _ 0 ?body ?s] =>
    destruct (for_up_inv (λ _ _, True) body (Z.to_nat NumPhysPages) 0 s) as ([c st] & -> & _) end; [done| |by exists st].
  intros i [c st] Hi _. case_match; [|by eexists]. rewrite bm_Test_spec by (done || lia).
  cbn [mbind res_bind]. by destruct (bm_bit mm i); eexists.
Qed.

(** The constructor. *)
Lemma new_space_spec al fd h (u : Syscall.t (B := B) (F := F) (L := L)) :
  header_in (hostfs (Syscall.vm u)) fd h → 0 ≤ total h < 2 ^ 32 →
  bm_ok (memMap (Syscall.vm u)) → bm_size (memMap (Syscall.vm u)) = NumPhysPages →
  ∃ start, let sp := mkAS fd (al_swap al) h (al_table al) (pages_of h) start true (al_swapped al) in
    new_space be al fd u =
      Done (sp, set_vm u (set_spaces
        (set_machine (Syscall.vm u)
           (set_tables (machine (Syscall.vm u))
              (<[al_table al := invalid_entry <$> seqZ 0 (pages_of h)]> (tables (machine (Syscall.vm u))))))
        (<[al_space al := sp]> (spaces (Syscall.vm u))))).
Proof.
  intros (bs & Hread & Hlen & Hh & Hmagic) Htot Hok Hsz.
  destruct (start_search_returns (memMap (Syscall.vm u)) (pages_of h) (al_start al) Hok Hsz) as [start Hst].
  exists start. unfold new_space, StubFile.ReadAt. rewrite bind_ASSERT by done. rewrite Hread. cbn [mbind res_bind from_option]. unfold id.
  rewrite blit_in_range by (rewrite ?Hlen, ?fresh_length by done; done). cbn [mbind res_bind].
  change (Z.to_nat 0) with 0%nat. rewrite take_0, drop_ge by (rewrite fresh_length by done; rewrite Hlen; done).
  rewrite app_nil_r. cbn [app]. unfold AddrSpace. rewrite <- Hh, Hmagic. rewrite bind_ASSERT by done.
  fold (total h). rewrite u32_id by done. fold (pages_of h). rewrite Hst. done.
Qed.

(** ** The paging invariant *)

(** A space without frames, for a thread that had none. *)
Lemma core_fresh E E' bit ipt tsp pages fifo th s :
  core E bit ipt tsp pages fifo → tsp !! th = None →
  (∀ s1 v1, s1 ≠ s → E' s1 v1 = E s1 v1) → (∀ v1, E s v1 = None) →
  (∀ v1 e, E' s v1 = Some e → physicalPage e = -1 ∧ valid e = false) →
  core E' bit ipt (<[th := s]> tsp) pages fifo.
Proof.
  intros [C1 C2 C3 C4 C5] Hth Hsame Hnone Hnew.
  assert (Hsub : ∀ s1 v1 e1, E' s1 v1 = Some e1 → valid e1 = true → E s1 v1 = Some e1).
  { intros s1 v1 e1 H1 Hv. destruct (decide (s1 = s)) as [->|Hn]; [|by rewrite <- Hsame].
    destruct (Hnew _ _ H1). congruence. }
  split; [..|exact C5].
  - intros s1 v1 e1 H1. destruct (decide (s1 = s)) as [->|Hn]; [left; by eapply Hnew|].
    rewrite Hsame in H1 by done. by eapply C1.
  - intros s1 v1 e1 s2 v2 e2 H1 H2 V1 V2. apply Hsub in H1, H2; [|done..]. by eapply C2.
  - intros s1 v1 e1 H1 V1. apply Hsub in H1; [|done]. by eapply C3.
  - intros f Hf Hb. destruct (C4 f Hf Hb) as (th1 & s1 & v1 & e1 & Hi & Ht & H1 & Hp).
    exists th1, s1, v1, e1. split; [done|].
    split; [rewrite lookup_insert_ne; [done|congruence]|]. split; [|done].
    rewrite Hsame; [done|]. intros ->. by rewrite Hnone in H1.
Qed.

Definition add_space (v : vm) (al : allocs) (th : Z) (sp : AddrSpace.t) : vm :=
  let v := set_spaces
    (set_machine v (set_tables (machine v) (<[al_table al := invalid_entry <$> seqZ 0 (numPages sp)]> (tables (machine v)))))
    (<[al_space al := sp]> (spaces v)) in
  set_thread_space v (<[th := al_space al]> (thread_space v)).

Record new_space_of (v : vm) (h : NoffHeader) (al : allocs) (sp : AddrSpace.t) : Prop := {
  ns_fresh : fresh v h al;
  ns_pages : 0 ≤ numPages sp;
  ns_numPages : numPages sp = pages_of h;
  ns_table : as_pageTable sp = al_table al;
  ns_swapped : swapped sp = al_swapped al
}.

Lemma add_space_entry v h al th sp s vp :
  new_space_of v h al sp →
  entry (add_space v al th sp) s vp =
  if decide (s = al_space al) then (if decide (0 ≤ vp < numPages sp) then Some (invalid_entry vp) else None)
  else entry v s vp.
Proof.
  intros [[Hs Ht _] Hp _ Htb _]. unfold entry, add_space. cbn. case_decide as Hd.
  - subst. rewrite lookup_insert_eq. cbn. rewrite Htb, lookup_insert_eq. cbn. case_decide; [|done].
    rewrite list_lookup_fmap, (proj2 (lookup_seqZ 0 (numPages sp) (Z.to_nat vp) vp)) by lia. done.
  - rewrite lookup_insert_ne by done. destruct (spaces v !! s) as [sp'|] eqn:Hs'; [|done]. cbn.
    rewrite lookup_insert_ne; [done|]. intros Heq. by apply (Ht s sp' Hs').
Qed.

Lemma add_space_ok v h al th sp :
  vm_ok v → new_space_of v h al sp → thread_space v !! th = None → vm_ok (add_space v al th sp).
Proof.
  intros Hok Hn Hth. pose proof (add_space_entry v h al th sp) as He. destruct Hok as [K1 K2 K3 K4 [T1 T2 T3] K6].
  destruct Hn as [[Hs Ht Hsw] Hp Hnp Htb Hsw'].
  split; try done.
  - split; cbn.
    + intros s sp' [[<- <-]|[Hne H1]]%lookup_insert_Some.
      * split; [done|]. eexists. split; [rewrite Htb; apply lookup_insert_eq|].
        rewrite length_fmap, length_seqZ. lia.
      * destruct (T1 s sp' H1) as [? (tb & H2 & ?)]. split; [done|]. exists tb. split; [|done].
        rewrite lookup_insert_ne; [done|]. intros Heq. by apply (Ht s sp' H1).
    + intros s sp' [[<- <-]|[Hne H1]]%lookup_insert_Some; [|by eapply T2].
      rewrite Hsw', Hsw, length_replicate. split; [lia|]. by apply Forall_replicate.
    + intros s1 sp1 s2 sp2 [[<- <-]|[N1 H1]]%lookup_insert_Some [[<- <-]|[N2 H2]]%lookup_insert_Some Heq; try done.
      * rewrite Htb in Heq. by destruct (Ht s2 sp2 H2).
      * rewrite Htb in Heq. by destruct (Ht s1 sp1 H1).
      * by eapply T3.
  - eapply core_fresh with (E := entry v); [exact K6|exact Hth|..].
    + intros s1 v1 Hs1. rewrite He by by split. by rewrite decide_False.
    + intros v1. unfold entry. by rewrite Hs.
    + intros v1 e. rewrite He by by split. rewrite decide_True by done. case_decide; [|done]. intros [= <-]. done.
Qed.

(** What Initialize leaves: an empty memory map and no process. *)
Record booted (v : vm) : Prop := {
  bo_mem : Z.of_nat (length (mainMemory (machine v))) = MemorySize;
  bo_map : bm_ok (memMap v) ∧ bm_size (memMap v) = NumPhysPages;
  bo_free : ∀ f, 0 ≤ f < NumPhysPages → bm_bit (memMap v) f = false;
  bo_ipt : Z.of_nat (length (ipt v)) = NumPhysPages;
  bo_spaces : spaces v = ∅;
  bo_threads : thread_space v = ∅;
  bo_pages : Queue.contents (pageList v) = []
}.

Lemma booted_ok v : booted v → vm_ok (set_pageLock v (replicate (Z.to_nat NumPhysPages) 1)).
Proof.
  intros [K1 K2 K3 K4 K5 K6 K7].
  assert (Hno : ∀ s vp, entry (set_pageLock v (replicate (Z.to_nat NumPhysPages) 1)) s vp = None).
  { intros s vp. unfold entry. cbn. by rewrite K5, lookup_empty. }
  split; try done.
  - split; [done|]. by apply Forall_replicate.
  - split; cbn; rewrite K5; intros s1 sp1; rewrite lookup_empty; done.
  - split.
    + intros s vp e H1. by rewrite Hno in H1.
    + intros s1 v1 e1 s2 v2 e2 H1. by rewrite Hno in H1.
    + intros s vp e H1. by rewrite Hno in H1.
    + intros f Hf Hb. cbn in Hb. by rewrite K3 in Hb.
    + intros _. cbn. rewrite K7. split; [|done]. intros f Hf Hb. by rewrite K3 in Hb.
Qed.

Lemma pages_cover h : 0 ≤ total h → 0 ≤ pages_of h ∧ total h ≤ pages_of h * PageSize.
Proof.
  intros Ht. unfold pages_of. pose proof (divRoundUp_spec (total h) PageSize Ht). unfold PageSize, SectorSize in *.
  split; [apply divRoundUp_nonneg; lia|lia].
Qed.

(** With an executable, StartProcess adds its space for the running thread. *)
Lemma StartProcess_adds al name h fd (u : Syscall.t (B := B) (F := F) (L := L)) :
  let v := set_pageLock (Syscall.vm u) (replicate (Z.to_nat NumPhysPages) 1) in
  booted (Syscall.vm u) → fresh (Syscall.vm u) h al → open_file (hostfs (Syscall.vm u)) name = Some fd →
  header_in (hostfs (Syscall.vm u)) fd h → 0 ≤ total h < 2 ^ 32 →
  ∃ u' sp, StartProcess be user_code al name u = Done u' ∧
    Syscall.vm u' = add_space v al (currentThread v) sp ∧ new_space_of v h al sp ∧ vm_ok (Syscall.vm u') ∧
    calls u' = calls u ++ [Threads.CLoad sp; Threads.CGo user_code] ∧
    noffH sp = h ∧ file sp = fd ∧ swapFile sp = al_swap al.
Proof.
  intros v Hb Hfr Ho Hh Htot. destruct (pages_cover h) as [Hp0 Hpc]; [lia|].
  unfold StartProcess. set (u0 := set_vm u _). change (hostfs (Syscall.vm u0)) with (hostfs (Syscall.vm u)). rewrite Ho.
  pose proof (booted_ok _ Hb) as Hok0.
  destruct (new_space_spec al fd h u0) as [start Hns]; [exact Hh|exact Htot|apply (ok_map _ Hok0)..|].
  rewrite Hns. cbn [mbind res_bind]. set (sp := mkAS _ _ _ _ _ _ _ _). eexists _, sp.
  assert (Hn : new_space_of v h al sp).
  { destruct Hfr. split; [by split|exact Hp0|done..]. }
  split; [reflexivity|]. split; [reflexivity|]. split; [exact Hn|]. split; [|done].
  change (vm_ok (add_space v al (currentThread v) sp)). apply add_space_ok with h; [done|done|].
  change (thread_space v) with (thread_space (Syscall.vm u)). by rewrite (bo_threads _ Hb), lookup_empty.
Qed.

(** The only space has the pages of the program, none of them with a frame ... *)
Lemma only_space_entry v h al sp s vp :
  let v0 := set_pageLock v (replicate (Z.to_nat NumPhysPages) 1) in
  booted v → new_space_of v0 h al sp →
  entry (add_space v0 al (currentThread v0) sp) s vp =
  if decide (s = al_space al ∧ 0 ≤ vp < numPages sp) then Some (invalid_entry vp) else None.
Proof.
  intros v0 Hb Hn. rewrite (add_space_entry _ _ _ _ _ _ _ Hn). destruct (decide (s = al_space al)) as [->|Hne].
  - destruct (decide (0 ≤ vp < numPages sp)); [by rewrite decide_True|by rewrite decide_False by (intros [_ ?]; done)].
  - rewrite (decide_False (P := s = al_space al ∧ _)) by (intros [? _]; done). unfold entry.
    change (spaces v0) with (spaces v). by rewrite (bo_spaces _ Hb), lookup_empty.
Qed.

(** ... and its faults can be served. *)
Lemma only_space_fault v h al sp bad :
  let v0 := set_pageLock v (replicate (Z.to_nat NumPhysPages) 1) in
  booted v → new_space_of v0 h al sp → swapFile sp ≠ file sp →
  0 ≤ bad < numPages sp * PageSize → loadable sp (bad / PageSize) →
  fault (add_space v0 al (currentThread v0) sp) (al_space al) bad sp (invalid_entry (bad / PageSize)).
Proof.
  intros v0 Hb Hn Hsw Hbad Hload. assert (0 ≤ bad / PageSize < numPages sp).
  { unfold PageSize, SectorSize in *. split; [apply Z.div_pos; lia|apply Z.div_lt_upper_bound; lia]. }
  split; try done; [apply lookup_insert_eq|apply lookup_insert_eq|lia| |..].
  - unfold v0. by rewrite (only_space_entry _ h), decide_True.
  - right. right. exists 0. split; [done|]. by apply (bo_free _ Hb).
  - intros s' sp'. change (spaces (add_space v0 al (currentThread v0) sp)) with (<[al_space al := sp]> (spaces v)).
    rewrite (bo_spaces _ Hb). intros [[<- <-]|[_ H1]]%lookup_insert_Some; [done|]. by rewrite lookup_empty in H1.
Qed.

(** C16: StartProcess sets up demand paging. In the state that Initialize leaves - no process,
    every frame free - StartProcess of an executable with a valid header returns, and
    establishes the paging invariant: the address space of the program is as large as its
    segments and the stack, no page of it has a frame, and the main thread owns it and goes
    on to load its registers and run. So the invariant that the page faults keep holds when
    the first of them happens, and each fault of the new program on a page whose segments
    load within the page is one that the handler serves. If the file cannot be opened,
    nothing but the frames' locks has changed. The members of the swap map, which the code
    does not initialise, are taken to be clear. *)
Theorem StartProcess_establishes (al : allocs) (name : list Z) (h : NoffHeader)
    (u : Syscall.t (B := B) (F := F) (L := L)) :
  let v := Syscall.vm u in
  booted v → fresh v h al →
  match open_file (hostfs v) name with
  | None => StartProcess be user_code al name u = Done (set_vm u (set_pageLock v (replicate (Z.to_nat NumPhysPages) 1)))
  | Some fd =>
      header_in (hostfs v) fd h → 0 ≤ total h < 2 ^ 32 →
      ∃ u' sp, StartProcess be user_code al name u = Done u' ∧ vm_ok (Syscall.vm u') ∧
        calls u' = calls u ++ [Threads.CLoad sp; Threads.CGo user_code] ∧
        noffH sp = h ∧ numPages sp = pages_of h ∧ total h ≤ numPages sp * PageSize ∧
        (∀ s vp, entry (Syscall.vm u') s vp =
           if decide (s = al_space al ∧ 0 ≤ vp < numPages sp) then Some (invalid_entry vp) else None) ∧
        (al_swap al ≠ fd → ∀ bad, 0 ≤ bad < numPages sp * PageSize → loadable sp (bad / PageSize) →
           fault (Syscall.vm u') (al_space al) bad sp (invalid_entry (bad / PageSize)))
  end.
Proof.
  intros v Hb Hfr. pose proof (StartProcess_adds al name h) as Hadds.
  destruct (open_file (hostfs v) name) as [fd|] eqn:Ho.
  2: { unfold StartProcess. change (hostfs (Syscall.vm (set_vm u _))) with (hostfs v). by rewrite Ho. }
  intros Hh Htot. destruct (pages_cover h) as [_ Hpc]; [lia|].
  destruct (Hadds fd u Hb Hfr Ho Hh Htot) as (u' & sp & Hs & Hv & Hn & Hok & Hc & Hno & Hfd & Hswf). clear Hadds.
  exists u', sp. do 4 (split; [done|]). split; [apply Hn|]. split; [by rewrite (ns_numPages _ _ _ _ Hn)|].
  rewrite Hv. split; [intros s vp; by apply (only_space_entry _ h)|].
  intros Hsw bad Hbad Hload. apply (only_space_fault _ h); try done. congruence.
Qed.

End start.
End ProgtestSpec.

(** * A program that starts *)
Module ProgtestDemo.
Import Machine AddrSpace Paging Syscall Progtest ProgtestSpec.

#[local] Instance memory : FreshMemory.
Proof.
  refine {| fresh_bytes z := replicate (Z.to_nat z) 170 |}.
  - intros z _. apply length_replicate.
  - intros z. apply Forall_replicate. unfold is_byte. lia.
Defined.

(** The only file is called "a" and has the descriptor 3. *)
#[local] Instance one_file : HostCalls mem_files :=
  {| open_file _ name := if bool_decide (name = [97]) then Some 3 else None;
     read_char _ _ := None; write_chars _ _ _ := None |}.

Definition header : NoffHeader := mkNoff NOFFMAGIC (mkSeg 0 40 512) (mkSeg 0 0 0) (mkSeg 0 0 0).

Definition executable : list Z :=
  concat (bytes_of 4 <$> [NOFFMAGIC; 0; 40; 512; 0; 0; 0; 0; 0; 0]) ++ ((λ z, z mod 256) <$> seqZ 0 512).

Definition v0 : @AddrSpace.vm BitMap.t mem_files :=
  mkVM (Machine.mk (replicate (Z.to_nat MemorySize) 0) (replicate 40 0) None ∅ 0 0 false 0)
    (BitMap.mk 32 1 [0]) Queue.empty (replicate 32 0) [] ∅ ∅ 8 1 0 {[ 3 := executable ]} 0.

Definition u0 : Syscall.t (L := ()) := Syscall.mk v0 SystemMode [] [] [] Returns 1 false.
Definition al : allocs := mkAl 9 90 91 92 (replicate 6 false) 0.

(** Six pages: two of code, four of stack.  The fault of the first fetch can be served. *)
Lemma StartProcess_establishes_witness :
  ∃ u' sp, StartProcess false () al [97] u0 = Done u' ∧ vm_ok (Syscall.vm u') ∧ numPages sp = 6 ∧
    fault (Syscall.vm u') 91 0 sp (invalid_entry 0).
Proof.
  assert (Hb : booted v0).
  { split; try done; [split; [apply demo_map_ok|done]|apply demo_bits]. }
  assert (Hf : fresh v0 header al) by by split.
  assert (Hh : header_in false (hostfs v0) 3 header).
  { eexists. split; [by vm_compute|]. split; [by vm_compute|]. split; by vm_compute. }
  pose proof (StartProcess_establishes false () al [97] header u0 Hb Hf) as Hstart.
  change (open_file (hostfs (Syscall.vm u0)) [97]) with (Some 3) in Hstart.
  destruct (Hstart Hh) as (u' & sp & Hs & Hok & _ & Hn & Hnp & _ & _ & Hflt); [by vm_compute|].
  assert (Hp6 : numPages sp = 6) by (rewrite Hnp; by vm_compute).
  assert (Hl : loadable sp 0).
  { intros seg Hseg Hsz. rewrite Hn in Hseg. clear - Hseg Hsz. destruct Hseg as [->| ->]; by vm_compute. }
  exists u', sp. split; [exact Hs|]. split; [exact Hok|]. split; [exact Hp6|].
  refine (Hflt _ 0 _ Hl); [discriminate|]. rewrite Hp6. clear. vm_compute. split; [discriminate|reflexivity].
Defined.

(** A swap map that is not clear makes the first fault read the swap file instead of the
    program: [new bool[numPages]] leaves it to chance. *)
Definition dirty : allocs := mkAl 9 90 91 92 (replicate 6 true) 0.

Definition first_word (a : allocs) : res (list Z) :=
  u ← StartProcess false () a [97] u0;
  v ← loadPage (λ _, 0) (Syscall.vm u) 91 0;
  Done (take 4 (mainMemory (machine v))).

Lemma uninitialised_swap_map : first_word al = Done [0; 1; 2; 3] ∧ first_word dirty = Done [0; 0; 0; 0].
Proof. split; vm_compute; reflexivity. Qed.

End ProgtestDemo.
