(* ===== verification/Lifecycle.v ===== *)
(** Lifecycle: address spaces from the start of the first program on.

    A run of the kernel, as far as memory is concerned, is a sequence of the operations of
    the other files in any order: StartProcess (Progtest.v), the creation of an address space
    for Exec (Syscall.v), page faults (AddrSpace.v), the end of a process, switches between
    threads, and what running programs do through Machine::Translate.  The invariant of
    Paging.v holds all along. *)
From S2P Require Import Prelude Bitmap Lists Machine AddrSpace Paging Threads Syscall Progtest.

Module Lifecycle.
Import Machine AddrSpace Paging Syscall Progtest ProgtestSpec.

(** * What a running program does to the machine *)

(** Its registers, and memory through the translation, which sets use and dirty bits. *)
Inductive user_step : Machine.t → Machine.t → Prop :=
| user_registers m rs : user_step m (set_registers m rs)
| user_read m va size pa m' : Translate va size false m = Done (NoException, pa, m') → user_step m m'
| user_write m va size pa m' bs mem :
    Translate va size true m = Done (NoException, pa, m') → blit (mainMemory m') pa bs = Done mem →
    user_step m (set_mainMemory m' mem).

(** The part of a page table that says where the pages are. *)
Definition placement (e : TranslationEntry) : bool * Z := (valid e, physicalPage e).

Record same_frames (m m' : Machine.t) : Prop := {
  sf_mem : length (mainMemory m') = length (mainMemory m);
  sf_tables : ∀ p, fmap placement <$> (tables m' !! p) = fmap placement <$> (tables m !! p)
}.

Lemma same_frames_refl m : same_frames m m.
Proof. by split. Qed.

Lemma find_entry_in_table vpn m k e :
  find_entry vpn m = Done (inr (InTable k, e)) →
  ∃ tb, the_table m = Done tb ∧ aget tb k = Done e.
Proof.
  unfold find_entry. destruct (tlb m) as [entries|].
  - intros Hf. apply bind_Done in Hf as (r & _ & Hf). by destruct r as [[i e']|].
  - case_match; [done|]. intros Hf. apply bind_Done in Hf as (tb & Ht & Hf).
    apply bind_Done in Hf as (e' & He & Hf). destruct (negb (valid e')); [done|]. injection Hf as <- <-. by exists tb.
Qed.

(** Marking an entry as used does not move its page. *)
Lemma store_entry_frames vpn m p e w m' :
  find_entry vpn m = Done (inr (p, e)) → store_entry p (touch e w) m = Done m' →
  mainMemory m' = mainMemory m ∧ same_frames m m'.
Proof.
  intros Hf Hs. destruct p as [k|i]; cbn in Hs.
  - destruct (find_entry_in_table _ _ _ _ Hf) as (tb & Ht & He). rewrite Ht in Hs. cbn [mbind res_bind] in Hs.
    apply bind_Done in Hs as (tb' & Hset & Hs). injection Hs as <-. split; [done|]. split; [done|]. cbn.
    intros q. destruct (decide (pageTable m = q)) as [<-|Hne]; [|by rewrite lookup_insert_ne].
    rewrite lookup_insert_eq. unfold the_table in Ht. destruct (tables m !! pageTable m) as [tb0|]; [|done].
    injection Ht as ->. cbn. f_equal. apply aget_Done in He as [Hk Hl].
    pose proof (lookup_lt_Some _ _ _ Hl). rewrite aset_in_range in Hset by lia. injection Hset as <-.
    rewrite list_fmap_insert. apply list_insert_id. by rewrite list_lookup_fmap, Hl.
  - destruct (tlb m); [|done]. apply bind_Done in Hs as (tb & _ & Hs). by injection Hs as <-.
Qed.

Lemma Translate_frames va size w m ex pa m' :
  Translate va size w m = Done (ex, pa, m') → mainMemory m' = mainMemory m ∧ same_frames m m'.
Proof.
  unfold Translate. intros Ht. destruct (Translate_align va size); [injection Ht as _ _ <-; split; [done|apply same_frames_refl]|].
  apply bind_Done in Ht as ([] & _ & Ht). apply bind_Done in Ht as ([] & _ & Ht).
  apply bind_Done in Ht as (r & Hf & Ht). destruct r as [x|[p e]].
  { injection Ht as _ _ <-. split; [done|apply same_frames_refl]. }
  destruct (readOnly e && w); [injection Ht as _ _ <-; split; [done|apply same_frames_refl]|].
  destruct (NumPhysPages <=? u32 (physicalPage e)); [injection Ht as _ _ <-; split; [done|apply same_frames_refl]|].
  apply bind_Done in Ht as (m1 & Hs & Ht). apply bind_Done in Ht as ([] & _ & Ht). injection Ht as _ _ <-.
  by eapply store_entry_frames.
Qed.

Lemma user_step_frames m m' : user_step m m' → same_frames m m'.
Proof.
  intros [m0 rs|m0 va size pa m1 Ht|m0 va size pa m1 bs mem Ht Hb].
  - by split.
  - by apply Translate_frames in Ht as [_ ?].
  - apply Translate_frames in Ht as [Hm [Hl Htb]]. split; [|exact Htb]. cbn.
    apply blit_length in Hb. congruence.
Qed.

(** Reading and writing memory as the interpreter does are such steps, when the translation
    succeeds. *)
Lemma WriteMem_user_step {K} (be : bool) setStatus (handler : ExceptionType → K → Machine.t → res (K * Machine.t)) k m va size x pa m1 r :
  Translate va size true m = Done (NoException, pa, m1) →
  WriteMem be setStatus handler va size x k m = Done r → r.1.1 = true ∧ user_step m r.2.
Proof.
  intros Ht Hw. unfold WriteMem in Hw. rewrite Ht in Hw. cbn [mbind res_bind] in Hw.
  rewrite decide_False in Hw by (intros []; done).
  destruct (size =? 1).
  { apply bind_Done in Hw as (mem & Hs & Hw). injection Hw as <-. split; [done|].
    eapply user_write with (bs := [Z.land x 255]); [exact Ht|]. by rewrite <- aset_blit. }
  destruct (size =? 2).
  { apply bind_Done in Hw as (mem & Hs & Hw). injection Hw as <-. split; [done|]. by eapply user_write. }
  destruct (size =? 4); [|done].
  apply bind_Done in Hw as (mem & Hs & Hw). injection Hw as <-. split; [done|]. by eapply user_write.
Qed.

(** * Runs *)
Section runs.
Context {B F L : Type} `{!BitmapLike B} `{!HostFiles F} `{!HostCalls F} `{!FreshMemory}.
Context (Hwrites : host_writes (F := F)) (Hneg : negative_reads_fail (F := F)).
Context (be : bool) (rand : nat → Z) (Hrand : ∀ k, 0 ≤ rand k) (user_code : L).
Abbreviation vm := (@AddrSpace.vm B F).
Abbreviation kstate := (Syscall.t (B := B) (F := F) (L := L)).
Implicit Types u : kstate.

(** The running thread gives up the CPU to [th], which goes on in its space [s]. *)
Definition switch_to (v : vm) (th : Z) (s : AddrSpace.t) : vm :=
  mkVM (RestoreState s (machine v)) (memMap v) (pageList v) (ipt v) (pageLock v) (spaces v) (thread_space v)
    th (swapChoice v) (numPageFaults v) (hostfs v) (rand_calls v).

Inductive reachable : vm → Prop :=
| boot al name h fd u u' :
    booted (Syscall.vm u) → fresh (Syscall.vm u) h al → open_file (hostfs (Syscall.vm u)) name = Some fd →
    header_in be (hostfs (Syscall.vm u)) fd h → 0 ≤ total h < 2 ^ 32 →
    StartProcess be user_code al name u = Done u' → reachable (Syscall.vm u')
| exec al h fd u sp u' :
    reachable (Syscall.vm u) → fresh (Syscall.vm u) h al → header_in be (hostfs (Syscall.vm u)) fd h →
    0 ≤ total h < 2 ^ 32 → thread_space (Syscall.vm u) !! al_thread al = None →
    new_space be al fd u = Done (sp, u') →
    reachable (set_thread_space (Syscall.vm u') (<[al_thread al := al_space al]> (thread_space (Syscall.vm u'))))
| page_fault v s bad sp e v' :
    reachable v → fault v s bad sp e → ReadRegister BadVAddrReg (machine v) = Done bad →
    PageFault rand v = Done v' → reachable v'
| exit v s sp v' :
    reachable v → spaces v !! s = Some sp → space sp = true → AddrSpace_delete v s = Done v' → reachable v'
| switch v th s sp :
    reachable v → thread_space v !! th = Some s → spaces v !! s = Some sp → reachable (switch_to v th sp)
| user v m :
    reachable v → user_step (machine v) m → reachable (set_machine v m).

(** ** The invariant depends on the placement of the pages only *)

Lemma core_same E E' bit ipt tsp pages fifo :
  (∀ s vp, placement <$> E' s vp = placement <$> E s vp) → core E bit ipt tsp pages fifo → core E' bit ipt tsp pages fifo.
Proof.
  intros Hsame [C1 C2 C3 C4 C5].
  assert (Hto : ∀ s vp e, E' s vp = Some e → ∃ e0, E s vp = Some e0 ∧ valid e0 = valid e ∧ physicalPage e0 = physicalPage e).
  { intros s vp e He. specialize (Hsame s vp). rewrite He in Hsame. destruct (E s vp) as [e0|]; [|done].
    injection Hsame as ? ?. by exists e0. }
  split; [..|exact C5].
  - intros s vp e He. destruct (Hto _ _ _ He) as (e0 & H0 & Hv & Hp). rewrite <- Hv, <- Hp. by eapply C1.
  - intros s1 v1 e1 s2 v2 e2 H1 H2 V1 V2 Hp. destruct (Hto _ _ _ H1) as (a & Ha & Hva & Hpa).
    destruct (Hto _ _ _ H2) as (b & Hb & Hvb & Hpb). eapply C2; [exact Ha|exact Hb|congruence..].
  - intros s vp e He Hv. destruct (Hto _ _ _ He) as (e0 & H0 & Hv0 & Hp). rewrite <- Hp. eapply C3; [exact H0|congruence].
  - intros f Hf Hb. destruct (C4 f Hf Hb) as (th & s & vp & e & Hi & Ht & He & Hp).
    specialize (Hsame s vp). rewrite He in Hsame. destruct (E' s vp) as [e'|] eqn:He'; [|done].
    injection Hsame as _ Hpp. exists th, s, vp, e'. do 2 (split; [done|]). split; [done|]. congruence.
Qed.

Lemma entry_same (v v' : vm) s vp :
  spaces v' = spaces v → same_frames (machine v) (machine v') →
  placement <$> entry v' s vp = placement <$> entry v s vp.
Proof.
  intros Hsp [_ Ht]. unfold entry. rewrite Hsp. destruct (spaces v !! s) as [sp|]; [|done]. cbn.
  specialize (Ht (as_pageTable sp)).
  destruct (tables (machine v) !! as_pageTable sp) as [tb|], (tables (machine v') !! as_pageTable sp) as [tb'|]; try done.
  cbn in Ht |- *. case_decide; [|done]. injection Ht as Ht.
  apply (f_equal (.!! Z.to_nat vp)) in Ht. by rewrite !list_lookup_fmap in Ht.
Qed.

(** The rest of the state can change as long as it says the same about the frames. *)
Lemma vm_ok_same (v v' : vm) :
  vm_ok v → same_frames (machine v) (machine v') → memMap v' = memMap v → ipt v' = ipt v → pageLock v' = pageLock v →
  spaces v' = spaces v → thread_space v' = thread_space v → pageList v' = pageList v → swapChoice v' = swapChoice v →
  vm_ok v'.
Proof.
  intros [K1 K2 K3 K4 [T1 T2 T3] K6] Hm E1 E2 E3 E4 E5 E6 E7.
  pose proof (λ s vp, entry_same v v' s vp E4 Hm) as He. destruct Hm as [Hl Ht].
  split; rewrite ?E1, ?E2, ?E3; try done.
  - by rewrite Hl.
  - split; rewrite E4; try done.
    intros s sp Hs. destruct (T1 s sp Hs) as [Hn (tb & Htb & Hlen)]. split; [done|].
    specialize (Ht (as_pageTable sp)). rewrite Htb in Ht.
    destruct (tables (machine v') !! as_pageTable sp) as [tb'|]; [|done]. exists tb'. split; [done|].
    injection Ht as Ht. apply (f_equal length) in Ht. rewrite !length_fmap in Ht. congruence.
  - rewrite E5, E6, E7. by eapply core_same.
Qed.

Lemma new_space_keeps al h fd u sp u' :
  vm_ok (Syscall.vm u) → fresh (Syscall.vm u) h al → header_in be (hostfs (Syscall.vm u)) fd h →
  0 ≤ total h < 2 ^ 32 → thread_space (Syscall.vm u) !! al_thread al = None →
  new_space be al fd u = Done (sp, u') →
  vm_ok (set_thread_space (Syscall.vm u') (<[al_thread al := al_space al]> (thread_space (Syscall.vm u')))).
Proof.
  intros Hok Hf Hh Ht Hth Hn. destruct (pages_cover h) as [Hp0 _]; [lia|].
  destruct (new_space_spec be al fd h u) as [start Hs]; [exact Hh|exact Ht|apply (ok_map _ Hok)..|].
  rewrite Hn in Hs. cbn zeta in Hs. apply (f_equal (λ r, match r with Done p => p | _ => (sp, u') end)) in Hs.
  injection Hs as -> ->. change (Syscall.vm (set_vm u ?x)) with x.
  match goal with |- context [<[al_space al := ?sp]> _] =>
    change (vm_ok (add_space (Syscall.vm u) al (al_thread al) sp)); apply (add_space_ok _ h) end; [done| |done].
  split; [exact Hf|exact Hp0|done..].
Qed.

Lemma reachable_vm_ok (v : vm) : reachable v → vm_ok v.
Proof using Hwrites Hneg Hrand.
  induction 1 as [al name h fd u u' Hb Hf Ho Hh Ht Hs|al h fd u sp u' _ IH Hf Hh Ht Hth Hn|v s bad sp e v' _ IH Hf Hreg Hp
    |v s sp v' _ IH Hs Hsp Hd|v th s sp _ IH Hth Hs|v m _ IH Hm].
  - destruct (StartProcess_adds be user_code al name h fd u) as (u1 & sp & Hs1 & _ & _ & Hok & _); [done..|].
    rewrite Hs in Hs1. by injection Hs1 as ->.
  - by eapply new_space_keeps.
  - unfold PageFault in Hp. rewrite Hreg in Hp. cbn [mbind res_bind] in Hp. rewrite (fl_thread _ _ _ _ _ Hf) in Hp.
    destruct (loadPage_spec Hwrites Hneg rand Hrand v s bad sp e IH Hf) as (v1 & f & img & Hl & Hok & _).
    cbn [mbind res_bind] in Hp. rewrite Hl in Hp. by injection Hp as <-.
  - destruct (AddrSpace_delete_spec v s sp IH Hs Hsp) as (v1 & Hd1 & Hok & _). rewrite Hd in Hd1. by injection Hd1 as ->.
  - by eapply (vm_ok_same v).
  - eapply (vm_ok_same v); try done. by apply user_step_frames.
Qed.

(** C7: The paging invariant holds throughout. Take any sequence of these operations after
    the start of the first program: the creation of the address space of another program,
    page faults with their page replacement, the end of a process, switches between
    threads, and memory accesses and register changes of the running programs. In every
    state that is reached the invariant of the paging holds: in particular no two pages of
    any address spaces have the same frame, every frame is free once the address spaces are
    gone, and the next page fault on a page that can be loaded, and the end of any process,
    are carried out without a failing assertion or an access outside an array. The host is
    taken to write what it is asked to, and to refuse to read a negative number of bytes, as
    Linux does; the segments of a page that faults load within the page, and the swap files
    are not the executable. *)
Theorem paging_always (v : vm) :
  reachable v →
  vm_ok v ∧
  (∀ s1 p1 e1 s2 p2 e2, entry v s1 p1 = Some e1 → entry v s2 p2 = Some e2 → valid e1 = true → valid e2 = true →
     physicalPage e1 = physicalPage e2 → s1 = s2 ∧ p1 = p2) ∧
  (spaces v = ∅ → ∀ f, 0 ≤ f < NumPhysPages → bm_bit (memMap v) f = false) ∧
  (∀ s bad sp e, fault v s bad sp e → ReadRegister BadVAddrReg (machine v) = Done bad →
     ∃ v', PageFault rand v = Done v' ∧ reachable v') ∧
  (∀ s sp, spaces v !! s = Some sp → space sp = true → ∃ v', AddrSpace_delete v s = Done v' ∧ reachable v').
Proof using Hwrites Hneg Hrand.
  intros Hr. pose proof (reachable_vm_ok v Hr) as Hok. split; [done|]. split; [|split; [|split]].
  - intros s1 p1 e1 s2 p2 e2 H1 H2 V1 V2 Hp. exact (core_inj _ _ _ _ _ _ (ok_core _ Hok) _ _ _ _ _ _ H1 H2 V1 V2 Hp).
  - intros Hsp f Hf. destruct (bm_bit (memMap v) f) eqn:Hb; [|done].
    destruct (core_owner _ _ _ _ _ _ (ok_core _ Hok) f Hf Hb) as (th & s & vp & e & _ & _ & He & _).
    unfold entry in He. by rewrite Hsp, lookup_empty in He.
  - intros s bad sp e Hf Hreg. destruct (loadPage_spec Hwrites Hneg rand Hrand v s bad sp e Hok Hf) as (v' & _ & _ & Hl & _).
    assert (Hp : PageFault rand v = Done v').
    { unfold PageFault. rewrite Hreg. cbn [mbind res_bind]. by rewrite (fl_thread _ _ _ _ _ Hf). }
    exists v'. split; [done|]. by eapply page_fault.
  - intros s sp Hs Hsp. destruct (AddrSpace_delete_spec v s sp Hok Hs Hsp) as (v' & Hd & _). exists v'.
    split; [done|]. by eapply exit.
Qed.

End runs.

End Lifecycle.

(** * A first page fault *)
Module LifecycleDemo.
Import Machine AddrSpace Paging Syscall Progtest ProgtestSpec ProgtestDemo Lifecycle.

#[local] Existing Instances memory one_file.

(** The program of Progtest.v has started; the first fetch faults. *)
Lemma paging_always_witness :
  ∃ v v', reachable false (λ _, 0) () v ∧ vm_ok v ∧ PageFault (λ _, 0) v = Done v' ∧ reachable false (λ _, 0) () v'.
Proof.
  assert (Hb : booted v0).
  { split; try done; [split; [apply demo_map_ok|done]|apply demo_bits]. }
  assert (Hf : fresh v0 header al) by by split.
  assert (Hh : header_in false (hostfs v0) 3 header).
  { eexists. split; [by vm_compute|]. split; [by vm_compute|]. split; by vm_compute. }
  assert (Ht : 0 ≤ total header < 2 ^ 32) by by vm_compute.
  assert (Ho : open_file (hostfs v0) [97] = Some 3) by by vm_compute.
  destruct (StartProcess_adds false () al [97] header 3 u0 Hb Hf Ho Hh Ht) as (u' & sp & Hs & Hv & Hn & _ & _ & Hno & Hfd & Hsw).
  assert (Hr : reachable false (λ _, 0) () (Syscall.vm u')) by exact (boot _ _ _ al [97] header 3 u0 u' Hb Hf Ho Hh Ht Hs).
  assert (Hflt : fault (Syscall.vm u') 91 0 sp (invalid_entry 0)).
  { rewrite Hv. refine (only_space_fault v0 header al sp 0 Hb Hn _ _ _).
    - rewrite Hfd, Hsw. discriminate.
    - rewrite (ns_numPages _ _ _ _ Hn). vm_compute. split; [discriminate|reflexivity].
    - intros seg Hseg Hsz. rewrite Hno in Hseg. clear - Hseg Hsz. destruct Hseg as [->| ->]; by vm_compute. }
  assert (Hreg : ReadRegister BadVAddrReg (machine (Syscall.vm u')) = Done 0).
  { rewrite Hv. change (ReadRegister BadVAddrReg (machine v0) = Done 0). vm_compute. reflexivity. }
  destruct (paging_always MemFiles_writes MemFiles_negative false (λ _, 0) (λ _, Z.le_refl 0) () (Syscall.vm u') Hr) as (Hok & _ & _ & Hserve & _).
  destruct (Hserve _ _ _ _ Hflt Hreg) as (v' & Hp & Hr'). exists (Syscall.vm u'), v'.
  split; [exact Hr|]. split; [exact Hok|]. split; [exact Hp|exact Hr'].
Defined.

End LifecycleDemo.
