(* ===== verification/SyscallSpec.v ===== *)
(** SyscallSpec: what a user program can rely on of the exception handler of
    Syscall.v: it leaves the registers alone but for the results of SC_Read and SC_Exec in
    register 2, system calls are not repeated, faulting instructions are, and strings get from the keyboard to user memory and from there
    to the terminal unchanged. *)

From S2P Require Import Prelude Bitmap Lists Machine Mips AddrSpace Paging Interrupt Threads Syscall.

Module SyscallSpec.
Import Machine AddrSpace FlatMemory Syscall.

(** Partial correctness of a counted loop. *)
Lemma for_up_keeps {T} (I : T → Prop) (body : Z → T → res T) n i s s' :
  (∀ i s s', I s → body i s = Done s' → I s') → I s → for_up n i body s = Done s' → I s'.
Proof.
  intros Hb. revert i s. induction n as [|n IH]; intros i s HI; cbn [for_up]; intros Hf; inv_res; subst; [done|].
  by eapply IH; [|done]; eapply Hb.
Qed.

(** * Registers *)
Section regs.
Context {B F L : Type} `{!BitmapLike B} `{!HostFiles F} `{!HostCalls F} `{!FreshMemory}.
Context (be : bool) (rand : nat → Z) (is_main : Z → bool) (user_code : L).
Abbreviation ust := (Syscall.t (B := B) (F := F) (L := L)).
Implicit Types v : AddrSpace.vm (B := B) (F := F).
Implicit Types u : ust.

(** The handler for page faults and the destructor of a space do not touch them. *)
Definition vregs v : list Z := registers (machine v).

Ltac regs_step :=
  repeat (inv_res; simplify_eq/=; repeat case_match; simplify_eq/=; try discriminate).

Lemma update_entry_regs v s p f v' : update_entry v s p f = Done v' → vregs v' = vregs v.
Proof. unfold update_entry. intros Hu. by regs_step. Qed.

Lemma set_swapped_regs v s p b v' : set_swapped v s p b = Done v' → vregs v' = vregs v.
Proof. unfold set_swapped. intros Hu. by regs_step. Qed.

Ltac regs_facts :=
  regs_step;
  repeat match goal with
  | H : update_entry _ _ _ _ = Done _ |- _ => apply update_entry_regs in H
  | H : set_swapped _ _ _ _ = Done _ |- _ => apply set_swapped_regs in H
  end;
  unfold vregs in *; simpl in *; congruence.

Lemma Swapout_regs v s f b v' : Swapout v s f = Done (b, v') → vregs v' = vregs v.
Proof. unfold Swapout. intros Hs. regs_facts. Qed.

Lemma Swapin_regs v s p f b v' : Swapin v s p f = Done (b, v') → vregs v' = vregs v.
Proof. unfold Swapin, setValidity, setDirty. intros Hs. regs_facts. Qed.

Lemma fill_frame_regs v s p f v' : fill_frame v s p f = Done v' → vregs v' = vregs v.
Proof.
  unfold fill_frame. intros Hs. regs_step;
    repeat match goal with H : Swapin _ _ _ _ = _ |- _ => apply Swapin_regs in H end; regs_facts.
Qed.

Lemma choose_frame_regs v f v' : choose_frame rand v = Done (f, v') → vregs v' = vregs v.
Proof.
  unfold choose_frame, Random. intros Hs. regs_step;
    repeat match goal with H : Swapout _ _ _ = _ |- _ => apply Swapout_regs in H end; regs_facts.
Qed.

Lemma loadPage_regs v s bad v' : loadPage rand v s bad = Done v' → vregs v' = vregs v.
Proof.
  unfold loadPage, lock_P, lock_V. intros Hs. regs_step;
    repeat match goal with
    | H : choose_frame _ _ = _ |- _ => apply choose_frame_regs in H
    | H : fill_frame _ _ _ _ = _ |- _ => apply fill_frame_regs in H
    end; regs_facts.
Qed.

Lemma PageFault_regs v v' : PageFault rand v = Done v' → vregs v' = vregs v.
Proof. unfold PageFault. intros Hs. regs_step. by eapply loadPage_regs. Qed.

Lemma AddrSpace_delete_regs v s v' : AddrSpace_delete v s = Done v' → vregs v' = vregs v.
Proof.
  unfold AddrSpace_delete, release_frames. intros Hs. regs_step; [|done].
  match goal with H : for_up _ _ _ _ = _ |- _ => apply (for_up_keeps (λ v0, vregs v0 = vregs v)) in H end;
    [done| |done].
  intros i v1 v2 Hi Hb. regs_facts.
Qed.

(** No delayed load is pending; this is how RaiseException calls the handler. *)
Record loads_done (m : Machine.t) : Prop := {
  ld_length : Z.of_nat (length (registers m)) = NumTotalRegs;
  ld_reg : reg m LoadReg = 0;
  ld_value : reg m LoadValueReg = 0;
  ld_zero : reg m 0 = 0
}.

(** Everything but BadVAddrReg, which a nested fault overwrites. *)
Definition kept (m m' : Machine.t) : Prop :=
  length (registers m') = length (registers m) ∧
  ∀ r, 0 ≤ r → r ≠ BadVAddrReg → reg m' r = reg m r.

#[local] Instance kept_po : PreOrder kept.
Proof.
  split; [done|]. intros m1 m2 m3 [H1 H2] [H3 H4]. split; [congruence|].
  intros r Hr Hb. by rewrite H4, H2.
Qed.

Lemma kept_same m m' : registers m' = registers m → kept m m'.
Proof. intros Hr. unfold kept, reg. by rewrite Hr. Qed.

Lemma kept_loads m m' : kept m m' → loads_done m → loads_done m'.
Proof. intros [Hl Hr] []. split; rewrite ?Hl, ?Hr; done. Qed.

Lemma set_reg_same m r : Z.of_nat (length (registers m)) = NumTotalRegs → 0 ≤ r < NumTotalRegs →
  set_reg m r (reg m r) = m.
Proof.
  intros Hl Hr. unfold set_reg, reg. destruct (lookup_lt_is_Some_2 (registers m) (Z.to_nat r)) as [x Hx]; [lia|].
  rewrite Hx. simpl. rewrite list_insert_id by done. by destruct m.
Qed.

Lemma DelayedLoad_kept m m' : loads_done m → DelayedLoad 0 0 m = Done m' → kept m m'.
Proof.
  intros [Hl H1 H2 H3] Hd. unfold DelayedLoad in Hd. rewrite H1, H2 in Hd.
  rewrite aset_in_range in Hd by (rewrite Hl; done). injection Hd as <-.
  apply kept_same. change (set_registers m (<[Z.to_nat 0 := 0]> (registers m))) with (set_reg m 0 0).
  assert (H0 : set_reg m 0 0 = m) by (rewrite <- H3 at 2; by apply set_reg_same). rewrite H0.
  assert (HL : set_reg m LoadReg 0 = m) by (rewrite <- H1; by apply set_reg_same). rewrite HL.
  assert (HV : set_reg m LoadValueReg 0 = m) by (rewrite <- H2; by apply set_reg_same). rewrite HV.
  by rewrite H0.
Qed.

Lemma finish_process_regs u u' : finish_process u = Done u' → registers (mach u') = registers (mach u).
Proof.
  unfold finish_process. intros Hf. regs_step; [|done]. by eapply (AddrSpace_delete_regs (vm u)).
Qed.

Lemma fault_handler_regs which u u' :
  fault_handler rand is_main which u = Done u' → registers (mach u') = registers (mach u).
Proof.
  unfold fault_handler. intros Hf.
  destruct which; inv_res; subst; try done; try by eapply finish_process_regs.
  by eapply (PageFault_regs (vm u)).
Qed.

Lemma Translate_regs va size w m x pa m' : Translate va size w m = Done (x, pa, m') → registers m' = registers m.
Proof. unfold Translate, store_entry. intros Ht. by regs_step. Qed.

Lemma RaiseException_kept which bad u m u' m' :
  loads_done m → RaiseException set_mode (on_fault rand is_main) which bad u m = Done (u', m') → kept m m'.
Proof.
  intros Hld Hr. unfold RaiseException, on_fault in Hr. inv_res.
  destruct r0 as [u1 m1]. inv_res. simplify_eq.
  assert (H1 : kept m (set_reg m BadVAddrReg bad)).
  { unfold kept, set_reg. simpl. rewrite length_insert. split; [done|].
    intros q Hq Hb. apply Mips.reg_set_reg_ne; [done|done|congruence]. }
  etrans; [exact H1|]. etrans; [eapply DelayedLoad_kept; [by eapply kept_loads|done]|].
  apply kept_same. by erewrite fault_handler_regs by done.
Qed.

Ltac raised :=
  match goal with
  | H : Translate _ _ _ ?m = _, Hld : loads_done ?m |- _ =>
      apply Translate_regs, kept_same in H; pose proof (kept_loads _ _ H Hld)
  end;
  try match goal with
  | H : RaiseException _ _ _ _ _ _ = _ |- _ => apply RaiseException_kept in H; [|done]; by etrans
  end; done.

Lemma ReadMem_kept a u m x u' m' :
  loads_done m → ReadMem be set_mode (on_fault rand is_main) a 1 u m = Done (x, u', m') → kept m m'.
Proof. intros Hld Hr. unfold ReadMem in Hr. regs_step; raised. Qed.

Lemma WriteMem_kept a w u m x u' m' :
  loads_done m → WriteMem be set_mode (on_fault rand is_main) a 1 w u m = Done (x, u', m') → kept m m'.
Proof. intros Hld Hr. unfold WriteMem in Hr. regs_step; raised. Qed.

Lemma read_user_kept a u x u' :
  loads_done (mach u) → read_user be rand is_main a u = Done (x, u') → kept (mach u) (mach u').
Proof. intros Hld Hr. unfold read_user in Hr. regs_step. by eapply ReadMem_kept. Qed.

Lemma write_user_kept a w u u' :
  loads_done (mach u) → write_user be rand is_main a w u = Done u' → kept (mach u) (mach u').
Proof. intros Hld Hr. unfold write_user in Hr. regs_step. by eapply WriteMem_kept. Qed.

(** ** The loops over user memory *)

Lemma copy_string_kept fuel a j ch u x u' :
  loads_done (mach u) → copy_string be rand is_main fuel a j ch u = Done (x, u') → kept (mach u) (mach u').
Proof.
  revert j ch u. induction fuel as [|fuel IH]; intros j ch u Hld Hc; cbn [copy_string] in Hc; [done|].
  apply bind_Done in Hc as ([i u1] & Hr & Hc). apply read_user_kept in Hr; [|done].
  assert (loads_done (mach u1)) by by eapply kept_loads.
  destruct i as [i|].
  - apply bind_Done in Hc as (ch' & _ & Hc). destruct (u8 i =? 0); [by simplify_eq|].
    etrans; [exact Hr|]. by eapply IH.
  - destruct (gone u1); [by simplify_eq|]. etrans; [exact Hr|]. by eapply IH.
Qed.

Lemma store_buffer_kept n a num buf u x u' :
  loads_done (mach u) → store_buffer be rand is_main n a num buf u = Done (x, u') → kept (mach u) (mach u').
Proof.
  revert num u. induction n as [|n IH]; intros num u Hld Hc; cbn [store_buffer] in Hc; [by simplify_eq|].
  apply bind_Done in Hc as (b & _ & Hc). apply bind_Done in Hc as (u1 & Hw & Hc).
  apply write_user_kept in Hw; [|done]. destruct (_ || _); [by simplify_eq|].
  etrans; [exact Hw|]. eapply IH; [by eapply kept_loads|done].
Qed.

Lemma read_file_kept n a num id buf u x u' :
  loads_done (mach u) → read_file be rand is_main n a num id buf u = Done (x, u') → kept (mach u) (mach u').
Proof.
  revert num buf u. induction n as [|n IH]; intros num buf u Hld Hc; cbn [read_file] in Hc; [by simplify_eq|].
  destruct (read_char _ id) as [[c f]|]; [|done].
  apply bind_Done in Hc as (b & _ & Hc). apply bind_Done in Hc as (u1 & Hw & Hc).
  apply write_user_kept in Hw; [|done]. destruct (_ || _); [by simplify_eq|].
  etrans; [exact Hw|]. eapply IH; [by eapply kept_loads|done].
Qed.

Lemma copy_name_kept room a j name u x u' :
  loads_done (mach u) → copy_name be rand is_main room a j name u = Done (x, u') → kept (mach u) (mach u').
Proof.
  revert a j name u. induction room as [|room IH]; intros a j name u Hld Hc; cbn [copy_name] in Hc; [done|].
  destruct (j =? 0); [by simplify_eq|]. apply bind_Done in Hc as ([i u1] & Hr & Hc).
  apply read_user_kept in Hr; [|done]. destruct i as [i|]; [|by simplify_eq].
  etrans; [exact Hr|]. eapply IH; [by eapply kept_loads|done].
Qed.

(** ** System calls *)

Lemma Write_kept fuel a id u u' :
  loads_done (mach u) → Write be rand is_main fuel a id u = Done u' → kept (mach u) (mach u').
Proof.
  intros Hld Hw. unfold Write in Hw. apply bind_Done in Hw as ([s u1] & Hc & Hw).
  apply copy_string_kept in Hc; [|done]. etrans; [exact Hc|]. apply kept_same.
  unfold SWrite in Hw. by regs_step.
Qed.

Lemma SRead_kept a size id u x u' :
  loads_done (mach u) → SRead be rand is_main a size id u = Done (x, u') → kept (mach u) (mach u').
Proof.
  intros Hld Hs. unfold SRead in Hs. destruct (_ || _); [done|]. destruct (id =? 0).
  - destruct (keyboard u) as [|w ws]; [done|].
    apply bind_Done in Hs as (b1 & _ & Hs). apply bind_Done in Hs as (b2 & _ & Hs).
    apply store_buffer_kept in Hs; [|done]. exact Hs.
  - by apply read_file_kept in Hs.
Qed.

Lemma new_space_regs al fd u sp u' :
  new_space be al fd u = Done (sp, u') → registers (mach u') = registers (mach u).
Proof.
  unfold new_space, AddrSpace. intros Hn.
  apply bind_Done in Hn as (r & _ & Hn). apply bind_Done in Hn as (h & _ & Hn).
  apply bind_Done in Hn as ([sp1 m] & Ha & Hn). injection Hn as <- <-.
  apply bind_Done in Ha as ([] & _ & Ha). apply bind_Done in Ha as (st & _ & Ha).
  apply (f_equal (λ x, match x with Done p => registers p.2 | _ => [] end)) in Ha. symmetry. exact Ha.
Qed.

(** A fault in the kernel's own access to user memory ends the thread or changes nothing
    but the address space. *)
Definition at_most_finish u u' : Prop :=
  threadID u' = threadID u ∧ killNewChild u' = killNewChild u ∧
  (calls u' = calls u ∧ ctl u' = ctl u ∨ calls u' = calls u ++ [Threads.CFinish] ∧ ctl u' = Finishes).

Lemma fault_handler_finish which u u' : fault_handler rand is_main which u = Done u' → at_most_finish u u'.
Proof.
  assert (Hfin : ∀ u u', finish_process u = Done u' → at_most_finish u u').
  { intros u1 u2 Hf. unfold finish_process in Hf. inv_res. subst. split; [done|]. split; [done|]. by right. }
  unfold fault_handler. intros Hf.
  destruct which; inv_res; subst; try (by apply Hfin); split; try done; split; try done; by left.
Qed.

Lemma read_user_finish a u x u' :
  read_user be rand is_main a u = Done (x, u') → at_most_finish u u' ∧ (is_Some x → calls u' = calls u ∧ ctl u' = ctl u).
Proof.
  intros Hr. unfold read_user in Hr. apply bind_Done in Hr as ([[x1 u1] m1] & Hr & Hd). injection Hd as -> <-.
  assert (Hput : ∀ m, at_most_finish u (put_mach u m)) by (intros m; split; [done|]; split; [done|by left]).
  unfold ReadMem in Hr. apply bind_Done in Hr as ([[ex pa] m2] & _ & Hr).
  destruct (decide (ex ≠ NoException)) as [_|_].
  - apply bind_Done in Hr as ([u3 m3] & Hr & Hd). injection Hd as <- <- <-.
    split; [|by intros [? ?]]. unfold RaiseException in Hr. inv_res. subst.
    match goal with H : on_fault _ _ _ _ _ = Done _ |- _ => unfold on_fault in H; inv_res; subst end.
    match goal with H : fault_handler _ _ _ _ = Done _ |- _ => apply fault_handler_finish in H end.
    by simplify_eq.
  - assert (u1 = u ∧ m1 = m2) as [-> ->]; [|split; [apply Hput|done]].
    repeat (inv_res; simplify_eq/=; try case_match; simplify_eq/=; try done).
Qed.

Lemma copy_name_finish room a j name u x u' :
  copy_name be rand is_main room a j name u = Done (x, u') →
  at_most_finish u u' ∧ (is_Some x → calls u' = calls u ∧ ctl u' = ctl u).
Proof.
  assert (Hrefl : ∀ u, at_most_finish u u) by (intros; split; [done|]; split; [done|by left]).
  revert a j name u. induction room as [|room IH]; intros a j name u Hc; cbn [copy_name] in Hc; [done|].
  destruct (j =? 0); [by simplify_eq|]. apply bind_Done in Hc as ([i u1] & Hr & Hc).
  apply read_user_finish in Hr as [Hf Hs]. destruct i as [i|]; [|simplify_eq; split; [done|by intros [? ?]]].
  destruct (Hs ltac:(by eexists)) as [Hcl Hct]. apply IH in Hc as [Hf' Hs'].
  destruct Hf as (H1 & H2 & _). split.
  - destruct Hf' as (H3 & H4 & H5). split; [congruence|]. split; [congruence|].
    rewrite <- Hcl, <- Hct. exact H5.
  - intros Hx. destruct (Hs' Hx). split; congruence.
Qed.

(** What SC_Exec returns, the program having [u] and then [u']. *)
Definition exec_result u u' : Prop :=
  (∃ sp, calls u' = calls u ++ [Threads.CExec sp user_code] ∧ killNewChild u = false ∧
     reg (mach u') 2 = threadID u ∧ threadID u' = s32 (threadID u + 1)) ∨
  (calls u' = calls u ∧ killNewChild u = true ∧ killNewChild u' = false ∧
     reg (mach u') 2 = s32 (-1 * s32 (threadID u + 1)) ∧ threadID u' = threadID u) ∨
  ((calls u' = calls u ∨ calls u' = calls u ++ [Threads.CFinish]) ∧
     reg (mach u') 2 = reg (mach u) 2 ∧ threadID u' = threadID u).

Lemma WriteRegister_2 m x m' : loads_done m → WriteRegister 2 x m = Done m' → m' = set_reg m 2 x.
Proof.
  intros Hld Hw. unfold WriteRegister in Hw. rewrite bind_ASSERT in Hw by done.
  apply bind_Done in Hw as (rs & Hw & Hm). injection Hm as <-. by apply aset_Done in Hw as [_ ->].
Qed.

Lemma set_reg_2 m x r : loads_done m → 0 ≤ r → reg (set_reg m 2 x) r = if r =? 2 then x else reg m r.
Proof.
  intros Hld Hr. destruct (Z.eqb_spec r 2) as [->|Hne].
  - apply Mips.reg_set_reg_eq; [apply Hld|done].
  - apply Mips.reg_set_reg_ne; [done|done|congruence].
Qed.

(** The new process: register 2 and nothing else. *)
Lemma new_process_result al sp u u' :
  loads_done (mach u) → new_process user_code al sp u = Done u' →
  (∀ r, 0 ≤ r → r ≠ 2 → reg (mach u') r = reg (mach u) r) ∧ exec_result u u'.
Proof.
  intros Hld Hn. unfold new_process in Hn. destruct (killNewChild u) eqn:Hk; cbn [negb] in Hn.
  - apply bind_Done in Hn as (m & Hw & Hn). injection Hn as <-. apply WriteRegister_2 in Hw as ->; [|done].
    split; [intros r Hr H2; change (reg (set_reg (mach u) 2 (s32 (-1 * s32 (threadID u + 1)))) r = reg (mach u) r)
           |right; left; repeat split; [done|];
            change (reg (set_reg (mach u) 2 (s32 (-1 * s32 (threadID u + 1)))) 2 = s32 (-1 * s32 (threadID u + 1)))];
      rewrite set_reg_2 by done; [by destruct (Z.eqb_spec r 2)|done].
  - apply bind_Done in Hn as (m & Hw & Hn). injection Hn as <-.
    apply WriteRegister_2 in Hw as ->; [|done].
    split; [intros r Hr H2; change (reg (set_reg (mach u) 2 (threadID u)) r = reg (mach u) r)
           |left; exists sp; repeat split; [done|]; change (reg (set_reg (mach u) 2 (threadID u)) 2 = threadID u)];
      rewrite set_reg_2 by done; [by destruct (Z.eqb_spec r 2)|done].
Qed.

Lemma Exec_result al a u u' :
  loads_done (mach u) → Exec be rand is_main user_code al a u = Done u' →
  (∀ r, 0 ≤ r → r ≠ BadVAddrReg → r ≠ 2 → reg (mach u') r = reg (mach u) r) ∧ exec_result u u'.
Proof.
  intros Hld He. unfold Exec in He. apply bind_Done in He as ([j u1] & Hr & He).
  pose proof (read_user_finish _ _ _ _ Hr) as [Hf1 Hs1].
  apply read_user_kept in Hr; [|done]. assert (Hld1 : loads_done (mach u1)) by by eapply kept_loads.
  apply bind_Done in He as ([j2 u2] & Hr2 & He).
  assert (Hk2 : kept (mach u1) (mach u2)).
  { destruct j; [by simplify_eq|]. destruct (gone u1); [by simplify_eq|]. by eapply read_user_kept. }
  assert (Hld2 : loads_done (mach u2)) by by eapply kept_loads.
  assert (Hf2 : at_most_finish u u2 ∧ (gone u2 = false → calls u2 = calls u)).
  { destruct Hf1 as (H1 & H2 & H3). unfold gone.
    destruct j as [j|]; [simplify_eq; destruct (Hs1 ltac:(by eexists)); split; [|done]; split; [done|]; by split; [|left]|].
    destruct (gone u1) eqn:Hg; [simplify_eq|].
    { split; [by split|]. unfold gone in Hg. rewrite Hg. done. }
    destruct (read_user_finish _ _ _ _ Hr2) as [(H4 & H5 & H6) _].
    destruct H3 as [[H3 H3']|[_ H3']]; [|unfold gone in Hg; rewrite H3' in Hg; by destruct (bool_decide_reflect (Finishes = Returns))].
    split; [split; [congruence|]; split; [congruence|]; rewrite <- H3, <- H3'; exact H6|].
    destruct H6 as [[H6 _]|[_ ->]]; [intros _; congruence|by intros ?%negb_false_iff%bool_decide_eq_true]. }
  destruct Hf2 as [(Ht2 & Hkc2 & Hcc2) Hcl2].
  assert (Hkept : kept (mach u) (mach u2)) by by etrans.
  assert (Hnone : ∀ u', kept (mach u) (mach u') → at_most_finish u u' →
    (∀ r, 0 ≤ r → r ≠ BadVAddrReg → r ≠ 2 → reg (mach u') r = reg (mach u) r) ∧ exec_result u u').
  { intros w Hw (Hw1 & Hw2 & Hw3). split; [intros; by apply Hw|]. right. right.
    split; [destruct Hw3 as [[? _]|[? _]]; auto|]. split; [by apply Hw|done]. }
  destruct (gone u2) eqn:Hg2; [simplify_eq; by apply Hnone|]. destruct j2 as [j2|]; [|done].
  specialize (Hcl2 eq_refl). assert (Hct2 : ctl u2 = Returns) by by apply negb_false_iff, bool_decide_eq_true in Hg2.
  assert (Hct : ctl u2 = ctl u).
  { destruct Hcc2 as [[_ ?]|[Hx _]]; [done|]. rewrite Hcl2 in Hx. apply (f_equal length) in Hx.
    rewrite length_app in Hx. simpl in Hx. lia. }
  apply bind_Done in He as ([nm u3] & Hn & He). pose proof (copy_name_finish _ _ _ _ _ _ _ Hn) as [(H31 & H32 & H33) Hs3].
  apply copy_name_kept in Hn; [|done].
  assert (Hkept3 : kept (mach u) (mach u3)) by by etrans.
  assert (Hf3 : at_most_finish u u3).
  { split; [congruence|]. split; [congruence|]. rewrite <- Hcl2, <- Hct. exact H33. }
  destruct nm as [nm|]; [|simplify_eq; by apply Hnone].
  destruct (Hs3 ltac:(by eexists)) as [Hcl3 _].
  destruct (open_file _ nm) as [fd|]; [|simplify_eq; by apply Hnone].
  apply bind_Done in He as ([sp u4] & Hs & He).
  assert (Hk4 : kept (mach u) (mach u4)).
  { etrans; [exact Hkept3|]. apply kept_same. exact (new_space_regs _ _ _ _ _ Hs). }
  assert (H4 : calls u4 = calls u3 ∧ killNewChild u4 = killNewChild u3 ∧ threadID u4 = threadID u3).
  { unfold new_space in Hs. apply bind_Done in Hs as (r & _ & Hs). apply bind_Done in Hs as (h & _ & Hs).
    apply bind_Done in Hs as ([sp1 m] & _ & Hs). by injection Hs as <- <-. }
  destruct H4 as (H41 & H42 & H43).
  apply new_process_result in He as [Hreg Hres]; [|by eapply kept_loads].
  split; [intros r H1 H2 H3; rewrite Hreg by done; by apply Hk4|].
  unfold exec_result in *. rewrite H41, H42, H43, Hcl3, H31, H32, Hcl2, Ht2, Hkc2 in Hres.
  rewrite (proj2 Hk4 2) in Hres by (unfold BadVAddrReg; lia). exact Hres.
Qed.

Lemma advance_pc_regs m r :
  loads_done m → 0 ≤ r < NumTotalRegs →
  reg (advance_pc m) r =
    if r =? PrevPCReg then reg m PCReg
    else if r =? PCReg then reg m NextPCReg
    else if r =? NextPCReg then s32 (reg m NextPCReg + 4) else reg m r.
Proof.
  intros Hld Hr. unfold advance_pc, PrevPCReg, PCReg, NextPCReg.
  pose proof (ld_length _ Hld) as Hl.
  assert (Hlen : ∀ m' i x, Z.of_nat (length (registers m')) = NumTotalRegs →
    Z.of_nat (length (registers (set_reg m' i x))) = NumTotalRegs).
  { intros m' i x Hm. simpl. by rewrite length_insert. }
  rewrite !(Mips.reg_set_reg_ne _ 34 35), !(Mips.reg_set_reg_ne _ 36 35) by lia.
  destruct (Z.eqb_spec r 36) as [->|H36].
  { rewrite (Mips.reg_set_reg_ne _ 35 36), (Mips.reg_set_reg_ne _ 34 36) by lia. by apply Mips.reg_set_reg_eq. }
  destruct (Z.eqb_spec r 34) as [->|H34].
  { rewrite (Mips.reg_set_reg_ne _ 35 34) by lia. apply Mips.reg_set_reg_eq; [by apply Hlen|done]. }
  destruct (Z.eqb_spec r 35) as [->|H35].
  { apply Mips.reg_set_reg_eq; [by apply Hlen, Hlen|done]. }
  by rewrite !Mips.reg_set_reg_ne by lia.
Qed.

Lemma advance_loads u : loads_done (mach u) → loads_done (mach (put_mach u (advance_pc (mach u)))).
Proof.
  intros Hld. change (loads_done (advance_pc (mach u))). split.
  - unfold advance_pc. simpl. rewrite !length_insert. apply Hld.
  - rewrite advance_pc_regs by done. apply Hld.
  - rewrite advance_pc_regs by done. apply Hld.
  - rewrite advance_pc_regs by done. apply Hld.
Qed.

(** The number of characters SC_Read says it has read. *)
Lemma store_buffer_count n a num buf u x u' :
  store_buffer be rand is_main n a num buf u = Done (x, u') → num ≤ x ≤ num + Z.of_nat n.
Proof.
  revert num u. induction n as [|n IH]; intros num u Hc; cbn [store_buffer] in Hc; [simplify_eq; lia|].
  apply bind_Done in Hc as (b & _ & Hc). apply bind_Done in Hc as (u1 & _ & Hc).
  destruct (_ || _); [simplify_eq; lia|]. apply IH in Hc. lia.
Qed.

Lemma store_buffer_stops n a num buf u x u' k :
  store_buffer be rand is_main n a num buf u = Done (x, u') → 0 ≤ num ≤ k → buf !! Z.to_nat k = Some 0 → x ≤ k.
Proof.
  revert num u. induction n as [|n IH]; intros num u Hc Hk Hz; cbn [store_buffer] in Hc; [simplify_eq; lia|].
  apply bind_Done in Hc as (b & [_ Hb]%aget_Done & Hc). apply bind_Done in Hc as (u1 & _ & Hc).
  destruct (Z.eqb_spec b 0) as [->|Hne]; [rewrite orb_true_r in Hc; simplify_eq; lia|].
  destruct (_ || _); [simplify_eq; lia|]. eapply IH; [done| |done].
  assert (num ≠ k) by (intros ->; congruence). lia.
Qed.

Lemma cstring_stops bs : 0 ∈ bs → bs !! length (cstring bs) = Some 0.
Proof.
  induction bs as [|b bs IH]; intros Hin; [by apply elem_of_nil in Hin|]. cbn [cstring].
  destruct (Z.eqb_spec b 0) as [->|Hne]; [done|]. apply IH. apply elem_of_cons in Hin as [?|?]; [congruence|done].
Qed.

Lemma read_file_count n a num id buf u x u' :
  read_file be rand is_main n a num id buf u = Done (x, u') → num ≤ x ≤ num + Z.of_nat n.
Proof.
  revert num buf u. induction n as [|n IH]; intros num buf u Hc; cbn [read_file] in Hc; [simplify_eq; lia|].
  destruct (read_char _ id) as [[c f]|]; [|done].
  apply bind_Done in Hc as (b & _ & Hc). apply bind_Done in Hc as (u1 & _ & Hc).
  destruct (_ || _); [simplify_eq; lia|]. apply IH in Hc. lia.
Qed.

Lemma SRead_count a size id u x u' :
  SRead be rand is_main a size id u = Done (x, u') → 0 ≤ x ≤ Z.max 0 (size + 1).
Proof.
  unfold SRead. intros Hs. destruct (_ || _); [done|]. destruct (id =? 0).
  - destruct (keyboard u) as [|w ws]; [done|].
    apply bind_Done in Hs as (b1 & Hb1 & Hs). apply bind_Done in Hs as (b2 & [_ ->]%aset_Done & Hs).
    pose proof (store_buffer_count _ _ _ _ _ _ _ Hs) as Hn.
    destruct (size + 1 <? Z.of_nat (length (cstring b1))) eqn:E; simplify_tests; [lia|].
    enough (x ≤ Z.of_nat (length (cstring b1))) by lia.
    eapply store_buffer_stops; [exact Hs|lia|]. rewrite Nat2Z.id, list_lookup_insert_ne by lia.
    apply cstring_stops. apply blit_Done in Hb1 as (_ & _ & ->). rewrite !elem_of_app. set_solver.
  - apply read_file_count in Hs. lia.
Qed.

Lemma Read_result a size id u u' :
  loads_done (mach u) → Read be rand is_main a size id u = Done u' →
  (∀ r, 0 ≤ r → r ≠ BadVAddrReg → r ≠ 2 → reg (mach u') r = reg (mach u) r) ∧
  (gone u' = false → 0 ≤ reg (mach u') 2 ≤ Z.max 0 (size + 1)).
Proof.
  intros Hld Hs. unfold Read in Hs. apply bind_Done in Hs as ([x u1] & Hsr & Hs).
  pose proof (SRead_count _ _ _ _ _ _ Hsr) as Hx. apply SRead_kept in Hsr; [|done].
  destruct (gone u1) eqn:Hg; [simplify_eq; split; [intros; by apply Hsr|congruence]|].
  apply bind_Done in Hs as (m & Hw & Hs). injection Hs as <-.
  assert (Hld1 : loads_done (mach u1)) by by eapply kept_loads. apply WriteRegister_2 in Hw as ->; [|done].
  assert (Hreg : ∀ r, 0 ≤ r → reg (mach (put_mach u1 (set_reg (mach u1) 2 x))) r = if r =? 2 then x else reg (mach u1) r)
    by (intros r Hr; by apply set_reg_2).
  split; [intros r Hr Hb H2; rewrite Hreg, (proj2 (Z.eqb_neq r 2)) by done; by apply Hsr|].
  intros _. by rewrite Hreg.
Qed.

Lemma system_call_Read al fuel arg1 arg2 arg3 u :
  system_call be rand is_main user_code al fuel SC_Read arg1 arg2 arg3 u = Read be rand is_main arg1 arg2 arg3 u.
Proof. reflexivity. Qed.
Lemma system_call_Exec al fuel arg1 arg2 arg3 u :
  system_call be rand is_main user_code al fuel SC_Exec arg1 arg2 arg3 u = Exec be rand is_main user_code al arg1 u.
Proof. reflexivity. Qed.

Lemma system_call_kept al fuel type arg1 arg2 arg3 u u' r :
  loads_done (mach u) →
  system_call be rand is_main user_code al fuel type arg1 arg2 arg3 u = Done u' →
  0 ≤ r → r ≠ BadVAddrReg → (r = 2 → type ≠ SC_Read ∧ type ≠ SC_Exec) → reg (mach u') r = reg (mach u) r.
Proof.
  intros Hld Hs Hr Hb Hrd. unfold system_call in Hs.
  destruct (type =? SC_Halt); [by simplify_eq|].
  destruct (type =? SC_Read) eqn:E; simplify_tests.
  { apply Read_result in Hs as [Hs _]; [|done]. apply Hs; [done|done|]. intros ->. by destruct Hrd. }
  destruct (type =? SC_Write); [apply Write_kept in Hs; [by apply Hs|done]|].
  destruct (type =? SC_Exec) eqn:E2; simplify_tests.
  { apply Exec_result in Hs as [Hs _]; [|done]. apply Hs; [done|done|]. intros ->. by destruct Hrd. }
  destruct (type =? SC_Join); [by simplify_eq|].
  destruct (type =? SC_Exit); [apply finish_process_regs in Hs; unfold reg; by rewrite Hs|].
  destruct (type =? SC_Yield); by simplify_eq.
Qed.


End regs.

(** * Strings in user memory *)

(** The [n] bytes from [a] are mapped to writable memory, and [a + n] does not overflow. *)
Definition resident (m : Machine.t) (a : Z) (n : nat) : Prop :=
  0 ≤ a ∧ a + Z.of_nat n ≤ INT_MAX ∧
  ∀ k, 0 ≤ k < Z.of_nat n → ∃ f, mapped m (u32 (a + k) / PageSize) = Some (f, false).

Record mem_ok (m : Machine.t) : Prop := {
  mk_wf : wf m;
  mk_mmu : mmu_ok m;
  mk_distinct : frames_distinct m
}.

Section strings.
Context {B F L : Type} `{!BitmapLike B} `{!HostFiles F} `{!HostCalls F} `{!FreshMemory}.
Context (be : bool) (rand : nat → Z) (is_main : Z → bool).
Abbreviation ust := (Syscall.t (B := B) (F := F) (L := L)).
Implicit Types u : ust.

(** What stays the same: [u'] differs from [u] in the machine only, and the machines
    map the same pages and have the same registers. *)
Record same_user u u' : Prop := {
  su_mem : mem_ok (mach u');
  su_mapped : ∀ vpn, vpn_ok vpn → mapped (mach u') vpn = mapped (mach u) vpn;
  su_regs : registers (mach u') = registers (mach u);
  su_rest : u' = put_mach u (mach u')
}.

Lemma same_user_refl u : mem_ok (mach u) → same_user u u.
Proof. intros Hm. split; try done. destruct u as [v]. by destruct v. Qed.

Lemma same_user_trans u1 u2 u3 : same_user u1 u2 → same_user u2 u3 → same_user u1 u3.
Proof.
  intros [_ Hp1 Hr1 H1] [Hm2 Hp2 Hr2 H2]. split; [done| | |].
  - intros vpn Hv. by rewrite Hp2, Hp1.
  - congruence.
  - rewrite H2. by rewrite H1.
Qed.

Lemma same_user_mem u u' : same_user u u' → mem_ok (mach u').
Proof. apply su_mem. Qed.

Lemma resident_same u u' a n : same_user u u' → resident (mach u) a n → resident (mach u') a n.
Proof.
  intros Hs (Ha & Hn & Hk). split; [done|]. split; [done|]. intros k Hkn.
  rewrite (su_mapped _ _ Hs) by apply vpage_ok. by apply Hk.
Qed.

Lemma u32_address a k n : 0 ≤ a → a + Z.of_nat n ≤ INT_MAX → 0 ≤ k < Z.of_nat n → u32 (s32 (a + k)) = a + k.
Proof. intros. rewrite u32_s32. apply u32_id. int_lia. Qed.

Lemma byte_aligned va : Translate_align va 1 = false.
Proof. done. Qed.

(** One byte. *)
Lemma read_user_ok u a n k b :
  mem_ok (mach u) → resident (mach u) a n → 0 ≤ k < Z.of_nat n → view (mach u) (a + k) = Some b → is_byte b →
  ∃ i u', read_user be rand is_main (s32 (a + k)) u = Done (Some i, u') ∧ u8 i = b ∧ same_user u u' ∧
    ∀ x, view (mach u') x = view (mach u) x.
Proof.
  intros [Hwf Hmmu Hd] (Ha & Hn & Hres) Hk Hv Hb. destruct (Hres k Hk) as [f Hf].
  pose proof (u32_address a k n Ha Hn Hk) as Hu.
  assert (Hu' : u32 (a + k) = a + k) by by rewrite <- u32_s32. rewrite Hu' in Hf.
  destruct (ReadMem_spec be set_mode (on_fault rand is_main) u (mach u) (s32 (a + k)) 1 f false)
    as (m' & Hr & Hwf' & Hm' & Hrg & Hmem & Hsame); [done..|by rewrite Hu|].
  unfold read_user. rewrite Hr. cbn [mbind res_bind]. do 2 eexists. split; [done|]. split.
  { rewrite Hu. unfold load_value, bytes_at. simpl.
    change (Z.of_nat 0 + (a + k)) with (0 + (a + k)). rewrite Z.add_0_l, Hv. simpl. unfold is_byte in Hb. int_lia. }
  split; [|by apply view_ext].
  split; [|done|done|done]. split; [done|done|]. by eapply frames_distinct_same.
Qed.

Lemma write_user_ok u a n k b :
  mem_ok (mach u) → resident (mach u) a n → 0 ≤ k < Z.of_nat n → is_byte b →
  ∃ u', write_user be rand is_main (s32 (a + k)) (s8 b) u = Done u' ∧ same_user u u' ∧
    ∀ x, view (mach u') x = if decide (x = a + k) then Some b else view (mach u) x.
Proof.
  intros [Hwf Hmmu Hd] (Ha & Hn & Hres) Hk Hb. destruct (Hres k Hk) as [f Hf].
  pose proof (u32_address a k n Ha Hn Hk) as Hu.
  assert (Hu' : u32 (a + k) = a + k) by by rewrite <- u32_s32. rewrite Hu' in Hf.
  destruct (WriteMem_spec be set_mode (on_fault rand is_main) u (mach u) (s32 (a + k)) 1 (s8 b) f)
    as (m' & Hw & Hwf' & Hm' & Hrg & Hv & Hsame); [done..|by rewrite Hu|].
  unfold write_user. rewrite Hw. cbn [mbind res_bind]. eexists. split; [done|]. split.
  - split; [|done|done|done]. split; [done|done|]. by eapply frames_distinct_same.
  - intros x. change (mach (put_mach u m')) with m'. rewrite Hv, Hu. unfold fwrite.
    change (bytes_of (Z.to_nat 1) (s8 b)) with [s8 b mod 256]. simpl length.
    destruct (decide (x = a + k)) as [->|Hne].
    + rewrite decide_True by lia. rewrite Z.sub_diag. simpl. f_equal. unfold is_byte in Hb. int_lia.
    + by rewrite decide_False by lia.
Qed.

(** The bytes [bs] from [a] on. *)
Definition holds (m : Machine.t) (a : Z) (bs : list Z) : Prop :=
  ∀ k b, bs !! k = Some b → view m (a + Z.of_nat k) = Some b.

Definition text (bs : list Z) : Prop := Forall (λ b, 0 < b < 256) bs.

Lemma gone_same u u' : same_user u u' → gone u' = gone u.
Proof. intros Hs. by rewrite (su_rest _ _ Hs). Qed.

(** Storing a string with its terminating 0, from position [num] on. *)
Lemma store_buffer_ok n0 n a num buf bs u :
  mem_ok (mach u) → resident (mach u) a n0 → gone u = false → text bs → 0 ≤ num →
  num + Z.of_nat (length bs) < Z.of_nat n0 → (length bs < n)%nat →
  (∀ k b, (bs ++ [0]) !! k = Some b → buf !! (Z.to_nat num + k)%nat = Some b) →
  ∃ u', store_buffer be rand is_main n a num buf u = Done (num + Z.of_nat (length bs), u') ∧ same_user u u' ∧
    holds (mach u') (a + num) (bs ++ [0]) ∧
    ∀ x, x < a + num ∨ a + num + Z.of_nat (length bs) < x → view (mach u') x = view (mach u) x.
Proof.
  revert num n u. induction bs as [|b bs IH]; intros num n u Hm Hres Hg Ht Hn0 Hn Hlt Hbuf;
    (destruct n as [|n]; [simpl in Hlt; lia|]); cbn [store_buffer].
  - rewrite (aget_Some _ _ 0); [|done|by rewrite <- (Hbuf 0%nat 0), Nat.add_0_r]. cbn [mbind res_bind].
    destruct (write_user_ok u a n0 num 0) as (u' & -> & Hs & Hv); [done|done|simpl in *; lia|done|].
    cbn [mbind res_bind]. rewrite orb_true_r. exists u'. simpl. rewrite Z.add_0_r. split; [done|]. split; [done|].
    split.
    + intros [|k] b Hk; [|done]. injection Hk as <-. simpl. by rewrite Z.add_0_r, Hv, decide_True.
    + intros x Hx. rewrite Hv, decide_False by lia. done.
  - apply Forall_cons in Ht as [Hb Ht]. simpl length in *.
    rewrite (aget_Some _ _ b); [|done|by rewrite <- (Hbuf 0%nat b), Nat.add_0_r]. cbn [mbind res_bind].
    destruct (write_user_ok u a n0 num b) as (u1 & -> & Hs & Hv); [done|done|lia|unfold is_byte; lia|].
    cbn [mbind res_bind]. rewrite (gone_same _ _ Hs), Hg.
    assert (Hb0 : (b =? 0) = false) by (apply Z.eqb_neq; lia). rewrite Hb0. cbn [orb].
    destruct (IH (num + 1) n u1) as (u' & -> & Hs' & Hh & Ho); [|..|done|lia|lia|lia| |].
    { by apply su_mem in Hs. }
    { by eapply resident_same. }
    { by rewrite (gone_same _ _ Hs). }
    { intros k c Hk. rewrite <- (Hbuf (S k) c Hk). f_equal. lia. }
    exists u'. split; [do 2 f_equal; lia|]. split; [by eapply same_user_trans|]. split.
    + intros [|k] c Hk.
      * injection Hk as <-. rewrite Ho by lia. simpl. rewrite Hv, decide_True by lia. done.
      * rewrite <- (Hh k c Hk). f_equal. lia.
    + intros x Hx. rewrite Ho, Hv, decide_False by lia. done.
Qed.

(** Copying a string that ends with a 0 into the kernel's buffer. *)
Lemma copy_string_ok n0 fuel a j ch pre bs u :
  mem_ok (mach u) → resident (mach u) a n0 → text bs → j = Z.of_nat (length pre) →
  j + Z.of_nat (length bs) < Z.of_nat n0 → holds (mach u) (a + j) (bs ++ [0]) →
  (length bs < fuel)%nat → take (length pre) ch = pre → j + Z.of_nat (length bs) < Z.of_nat (length ch) →
  ∃ u', copy_string be rand is_main fuel a j ch u = Done (Some (pre ++ bs), u') ∧ same_user u u'.
Proof.
  revert j fuel pre ch u. induction bs as [|b bs IH]; intros j fuel pre ch u Hm Hres Ht Hj Hn Hh Hlt Hch Hl;
    (destruct fuel as [|fuel]; [simpl in Hlt; lia|]); cbn [copy_string].
  - destruct (read_user_ok u a n0 j 0) as (i & u' & -> & Hi & Hs & _); [done|done|simpl in *; lia| |done|].
    { rewrite <- (Hh 0%nat 0); [|done]. f_equal. simpl. lia. }
    cbn [mbind res_bind]. rewrite Hi. rewrite aset_in_range by (simpl in *; lia). cbn [mbind res_bind].
    exists u'. split; [|done]. rewrite Z.eqb_refl, app_nil_r. do 3 f_equal.
    rewrite take_insert_ge by lia. by rewrite Hj, Nat2Z.id.
  - apply Forall_cons in Ht as [Hb Ht]. simpl length in *.
    destruct (read_user_ok u a n0 j b) as (i & u1 & -> & Hi & Hs & Hv); [done|done|lia| |unfold is_byte; lia|].
    { rewrite <- (Hh 0%nat b); [|done]. f_equal. simpl. lia. }
    cbn [mbind res_bind]. rewrite Hi. rewrite aset_in_range by lia. cbn [mbind res_bind].
    assert (Hb0 : (b =? 0) = false) by (apply Z.eqb_neq; lia). rewrite Hb0.
    destruct (IH (j + 1) fuel (pre ++ [b]) (<[Z.to_nat j := b]> ch) u1) as (u' & -> & Hs'); [|..|done| | | |lia| | |].
    { by apply su_mem in Hs. }
    { by eapply resident_same. }
    { rewrite length_app. simpl. lia. }
    { lia. }
    { intros k c Hk. rewrite Hv, <- (Hh (S k) c Hk). f_equal. lia. }
    { rewrite length_app. simpl. rewrite Nat.add_1_r, Hj, Nat2Z.id.
      rewrite (take_S_r _ _ b) by (apply list_lookup_insert_eq; lia). rewrite take_insert_ge by lia. by rewrite Hch. }
    { rewrite length_insert. lia. }
    exists u'. split; [by rewrite <- app_assoc|by eapply same_user_trans].
Qed.

Lemma cstring_text (w rest : list Z) : text w → cstring (w ++ 0 :: rest) = w.
Proof.
  induction 1 as [|b w Hb Hw IH]; simpl; [done|].
  assert (Hb0 : (b =? 0) = false) by (apply Z.eqb_neq; lia). by rewrite Hb0, IH.
Qed.

(** SC_Read from the keyboard. *)
Lemma Read_ok u a size w ws :
  mem_ok (mach u) → gone u = false → keyboard u = w :: ws → text w → Z.of_nat (length w) ≤ size + 1 →
  size + 10 ≤ INT_MAX → resident (mach u) a (S (length w)) →
  ∃ u', Read be rand is_main a size 0 u = Done u' ∧ mem_ok (mach u') ∧ gone u' = false ∧
    keyboard u' = ws ∧ terminal u' = terminal u ∧ reg (mach u') 2 = Z.of_nat (length w) ∧
    (∀ vpn, vpn_ok vpn → mapped (mach u') vpn = mapped (mach u) vpn) ∧
    holds (mach u') a (w ++ [0]) ∧
    ∀ x, x < a ∨ a + Z.of_nat (length w) < x → view (mach u') x = view (mach u) x.
Proof.
  intros Hm Hg Hkb Ht Hlen Hsz Hres. unfold Read, SRead. rewrite Hkb.
  assert (Hc : (size + 10 <=? 0) || (INT_MAX <? size + 10) = false)
    by (apply orb_false_iff; rewrite Z.leb_gt, Z.ltb_ge; lia). rewrite Hc. cbn [Z.eqb].
  assert (Hfr : length (fresh_bytes (size + 10)) = Z.to_nat (size + 10)) by (apply fresh_length; lia).
  rewrite blit_in_range by (rewrite ?length_app; simpl; lia). cbn [mbind res_bind].
  change (take (Z.to_nat 0) (fresh_bytes (size + 10))) with (@nil Z). cbn [app].
  set (rest := drop _ _). rewrite <- app_assoc. cbn [app]. rewrite cstring_text by done.
  assert (Hlt : (size + 1 <? Z.of_nat (length w)) = false) by (apply Z.ltb_ge; lia). rewrite Hlt.
  assert (Hrl : length rest = (Z.to_nat (size + 10) - length w - 1)%nat).
  { unfold rest. rewrite length_drop, length_app, Hfr. simpl. lia. }
  rewrite aset_in_range by (rewrite length_app; simpl; lia). cbn [mbind res_bind].
  set (buf := <[_ := 0]> _).
  destruct (store_buffer_ok (S (length w)) (Z.to_nat (Z.of_nat (length w) + 1)) a 0 buf w (set_keyboard u ws))
    as (u1 & -> & Hs & Hh & Ho); [done|done|done|done|lia|lia|lia| |].
  { intros k b Hk. simpl. unfold buf. pose proof (lookup_lt_Some _ _ _ Hk) as Hkl. rewrite length_app in Hkl.
    simpl in Hkl. rewrite list_lookup_insert_ne by lia.
    change (w ++ 0 :: rest) with (w ++ [0] ++ rest). rewrite app_assoc, lookup_app_l by (rewrite length_app; simpl; lia).
    done. }
  cbn [mbind res_bind]. rewrite (gone_same _ _ Hs). change (gone (set_keyboard u ws)) with (gone u). rewrite Hg.
  pose proof (su_mem _ _ Hs) as [Hwf Hmmu Hd]. pose proof (wf_regs_length _ Hwf) as Hrg.
  unfold WriteRegister. rewrite bind_ASSERT by done. rewrite aset_in_range by (rewrite Hrg; done).
  cbn [mbind res_bind]. eexists. split; [done|].
  change (set_registers (mach u1) (<[Z.to_nat 2 := 0 + Z.of_nat (length w)]> (registers (mach u1))))
    with (set_reg (mach u1) 2 (0 + Z.of_nat (length w))).
  set (m' := set_reg _ _ _). change (mach (put_mach u1 m')) with m'.
  split; [|split; [|split; [|split; [|split; [|split; [|split]]]]]].
  - split; [|by apply Mips.mmu_set_registers|exact Hd].
    apply Mips.wf_set_reg; [done|done|done|]. unfold_int. lia.
  - rewrite <- Hg. by rewrite (su_rest _ _ Hs).
  - by rewrite (su_rest _ _ Hs).
  - by rewrite (su_rest _ _ Hs).
  - apply Mips.reg_set_reg_eq; done.
  - intros vpn Hv. exact (su_mapped _ _ Hs vpn Hv).
  - rewrite Z.add_0_r in Hh. exact Hh.
  - intros x Hx. apply Ho. lia.
Qed.

Lemma SWrite_terminal u (s : list Z) : SWrite s 1 u = Done (set_terminal u (terminal u ++ s)).
Proof. done. Qed.

(** C33: A word typed at the keyboard comes back unchanged.  If the word and its
    terminating 0 fit in the size bytes of the program's buffer, SC_Read puts exactly
    them there, touching no other byte, and returns the length of the word; SC_Write of
    that memory prints exactly the word, if it has fewer than the 500 characters of the
    kernel's buffer.  Both calls return, provided the program's memory there is resident
    and writable. *)
Theorem read_write_roundtrip fuel u a size w ws :
  mem_ok (mach u) → gone u = false → keyboard u = w :: ws → text w → w ≠ [] →
  Z.of_nat (length w) < size → size + 10 ≤ INT_MAX → (length w < 500)%nat → (length w < fuel)%nat →
  resident (mach u) a (S (length w)) →
  ∃ u1 u2, Read be rand is_main a size 0 u = Done u1 ∧
    reg (mach u1) 2 = Z.of_nat (length w) ∧ keyboard u1 = ws ∧
    holds (mach u1) a (w ++ [0]) ∧
    (∀ x, x < a ∨ a + Z.of_nat (length w) < x → view (mach u1) x = view (mach u) x) ∧
    Write be rand is_main fuel a 1 u1 = Done u2 ∧ terminal u2 = terminal u ++ w.
Proof.
  intros Hm Hg Hkb Ht Hne Hlen Hsz H5 Hf Hres.
  destruct (Read_ok u a size w ws) as (u1 & Hr & Hm1 & Hg1 & Hk1 & Ht1 & Hr2 & Hmap & Hh & Ho); [try done; lia..|].
  assert (Hres1 : resident (mach u1) a (S (length w))).
  { destruct Hres as (Ha & Hn & Hk). split; [done|]. split; [done|]. intros k Hkn.
    rewrite Hmap by apply vpage_ok. by apply Hk. }
  assert (Hfr : length (fresh_bytes 500) = 500%nat) by (by rewrite fresh_length).
  destruct (copy_string_ok (S (length w)) fuel a 0 (fresh_bytes 500) [] w u1) as (u2 & Hc & Hs); try done.
  { lia. }
  { by rewrite Z.add_0_r. }
  { rewrite Hfr. lia. }
  exists u1. eexists. do 5 (split; [done|]). unfold Write. rewrite Hc. cbn [mbind res_bind app].
  destruct w as [|b w]; [done|]. simpl Nat.eqb. rewrite SWrite_terminal. split; [done|].
  simpl. rewrite (su_rest _ _ Hs). simpl. by rewrite Ht1.
Qed.

End strings.
End SyscallSpec.

(** * Programs that make system calls *)
Module SyscallDemo.
Import Machine AddrSpace FlatMemory Paging Syscall SyscallSpec.

#[local] Instance memory : FreshMemory.
Proof.
  refine {| fresh_bytes z := replicate (Z.to_nat z) 170 |}.
  - intros z _. apply length_replicate.
  - intros z. apply Forall_replicate. unfold is_byte. lia.
Defined.

(** No file can be opened. *)
#[local] Instance no_calls : HostCalls mem_files :=
  {| open_file _ _ := None; read_char _ _ := None; write_chars _ _ _ := None |}.

Definition al : allocs := mkAl 9 90 91 92 [] 0.

Abbreviation handler which u := (ExceptionHandler false (λ _, 0) (λ _, false) () al 1000 which u).

Definition user (v : @AddrSpace.vm BitMap.t mem_files) (words : list (list Z)) : Syscall.t (L := ()) :=
  mk v UserMode [] words [] Returns 1 false.

Definition with_regs (v : @AddrSpace.vm BitMap.t mem_files) (rs : list Z) : @AddrSpace.vm BitMap.t mem_files :=
  AddrSpace.set_machine v (set_registers (AddrSpace.machine v) rs).

(** The process of Paging.v, about to make the given system call at address 4. *)
Definition regs (type arg1 arg2 arg3 : Z) : list Z :=
  <[35%nat := 8]> (<[34%nat := 4]> (<[6%nat := arg3]> (<[5%nat := arg2]> (<[4%nat := arg1]>
    (<[2%nat := type]> (replicate 40 0)))))).

Definition calling (type arg1 arg2 arg3 : Z) (words : list (list Z)) : Syscall.t (L := ()) :=
  user (with_regs demo_vm (regs type arg1 arg2 arg3)) words.


(** The machine of Machine.v, whose page 0 is resident and writable. *)
Definition flat_vm : @AddrSpace.vm BitMap.t mem_files := AddrSpace.set_machine demo_vm FlatMemory.demo.

Lemma read_write_roundtrip_witness :
  ∃ u1 u2, Read false (λ _, 0) (λ _, false) 16 8 0 (user flat_vm [[104; 105]; [120]]) = Done u1 ∧
    reg (mach u1) 2 = 2 ∧ Write false (λ _, 0) (λ _, false) 1000 16 1 u1 = Done u2 ∧ terminal u2 = [104; 105].
Proof.
  destruct (read_write_roundtrip false (λ _, 0) (λ _, false) 1000 (user flat_vm [[104; 105]; [120]])
    16 8 [104; 105] [[120]]) as (u1 & u2 & H1 & H2 & _ & _ & _ & H6 & H7).
  - split; [exact demo_wf|exact demo_mmu|exact demo_distinct].
  - reflexivity.
  - reflexivity.
  - repeat constructor; lia.
  - discriminate.
  - simpl. lia.
  - unfold INT_MAX. lia.
  - simpl. lia.
  - simpl. lia.
  - split; [lia|]. split; [unfold INT_MAX; simpl; lia|]. intros k Hk. simpl in Hk.
    assert (k = 0 ∨ k = 1 ∨ k = 2) as [->|[->| ->]] by lia; exists 3; apply demo_mapped.
  - exists u1, u2. split; [exact H1|]. split; [exact H2|]. split; [exact H6|exact H7].
Defined.

(** ** What goes wrong *)

(** SC_Read does not look at the result of WriteMem: the word "ab" read into a page
    that is not in memory loses its first character, and SC_Write prints the byte of
    the executable instead. *)
Lemma read_loses_first_character :
  (u ← Read false (λ _, 0) (λ _, false) 0 8 0 (calling SC_Read 0 8 0 [[97; 98]]);
   u ← Write false (λ _, 0) (λ _, false) 1000 0 1 u; Done (terminal u)) = Done [40; 98].
Proof. vm_compute. reflexivity. Qed.

(** A word that does not fit is stored all the same, up to one character more than asked
    for, with a 0 behind it: of a buffer of 2 bytes at 16, SC_Read of "abc" overwrites the
    two bytes that follow. *)
Lemma read_writes_past_size :
  (u ← Read false (λ _, 0) (λ _, false) 16 2 0 (user flat_vm [[97; 98; 99]]);
   Done (reg (mach u) 2, (λ a, view (mach u) a) <$> [16; 17; 18; 19])) =
    Done (3, [Some 97; Some 98; Some 99; Some 0]).
Proof. vm_compute. reflexivity. Qed.

(** SC_Exec of a file that does not exist returns the number of the system call as
    the new process. *)
Lemma failed_exec_returns_two :
  (u ← handler SyscallException (calling SC_Exec 210 0 0 []); Done (reg (mach u) 2, calls u)) = Done (2, []).
Proof. vm_compute. reflexivity. Qed.

End SyscallDemo.
