(* ===== verification/Console.v ===== *)
(** Console: the console device of src/code/machine/console.{h,cc} and its test,
    ConsoleTest of src/code/userprog/progtest.cc, which echoes what is typed.

    The UNIX files behind the keyboard and the display are a parameter ([Terminals]).
    The test's two semaphores are their values; its loop is cut at the two calls of
    [P].  A [char] is signed, EOF is -1. *)

From S2P Require Import Prelude Lists Machine Interrupt.

(** What has been typed on a file and not been read, and what has been written to it. *)
Class Terminals (F : Type) : Type := {
  tty_input : F → Z → list Z;
  tty_output : F → Z → list Z;
  tty_type : F → Z → Z → F;
  tty_poll : F → Z → bool;
  tty_read : F → Z → option (Z * F);
  tty_write : F → Z → Z → option F;
  tty_type_spec : ∀ f fd c, tty_input (tty_type f fd c) fd = tty_input f fd ++ [c];
  tty_type_output : ∀ f fd c fd', tty_output (tty_type f fd c) fd' = tty_output f fd';
  tty_poll_spec : ∀ f fd, tty_poll f fd = negb (bool_decide (tty_input f fd = []));
  tty_read_spec : ∀ f fd c cs, tty_input f fd = c :: cs →
    ∃ f', tty_read f fd = Some (c, f') ∧ tty_input f' fd = cs ∧ ∀ fd', tty_output f' fd' = tty_output f fd';
  tty_write_spec : ∀ f fd c, ∃ f', tty_write f fd c = Some f' ∧
    tty_output f' fd = tty_output f fd ++ [c] ∧ ∀ fd', tty_input f' fd' = tty_input f fd'
}.

Module Console.
Import Interrupt.

Definition EOF : Z := -1.

Record t : Type := mk {
  readFileNo : Z;
  writeFileNo : Z;
  putBusy : bool;
  incoming : Z
}.

Definition set_putBusy (c : t) x : t := mk (readFileNo c) (writeFileNo c) x (incoming c).
Definition set_incoming (c : t) x : t := mk (readFileNo c) (writeFileNo c) (putBusy c) x.

Section device.
Context {H D F : Type} `{!Terminals F}.
Context (console : D → t) (put_console : t → D → D) (files : D → F) (put_files : F → D → D).
Context (ConsoleReadPoll ConsoleWriteDone : H).
Context (readHandler writeHandler : sys H D → res (sys H D)).
Implicit Types s : sys H D.

(** [readFile] and [writeFile] are the descriptors the two files were opened with;
    [None] is NULL. *)
Definition Console (readFile writeFile : option Z) s : res (sys H D) :=
  let c := mk (default 0 readFile) (default 1 writeFile) false EOF in
  Schedule ConsoleReadPoll Statistics.ConsoleTime ConsoleReadInt (set_dev s (put_console c (dev s))).

Definition CheckCharAvail s : res (sys H D) :=
  s ← Schedule ConsoleReadPoll Statistics.ConsoleTime ConsoleReadInt s;
  let c := console (dev s) in
  if negb (incoming c =? EOF) || negb (tty_poll (files (dev s)) (readFileNo c)) then Done s
  else
    match tty_read (files (dev s)) (readFileNo c) with
    | None => Assert
    | Some (ch, f) =>
        let s := set_dev s (put_files f (put_console (set_incoming c (s8 ch)) (dev s))) in
        readHandler (set_stats s (Statistics.char_read (stats s)))
    end.

Definition WriteDone s : res (sys H D) :=
  let s := set_dev s (put_console (set_putBusy (console (dev s)) false) (dev s)) in
  writeHandler (set_stats s (Statistics.char_written (stats s))).

Definition GetChar s : Z * sys H D :=
  let c := console (dev s) in
  (incoming c, set_dev s (put_console (set_incoming c EOF) (dev s))).

Definition PutChar (ch : Z) s : res (sys H D) :=
  let c := console (dev s) in
  ASSERT (negb (putBusy c));;
  match tty_write (files (dev s)) (writeFileNo c) (u8 ch) with
  | None => Assert
  | Some f =>
      let s := set_dev s (put_files f (put_console (set_putBusy c true) (dev s))) in
      Schedule ConsoleWriteDone Statistics.ConsoleTime ConsoleWriteInt s
  end.

End device.
End Console.

(** * ConsoleTest *)
Module ConsoleTest.
Import Interrupt Console.

(** Before [readAvail->P()], behind it, before [writeDone->P()], returned. *)
Inductive place : Type := AtRead | Got | AtWrite (ch : Z) | Returned.

Section test.
Context {F : Type} `{!Terminals F}.

Record t : Type := mk {
  console : Console.t;
  files : F;
  readAvail : Z;
  writeDone : Z;
  pc : place
}.

Definition put_console x (d : t) : t := mk x (files d) (readAvail d) (writeDone d) (pc d).
Definition put_files x (d : t) : t := mk (console d) x (readAvail d) (writeDone d) (pc d).
Definition set_readAvail (d : t) x : t := mk (console d) (files d) x (writeDone d) (pc d).
Definition set_writeDone (d : t) x : t := mk (console d) (files d) (readAvail d) x (pc d).
Definition set_pc (d : t) x : t := mk (console d) (files d) (readAvail d) (writeDone d) x.

Inductive handlers : Type := ConsoleReadPoll | ConsoleWriteDone.
Abbreviation state := (sys handlers t).
Implicit Types s : state.

(** [Semaphore::V] in an interrupt handler. *)
Definition V (f : t → t) s : res state :=
  '(s, oldLevel, _) ← SetLevel_enter IntOff s;
  '(s, _, _) ← SetLevel_enter oldLevel (set_dev s (f (dev s)));
  Done s.

Definition ReadAvail s : res state := V (λ d, set_readAvail d (s32 (readAvail d + 1))) s.
Definition WriteDone s : res state := V (λ d, set_writeDone d (s32 (writeDone d + 1))) s.

Definition call (h : handlers) s : res state :=
  match h with
  | ConsoleReadPoll => CheckCharAvail console put_console files put_files ConsoleReadPoll ReadAvail s
  | ConsoleWriteDone => Console.WriteDone console put_console WriteDone s
  end.

(** The beginning of ConsoleTest. *)
Definition start (inp out : option Z) (f : F) (c0 : Console.t) (s : sys handlers ()) : res state :=
  Console.Console put_console ConsoleReadPoll inp out
    (mkSys (intr s) (stats s) (mk c0 f 0 0 AtRead)).

(** The loop, up to the next call of [P]. *)
Definition turn s : res state :=
  let d := dev s in
  match pc d with
  | AtRead =>
      if readAvail d =? 0 then Blocks
      else Done (set_dev s (set_pc (set_readAvail d (s32 (readAvail d - 1))) Got))
  | Got =>
      let '(ch, s) := GetChar console put_console s in
      s ← PutChar console put_console files put_files ConsoleWriteDone ch s;
      Done (set_dev s (set_pc (dev s) (AtWrite ch)))
  | AtWrite ch =>
      if writeDone d =? 0 then Blocks
      else
        let d := set_writeDone d (s32 (writeDone d - 1)) in
        Done (set_dev s (set_pc d (if ch =? 113 then Returned else AtRead)))
  | Returned => Done s
  end.

(** ** What can happen, in any order *)

Inductive event : Type :=
| EType (c : Z)                                  (* a key is pressed *)
| EHandler (h : handlers)                        (* an interrupt of the console *)
| ETurn                                          (* the test runs *)
| EOther (i : Interrupt.t handlers) (st : Statistics.t).  (* the rest of the machine *)

Definition exec (e : event) s : res state :=
  match e with
  | EType c => Done (set_dev s (put_files (tty_type (files (dev s)) (readFileNo (console (dev s))) c) (dev s)))
  | EHandler h => call h s
  | ETurn => turn s
  | EOther i st => Done (mkSys i st (dev s))
  end.

(** Interrupt handlers run with interrupts off; the write interrupt comes only while a
    character is being written; the clock has not run out of its 31 bits.  A key is
    not 0xFF, which as a [char] is EOF. *)
Definition enabled (e : event) s : Prop :=
  match e with
  | EType c => is_byte c ∧ c ≠ 255
  | EHandler h =>
      level (intr s) = IntOff ∧ 0 ≤ totalTicks s ∧ totalTicks s + 100 ≤ INT_MAX ∧
      (h = ConsoleWriteDone → putBusy (console (dev s)) = true)
  | ETurn => 0 ≤ totalTicks s ∧ totalTicks s + 100 ≤ INT_MAX
  | EOther _ _ => True
  end.

Definition typed_by (e : event) : list Z := match e with EType c => [c] | _ => [] end.

(** A state after typing the given keys. *)
Inductive reach (s0 : state) : list Z → state → Prop :=
| reach_start : reach s0 [] s0
| reach_step ks s e s' :
    reach s0 ks s → enabled e s → exec e s = Done s' → reach s0 (ks ++ typed_by e) s'.

(** ** The invariant *)

(** The character in the device. *)
Definition held (c : Console.t) : list Z := if incoming c =? EOF then [] else [u8 (incoming c)].

Definition shown (d : t) : list Z := tty_output (files d) (writeFileNo (console d)).
Definition unread (d : t) : list Z := tty_input (files d) (readFileNo (console d)).

(** A 'q' is the last character that is echoed: the test returns, or is about to. *)
Definition q_last (p : place) (out : list Z) : Prop :=
  match p with
  | AtRead | Got => 113 ∉ out
  | AtWrite ch => ∃ out', out = out' ++ [u8 ch] ∧ 113 ∉ out'
  | Returned => ∃ out', out = out' ++ [113] ∧ 113 ∉ out'
  end.

Record ok (out0 ks : list Z) (d : t) : Prop := {
  ok_keys : Forall (λ c, is_byte c ∧ c ≠ 255) (unread d);
  ok_order : ∃ out, shown d = out0 ++ out ∧ ks = out ++ held (console d) ++ unread d ∧ q_last (pc d) out;
  ok_read : (incoming (console d) = EOF ∧ readAvail d = 0 ∧ pc d ≠ Got) ∨
            (incoming (console d) ≠ EOF ∧ is_byte (u8 (incoming (console d))) ∧
             (readAvail d = 1 ∧ pc d ≠ Got ∨ readAvail d = 0 ∧ pc d = Got));
  ok_write : match pc d with
             | AtWrite ch => is_byte (u8 ch) ∧ -128 ≤ ch < 128 ∧
                 (putBusy (console d) = true ∧ writeDone d = 0 ∨ putBusy (console d) = false ∧ writeDone d = 1)
             | _ => putBusy (console d) = false ∧ writeDone d = 0
             end;
  ok_char : -128 ≤ incoming (console d) < 128
}.

Lemma console_V_off f s :
  level (intr s) = IntOff → ∃ s', V f s = Done s' ∧ intr s' = intr s ∧ stats s' = stats s ∧ dev s' = f (dev s).
Proof.
  intros Hl. unfold V, SetLevel_enter. rewrite bind_ASSERT by done. cbn [mbind res_bind].
  rewrite Hl, bind_ASSERT by done. eexists. split; [done|]. split; [|done].
  destruct s as [[lv] st d]. simpl in *. by rewrite Hl.
Qed.

Lemma s8_byte c : is_byte c → u8 (s8 c) = c.
Proof. unfold is_byte. intros. int_lia. Qed.

Lemma u8_inj_char a b : -128 ≤ a < 128 → -128 ≤ b < 128 → u8 a = u8 b → a = b.
Proof. intros. int_lia. Qed.

Lemma ok_type out0 ks d c :
  ok out0 ks d → is_byte c → c ≠ 255 →
  ok out0 (ks ++ [c]) (put_files (tty_type (files d) (readFileNo (console d)) c) d).
Proof.
  intros [Hk (out & Hs & Ho & Hq) Hr Hw Hch] Hc Hne. split; try done; unfold unread, shown in *; simpl.
  - rewrite tty_type_spec. apply Forall_app. split; [done|]. by constructor.
  - exists out. rewrite tty_type_output, tty_type_spec, Ho, <- !app_assoc. done.
Qed.

Lemma ok_poll out0 ks s :
  ok out0 ks (dev s) → level (intr s) = IntOff → 0 ≤ totalTicks s → totalTicks s + 100 ≤ INT_MAX →
  ∃ s', call ConsoleReadPoll s = Done s' ∧ ok out0 ks (dev s').
Proof.
  intros Hok Hl Hlo Hhi. unfold call, CheckCharAvail.
  destruct (Schedule_quiet ConsoleReadPoll Statistics.ConsoleTime ConsoleReadInt s)
    as (s1 & -> & Hqt & Hd & _); [done..|]. cbn [mbind res_bind]. rewrite Hd.
  destruct (incoming (console (dev s)) =? EOF) eqn:E; simplify_tests; cbn [negb orb].
  2: { exists s1. by rewrite Hd. }
  rewrite tty_poll_spec, negb_involutive. case_bool_decide as Hin.
  { exists s1. by rewrite Hd. }
  destruct Hok as [Hk (out & Hs & Ho & Hq) Hr Hw Hch]. unfold unread, shown in *.
  destruct (tty_input _ _) as [|c cs] eqn:Hi; [done|]. apply Forall_cons in Hk as [[Hcb Hcn] Hk].
  destruct (tty_read_spec _ _ _ _ Hi) as (f & -> & Hf & Hout).
  match goal with |- context [ReadAvail ?x] => set (s2 := x) end.
  destruct (console_V_off (λ d, set_readAvail d (s32 (readAvail d + 1))) s2) as (s' & Hs' & _ & _ & Hd').
  { unfold s2. simpl. by rewrite (q_level _ _ Hqt). }
  exists s'. split; [exact Hs'|]. rewrite Hd'. unfold s2. simpl.
  destruct Hr as [(_ & Hav & Hpc)|(Hne & _)]; [|done].
  assert (Hs8 : s8 c ≠ EOF) by (unfold EOF, is_byte in *; int_lia).
  split; unfold unread, shown; simpl; try done.
  - by rewrite Hf.
  - exists out. rewrite Hout, Hf. split; [done|]. split; [|done]. rewrite Ho. unfold held at 1 2. simpl.
    rewrite E. rewrite (proj2 (Z.eqb_neq _ _) Hs8). simpl. by rewrite s8_byte.
  - right. split; [done|]. rewrite s8_byte by done. split; [done|]. left. by rewrite Hav.
  - int_lia.
Qed.

Lemma ok_written out0 ks s :
  ok out0 ks (dev s) → level (intr s) = IntOff → putBusy (console (dev s)) = true →
  ∃ s', call ConsoleWriteDone s = Done s' ∧ ok out0 ks (dev s').
Proof.
  intros [Hk Ho Hr Hw Hch] Hl Hb. unfold call, Console.WriteDone.
  match goal with |- context [WriteDone ?x] => set (s2 := x) end.
  destruct (console_V_off (λ d, set_writeDone d (s32 (writeDone d + 1))) s2) as (s' & Hs' & _ & _ & Hd'); [done|].
  exists s'. split; [exact Hs'|]. rewrite Hd'. unfold s2. split; try done. simpl.
  destruct (pc (dev s)) as [| |ch|]; try (destruct Hw; congruence).
  destruct Hw as (H1 & H2 & [[_ Hz]|[? _]]); [|congruence]. split; [done|]. split; [done|]. right. by rewrite Hz.
Qed.

(** The turns of the test: none of them fails. *)
Lemma ok_turn out0 ks s :
  ok out0 ks (dev s) → 0 ≤ totalTicks s → totalTicks s + 100 ≤ INT_MAX →
  (turn s = Blocks ∧ ((pc (dev s) = AtRead ∧ held (console (dev s)) = []) ∨
                      ∃ ch, pc (dev s) = AtWrite ch ∧ putBusy (console (dev s)) = true)) ∨
  ∃ s', turn s = Done s' ∧ ok out0 ks (dev s').
Proof.
  intros Hok Hlo Hhi. pose proof Hok as [Hk (out & Hs & Ho & Hq) Hr Hw Hch]. unfold turn.
  destruct (pc (dev s)) as [| |ch|] eqn:Hpc.
  - destruct Hr as [(Hin & Hav & _)|(Hin & Hb & [[Hav _]|[_ ?]])]; [| |done].
    + left. rewrite Hav. split; [done|]. left. split; [done|]. unfold held. by rewrite Hin.
    + right. rewrite Hav. eexists. split; [done|]. destruct Hw as [Hw1 Hw2].
      split; simpl; try done; [|right; split; [done|]; split; [done|]; by right].
      exists out. split; [done|]. by split.
  - right. destruct Hr as [(_ & _ & ?)|(Hin & Hb & [[_ ?]|[Hav _]])]; [done..|]. destruct Hw as [Hw1 Hw2].
    unfold GetChar, PutChar. simpl. rewrite Hw1. cbn [negb].
    destruct (tty_write_spec (files (dev s)) (writeFileNo (console (dev s))) (u8 (incoming (console (dev s)))))
      as (f & -> & Hf & Hinp). cbn [mbind res_bind ASSERT].
    match goal with |- context [Schedule _ _ _ ?x] => set (s2 := x) end.
    destruct (Schedule_quiet ConsoleWriteDone Statistics.ConsoleTime ConsoleWriteInt s2)
      as (s3 & -> & _ & Hd3 & _); [done..|]. cbn [mbind res_bind]. eexists. split; [done|]. simpl. rewrite Hd3.
    unfold held in Ho. rewrite (proj2 (Z.eqb_neq _ _) Hin) in Ho.
    split; unfold unread, shown; simpl; rewrite ?Hinp; try done.
    + exists (out ++ [u8 (incoming (console (dev s)))]). rewrite Hf. unfold shown in Hs. rewrite Hs, <- !app_assoc.
      split; [done|]. split; [done|]. by exists out.
    + left. split; [done|]. by split.
    + split; [done|]. split; [done|]. by left.
  - destruct Hw as (H1 & H2 & [[Hb Hz]|[Hb Hz]]).
    + left. rewrite Hz. split; [done|]. right. by exists ch.
    + right. rewrite Hz. eexists. split; [done|]. simpl.
      split; simpl; try done.
      * exists out. split; [done|]. split; [done|]. destruct Hq as (out' & -> & Hq).
        destruct (Z.eqb_spec ch 113) as [->|E]; cbn [q_last]; [by exists out'|].
        intros [?|Hu%list_elem_of_singleton]%elem_of_app; [done|]. by apply E, (u8_inj_char ch 113).
      * destruct Hr as [(Hin & Hav & _)|(Hin & Hbb & [[Hav _]|[_ ?]])]; [| |done].
        -- left. split; [done|]. split; [done|]. by destruct (ch =? 113).
        -- right. split; [done|]. split; [done|]. left. split; [done|]. by destruct (ch =? 113).
      * by destruct (ch =? 113).
  - right. exists s. split; [done|]. exact Hok.
Qed.

Lemma console_exec_ok out0 ks s e :
  ok out0 ks (dev s) → enabled e s →
  (exec e s = Blocks ∧ e = ETurn ∧
     ((pc (dev s) = AtRead ∧ held (console (dev s)) = []) ∨
      ∃ ch, pc (dev s) = AtWrite ch ∧ putBusy (console (dev s)) = true)) ∨
  ∃ s', exec e s = Done s' ∧ ok out0 (ks ++ typed_by e) (dev s').
Proof.
  intros Hok He. destruct e as [c|h| |i st]; simpl in *; rewrite ?app_nil_r.
  - right. eexists. split; [done|]. apply ok_type; naive_solver.
  - destruct He as (Hl & Hlo & Hhi & Hb). right. destruct h.
    + by apply ok_poll.
    + apply ok_written; auto.
  - destruct He as [Hlo Hhi]. destruct (ok_turn out0 ks s) as [[Hx Hb]|Hx]; [done..|by left|by right].
  - right. by eexists.
Qed.

Lemma start_ok inp out f c0 s00 s0 :
  start inp out f c0 s00 = Done s0 → tty_input f (default 0 inp) = [] →
  ok (tty_output f (default 1 out)) [] (dev s0).
Proof.
  intros Hs Hi. unfold start, Console.Console, Schedule in Hs. rewrite bind_ASSERT in Hs by done.
  injection Hs as <-. split; unfold unread, shown; simpl; rewrite ?Hi.
  - constructor.
  - exists []. rewrite app_nil_r. split; [done|]. split; [done|]. apply not_elem_of_nil.
  - by left.
  - done.
  - unfold EOF. lia.
Qed.

Lemma console_reach_ok out0 s0 ks s : ok out0 [] (dev s0) → reach s0 ks s → ok out0 ks (dev s).
Proof.
  intros H0 Hr. induction Hr as [|ks s e s' Hr IH He Hx]; [done|].
  destruct (console_exec_ok out0 ks s e IH He) as [[Hx' _]|(s1 & Hx' & Hok)]; [congruence|].
  rewrite Hx in Hx'. by injection Hx' as <-.
Qed.

(** A turn of the test ends it exactly if the character it has written is a 'q'. *)
Lemma turn_returns s s' :
  turn s = Done s' → (pc (dev s') = Returned ↔ pc (dev s) = Returned ∨ pc (dev s) = AtWrite 113).
Proof.
  unfold turn. intros Ht. destruct (pc (dev s)) as [| |ch|] eqn:Hpc.
  - destruct (readAvail _ =? 0); [done|]. simplify_eq. simpl. naive_solver.
  - destruct (GetChar _ _ s) as [ch s1]. apply bind_Done in Ht as (s2 & _ & Ht). simplify_eq. simpl. naive_solver.
  - destruct (writeDone _ =? 0); [done|]. simplify_eq. simpl. destruct (Z.eqb_spec ch 113); naive_solver.
  - simplify_eq. rewrite Hpc. naive_solver.
Qed.

(** C35: The console test echoes what is typed.  However key presses, the console's
    interrupts and the turns of the test interleave, no assertion fails - in particular
    a character is never put while another one is being written - and the keys typed so
    far are, in order: those on the display, then the one in the device, then those not
    yet read.  The test waits only for a key or for the display.  It returns exactly
    when it has echoed a 'q': nothing is echoed behind a 'q', and when there is one on
    the display the test has returned, or waits for the display and returns with its
    next turn; no other turn makes it return.  The keys are all bytes but 0xFF, which
    the device takes for no character at all. *)
Theorem console_echo inp out f c0 s00 s0 ks s e :
  start inp out f c0 s00 = Done s0 → tty_input f (default 0 inp) = [] → reach s0 ks s → enabled e s →
  (∃ echoed, shown (dev s) = tty_output f (default 1 out) ++ echoed ∧
     ks = echoed ++ held (console (dev s)) ++ unread (dev s) ∧
     (pc (dev s) = Returned → ∃ before, echoed = before ++ [113] ∧ 113 ∉ before) ∧
     (113 ∈ echoed → pc (dev s) = Returned ∨ pc (dev s) = AtWrite 113)) ∧
  match exec e s with
  | Done s' => e = ETurn → (pc (dev s') = Returned ↔ pc (dev s) = Returned ∨ pc (dev s) = AtWrite 113)
  | Blocks => e = ETurn ∧ ((pc (dev s) = AtRead ∧ held (console (dev s)) = []) ∨
                           ∃ ch, pc (dev s) = AtWrite ch ∧ putBusy (console (dev s)) = true)
  | Assert | Undef | Fuel => False
  end.
Proof.
  intros Hs Hi Hr He. pose proof (console_reach_ok _ _ _ _ (start_ok _ _ _ _ _ _ Hs Hi) Hr) as Hok. split.
  - destruct (ok_order _ _ _ Hok) as (echoed & H1 & H2 & H3). exists echoed. split; [done|]. split; [done|].
    pose proof (ok_write _ _ _ Hok) as Hw. destruct (pc (dev s)) as [| |ch|]; cbn [q_last] in H3; split; try done.
    + destruct H3 as (before & -> & H3). intros [?|Hu%list_elem_of_singleton]%elem_of_app; [done|].
      right. f_equal. apply u8_inj_char; [lia..|done].
    + by left.
  - destruct (console_exec_ok _ _ _ _ Hok He) as [(-> & Hb)|(s' & Hx & _)]; [done|]. rewrite Hx.
    intros ->. by apply turn_returns.
Qed.

End test.
End ConsoleTest.

(** * A run *)
Module ConsoleDemo.
Import Interrupt Console ConsoleTest.

(** What has been typed and what has been written, for each file. *)
#[local] Instance plain_files : Terminals (gmap Z (list Z) * gmap Z (list Z)).
Proof.
  refine {|
    tty_input f fd := default [] (f.1 !! fd);
    tty_output f fd := default [] (f.2 !! fd);
    tty_type f fd c := (<[fd := default [] (f.1 !! fd) ++ [c]]> f.1, f.2);
    tty_poll f fd := negb (bool_decide (default [] (f.1 !! fd) = []));
    tty_read f fd := match f.1 !! fd with Some (c :: cs) => Some (c, (<[fd := cs]> f.1, f.2)) | _ => None end;
    tty_write f fd c := Some (f.1, <[fd := default [] (f.2 !! fd) ++ [c]]> f.2)
  |}.
  - intros f fd c. simpl. by rewrite lookup_insert_eq.
  - done.
  - done.
  - intros f fd c cs. destruct (f.1 !! fd) as [l|] eqn:E; simpl; intros Hl; [subst l|done].
    eexists. split; [done|]. simpl. by rewrite lookup_insert_eq.
  - intros f fd c. eexists. split; [done|]. simpl. by rewrite lookup_insert_eq.
Defined.

Abbreviation plain := (gmap Z (list Z) * gmap Z (list Z))%type.
Definition none : plain := (∅, ∅).
Definition boot : sys handlers () := mkSys Interrupt Statistics.Statistics ().
Definition begin : sys handlers (t (F := plain)) :=
  match start None None none (Console.mk 0 0 true 7) boot with
  | Done s => s
  | _ => mkSys Interrupt Statistics.Statistics (mk (Console.mk 0 0 true 7) none 0 0 AtRead)
  end.

(** Two keys, both echoed; the test waits for the display. *)
Definition events : list event :=
  [EType 97; EType 113; EHandler ConsoleReadPoll; ETurn; ETurn; EHandler ConsoleReadPoll;
   EHandler ConsoleWriteDone; ETurn; ETurn; ETurn; EHandler ConsoleWriteDone].

Definition enabledb (e : event) (s : sys handlers (t (F := plain))) : bool :=
  let clock := (0 <=? totalTicks s) && (totalTicks s + 100 <=? INT_MAX) in
  match e with
  | EType c => (0 <=? c) && (c <? 255)
  | EHandler h => bool_decide (level (intr s) = IntOff) && clock &&
      match h with ConsoleReadPoll => true | ConsoleWriteDone => putBusy (console (dev s)) end
  | ETurn => clock
  | EOther _ _ => true
  end.

Lemma console_enabledb_enabled e s : enabledb e s = true → enabled e s.
Proof.
  unfold enabledb, enabled. destruct e as [c|h| |i st]; intros He; simplify_tests; try done.
  - unfold is_byte. lia.
  - match goal with H : bool_decide _ = true |- _ => apply bool_decide_eq_true_1 in H end. by destruct h.
Qed.

Fixpoint run (es : list event) (s : sys handlers (t (F := plain))) : res (sys handlers (t (F := plain))) :=
  match es with
  | [] => Done s
  | e :: es => s ← exec e s; run es s
  end.

Fixpoint all_enabled (es : list event) (s : sys handlers (t (F := plain))) : bool :=
  match es with
  | [] => true
  | e :: es => enabledb e s && match exec e s with Done s => all_enabled es s | _ => false end
  end.

Lemma run_reach es s0 ks s s' :
  reach s0 ks s → all_enabled es s = true → run es s = Done s' → reach s0 (ks ++ (es ≫= typed_by)) s'.
Proof.
  revert ks s. induction es as [|e es IH]; intros ks s Hr Hall Hrun; cbn [run all_enabled] in *.
  - injection Hrun as <-. by rewrite app_nil_r.
  - apply andb_true_iff in Hall as [He Hall]. destruct (exec e s) as [s1| | | |] eqn:Hx; try done.
    cbn [mbind list_bind]. rewrite app_assoc. apply (IH _ s1); [|done|done].
    apply (reach_step _ _ s); [done|by apply console_enabledb_enabled|done].
Qed.

Definition final : sys handlers (t (F := plain)) := match run events begin with Done s => s | _ => begin end.

Lemma console_demo_reach : reach begin [97; 113] final.
Proof. by apply (run_reach events begin [] begin final (reach_start begin)); vm_compute. Qed.

Lemma console_echo_witness :
  shown (dev final) = [97; 113] ∧ pc (dev final) = AtWrite 113 ∧
  (∃ echoed, shown (dev final) = tty_output none (default 1 None) ++ echoed ∧
     [97; 113] = echoed ++ held (console (dev final)) ++ unread (dev final) ∧
     (pc (dev final) = Returned → ∃ before, echoed = before ++ [113] ∧ 113 ∉ before) ∧
     (113 ∈ echoed → pc (dev final) = Returned ∨ pc (dev final) = AtWrite 113)) ∧
  match exec ETurn final with Done s' => pc (dev s') = Returned | _ => False end.
Proof.
  split; [vm_compute; reflexivity|]. split; [vm_compute; reflexivity|].
  assert (Hs : start None None none (Console.mk 0 0 true 7) boot = Done begin) by (vm_compute; reflexivity).
  assert (Hi : tty_input none (default 0 None) = []) by (vm_compute; reflexivity).
  assert (He : enabled ETurn final) by (apply console_enabledb_enabled; vm_compute; reflexivity).
  destruct (console_echo None None none (Console.mk 0 0 true 7) boot begin [97; 113] final ETurn
    Hs Hi console_demo_reach He)
    as [Hecho Hturn].
  split; [exact Hecho|].
  assert (Hpc : pc (dev final) = AtWrite 113) by (vm_compute; reflexivity).
  assert (Hx : is_Done (exec ETurn final) = true) by (vm_compute; reflexivity).
  destruct (exec ETurn final) as [s'| | | |]; try discriminate Hx.
  apply (Hturn eq_refl). right. exact Hpc.
Defined.

(** A key 0xFF looks like no character: the next one overwrites it. *)
Lemma key_255_is_lost :
  (s ← run [EType 255; EHandler ConsoleReadPoll; EType 97; EHandler ConsoleReadPoll] begin;
   Done (held (console (dev s)), unread (dev s), readAvail (dev s))) = Done ([97], [], 2).
Proof. vm_compute. reflexivity. Qed.

End ConsoleDemo.
