(* ===== verification/Switch.v ===== *)
(** The context switch: threads/switch.c (the part for HOST_i386), threads/switch.h and
    the machine-dependent half of Thread::StackAllocate (threads/thread.cc).

    [X86] is the processor as far as the assembly uses it: eight registers, words of
    memory, [movl], [pushl], [popl], [call] through a register and [ret].  [Asm] holds the
    text of [SWITCH] and [ThreadRoot] instruction by instruction and what StackAllocate
    stores.  [SwitchSpec] shows that SWITCH transfers control between suspended
    computations - an abstract machine that knows nothing of stacks and offsets - and that a
    thread made by StackAllocate calls the three functions that Threads.v lists as its
    frames, in that order and with its argument. *)
From S2P Require Import Prelude.

Module X86.

Inductive reg := ESP | EAX | EBX | ECX | EDX | EBP | ESI | EDI.

Record regs := mkRegs { esp : Z; eax : Z; ebx : Z; ecx : Z; edx : Z; ebp : Z; esi : Z; edi : Z }.

Definition get (r : reg) (s : regs) : Z :=
  match r with
  | ESP => esp s | EAX => eax s | EBX => ebx s | ECX => ecx s
  | EDX => edx s | EBP => ebp s | ESI => esi s | EDI => edi s
  end.

Definition set (r : reg) (v : Z) (s : regs) : regs :=
  let '(mkRegs sp a b c d bp si di) := s in
  match r with
  | ESP => mkRegs v a b c d bp si di
  | EAX => mkRegs sp v b c d bp si di
  | EBX => mkRegs sp a v c d bp si di
  | ECX => mkRegs sp a b v d bp si di
  | EDX => mkRegs sp a b c v bp si di
  | EBP => mkRegs sp a b c d v si di
  | ESI => mkRegs sp a b c d bp v di
  | EDI => mkRegs sp a b c d bp si v
  end.

(** Memory: the words at the addresses that are multiples of four.  An access to any
    other address, or to one that is not mapped, is [Undef]. *)
Abbreviation mem := (gmap Z Z).

Definition load (m : mem) (a : Z) : res Z :=
  if u32 a mod 4 =? 0 then
    match m !! u32 a with Some v => Done v | None => Undef end
  else Undef.

Definition store (m : mem) (a v : Z) : res mem :=
  if u32 a mod 4 =? 0 then
    match m !! u32 a with Some _ => Done (<[u32 a := v]> m) | None => Undef end
  else Undef.

(** [%r], [d(%r)] and a symbol of the data segment. *)
Inductive operand :=
| Reg (r : reg)
| Disp (d : Z) (base : reg)
| Sym (a : Z).

(** In the order of the assembler: the source comes first. *)
Inductive instr :=
| movl (src dst : operand)
| pushl (r : reg)
| popl (r : reg)
| call (r : reg)
| ret.

Record state := mkState { pc : Z; rs : regs; mm : mem }.

Definition read (o : operand) (s : state) : res Z :=
  match o with
  | Reg r => Done (get r (rs s))
  | Disp d r => load (mm s) (get r (rs s) + d)
  | Sym a => load (mm s) a
  end.

Definition write (o : operand) (v : Z) (s : state) : res state :=
  match o with
  | Reg r => Done (mkState (pc s) (set r v (rs s)) (mm s))
  | Disp d r => m ← store (mm s) (get r (rs s) + d) v; Done (mkState (pc s) (rs s) m)
  | Sym a => m ← store (mm s) a v; Done (mkState (pc s) (rs s) m)
  end.

Definition push (v : Z) (s : state) : res state :=
  let sp := u32 (esp (rs s) - 4) in
  m ← store (mm s) sp v; Done (mkState (pc s) (set ESP sp (rs s)) m).

Definition pop (s : state) : res (Z * state) :=
  v ← load (mm s) (esp (rs s));
  Done (v, mkState (pc s) (set ESP (u32 (esp (rs s) + 4)) (rs s)) (mm s)).

Definition jump (a : Z) (s : state) : state := mkState a (rs s) (mm s).

(** One instruction; [next] is the address of the one behind it. *)
Definition exec (i : instr) (next : Z) (s : state) : res state :=
  match i with
  | movl src dst => v ← read src s; s ← write dst v s; Done (jump next s)
  | pushl r => s ← push (get r (rs s)) s; Done (jump next s)
  | popl r =>
      '(v, s) ← pop s; Done (mkState next (set r v (rs s)) (mm s))
  | call r => let f := get r (rs s) in s ← push next s; Done (jump f s)
  | ret => '(a, s) ← pop s; Done (jump a s)
  end.

(** A program text: the address of each instruction, the instruction, and the address
    behind it. *)
Abbreviation text := (list (Z * (instr * Z))).

Fixpoint fetch (t : text) (a : Z) : option (instr * Z) :=
  match t with
  | [] => None
  | (b, i) :: t => if a =? b then Some i else fetch t a
  end.

(** Runs the text until control leaves it. *)
Fixpoint run (t : text) (fuel : nat) (s : state) : res state :=
  match fetch t (pc s) with
  | None => Done s
  | Some (i, next) =>
      match fuel with
      | O => Fuel
      | S n => exec i next s ≫= run t n
      end
  end.

End X86.

Module Asm.
Import X86.

(** threads/switch.h *)
Definition _ESP : Z := 0.
Definition _EAX : Z := 4.
Definition _EBX : Z := 8.
Definition _ECX : Z := 12.
Definition _EDX : Z := 16.
Definition _EBP : Z := 20.
Definition _ESI : Z := 24.
Definition _EDI : Z := 28.
Definition _PC : Z := 32.

Definition PCState : Z := _PC / 4 - 1.
Definition FPState : Z := _EBP / 4 - 1.
Definition InitialPCState : Z := _ESI / 4 - 1.
Definition InitialArgState : Z := _EDX / 4 - 1.
Definition WhenDonePCState : Z := _EDI / 4 - 1.
Definition StartupPCState : Z := _ECX / 4 - 1.

Definition InitialPC : reg := ESI.
Definition InitialArg : reg := EDX.
Definition WhenDonePC : reg := EDI.
Definition StartupPC : reg := ECX.

Definition ThreadRoot : list instr := [
  pushl EBP;
  movl (Reg ESP) (Reg EBP);
  pushl InitialArg;
  call StartupPC;
  call InitialPC;
  call WhenDonePC;
  (* NOT REACHED *)
  movl (Reg EBP) (Reg ESP);
  popl EBP;
  ret].

(** [save] is the address of the common symbol [_eax_save]. *)
Definition SWITCH (save : Z) : list instr := [
  movl (Reg EAX) (Sym save);
  movl (Disp 4 ESP) (Reg EAX);
  movl (Reg EBX) (Disp _EBX EAX);
  movl (Reg ECX) (Disp _ECX EAX);
  movl (Reg EDX) (Disp _EDX EAX);
  movl (Reg ESI) (Disp _ESI EAX);
  movl (Reg EDI) (Disp _EDI EAX);
  movl (Reg EBP) (Disp _EBP EAX);
  movl (Reg ESP) (Disp _ESP EAX);
  movl (Sym save) (Reg EBX);
  movl (Reg EBX) (Disp _EAX EAX);
  movl (Disp 0 ESP) (Reg EBX);
  movl (Reg EBX) (Disp _PC EAX);

  movl (Disp 8 ESP) (Reg EAX);

  movl (Disp _EAX EAX) (Reg EBX);
  movl (Reg EBX) (Sym save);
  movl (Disp _EBX EAX) (Reg EBX);
  movl (Disp _ECX EAX) (Reg ECX);
  movl (Disp _EDX EAX) (Reg EDX);
  movl (Disp _ESI EAX) (Reg ESI);
  movl (Disp _EDI EAX) (Reg EDI);
  movl (Disp _EBP EAX) (Reg EBP);
  movl (Disp _ESP EAX) (Reg ESP);
  movl (Disp _PC EAX) (Reg EAX);
  movl (Reg EAX) (Disp 4 ESP);
  movl (Sym save) (Reg EAX);
  ret].

(** What the assembler and the linker choose: the address of every instruction, of the
    word [_eax_save] and of the two functions of thread.cc. *)
Class Image : Type := {
  SWITCH_at : nat → Z;
  ThreadRoot_at : nat → Z;
  _eax_save : Z;
  InterruptEnable : Z;
  ThreadFinish : Z
}.

Section Text.
Context `{!Image}.

Definition place (at_ : nat → Z) (l : list instr) : text :=
  imap (λ i x, (at_ i, (x, at_ (S i)))) l.

Definition switch_o : text :=
  place SWITCH_at (SWITCH _eax_save) ++ place ThreadRoot_at ThreadRoot.

(** The sizes of threads/thread.h, in words. *)
Definition StackSize : Z := 4 * 1024.
Definition MachineStateSize : Z := 18.
Definition STACK_FENCEPOST : Z := 3735928559.

(** The members of class Thread as they are laid out: [stackTop], [machineState], the bool
    [isJoined] with its padding, [stack]. *)
Definition stackTop : Z := 0.
Definition machineState (i : Z) : Z := 4 + 4 * i.
Definition stack_ : Z := 4 + 4 * MachineStateSize + 4.

(** machine/sysdep.cc; [ptr] is what new returns. *)
Definition AllocBoundedArray (pgSize ptr : Z) : Z := u32 (ptr + pgSize).

(** The pointer that is given to delete. *)
Definition DeallocBoundedArray (pgSize ptr : Z) : Z := u32 (ptr - pgSize).

(** Thread::StackAllocate on the thread object at [this]. *)
Definition StackAllocate (pgSize ptr this func arg : Z) (m : mem) : res mem :=
  let stack := AllocBoundedArray pgSize ptr in
  m ← store m (this + stack_) stack;
  m ← store m (this + stackTop) (u32 (stack + 4 * (StackSize - 4)));
  (* *(--stackTop) = (int)ThreadRoot *)
  top ← load m (this + stackTop);
  m ← store m (this + stackTop) (u32 (top - 4));
  top ← load m (this + stackTop);
  m ← store m top (ThreadRoot_at 0);
  m ← store m stack STACK_FENCEPOST;
  m ← store m (this + machineState PCState) (ThreadRoot_at 0);
  m ← store m (this + machineState StartupPCState) InterruptEnable;
  m ← store m (this + machineState InitialPCState) func;
  m ← store m (this + machineState InitialArgState) arg;
  store m (this + machineState WhenDonePCState) ThreadFinish.

(** Thread::CheckOverflow. *)
Definition CheckOverflow (this : Z) (m : mem) : res () :=
  stack ← load m (this + stack_);
  if stack =? 0 then Done () else
  w ← load m stack;
  ASSERT (w =? STACK_FENCEPOST).

End Text.
End Asm.

(** * What a context switch promises

    A suspended computation is its registers and the address at which it goes on.
    [transfer] suspends the running one under the name [t1] and resumes the one that is
    suspended under [t2] - itself, when it is the only thread there is to run. *)
Module Coroutine.
Import X86.

Record context := mkContext { saved_regs : regs; resume_at : Z }.

Definition transfer (t1 t2 : Z) (c1 : context) (suspended : gmap Z context) :
    option (context * gmap Z context) :=
  let all := <[t1 := c1]> suspended in
  c2 ← all !! t2; Some (c2, delete t2 all).

End Coroutine.

Module SwitchSpec.
Import X86 Asm Coroutine.

(** ** Words of memory *)

(** [n] words from [a] on are mapped. *)
Definition words (m : mem) (a n : Z) : Prop :=
  0 ≤ a ∧ a + 4 * n ≤ 2 ^ 32 ∧ a mod 4 = 0 ∧ ∀ k, 0 ≤ k < n → is_Some (m !! (a + 4 * k)).

Definition within (a n x : Z) : Prop := a ≤ x < a + 4 * n.

Definition apart (a n b k : Z) : Prop := a + 4 * n ≤ b ∨ b + 4 * k ≤ a.

Lemma words_lookup m a n d :
  words m a n → 0 ≤ d < 4 * n → d mod 4 = 0 → is_Some (m !! (a + d)).
Proof.
  intros (_ & _ & _ & H) Hd Hm. replace d with (4 * (d / 4)) by (Z.div_mod_to_equations; lia).
  apply H. Z.div_mod_to_equations; lia.
Qed.

Lemma words_insert m a n b v : words m a n → words (<[b := v]> m) a n.
Proof.
  intros (? & ? & ? & H); repeat split; try done. intros k Hk.
  destruct (decide (b = a + 4 * k)) as [->|]; [by rewrite lookup_insert_eq|].
  rewrite lookup_insert_ne; auto.
Qed.

Lemma words_part m a n i k : words m a n → 0 ≤ i → 0 ≤ k → i + k ≤ n → words m (a + 4 * i) k.
Proof.
  intros (? & ? & ? & Hw) Hi Hk Hn. repeat split; try lia.
  - Z.div_mod_to_equations; lia.
  - intros j Hj. replace (a + 4 * i + 4 * j) with (a + 4 * (i + j)) by lia. apply Hw. lia.
Qed.

Lemma words_prefix m a n k : words m a n → 0 ≤ k ≤ n → words m a k.
Proof. intros Hw Hk. rewrite <- (Z.add_0_r a). change 0 with (4 * 0). by apply (words_part _ _ n); try lia. Qed.

Lemma load_stack_word m a n d v :
  words m a n → 0 ≤ d < 4 * n → d mod 4 = 0 → m !! (a + d) = Some v → load m (a + d) = Done v.
Proof.
  intros (? & ? & ? & _) ? ? Hv. unfold load.
  rewrite u32_id; [|int_lia]. rewrite (proj2 (Z.eqb_eq _ _)); [by rewrite Hv|].
  Z.div_mod_to_equations; lia.
Qed.

Lemma store_stack_word m a n d v :
  words m a n → 0 ≤ d < 4 * n → d mod 4 = 0 → store m (a + d) v = Done (<[a + d := v]> m).
Proof.
  intros Hw Hd Hm. destruct (words_lookup _ _ _ _ Hw Hd Hm) as [w Hv].
  destruct Hw as (? & ? & ? & _). unfold store.
  rewrite u32_id; [|int_lia]. rewrite (proj2 (Z.eqb_eq _ _)); [by rewrite Hv|].
  Z.div_mod_to_equations; lia.
Qed.

Lemma load_at m a n v :
  words m a n → 0 < n → m !! a = Some v → load m a = Done v.
Proof.
  intros Hw Hn Hv. rewrite <- (Z.add_0_r a). eapply load_stack_word; [done|lia|done|].
  by rewrite Z.add_0_r.
Qed.

Lemma store_at m a n v : words m a n → 0 < n → store m a v = Done (<[a := v]> m).
Proof.
  intros Hw Hn. rewrite <- (Z.add_0_r a). eapply store_stack_word; [done|lia|done].
Qed.

(** ** Running the text *)

Section Spec.
Context `{!Image}.

(** The linker gives the instructions different addresses, and the two C++ functions lie
    outside the text. *)
Class Linked : Prop := {
  linked_distinct : NoDup (switch_o.*1);
  linked_enable : InterruptEnable ∉ switch_o.*1;
  linked_finish : ThreadFinish ∉ switch_o.*1
}.
Context `{!Linked}.

Lemma fetch_in (t : text) i a x : NoDup t.*1 → t !! i = Some (a, x) → fetch t a = Some x.
Proof.
  revert i. induction t as [|[b y] t IH]; intros i Hn Hi; [done|].
  cbn in *. apply NoDup_cons in Hn as [Hb Hn]. destruct i as [|i]; cbn in Hi.
  - injection Hi as -> ->. by rewrite Z.eqb_refl.
  - rewrite (proj2 (Z.eqb_neq _ _)); [by eapply IH|]. intros ->. apply Hb.
    apply list_elem_of_fmap. exists (b, x). split; [done|]. by eapply list_elem_of_lookup_2.
Qed.

Lemma fetch_out (t : text) a : a ∉ t.*1 → fetch t a = None.
Proof.
  induction t as [|[b y] t IH]; intros Ha; [done|].
  cbn in *. apply not_elem_of_cons in Ha as [Hb Ha].
  rewrite (proj2 (Z.eqb_neq _ _)); auto.
Qed.

Lemma fetch_SWITCH i x :
  SWITCH _eax_save !! i = Some x → fetch switch_o (SWITCH_at i) = Some (x, SWITCH_at (S i)).
Proof.
  intros Hi. apply (fetch_in _ i); [apply linked_distinct|].
  unfold switch_o. apply lookup_app_l_Some. unfold place. by rewrite list_lookup_imap, Hi.
Qed.

Lemma fetch_ThreadRoot i x :
  ThreadRoot !! i = Some x → fetch switch_o (ThreadRoot_at i) = Some (x, ThreadRoot_at (S i)).
Proof.
  intros Hi. apply (fetch_in _ (length (SWITCH _eax_save) + i)); [apply linked_distinct|].
  unfold switch_o. rewrite lookup_app_r; unfold place; rewrite length_imap; [|lia].
  by rewrite Nat.add_sub', list_lookup_imap, Hi.
Qed.

Lemma run_step n i next s s' :
  fetch switch_o (pc s) = Some (i, next) → exec i next s = Done s' →
  run switch_o (S n) s = run switch_o n s'.
Proof. intros Hf He. cbn [run]. by rewrite Hf, He. Qed.

Lemma run_leaves n s : fetch switch_o (pc s) = None → run switch_o n s = Done s.
Proof. intros Hf. destruct n; cbn [run]; by rewrite Hf. Qed.

(** ** The words of a suspended thread *)

(** The thread object at [t] holds the registers of [c], and its stack the address to
    return to; the slot behind it, the first argument of SWITCH, is free to be used. *)
Record suspended (m : mem) (t : Z) (c : context) : Prop := {
  s_object : words m t 9;
  s_stack : words m (esp (saved_regs c)) 2;
  s_esp : m !! (t + _ESP) = Some (esp (saved_regs c));
  s_eax : m !! (t + _EAX) = Some (eax (saved_regs c));
  s_ebx : m !! (t + _EBX) = Some (ebx (saved_regs c));
  s_ecx : m !! (t + _ECX) = Some (ecx (saved_regs c));
  s_edx : m !! (t + _EDX) = Some (edx (saved_regs c));
  s_ebp : m !! (t + _EBP) = Some (ebp (saved_regs c));
  s_esi : m !! (t + _ESI) = Some (esi (saved_regs c));
  s_edi : m !! (t + _EDI) = Some (edi (saved_regs c));
  s_pc : m !! (t + _PC) = Some (resume_at c);
  s_return : m !! (esp (saved_regs c)) = Some (resume_at c)
}.

(** The registers with which a suspended thread goes on: the return address is popped. *)
Definition resumed (c : context) : regs :=
  set ESP (u32 (esp (saved_regs c) + 4)) (saved_regs c).

(** On entry to SWITCH(t1, t2): the return address and the two arguments are on the stack,
    and the words it will write do not overlap. *)
Record called (s : state) (t1 t2 : Z) (c1 : context) : Prop := {
  c_pc : pc s = SWITCH_at 0;
  c_regs : rs s = saved_regs c1;
  c_stack : words (mm s) (esp (rs s)) 3;
  c_return : mm s !! (esp (rs s) + 0) = Some (resume_at c1);
  c_t1 : mm s !! (esp (rs s) + 4) = Some t1;
  c_t2 : mm s !! (esp (rs s) + 8) = Some t2;
  c_object : words (mm s) t1 9;
  c_save : words (mm s) _eax_save 1;
  c_object_stack : apart t1 9 (esp (rs s)) 3;
  c_object_save : apart t1 9 _eax_save 1;
  c_stack_save : apart (esp (rs s)) 3 _eax_save 1
}.

(** Two addresses that differ because of their offsets or because they lie apart. *)
Ltac offsets :=
  cbv delta [_ESP _EAX _EBX _ECX _EDX _EBP _ESI _EDI _PC stack_ MachineStateSize StackSize] in *;
  unfold apart, within in *; lia.

Ltac mapped := repeat apply words_insert; eassumption.

Ltac look :=
  repeat first [ rewrite lookup_insert_eq | rewrite lookup_insert_ne by offsets ];
  first [ reflexivity | eassumption ].

(** Resolves the memory accesses of one instruction. *)
Ltac access :=
  repeat (first
    [ erewrite load_stack_word; [ | mapped | split; vm_compute; congruence | reflexivity | look ]
    | erewrite store_stack_word; [ | mapped | split; vm_compute; congruence | reflexivity ]
    | erewrite load_at; [ | mapped | reflexivity | look ]
    | erewrite store_at; [ | mapped | reflexivity ] ];
    cbn [mbind res_bind]).

Ltac step_with l k :=
  erewrite run_step;
    [ | cbn [pc]; apply (l k); reflexivity
      | cbv beta iota zeta delta
          [exec read write push pop rs mm pc get set jump esp eax ebx ecx edx ebp esi edi];
        cbn [mbind res_bind]; access; cbn; reflexivity ].

Ltac steps l k n :=
  lazymatch n with
  | O => idtac
  | S ?n => step_with l k; steps l (S k) n
  end.

(** The first half of SWITCH. *)
Definition saved_mem (t1 : Z) (c1 : context) (m : mem) : mem :=
  let r := saved_regs c1 in
  <[t1 + _PC := resume_at c1]> (<[t1 + _EAX := eax r]> (<[t1 + _ESP := esp r]>
  (<[t1 + _EBP := ebp r]> (<[t1 + _EDI := edi r]> (<[t1 + _ESI := esi r]>
  (<[t1 + _EDX := edx r]> (<[t1 + _ECX := ecx r]> (<[t1 + _EBX := ebx r]>
  (<[_eax_save := eax r]> m))))))))).

Lemma SWITCH_saves s t1 t2 c1 n :
  called s t1 t2 c1 →
  run switch_o (13 + n) s =
  run switch_o n (mkState (SWITCH_at 13)
    (set EBX (resume_at c1) (set EAX t1 (rs s))) (saved_mem t1 c1 (mm s))).
Proof.
  destruct s as [p [sp a b c d bp si di] m], c1 as [r1 ra].
  intros [Hpc Hr Hst Hra Ht1 Ht2 Hob Hsv Has Hav Hss].
  cbn [pc rs mm saved_regs resume_at esp] in *; subst p r1; cbn [esp] in *.
  cbn [Nat.add]. steps fetch_SWITCH 0%nat 13%nat. reflexivity.
Qed.

(** The second half, from the load of the second argument on. *)
Definition resumed_mem (c2 : context) (m : mem) : mem :=
  <[esp (saved_regs c2) + 4 := resume_at c2]> (<[_eax_save := eax (saved_regs c2)]> m).

Lemma SWITCH_resumes r m t2 c2 n :
  words m (esp r) 3 → m !! (esp r + 8) = Some t2 →
  suspended m t2 c2 → words m _eax_save 1 →
  apart t2 9 _eax_save 1 → apart (esp (saved_regs c2)) 2 _eax_save 1 →
  run switch_o (14 + n) (mkState (SWITCH_at 13) r m) =
  run switch_o n (mkState (resume_at c2) (resumed c2) (resumed_mem c2 m)).
Proof.
  intros Hst Ht2 [Hob Hst2 ? ? ? ? ? ? ? ? ? Hra] Hsv Hos Hss.
  destruct r as [sp a b c d bp si di], c2 as [[sp2 a2 b2 c2 d2 bp2 si2 di2] ra].
  cbn [saved_regs resume_at esp eax ebx ecx edx ebp esi edi] in *.
  cbn [Nat.add]. steps fetch_SWITCH 13%nat 13%nat.
  step_with fetch_SWITCH 26%nat. reflexivity.
Qed.

(** ** The suspended threads and memory *)

(** The words of a suspended thread: its object and the two on top of its stack. *)
Record separate (t : Z) (c : context) (t' : Z) (c' : context) : Prop := {
  sep_objects : apart t 9 t' 9;
  sep_object_stack : apart t 9 (esp (saved_regs c')) 2;
  sep_stack_object : apart (esp (saved_regs c)) 2 t' 9;
  sep_stacks : apart (esp (saved_regs c)) 2 (esp (saved_regs c')) 2
}.

Record own_words (t : Z) (c : context) : Prop := {
  own_object_stack : apart t 9 (esp (saved_regs c)) 2;
  own_object_save : apart t 9 _eax_save 1;
  own_stack_save : apart (esp (saved_regs c)) 2 _eax_save 1
}.

Record Rep (cs : gmap Z context) (m : mem) : Prop := {
  rep_save : words m _eax_save 1;
  rep_suspended : ∀ t c, cs !! t = Some c → suspended m t c;
  rep_own : ∀ t c, cs !! t = Some c → own_words t c;
  rep_separate : ∀ t c t' c', cs !! t = Some c → cs !! t' = Some c' → t ≠ t' → separate t c t' c'
}.

(** [m'] has the words of [m], and the same contents where [P] holds. *)
Definition agree (P : Z → Prop) (m m' : mem) : Prop :=
  (∀ a, is_Some (m !! a) → is_Some (m' !! a)) ∧ ∀ a, P a → m' !! a = m !! a.

Lemma words_agree P m m' a n : agree P m m' → words m a n → words m' a n.
Proof. intros [Hd _] (? & ? & ? & H'). repeat split; auto. Qed.

Lemma suspended_agree (P : Z → Prop) m m' t c :
  agree P m m' →
  (∀ x, within t 9 x → P x) → P (esp (saved_regs c)) →
  suspended m t c → suspended m' t c.
Proof.
  intros Ha Ht Hs [? ? ? ? ? ? ? ? ? ? ? ?]. pose proof Ha as [_ He].
  split; try (by eapply words_agree);
    (rewrite He; [done|]); first [ exact Hs | apply Ht; unfold within; offsets ].
Qed.

Lemma separate_sym t c t' c' : separate t c t' c' → separate t' c' t c.
Proof. intros []; split; unfold apart in *; lia. Qed.

(** Outside [P], for a memory that is [m] with some words overwritten. *)
Lemma agree_insert (P : Z → Prop) m m' a v :
  agree P m m' → ¬ P a → agree P m (<[a := v]> m').
Proof.
  intros [Hd He] Ha. split.
  - intros x Hx. destruct (decide (a = x)) as [->|]; [by rewrite lookup_insert_eq|].
    rewrite lookup_insert_ne; auto.
  - intros x Hx. rewrite lookup_insert_ne; [auto|]. by intros ->.
Qed.

Lemma agree_refl P m : agree P m m.
Proof. split; auto. Qed.

(** What the two halves leave as it is. *)
Lemma saved_mem_agree t1 c1 m :
  agree (λ x, ¬ within t1 9 x ∧ x ≠ _eax_save) m (saved_mem t1 c1 m).
Proof.
  unfold saved_mem. repeat apply agree_insert; try apply agree_refl;
    intros [Hw Hs]; apply Hw; unfold within; offsets.
Qed.

Lemma resumed_mem_agree c2 m :
  agree (λ x, x ≠ esp (saved_regs c2) + 4 ∧ x ≠ _eax_save) m (resumed_mem c2 m).
Proof.
  unfold resumed_mem. repeat apply agree_insert; try apply agree_refl; intros [Hw Hs]; congruence.
Qed.

Lemma called_own s t1 t2 c1 : called s t1 t2 c1 → own_words t1 c1.
Proof. intros []. rewrite c_regs0 in *. split; unfold apart in *; lia. Qed.

(** The first half adds the caller to the suspended threads. *)
Lemma saved_suspended s t1 t2 c1 :
  called s t1 t2 c1 → suspended (saved_mem t1 c1 (mm s)) t1 c1.
Proof.
  intros Hc. pose proof Hc as [_ Hr Hst Hra _ _ Hob _ Has Hav Hss]. rewrite Hr in *.
  unfold saved_mem. split; try look.
  - by repeat apply words_insert.
  - repeat apply words_insert. by apply (words_prefix _ _ 3).
  - rewrite !lookup_insert_ne by offsets. by rewrite <- Hra, Z.add_0_r.
Qed.

Lemma Rep_save s t1 t2 c1 cs :
  Rep cs (mm s) → called s t1 t2 c1 → cs !! t1 = None →
  (∀ t c, cs !! t = Some c → separate t1 c1 t c) →
  Rep (<[t1 := c1]> cs) (saved_mem t1 c1 (mm s)).
Proof.
  intros [Hsv Hsu How Hse] Hc Hn Hf. split.
  - by repeat apply words_insert.
  - intros t c [[<- <-]|[? Ht]]%lookup_insert_Some; [by eapply saved_suspended|].
    eapply suspended_agree; [apply saved_mem_agree| | |by apply Hsu].
    + intros x Hx. destruct (Hf _ _ Ht), (How _ _ Ht). unfold within, apart in *. lia.
    + destruct (Hf _ _ Ht), (How _ _ Ht). unfold within, apart in *. lia.
  - intros t c [[<- <-]|[? Ht]]%lookup_insert_Some; [by eapply called_own|eauto].
  - intros t c t' c' [[<- <-]|[? Ht]]%lookup_insert_Some [[<- <-]|[? Ht']]%lookup_insert_Some Hne;
      [done|eauto| |eauto].
    apply separate_sym. eauto.
Qed.

(** The second half takes the resumed thread from them. *)
Lemma Rep_resume cs t2 c2 m :
  Rep cs m → cs !! t2 = Some c2 → Rep (delete t2 cs) (resumed_mem c2 m).
Proof.
  intros [Hsv Hsu How Hse] H2. split.
  - by repeat apply words_insert.
  - intros t c [Hne Ht]%lookup_delete_Some.
    destruct (Hse _ _ _ _ H2 Ht Hne), (How _ _ Ht).
    eapply suspended_agree; [apply resumed_mem_agree| | |by apply Hsu];
      unfold within, apart in *; lia.
  - intros t c [? Ht]%lookup_delete_Some. eauto.
  - intros t c t' c' [? Ht]%lookup_delete_Some [? Ht']%lookup_delete_Some ?. eauto.
Qed.

Lemma SWITCH_transfers s t1 t2 c1 c2 cs cs' n :
  Rep cs (mm s) → called s t1 t2 c1 → cs !! t1 = None →
  (∀ t c, cs !! t = Some c → separate t1 c1 t c) →
  transfer t1 t2 c1 cs = Some (c2, cs') →
  ∃ m', run switch_o (27 + n) s = run switch_o n (mkState (resume_at c2) (resumed c2) m') ∧
        Rep cs' m' ∧
        agree (λ x, ¬ within t1 9 x ∧ x ≠ esp (saved_regs c2) + 4 ∧ x ≠ _eax_save) (mm s) m'.
Proof.
  intros HR Hc Hn Hf Ht. unfold transfer in Ht. apply bind_Some in Ht as (c & H2 & [= -> <-]).
  pose proof (Rep_save _ _ _ _ _ HR Hc Hn Hf) as HR1.
  exists (resumed_mem c2 (saved_mem t1 c1 (mm s))). split_and!.
  - change (27 + n)%nat with (13 + (14 + n))%nat. erewrite SWITCH_saves by done.
    destruct (rep_own _ _ HR1 _ _ H2). pose proof Hc as [].
    eapply SWITCH_resumes; eauto using rep_suspended.
    + destruct (rs s). by repeat apply words_insert.
    + destruct (rs s) eqn:Hrs; cbn [set esp] in *. unfold saved_mem. look.
    + by repeat apply words_insert.
  - by apply Rep_resume.
  - destruct (saved_mem_agree t1 c1 (mm s)) as [Hd He].
    destruct (resumed_mem_agree c2 (saved_mem t1 c1 (mm s))) as [Hd' He'].
    split; [auto|]. intros x (? & ? & ?). rewrite He', He; auto.
Qed.

(** C11: SWITCH(t1, t2) implements the transfer of control between suspended computations.
    The registers and the return address of the caller become the suspended computation of
    t1; control goes on at the return address of t2 with all eight registers as they were
    when t2 was suspended; the other suspended threads are not touched, and memory changes
    only in the object of t1, in _eax_save and in the argument slot of the resumed stack.
    This includes t1 = t2, a thread that is woken while it waits for itself. *)
Theorem SWITCH_refines_transfer s t1 t2 c1 c2 cs cs' n :
  Rep cs (mm s) → called s t1 t2 c1 → cs !! t1 = None →
  (∀ t c, cs !! t = Some c → separate t1 c1 t c) →
  transfer t1 t2 c1 cs = Some (c2, cs') →
  ∃ m', run switch_o (27 + n) s = run switch_o n (mkState (resume_at c2) (resumed c2) m') ∧
        Rep cs' m' ∧
        agree (λ x, ¬ within t1 9 x ∧ x ≠ esp (saved_regs c2) + 4 ∧ x ≠ _eax_save) (mm s) m'.
Proof. apply SWITCH_transfers. Qed.

(** ** A new thread *)

Lemma push_word b n d s v :
  words (mm s) b n → esp (rs s) = b + d → 4 ≤ d ≤ 4 * n → d mod 4 = 0 →
  push v s = Done (mkState (pc s) (set ESP (b + (d - 4)) (rs s)) (<[b + (d - 4) := v]> (mm s))).
Proof.
  intros Hw He Hd Hm. unfold push. rewrite He.
  replace (u32 (b + d - 4)) with (b + (d - 4)).
  - erewrite store_stack_word; [done|done|lia|]. Z.div_mod_to_equations; lia.
  - destruct Hw as (? & ? & _). rewrite u32_id; [lia|]. int_lia.
Qed.

(** The context that StackAllocate prepares: [top] is the end of the stack less the four
    spare words. *)
Record fresh_context (top func arg : Z) (c : context) : Prop := {
  f_esp : esp (saved_regs c) = top - 4;
  f_pc : resume_at c = ThreadRoot_at 0;
  f_startup : get StartupPC (saved_regs c) = InterruptEnable;
  f_func : get InitialPC (saved_regs c) = func;
  f_arg : get InitialArg (saved_regs c) = arg;
  f_done : get WhenDonePC (saved_regs c) = ThreadFinish
}.

(** The memory that StackAllocate leaves. *)
Definition allocated_mem (stack this func arg : Z) (m : mem) : mem :=
  <[this + _EDI := ThreadFinish]> (<[this + _EDX := arg]> (<[this + _ESI := func]>
  (<[this + _ECX := InterruptEnable]> (<[this + _PC := ThreadRoot_at 0]>
  (<[stack := STACK_FENCEPOST]> (<[stack + 4 * (StackSize - 5) := ThreadRoot_at 0]>
  (<[this + _ESP := stack + 4 * (StackSize - 5)]>
  (<[this + _ESP := stack + 4 * (StackSize - 4)]> (<[this + stack_ := stack]> m))))))))).

(** The fence post at the low end of the stack. *)
Definition fence (this stack : Z) (m : mem) : Prop :=
  words m this 21 ∧ m !! (this + stack_) = Some stack ∧ m !! stack = Some STACK_FENCEPOST.

Lemma fence_CheckOverflow this stack m :
  words m stack StackSize → fence this stack m → CheckOverflow this m = Done ().
Proof.
  intros Hs (Ho & H1 & H2). unfold CheckOverflow.
  erewrite load_stack_word; [cbn [mbind res_bind]|done|by vm_compute|done|done].
  case_match; [done|]. access. done.
Qed.

(** The destructor of a thread gives back what StackAllocate took. *)
Lemma Dealloc_Alloc pgSize ptr :
  is_u32 ptr → DeallocBoundedArray pgSize (AllocBoundedArray pgSize ptr) = ptr.
Proof. unfold DeallocBoundedArray, AllocBoundedArray. intros. int_lia. Qed.

Section Allocate.
Variables (pgSize ptr this func arg : Z) (m : mem).
Let stack : Z := AllocBoundedArray pgSize ptr.
Hypothesis Hobject : words m this 21.
Hypothesis Hstack : words m stack StackSize.
Hypothesis Hapart : apart this 21 stack StackSize.

Lemma StackAllocate_Done :
  StackAllocate pgSize ptr this func arg m = Done (allocated_mem stack this func arg m).
Proof.
  unfold StackAllocate. fold stack. clearbody stack.
  assert (Hb : 0 ≤ stack ∧ stack + 4 * StackSize ≤ 2 ^ 32) by (destruct Hstack as (? & ? & _); done).
  rewrite (u32_id (stack + _)) by (unfold StackSize in *; int_lia).
  change stackTop with _ESP. change (machineState PCState) with _PC.
  change (machineState StartupPCState) with _ECX. change (machineState InitialPCState) with _ESI.
  change (machineState InitialArgState) with _EDX. change (machineState WhenDonePCState) with _EDI.
  access.
  replace (u32 (stack + 4 * (StackSize - 4) - 4)) with (stack + 4 * (StackSize - 5))
    by (unfold StackSize in *; rewrite u32_id; int_lia).
  access. done.
Qed.

Lemma StackAllocate_agree :
  agree (λ x, ¬ within this 21 x ∧ ¬ within stack StackSize x) m
    (allocated_mem stack this func arg m).
Proof.
  unfold allocated_mem. clearbody stack. repeat apply agree_insert; try apply agree_refl; intros [Ho Hs];
    solve [apply Ho; offsets | apply Hs; offsets].
Qed.

Lemma StackAllocate_fence : fence this stack (allocated_mem stack this func arg m).
Proof.
  clearbody stack. unfold allocated_mem. split; [|split]; [by repeat apply words_insert|look|look].
Qed.

Lemma StackAllocate_suspends :
  ∃ c, suspended (allocated_mem stack this func arg m) this c ∧
       fresh_context (stack + 4 * (StackSize - 4)) func arg c.
Proof.
  clearbody stack. unfold allocated_mem.
  destruct (words_lookup _ _ _ _EAX Hobject) as [a Ha]; [by vm_compute|done|].
  destruct (words_lookup _ _ _ _EBX Hobject) as [b Hb]; [by vm_compute|done|].
  destruct (words_lookup _ _ _ _EBP Hobject) as [bp Hbp]; [by vm_compute|done|].
  exists (mkContext (mkRegs (stack + 4 * (StackSize - 5)) a b InterruptEnable arg bp func ThreadFinish)
                    (ThreadRoot_at 0)).
  split; [split|split]; cbn [saved_regs resume_at esp eax ebx ecx edx ebp esi edi get]; try look;
    try (repeat apply words_insert); try done.
  - by apply (words_prefix _ _ 21).
  - by apply (words_part _ _ StackSize).
  - lia.
Qed.

End Allocate.

(** The new thread stays ready to be resumed as long as its words are left alone. *)
Lemma StackAllocate_Rep pgSize ptr this func arg m0 m :
  let stack := AllocBoundedArray pgSize ptr in
  words m0 this 21 → words m0 stack StackSize → apart this 21 stack StackSize →
  apart _eax_save 1 this 21 → apart _eax_save 1 stack StackSize → words m _eax_save 1 →
  agree (λ x, within this 21 x ∨ within stack StackSize x) (allocated_mem stack this func arg m0) m →
  ∃ c, Rep {[this := c]} m ∧ fresh_context (stack + 4 * (StackSize - 4)) func arg c ∧
       words m stack StackSize ∧ fence this stack m.
Proof.
  intros stack Ho Hs Ha Hvo Hvs Hsv Hag.
  destruct (StackAllocate_suspends pgSize ptr this func arg m0 Ho Hs Ha) as (c & Hsu & Hfr).
  destruct (StackAllocate_fence pgSize ptr this func arg m0 Ho Ha) as (Hw & Hf1 & Hf2).
  fold stack in Hsu, Hfr, Hw, Hf1, Hf2. pose proof (f_esp _ _ _ _ Hfr) as Hsp.
  exists c. split_and!; [split| | |]; try done.
  - intros t c' [<- <-]%lookup_singleton_Some.
    eapply suspended_agree; [done| | |done]; [intros x Hx; left|right; rewrite Hsp]; offsets.
  - intros t c' [<- <-]%lookup_singleton_Some. split; try rewrite Hsp; offsets.
  - intros t c' t' c'' [<- <-]%lookup_singleton_Some [<- <-]%lookup_singleton_Some; done.
  - eapply words_agree; [done|]. by repeat apply words_insert.
  - destruct (Hag) as [_ He]. split_and!; [by eapply words_agree| |]; (rewrite He; [done|]); offsets.
Qed.

(** A C++ function of [nargs] arguments, entered in [s], returns in [s']: the calling
    convention keeps the stack above the arguments, whose end is [top], and four of the
    registers. *)
Record returns (top nargs : Z) (s s' : state) : Prop := {
  r_pc : mm s !! esp (rs s) = Some (pc s');
  r_esp : esp (rs s') = esp (rs s) + 4;
  r_ebx : ebx (rs s') = ebx (rs s);
  r_ebp : ebp (rs s') = ebp (rs s);
  r_esi : esi (rs s') = esi (rs s);
  r_edi : edi (rs s') = edi (rs s);
  r_mem : agree (λ a, esp (rs s) + 4 + 4 * nargs ≤ a < top) (mm s) (mm s')
}.

Definition returnable (s : state) : Prop := is_Some (mm s !! esp (rs s)).

(** The least a function can do: it returns. *)
Definition return_ (s : state) : state :=
  mkState (default 0 (mm s !! esp (rs s))) (set ESP (esp (rs s) + 4) (rs s)) (mm s).

Lemma return_returns top nargs s : returnable s → returns top nargs s (return_ s).
Proof.
  intros [a Ha]. unfold return_. rewrite Ha. destruct s as [p r m], r; cbn in *.
  by split.
Qed.

(** ThreadRoot, between the calls. *)
Section Root.
Variables (base func : Z).
Hypothesis Hfunc : func ∉ switch_o.*1.

Lemma call_leaves n k r s :
  fetch switch_o (pc s) = Some (call r, ThreadRoot_at k) →
  words (mm s) base 3 → (∃ d, (d = 4 ∨ d = 8) ∧ esp (rs s) = base + d) → r ≠ ESP →
  get r (rs s) ∉ switch_o.*1 →
  ∃ s', run switch_o (S n) s = Done s' ∧ pc s' = get r (rs s) ∧
        rs s' = set ESP (esp (rs s) - 4) (rs s) ∧
        mm s' = <[esp (rs s) - 4 := ThreadRoot_at k]> (mm s).
Proof.
  intros Hf Hw (d & Hd & He) Hr Hg.
  eexists. split; [|split].
  - erewrite run_step; [|exact Hf|].
    2:{ cbn [exec]. erewrite push_word; [cbn [mbind res_bind]; reflexivity|done|done|lia|].
        by destruct Hd as [-> | ->]. }
    apply run_leaves. cbn [pc jump]. by apply fetch_out.
  - done.
  - cbn [rs mm jump]. rewrite He. by replace (base + (d - 4)) with (base + d - 4) by lia.
Qed.

(** Up to the call of the start-up function. *)
Lemma ThreadRoot_starts n r m :
  words m base 3 → esp r = base + 12 → get StartupPC r ∉ switch_o.*1 →
  ∃ s', run switch_o (4 + n) (mkState (ThreadRoot_at 0) r m) = Done s' ∧
        pc s' = get StartupPC r ∧ esp (rs s') = base ∧
        get InitialPC (rs s') = get InitialPC r ∧ get WhenDonePC (rs s') = get WhenDonePC r ∧
        mm s' = <[base := ThreadRoot_at 4]> (<[base + 4 := get InitialArg r]>
                  (<[base + 8 := ebp r]> m)).
Proof.
  intros Hw He Hs. destruct r as [sp a b c d bp si di]. cbn in He, Hs. subst sp.
  change (4 + n)%nat with (S (S (S (S n)))).
  erewrite run_step; [|apply (fetch_ThreadRoot 0); reflexivity|].
  2:{ cbn [exec]. erewrite (push_word base 3 12); [cbn; reflexivity|done|done|lia|done]. }
  erewrite run_step; [|apply (fetch_ThreadRoot 1); reflexivity|cbn; reflexivity].
  erewrite run_step; [|apply (fetch_ThreadRoot 2); reflexivity|].
  2:{ cbn [exec]. erewrite (push_word base 3 8); [cbn; reflexivity|by apply words_insert|done|lia|done]. }
  edestruct (call_leaves n 4 StartupPC) as (s' & Hrun & Hpc & Hrs & Hm).
  6: { exists s'. split; [exact Hrun|]. cbn in *. rewrite Hpc, Hrs, Hm.
       by replace (base + (8 - 4) - 4) with base by lia. }
  - apply (fetch_ThreadRoot 3). reflexivity.
  - by repeat apply words_insert.
  - exists 4. auto.
  - done.
  - done.
Qed.

(** The calls of ThreadRoot after the first one. *)
Lemma ThreadRoot_continues nargs k r s s' top :
  ThreadRoot !! k = Some (call r) → (r = ESI ∨ r = EDI) → get r (rs s) ∉ switch_o.*1 →
  words (mm s) base 3 → esp (rs s) = base → mm s !! base = Some (ThreadRoot_at k) →
  returns top nargs s s' →
  ∃ s2, run switch_o 1 s' = Done s2 ∧ pc s2 = get r (rs s) ∧ esp (rs s2) = base ∧
        esi (rs s2) = esi (rs s) ∧ edi (rs s2) = edi (rs s) ∧
        words (mm s2) base 3 ∧ mm s2 = <[base := ThreadRoot_at (S k)]> (mm s').
Proof.
  intros Hk Hr Hg Hw He Hb [Hpc Hsp _ _ Hsi Hdi Hm]. rewrite He in *.
  assert (Hg' : get r (rs s') = get r (rs s)) by (by destruct Hr as [-> | ->]).
  edestruct (call_leaves 0 (S k) r s') as (s2 & Hrun & Hpc2 & Hrs2 & Hm2).
  6: { exists s2. rewrite Hrs2, Hm2, Hpc2, Hg', Hsp.
       replace (base + 4 - 4) with base by lia. destruct (rs s'); cbn in *.
       split_and!; try done. apply words_insert. by eapply words_agree. }
  - rewrite (inj Some _ _ (eq_trans (eq_sym Hpc) Hb)). by apply fetch_ThreadRoot.
  - by eapply words_agree.
  - exists 4. auto.
  - by destruct Hr as [-> | ->].
  - by rewrite Hg'.
Qed.

(** From the switch to the new thread to the call of ThreadFinish. *)
Lemma fresh_thread_runs n c m top arg :
  words m base 3 → fresh_context (base + 12) func arg c → base + 12 < top → top ≤ 2 ^ 32 →
  ∃ s1, run switch_o (4 + n) (mkState (resume_at c) (resumed c) m) = Done s1 ∧
    pc s1 = InterruptEnable ∧ returnable s1 ∧ agree (λ a, ¬ within base 3 a) m (mm s1) ∧
  ∀ s1', returns top 0 s1 s1' →
  ∃ s2, run switch_o 1 s1' = Done s2 ∧ pc s2 = func ∧ returnable s2 ∧
    mm s2 !! (esp (rs s2) + 4) = Some arg ∧
  ∀ s2', returns top 1 s2 s2' →
  ∃ s3, run switch_o 1 s2' = Done s3 ∧ pc s3 = ThreadFinish.
Proof.
  intros Hw [Hsp Hpc Hst Hfn Harg Hdone] Htop Hmax.
  assert (Hc : esp (resumed c) = base + 12 ∧ get StartupPC (resumed c) = InterruptEnable ∧
    get InitialPC (resumed c) = func ∧ get InitialArg (resumed c) = arg ∧
    get WhenDonePC (resumed c) = ThreadFinish).
  { unfold resumed. rewrite Hsp. destruct Hw as (? & ? & _). replace (base + 12 - 4 + 4) with (base + 12) by lia.
    destruct (saved_regs c); cbn in *. rewrite u32_id; [done|int_lia]. }
  destruct Hc as (Hsp' & Hst' & Hfn' & Harg' & Hdone'). rewrite Hpc.
  destruct (ThreadRoot_starts n (resumed c) m) as (s1 & Hrun & Hpc1 & Hsp1 & Hi1 & Hd1 & Hm1); [done|done| |].
  { rewrite Hst'. apply linked_enable. }
  exists s1. rewrite Hm1, Hpc1. split_and!; [done|done| | |].
  { unfold returnable. rewrite Hm1, Hsp1. eexists. apply lookup_insert_eq. }
  { repeat apply agree_insert; try apply agree_refl; intros Hx; apply Hx; unfold within; lia. }
  intros s1' Hret1.
  destruct (ThreadRoot_continues 0 4 ESI s1 s1' top) as (s2 & Hrun2 & Hpc2 & Hsp2 & Hi2 & Hd2 & Hw2 & Hm2);
    [done|auto| | |done| |done|].
  { cbn in *. by rewrite Hi1, Hfn'. }
  { rewrite Hm1. by repeat apply words_insert. }
  { rewrite Hm1. by rewrite lookup_insert_eq. }
  exists s2. split_and!; [done| | | |].
  { cbn in *. by rewrite Hpc2, Hi1. }
  { unfold returnable. rewrite Hm2, Hsp2. eexists. apply lookup_insert_eq. }
  { rewrite Hsp2, Hm2, lookup_insert_ne by lia. destruct Hret1 as [_ _ _ _ _ _ [_ Hagree]].
    rewrite Hagree by lia. rewrite Hm1, lookup_insert_ne by lia. by rewrite lookup_insert_eq, Harg'. }
  intros s2' Hret2.
  destruct (ThreadRoot_continues 1 5 EDI s2 s2' top) as (s3 & Hrun3 & Hpc3 & _);
    [done|auto| |done|done| |done|].
  { cbn in *. rewrite Hd2, Hd1, Hdone'. apply linked_finish. }
  { rewrite Hm2. by rewrite lookup_insert_eq. }
  exists s3. split; [done|]. cbn in *. by rewrite Hpc3, Hd2, Hd1.
Qed.

End Root.

(** C25: a thread prepared by StackAllocate(func, arg) runs func(arg).  Whenever, later,
    some thread t1 calls SWITCH(t1, this), the processor calls InterruptEnable on the new
    stack; when that returns it calls func with arg as its argument; when that returns it
    calls ThreadFinish.  The fence post is in place.  StackAllocate itself does not fail. *)
Theorem forked_thread_runs pgSize ptr this func arg m0 s t1 c1 :
  let stack := AllocBoundedArray pgSize ptr in
  words m0 this 21 → words m0 stack StackSize → apart this 21 stack StackSize →
  apart _eax_save 1 this 21 → apart _eax_save 1 stack StackSize → func ∉ switch_o.*1 →
  ∃ m, StackAllocate pgSize ptr this func arg m0 = Done m ∧
  (agree (λ x, within this 21 x ∨ within stack StackSize x) m (mm s) →
   called s t1 this c1 → apart t1 9 this 21 → apart t1 9 stack StackSize →
   apart (esp (rs s)) 2 this 21 → apart (esp (rs s)) 2 stack StackSize →
   ∃ s1, run switch_o 31 s = Done s1 ∧ pc s1 = InterruptEnable ∧ returnable s1 ∧
     CheckOverflow this (mm s1) = Done () ∧
   ∀ s1', returns (stack + 4 * StackSize) 0 s1 s1' →
   ∃ s2, run switch_o 1 s1' = Done s2 ∧ pc s2 = func ∧ returnable s2 ∧
     mm s2 !! (esp (rs s2) + 4) = Some arg ∧
   ∀ s2', returns (stack + 4 * StackSize) 1 s2 s2' →
   ∃ s3, run switch_o 1 s2' = Done s3 ∧ pc s3 = ThreadFinish).
Proof.
  intros stack Ho Hs Ha Hvo Hvs Hfunc.
  exists (allocated_mem stack this func arg m0). split; [by apply StackAllocate_Done|].
  intros Hag Hc Hto Hts Hso Hss.
  destruct (StackAllocate_Rep pgSize ptr this func arg m0 (mm s) Ho Hs Ha) as (c & Hrep & Hfr & Hw & Hfe);
    [done|done|apply Hc|done|]. fold stack in Hfr, Hw, Hfe.
  pose proof (f_esp _ _ _ _ Hfr) as Hsp.
  destruct (SWITCH_transfers s t1 this c1 c {[this := c]} (delete this (<[t1 := c1]> {[this := c]})) 4)
    as (m1 & Hrun & _ & Hag1).
  { done. }
  { done. }
  { apply lookup_singleton_ne. offsets. }
  { intros t c' [<- <-]%lookup_singleton_Some. rewrite (c_regs _ _ _ _ Hc) in *. split; try rewrite Hsp; offsets. }
  { unfold transfer. rewrite lookup_insert_ne by offsets. by rewrite lookup_singleton_eq. }
  destruct (fresh_thread_runs (stack + 4 * (StackSize - 7)) func Hfunc 0 c m1 (stack + 4 * StackSize) arg)
    as (s1 & Hrun1 & Hpc1 & Hret1 & Hag2 & Hrest).
  { eapply words_agree; [done|]. by apply (words_part _ _ StackSize). }
  { by replace (stack + 4 * (StackSize - 7) + 12) with (stack + 4 * (StackSize - 4)) by lia. }
  { unfold StackSize. lia. }
  { destruct Hs as (_ & ? & _). done. }
  exists s1. split_and!; [|done|done| |done].
  { change 31%nat with (27 + 4)%nat. rewrite Hrun. exact Hrun1. }
  apply (fence_CheckOverflow _ stack); [by do 2 (eapply words_agree; [done|])|].
  destruct Hfe as (Ho' & Hf1 & Hf2). split_and!; [by do 2 (eapply words_agree; [done|])| |];
    destruct Hag1 as [_ He1], Hag2 as [_ He2]; (rewrite He2, He1; [done| |]); offsets.
Qed.

End Spec.
End SwitchSpec.

(** A concrete image and concrete threads. *)
Module SwitchDemo.
Import X86 Asm Coroutine SwitchSpec.

#[local] Instance demo_image : Image := {|
  SWITCH_at i := 1000 + 4 * Z.of_nat i;
  ThreadRoot_at i := 2000 + 4 * Z.of_nat i;
  _eax_save := 4096;
  InterruptEnable := 3000;
  ThreadFinish := 3004
|}.

#[local] Instance demo_linked : Linked.
Proof.
  split.
  - apply (bool_decide_unpack _). vm_compute. exact I.
  - apply (bool_decide_unpack _). vm_compute. exact I.
  - apply (bool_decide_unpack _). vm_compute. exact I.
Qed.

Definition wordsb (m : mem) (a n : Z) : bool :=
  (0 <=? a) && (a + 4 * n <=? 2 ^ 32) && (a mod 4 =? 0) &&
  forallb (λ k, bool_decide (is_Some (m !! (a + 4 * k)))) (seqZ 0 n).

Lemma wordsb_words m a n : wordsb m a n = true → words m a n.
Proof.
  unfold wordsb. intros Hb. simplify_tests. repeat split; try done. intros k Hk.
  rewrite forallb_forall in H0. specialize (H0 k). apply bool_decide_eq_true in H0; [done|].
  apply list_elem_of_In, elem_of_seqZ. lia.
Qed.

Definition zeros (a n : Z) : mem := list_to_map ((λ k, (a + 4 * k, 0)) <$> seqZ 0 n).

(** Thread 8192 calls SWITCH(8192, 8320); 8320 was suspended at 6000. *)
Definition demo_c1 : context := mkContext (mkRegs 12320 1 2 3 4 5 6 7) 5000.
Definition demo_c2 : context := mkContext (mkRegs 12400 11 12 13 14 15 16 17) 6000.

Definition demo_mem : mem :=
  list_to_map (zip (seqZ 0 9 ≫= λ k, [8320 + 4 * k]) [12400; 11; 12; 13; 14; 15; 16; 17; 6000]) ∪
  list_to_map [(12320, 5000); (12324, 8192); (12328, 8320); (12400, 6000)] ∪
  zeros 4096 1 ∪ zeros 8192 9 ∪ zeros 12404 1.

Definition demo_state : state := mkState 1000 (saved_regs demo_c1) demo_mem.

Ltac concrete :=
  first [ apply wordsb_words; vm_compute; reflexivity
        | vm_compute; reflexivity
        | left; vm_compute; congruence
        | right; vm_compute; congruence ].

Lemma demo_called : called demo_state 8192 8320 demo_c1.
Proof. split; concrete. Qed.

Lemma demo_Rep : Rep {[8320 := demo_c2]} demo_mem.
Proof.
  split.
  - concrete.
  - intros t c [<- <-]%lookup_singleton_Some. split; concrete.
  - intros t c [<- <-]%lookup_singleton_Some. split; concrete.
  - intros t c t' c' [<- <-]%lookup_singleton_Some [<- <-]%lookup_singleton_Some; done.
Qed.

Lemma SWITCH_refines_transfer_witness :
  ∃ m', run switch_o 27 demo_state = run switch_o 0 (mkState 6000 (mkRegs 12404 11 12 13 14 15 16 17) m') ∧
        Rep {[8192 := demo_c1]} m'.
Proof.
  destruct (SWITCH_refines_transfer demo_state 8192 8320 demo_c1 demo_c2 {[8320 := demo_c2]}
              {[8192 := demo_c1]} 0) as (m' & Hrun & HR & _).
  - exact demo_Rep.
  - exact demo_called.
  - reflexivity.
  - intros t c [<- <-]%lookup_singleton_Some. split; concrete.
  - reflexivity.
  - exists m'. split; [exact Hrun|exact HR].
Defined.

(** A thread alone that is woken while it waits switches to itself and goes on; the slot
    of its first argument now holds the return address. *)
Definition alone_mem : mem :=
  list_to_map [(12320, 5000); (12324, 8192); (12328, 8192)] ∪ zeros 4096 1 ∪ zeros 8192 9.

Example switch_to_itself :
  (s ← run switch_o 27 (mkState 1000 (saved_regs demo_c1) alone_mem);
   Done (pc s, rs s, mm s !! 12320, mm s !! 12324)) =
  Done (5000, mkRegs 12324 1 2 3 4 5 6 7, Some 5000, Some 5000).
Proof. vm_compute. reflexivity. Qed.

(** Thread 8320 is forked to call 3008 with the argument 42 on a stack at 65536, and thread
    8192 switches to it. *)
Definition fork_mem : mem :=
  list_to_map [(12320, 5000); (12324, 8192); (12328, 8320)] ∪
  zeros 4096 1 ∪ zeros 8192 9 ∪ zeros 8320 21 ∪ zeros 65536 4096.

Definition forked_state (m : mem) : state := mkState 1000 (saved_regs demo_c1) m.

Lemma forked_called :
  called (forked_state (allocated_mem 65536 8320 3008 42 fork_mem)) 8192 8320 demo_c1.
Proof. split; concrete. Qed.

Lemma forked_thread_runs_witness :
  ∃ m s1 s2 s3,
    StackAllocate 4096 61440 8320 3008 42 fork_mem = Done m ∧
    run switch_o 31 (forked_state m) = Done s1 ∧ pc s1 = 3000 ∧
    run switch_o 1 (return_ s1) = Done s2 ∧ pc s2 = 3008 ∧ mm s2 !! (esp (rs s2) + 4) = Some 42 ∧
    run switch_o 1 (return_ s2) = Done s3 ∧ pc s3 = 3004.
Proof.
  assert (Ho : words fork_mem 8320 21) by concrete.
  assert (Hs : words fork_mem 65536 4096) by concrete.
  assert (Ha : apart 8320 21 65536 4096) by concrete.
  destruct (forked_thread_runs 4096 61440 8320 3008 42 fork_mem
    (forked_state (allocated_mem 65536 8320 3008 42 fork_mem)) 8192 demo_c1 Ho Hs Ha)
    as (m & Hm & Hrest).
  { concrete. }
  { concrete. }
  { apply (bool_decide_unpack _). vm_compute. exact I. }
  pose proof (StackAllocate_Done 4096 61440 8320 3008 42 fork_mem Ho Hs) as Hm'.
  change (AllocBoundedArray 4096 61440) with 65536 in Hm'.
  assert (m = allocated_mem 65536 8320 3008 42 fork_mem) as -> by congruence.
  destruct Hrest as (s1 & H1 & Hp1 & Hr1 & _ & Hrest).
  { apply agree_refl. }
  { exact forked_called. }
  1-4: concrete.
  destruct (Hrest _ (return_returns _ _ _ Hr1)) as (s2 & H2 & Hp2 & Hr2 & Harg & Hrest2).
  destruct (Hrest2 _ (return_returns _ _ _ Hr2)) as (s3 & H3 & Hp3).
  exists (allocated_mem 65536 8320 3008 42 fork_mem), s1, s2, s3. auto 10.
Defined.

End SwitchDemo.
