(* ===== verification/UserProgs.v ===== *)
(** UserProgs: the user programs of src/code/test.

    Sort and matrix multiplication compute on arrays and call Exit with a number; their
    loops are translated as they are, with every access to an array checked.  [Tables] gives
    an array by the function of its index, which turns the loop invariants into equations
    between functions. *)
From S2P Require Import Prelude.

(** * Arrays given by a function of the index *)
Module Tables.

Definition tab {A} (n : Z) (f : Z → A) : list A := f <$> seqZ 0 n.

Definition upd {A} (f : Z → A) (k : Z) (v : A) : Z → A := λ x, if x =? k then v else f x.

Lemma tab_length {A} n (f : Z → A) : length (tab n f) = Z.to_nat n.
Proof. unfold tab. by rewrite length_fmap, length_seqZ. Qed.

Lemma tab_lookup {A} n (f : Z → A) k : 0 ≤ k < n → tab n f !! Z.to_nat k = Some (f k).
Proof.
  intros Hk. unfold tab. rewrite list_lookup_fmap. rewrite (proj2 (lookup_seqZ 0 n (Z.to_nat k) k)) by lia. done.
Qed.

Lemma aget_tab {A} n (f : Z → A) k : 0 ≤ k < n → aget (tab n f) k = Done (f k).
Proof. intros Hk. apply aget_Some; [lia|by apply tab_lookup]. Qed.

Lemma tab_ext {A} n (f g : Z → A) : (∀ k, 0 ≤ k < n → f k = g k) → tab n f = tab n g.
Proof.
  intros Hfg. unfold tab. apply list_fmap_ext. intros i x Hx. apply lookup_seqZ in Hx. apply Hfg. lia.
Qed.

Lemma aset_tab {A} n (f : Z → A) k v : 0 ≤ k < n → aset (tab n f) k v = Done (tab n (upd f k v)).
Proof.
  intros Hk. rewrite aset_in_range by (rewrite tab_length; lia). f_equal. apply list_eq. intros i.
  destruct (decide (i < Z.to_nat n)%nat) as [Hi|Hi].
  - rewrite <- (Nat2Z.id i), (tab_lookup n (upd f k v)) by lia. unfold upd.
    destruct (Z.eqb_spec (Z.of_nat i) k) as [<-|Hne].
    + rewrite list_lookup_insert_eq; [done|]. rewrite tab_length. lia.
    + rewrite list_lookup_insert_ne by lia. apply tab_lookup. lia.
  - rewrite !lookup_ge_None_2; [done|..]; rewrite ?length_insert, tab_length; lia.
Qed.

Lemma tab_of_list (l : list Z) : l = tab (Z.of_nat (length l)) (λ k, default 0 (l !! Z.to_nat k)).
Proof.
  apply list_eq. intros i. destruct (decide (i < length l)%nat) as [Hi|Hi].
  - rewrite <- (Nat2Z.id i), tab_lookup by lia. rewrite Nat2Z.id.
    destruct (lookup_lt_is_Some_2 l i Hi) as [x ->]. done.
  - rewrite !lookup_ge_None_2; [done|rewrite tab_length; lia|lia].
Qed.

(** ** Square arrays of two dimensions, by rows *)

Definition mget (M : list (list Z)) (i j : Z) : res Z := row ← aget M i; aget row j.
Definition mset (M : list (list Z)) (i j v : Z) : res (list (list Z)) :=
  row ← aget M i; row ← aset row j v; aset M i row.

Definition mtab (n : Z) (f : Z → Z → Z) : list (list Z) := tab n (λ i, tab n (f i)).

Definition upd2 (f : Z → Z → Z) (i j v : Z) : Z → Z → Z := λ x y, if (x =? i) && (y =? j) then v else f x y.

Lemma mtab_ext n f g : (∀ i j, 0 ≤ i < n → 0 ≤ j < n → f i j = g i j) → mtab n f = mtab n g.
Proof. intros Hfg. apply tab_ext. intros i Hi. apply tab_ext. intros j Hj. by apply Hfg. Qed.

Lemma mget_mtab n f i j : 0 ≤ i < n → 0 ≤ j < n → mget (mtab n f) i j = Done (f i j).
Proof. intros Hi Hj. unfold mget, mtab. rewrite aget_tab by done. cbn. by apply aget_tab. Qed.

Lemma mset_mtab n f i j v : 0 ≤ i < n → 0 ≤ j < n → mset (mtab n f) i j v = Done (mtab n (upd2 f i j v)).
Proof.
  intros Hi Hj. unfold mset, mtab. rewrite aget_tab by done. cbn [mbind res_bind]. rewrite aset_tab by done.
  cbn [mbind res_bind]. rewrite aset_tab by done. f_equal. apply tab_ext. intros x Hx. unfold upd, upd2.
  destruct (Z.eqb_spec x i) as [->|Hn]; [|done]. apply tab_ext. intros y Hy. done.
Qed.

(** A loop whose state at [i] is known. *)
Lemma for_up_steps {T} (F : Z → T) body n lo :
  (∀ i, lo ≤ i < lo + Z.of_nat n → body i (F i) = Done (F (i + 1))) →
  for_up n lo body (F lo) = Done (F (lo + Z.of_nat n)).
Proof.
  intros Hb. destruct (for_up_inv (λ i s, s = F i) body n lo (F lo)) as (s & -> & ->); [done| |done].
  intros i s Hi ->. eauto.
Qed.

End Tables.

(** * sort.c *)
Module Sort.
Section size.
(** The number of elements: 1024 in the program. *)
Context (N : Z).

(** [A[i] = 1024 - i] *)
Definition initialize (A : list Z) : res (list Z) :=
  for_up (Z.to_nat N) 0 (λ i A, aset A i (N - i)) A.

(** The test and the exchange. *)
Definition exchange (j : Z) (A : list Z) : res (list Z) :=
  a ← aget A j;
  b ← aget A (j + 1);
  if b <? a then
    let tmp := a in
    A ← aset A j b;
    aset A (j + 1) tmp
  else Done A.

(** [for (j = i; j < (1023 - i); j++)] *)
Definition pass (i : Z) (A : list Z) : res (list Z) :=
  for_up (Z.to_nat (N - 1 - i - i)) i exchange A.

(** [for (i = 0; i < 1023; i++)] *)
Definition sort (A : list Z) : res (list Z) := for_up (Z.to_nat (N - 1)) 0 pass A.

(** What the program calls Exit with, and the array it leaves. *)
Definition main (A : list Z) : res (Z * list Z) :=
  A ← initialize A;
  A ← sort A;
  status ← aget A 0;
  Done (status, A).
End size.

Definition program : res (Z * list Z) := main 1024 (replicate 1024 0).
End Sort.

Module SortSpec.
Import Tables Sort.
Section size.
Context (N : Z) (HN : 1 ≤ N).

(** The array after [i] passes: the [i] elements at each end are final, and between them
    the rest is still in descending order. *)
Definition passed (i k : Z) : Z :=
  if k <? i then N - 1 - 2 * k else if k <=? N - 1 - i then N - i - k else 2 * k - N + 2.

(** The same in the middle of pass [i]: the largest element of the middle is at [j]. *)
Definition bubbling (i j k : Z) : Z :=
  if (i <=? k) && (k <? j) then N - i - k - 1 else if k =? j then N - 2 * i else passed i k.

Ltac cases_lia := repeat match goal with
  | |- context [?a <? ?b] => destruct (Z.ltb_spec a b)
  | |- context [?a <=? ?b] => destruct (Z.leb_spec a b)
  | |- context [?a =? ?b] => destruct (Z.eqb_spec a b)
  end; cbn [andb]; try lia.

Lemma initialize_spec A : Z.of_nat (length A) = N → initialize N A = Done (tab N (passed 0)).
Proof.
  intros Hl. rewrite (tab_of_list A), Hl. unfold initialize.
  rewrite (tab_ext N _ (λ k, if k <? 0 then N - k else default 0 (A !! Z.to_nat k)))
    by (intros k Hk; cases_lia; done).
  rewrite (for_up_steps (λ i, tab N (λ k, if k <? i then N - k else default 0 (A !! Z.to_nat k)))).
  - f_equal. apply tab_ext. intros k Hk. unfold passed. cases_lia.
  - intros i Hi. rewrite aset_tab by lia. f_equal. apply tab_ext. intros k Hk. unfold upd. cases_lia; done.
Qed.

Lemma exchange_spec i j :
  0 ≤ i → i ≤ j < N - 1 - i → exchange j (tab N (bubbling i j)) = Done (tab N (bubbling i (j + 1))).
Proof.
  intros Hi Hj. unfold exchange. rewrite !aget_tab by lia. cbn [mbind res_bind].
  assert (E1 : bubbling i j j = N - 2 * i) by (unfold bubbling; cases_lia).
  assert (E2 : bubbling i j (j + 1) = N - i - j - 1) by (unfold bubbling, passed; cases_lia).
  rewrite E1, E2. destruct (Z.ltb_spec (N - i - j - 1) (N - 2 * i)); [|lia].
  rewrite aset_tab by lia. cbn [mbind res_bind]. rewrite aset_tab by lia. f_equal. apply tab_ext.
  intros k Hk. unfold upd, bubbling, passed. cases_lia.
Qed.

(** From the middle of the array on, a pass does nothing. *)
Lemma pass_spec i :
  0 ≤ i → pass N i (tab N (passed (Z.min i (N / 2)))) = Done (tab N (passed (Z.min (i + 1) (N / 2)))).
Proof.
  intros Hi. unfold pass. destruct (decide (i < N / 2)) as [Hlt|Hge].
  - rewrite !Z.min_l by lia. assert (2 * i < N - 1) by (Z.div_mod_to_equations; lia).
    rewrite (tab_ext N (passed i) (bubbling i i)) by (intros k Hk; unfold bubbling, passed; cases_lia).
    rewrite (for_up_steps (λ j, tab N (bubbling i j))) by (intros j Hj; apply exchange_spec; lia).
    f_equal. apply tab_ext. intros k Hk. unfold bubbling, passed. cases_lia.
  - rewrite !Z.min_r by lia. replace (Z.to_nat (N - 1 - i - i)) with 0%nat by (Z.div_mod_to_equations; lia). done.
Qed.

(** The final array: the odd numbers (for an even [N]) descending, then the others ascending. *)
Definition final (k : Z) : Z := if 2 * k <? N - 1 then N - 1 - 2 * k else 2 * k - N + 2.

Lemma sort_spec A : Z.of_nat (length A) = N → main N A = Done (if N =? 1 then 1 else N - 1, tab N final).
Proof.
  intros Hl. unfold main. rewrite initialize_spec by done. cbn [mbind res_bind]. unfold sort.
  assert (Hh : 0 ≤ N / 2) by (apply Z.div_pos; lia).
  rewrite (tab_ext N (passed 0) (passed (Z.min 0 (N / 2)))) by (by rewrite Z.min_l).
  rewrite (for_up_steps (λ i, tab N (passed (Z.min i (N / 2))))) by (intros i Hi; apply pass_spec; lia).
  cbn [mbind res_bind]. rewrite Z.min_r by (Z.div_mod_to_equations; lia).
  rewrite (tab_ext N _ final) by (intros k Hk; unfold passed, final; Z.div_mod_to_equations; cases_lia).
  rewrite aget_tab by lia. cbn [mbind res_bind]. do 2 f_equal. unfold final. cases_lia.
Qed.

(** Whatever it does, the program only exchanges elements. *)
Lemma exchange_permutes j A :
  0 ≤ j → j + 1 < Z.of_nat (length A) → ∃ A', exchange j A = Done A' ∧ A ≡ₚ A' ∧ length A' = length A.
Proof.
  intros Hj Hl. unfold exchange.
  destruct (aget_in_range A j) as (a & -> & Ha); [lia|]. destruct (aget_in_range A (j + 1)) as (b & -> & Hb); [lia|].
  cbn [mbind res_bind]. case_match; [|by exists A].
  rewrite aset_in_range by lia. cbn [mbind res_bind]. rewrite aset_in_range by (rewrite length_insert; lia).
  eexists. split; [done|]. split; [|by rewrite !length_insert].
  replace (Z.to_nat (j + 1)) with (S (Z.to_nat j)) in * by lia. set (n := Z.to_nat j) in *.
  rewrite <- (take_drop_middle A n a Ha) in Hb |- *.
  assert (Hn : length (take n A) = n) by (rewrite length_take; lia).
  rewrite lookup_app_r, Hn in Hb by lia. replace (S n - n)%nat with 1%nat in Hb by lia. cbn in Hb.
  destruct (drop (S n) A) as [|b' rest]; [done|]. cbn in Hb. injection Hb as ->.
  rewrite !insert_app_r_alt by lia. rewrite !Hn. replace (n - n)%nat with 0%nat by lia.
  replace (S n - n)%nat with 1%nat by lia. cbn.
  apply Permutation_app_head. constructor.
Qed.

Lemma sort_permutes A : Z.of_nat (length A) = N → ∃ A', sort N A = Done A' ∧ A ≡ₚ A'.
Proof.
  intros Hl. unfold sort. set (I := λ (_ : Z) (A' : list Z), A ≡ₚ A' ∧ length A' = length A).
  destruct (for_up_inv I (pass N) (Z.to_nat (N - 1)) 0 A) as (A' & -> & HA' & _); [done| |eauto].
  intros i A1 Hi [Hp1 Hl1]. unfold pass.
  destruct (for_up_inv I exchange (Z.to_nat (N - 1 - i - i)) i A1) as (A2 & -> & HA2); [done| |eauto].
  intros j A3 Hj [Hp3 Hl3]. destruct (exchange_permutes j A3) as (A4 & -> & Hp & Hl4); [lia|lia|].
  exists A4. split; [done|]. split; [by rewrite Hp3|congruence].
Qed.

End size.

(** What sort.c does. The program ends, without an access outside its array. On any array
    its two loops leave a permutation of it, but they do not sort: the inner loop starts at
    [i] instead of 0, so after the first pass the first element is never looked at again.
    From the descending array the program makes 1023, 1021, ..., 3, 1, 2, 4, ..., 1024, and
    it exits with 1023, where the comment promises 0. *)
Theorem sort_c_outcome :
  (∀ A, length A = 1024%nat → ∃ A', sort 1024 A = Done A' ∧ A ≡ₚ A') ∧
  program = Done (1023, tab 1024 (λ k, if 2 * k <? 1023 then 1023 - 2 * k else 2 * k - 1022)) ∧
  ¬ Sorted Z.le (tab 1024 (λ k, if 2 * k <? 1023 then 1023 - 2 * k else 2 * k - 1022)).
Proof.
  split; [intros A HA; apply sort_permutes; lia|]. split.
  - unfold program. rewrite sort_spec by (rewrite ?length_replicate; lia).
    rewrite (tab_ext 1024 (final 1024) (λ k, if 2 * k <? 1023 then 1023 - 2 * k else 2 * k - 1022)).
    + change (if 1024 =? 1 then 1 else 1024 - 1) with 1023. reflexivity.
    + intros k Hk. unfold final. change (1024 - 1) with 1023. case_match; lia.
  - intros Hs. assert (H0 := tab_lookup 1024 (λ k, if 2 * k <? 1023 then 1023 - 2 * k else 2 * k - 1022) 0 ltac:(lia)).
    assert (H1 := tab_lookup 1024 (λ k, if 2 * k <? 1023 then 1023 - 2 * k else 2 * k - 1022) 1 ltac:(lia)).
    destruct (tab _ _) as [|x [|y l]]; [done..|]. cbn in H0, H1. injection H0 as ->. injection H1 as ->.
    inversion Hs as [|? ? _ Hhd]; subst. inversion Hhd. lia.
Qed.

End SortSpec.

(** * matmult.c, and its copies derp.c and whee.c *)
Module MatMult.
Import Tables.

Section size.
(** [Dim], 20 in the program. *)
Context (Dim : Z).

Abbreviation matrices := (list (list Z) * list (list Z) * list (list Z))%type.

Definition initialize (M : matrices) : res matrices :=
  for_up (Z.to_nat Dim) 0 (λ i,
    for_up (Z.to_nat Dim) 0 (λ j '(A, B, C),
      A ← mset A i j i;
      B ← mset B i j j;
      C ← mset C i j 0;
      Done (A, B, C))) M.

(** [C[i][j] += A[i][k] * B[k][j]] *)
Definition accumulate (A B : list (list Z)) (i j k : Z) (C : list (list Z)) : res (list (list Z)) :=
  c ← mget C i j;
  a ← mget A i k;
  b ← mget B k j;
  mset C i j (s32 (c + s32 (a * b))).

Definition multiply (A B C : list (list Z)) : res (list (list Z)) :=
  for_up (Z.to_nat Dim) 0 (λ i,
    for_up (Z.to_nat Dim) 0 (λ j,
      for_up (Z.to_nat Dim) 0 (accumulate A B i j))) C.

(** What the program calls Exit with, and the matrix it has computed. *)
Definition main (M : matrices) : res (Z * list (list Z)) :=
  '(A, B, C) ← initialize M;
  C ← multiply A B C;
  status ← mget C (Dim - 1) (Dim - 1);
  Done (status, C).
End size.

Definition program : res (Z * list (list Z)) :=
  let zeros := replicate 20 (replicate 20 0) in main 20 (zeros, zeros, zeros).
End MatMult.

Module MatMultSpec.
Import Tables MatMult.

(** The first [m] terms of the inner product. *)
Fixpoint dot (A B : Z → Z → Z) (i j : Z) (m : nat) : Z :=
  match m with
  | O => 0
  | S m => dot A B i j m + A i (Z.of_nat m) * B (Z.of_nat m) j
  end.

Section size.
Context (n : Z) (Hn : 0 ≤ n) (A B : Z → Z → Z).

(** The result when the elements before [(i, j)] are done and [k] terms of that one. *)
Definition partly (i j k x y : Z) : Z :=
  if (x <? i) || (x =? i) && (y <? j) then s32 (dot A B x y (Z.to_nat n))
  else if (x =? i) && (y =? j) then s32 (dot A B x y (Z.to_nat k)) else 0.

Lemma accumulate_spec i j k :
  0 ≤ i < n → 0 ≤ j < n → 0 ≤ k < n →
  accumulate (mtab n A) (mtab n B) i j k (mtab n (partly i j k)) = Done (mtab n (partly i j (k + 1))).
Proof.
  intros Hi Hj Hk. unfold accumulate. rewrite !mget_mtab by done. cbn [mbind res_bind]. rewrite mset_mtab by done.
  f_equal. apply mtab_ext. intros x y Hx Hy. unfold upd2, partly at 1. rewrite !Z.ltb_irrefl, !Z.eqb_refl. cbn [andb orb].
  destruct (Z.eqb_spec x i) as [->|Hxi]; cbn [andb].
  - unfold partly. rewrite Z.ltb_irrefl, Z.eqb_refl. cbn [andb orb].
    destruct (Z.eqb_spec y j) as [->|Hyj]; [|done]. rewrite Z.ltb_irrefl.
    replace (Z.to_nat (k + 1)) with (S (Z.to_nat k)) by lia. cbn [dot]. rewrite Z2Nat.id by lia. int_lia.
  - unfold partly. by rewrite (proj2 (Z.eqb_neq x i) Hxi).
Qed.

Lemma element_done i j x y : partly i j n x y = partly i (j + 1) 0 x y.
Proof.
  unfold partly. destruct (Z.ltb_spec x i); [done|]. destruct (Z.eqb_spec x i); [|done]. cbn [andb orb].
  destruct (Z.ltb_spec y j), (Z.ltb_spec y (j + 1)), (Z.eqb_spec y j), (Z.eqb_spec y (j + 1)); try done; lia.
Qed.

Lemma row_done i x y : 0 ≤ y < n → partly i n 0 x y = partly (i + 1) 0 0 x y.
Proof.
  intros Hy. unfold partly. destruct (Z.ltb_spec x i), (Z.ltb_spec x (i + 1)), (Z.eqb_spec x i), (Z.eqb_spec x (i + 1)),
    (Z.ltb_spec y n), (Z.ltb_spec y 0), (Z.eqb_spec y n), (Z.eqb_spec y 0); cbn [andb orb]; try done; lia.
Qed.

Lemma multiply_spec :
  multiply n (mtab n A) (mtab n B) (mtab n (λ _ _, 0)) = Done (mtab n (λ i j, s32 (dot A B i j (Z.to_nat n)))).
Proof.
  unfold multiply. rewrite (mtab_ext n (λ _ _, 0) (partly 0 0 0)).
  2:{ intros i j Hi Hj. unfold partly. destruct (Z.ltb_spec i 0), (Z.ltb_spec j 0); try lia.
      rewrite andb_false_r. cbn [orb]. by case_match. }
  rewrite (for_up_steps (λ i, mtab n (partly i 0 0))).
  - f_equal. apply mtab_ext. intros i j Hi Hj. unfold partly. rewrite (proj2 (Z.ltb_lt i _)) by lia. done.
  - intros i Hi. rewrite (for_up_steps (λ j, mtab n (partly i j 0))).
    + f_equal. apply mtab_ext. intros x y Hx Hy. rewrite Z2Nat.id by lia. by apply row_done.
    + intros j Hj. rewrite (for_up_steps (λ k, mtab n (partly i j k))).
      * f_equal. apply mtab_ext. intros x y Hx Hy. rewrite Z2Nat.id by lia. apply element_done.
      * intros k Hk. apply accumulate_spec; lia.
Qed.

End size.

(** The elements before [(i, j)] are those of [v], the others still those of [w]. *)
Definition filled (v w : Z → Z → Z) (i j x y : Z) : Z := if (x <? i) || (x =? i) && (y <? j) then v x y else w x y.

Lemma filled_none n v w : mtab n (filled v w 0 0) = mtab n w.
Proof.
  apply mtab_ext. intros x y Hx Hy. unfold filled. destruct (Z.ltb_spec x 0), (Z.ltb_spec y 0); try lia.
  by rewrite andb_false_r.
Qed.

Lemma filled_all n v w : mtab n (filled v w n 0) = mtab n v.
Proof. apply mtab_ext. intros x y Hx Hy. unfold filled. by rewrite (proj2 (Z.ltb_lt x n)) by lia. Qed.

Lemma filled_row n v w i : mtab n (filled v w i n) = mtab n (filled v w (i + 1) 0).
Proof.
  apply mtab_ext. intros x y Hx Hy. unfold filled.
  destruct (Z.ltb_spec x i), (Z.ltb_spec x (i + 1)), (Z.eqb_spec x i), (Z.eqb_spec x (i + 1)),
    (Z.ltb_spec y n), (Z.ltb_spec y 0); cbn [andb orb]; try done; lia.
Qed.

Lemma filled_step n v w i j :
  0 ≤ i < n → 0 ≤ j < n → mset (mtab n (filled v w i j)) i j (v i j) = Done (mtab n (filled v w i (j + 1))).
Proof.
  intros Hi Hj. rewrite mset_mtab by done. f_equal. apply mtab_ext. intros x y Hx Hy. unfold upd2, filled.
  destruct (Z.eqb_spec x i), (Z.eqb_spec y j), (Z.ltb_spec x i), (Z.ltb_spec y j), (Z.ltb_spec y (j + 1));
    subst; cbn [andb orb]; try done; lia.
Qed.

Lemma matrices_initialized n f g h :
  0 ≤ n →
  MatMult.initialize n (mtab n f, mtab n g, mtab n h) = Done (mtab n (λ i _, i), mtab n (λ _ j, j), mtab n (λ _ _, 0)).
Proof.
  intros Hn. unfold MatMult.initialize.
  set (S := λ i j, (mtab n (filled (λ i _, i) f i j), mtab n (filled (λ _ j, j) g i j), mtab n (filled (λ _ _, 0) h i j))).
  replace (mtab n f, mtab n g, mtab n h) with (S 0 0) by (unfold S; by rewrite !filled_none).
  rewrite (for_up_steps (λ i, S i 0)).
  - unfold S. rewrite Z.add_0_l, Z2Nat.id by done. by rewrite !filled_all.
  - intros i Hi. rewrite (for_up_steps (S i)).
    + unfold S. rewrite Z.add_0_l, Z2Nat.id by done. by rewrite !filled_row.
    + intros j Hj. unfold S. rewrite (filled_step n (λ i _, i)) by lia. cbn [mbind res_bind].
      rewrite (filled_step n (λ _ j, j)) by lia. cbn [mbind res_bind]. by rewrite (filled_step n (λ _ _, 0)) by lia.
Qed.

(** With [A[i][k] = i] and [B[k][j] = j] every term is [i * j]. *)
Lemma dot_constant i j m : dot (λ i _, i) (λ _ j, j) i j m = Z.of_nat m * (i * j).
Proof. induction m as [|m IH]; [done|]. cbn [dot]. rewrite IH. lia. Qed.

(** matmult.c multiplies matrices. For any two matrices, of any dimension, its three loops
    leave in C[i][j] the inner product of row i and column j, as a 32-bit integer, and touch
    nothing outside the arrays; the program, whose matrices are i and j, computes 20 * i * j
    everywhere and exits with 20 * 19 * 19 = 7220. *)
Theorem matmult_c_outcome :
  (∀ n A B, 0 ≤ n → multiply n (mtab n A) (mtab n B) (mtab n (λ _ _, 0)) =
                      Done (mtab n (λ i j, s32 (dot A B i j (Z.to_nat n))))) ∧
  program = Done (7220, mtab 20 (λ i j, 20 * (i * j))).
Proof.
  split; [intros n A B Hn; by apply multiply_spec|]. unfold program, main.
  change (replicate 20 (replicate 20 0)) with (mtab 20 (λ _ _, 0)).
  rewrite matrices_initialized by lia. cbn [mbind res_bind]. rewrite multiply_spec by lia. cbn [mbind res_bind].
  rewrite (mtab_ext 20 _ (λ i j, 20 * (i * j))).
  - rewrite mget_mtab by lia. done.
  - intros i j Hi Hj. rewrite dot_constant. apply s32_id. unfold is_s32, INT_MIN, INT_MAX. nia.
Qed.

End MatMultSpec.
