(* ===== verification/Shell.v ===== *)
(** Shell: the programs of src/code/test that make system calls - the shell, halt.c and the
    programs that start others - over an interface to the kernel.

    [Kernel] is what a program sees of Write, Read, Exec and Join.  [documented] is the kernel
    of userprog/syscall.h, where Read(&c, 1, ConsoleInput) stores one character; [nachos] is
    the one of userprog/exception.cc, where it stores a word (see SRead in Syscall.v).  With
    the first the shell runs the commands it is given, with the second it never gets a line.

    The loop that reads a line ends after at most 60 characters, at the end of its buffer, so
    61 turns are enough whatever Read does ([read_line_fuel]). *)
From S2P Require Import Prelude.

(** What the calls do.  [sys_read]: the bytes that Read(buf, 1, ConsoleInput) stores from
    [buf] on. *)
Class Kernel (W : Type) : Type := {
  sys_write : list Z → W → W;
  sys_read : W → res (list Z * W);
  sys_exec : list Z → W → Z * W;
  sys_join : Z → W → W
}.

Module Shell.

Definition newline : Z := 10.

Section shell.
Context {W : Type} `{!Kernel W}.

(** [do Read(&buffer[i], 1, input); while (buffer[i++] != '\n');] *)
Fixpoint read_line (fuel : nat) (i : Z) (buffer : list Z) (w : W) : res (Z * list Z * W) :=
  match fuel with
  | O => Fuel
  | S fuel =>
      '(bs, w) ← sys_read w;
      buffer ← blit buffer i bs;
      c ← aget buffer i;
      if c =? newline then Done (i + 1, buffer, w) else read_line fuel (i + 1) buffer w
  end.

(** The string in a buffer, up to its 0. *)
Fixpoint string_at (bs : list Z) : res (list Z) :=
  match bs with
  | [] => Undef
  | b :: bs => if b =? 0 then Done [] else s ← string_at bs; Done (b :: s)
  end.

(** One turn of [while (1)]. *)
Definition command (buffer : list Z) (w : W) : res (list Z * W) :=
  let w := sys_write [45; 45] w in
  '(i, buffer, w) ← read_line 61 0 buffer w;
  let i := i - 1 in
  buffer ← aset buffer i 0;
  if 0 <? i then
    name ← string_at buffer;
    let '(newProc, w) := sys_exec name w in
    Done (buffer, sys_join newProc w)
  else Done (buffer, w).

(** [n] turns; [buffer] is the array of 60 characters. *)
Fixpoint shell (n : nat) (buffer : list Z) (w : W) : res (list Z * W) :=
  match n with
  | O => Done (buffer, w)
  | S n => '(buffer, w) ← command buffer w; shell n buffer w
  end.

(** ** halt.c, into_matmult.c and loop.c: the status they exit with *)

Definition halt (sort_path : list Z) (w : W) : Z * W :=
  let '(id, w) := sys_exec sort_path w in (0, sys_join id w).

(** A program that returns from main exits with 0 (start.s). *)
Definition into_matmult (matmult_path : list Z) (w : W) : Z * W :=
  let '(_, w) := sys_exec matmult_path w in
  let '(_, w) := sys_exec matmult_path w in (0, w).

Definition loop (loop_path : list Z) (w : W) : Z * W :=
  let '(_, w) := sys_exec loop_path w in
  let '(_, w) := sys_exec loop_path w in
  let '(_, w) := sys_exec loop_path w in (0, w).

(** test1.c and test2.c pass the address of a string to Join. *)
Definition join_address (string_address : Z) (w : W) : Z * W := (0, sys_join string_address w).

(** test.c *)
Definition test (w : W) : Z * W := (0, w).

End shell.
End Shell.

Module ShellSpec.
Import Shell.

Section fuel.
Context {W : Type} `{!Kernel W}.

(** The loop is over when it has filled the buffer. *)
Lemma read_line_fuel fuel i buffer w :
  (∀ w, sys_read w ≠ Fuel) → 0 ≤ i ≤ 60 → length buffer = 60%nat → 61 ≤ i + Z.of_nat fuel →
  read_line fuel i buffer w ≠ Fuel.
Proof.
  intros Hr. revert i buffer w. induction fuel as [|fuel IH]; intros i buffer w Hi Hl Hf; cbn [read_line]; [lia|].
  specialize (Hr w). destruct (sys_read w) as [[bs w']| | | |]; try done. cbn [mbind res_bind].
  destruct (blit buffer i bs) as [buffer'| | | |] eqn:Hb; try done; [|unfold blit in Hb; by case_match].
  apply blit_length in Hb. cbn [mbind res_bind].
  destruct (decide (i = 60)) as [->|Hne]; [by rewrite aget_Undef by lia|].
  destruct (aget_in_range buffer' i) as (c & -> & _); [lia|]. cbn [mbind res_bind]. case_match; [done|]. apply IH; lia.
Qed.
End fuel.

(** ** The kernel of syscall.h *)

Inductive event : Type :=
| Wrote (s : list Z)
| Execd (name : list Z) (id : Z)
| Joined (id : Z).

(** The characters to come, what was called, and the number of the next process. *)
Record world : Type := mkW { input : list Z; log : list event; next_id : Z }.

#[export] Instance documented : Kernel world := {
  sys_write s w := mkW (input w) (log w ++ [Wrote s]) (next_id w);
  sys_read w :=
    match input w with
    | [] => Blocks
    | c :: cs => Done ([c], mkW cs (log w) (next_id w))
    end;
  sys_exec name w := (next_id w, mkW (input w) (log w ++ [Execd name (next_id w)]) (next_id w + 1));
  sys_join id w := mkW (input w) (log w ++ [Joined id]) (next_id w)
}.

Definition line_ok (l : list Z) : Prop := Forall (λ c, c ≠ newline ∧ c ≠ 0) l ∧ (length l ≤ 59)%nat.

Lemma blit_one (buffer : list Z) i c :
  0 ≤ i < Z.of_nat (length buffer) →
  let buffer' := take (Z.to_nat i) buffer ++ c :: drop (S (Z.to_nat i)) buffer in
  blit buffer i [c] = Done buffer' ∧ aget buffer' i = Done c ∧ length buffer' = length buffer ∧
  take (Z.to_nat (i + 1)) buffer' = take (Z.to_nat i) buffer ++ [c].
Proof.
  intros Hi buffer'. assert (Hl : length (take (Z.to_nat i) buffer) = Z.to_nat i) by (rewrite length_take; lia).
  assert (Hb : blit buffer i [c] = Done buffer').
  { rewrite blit_in_range by (cbn; lia). cbn [length app]. by rewrite Nat.add_1_r. }
  split; [done|]. split; [|split; [by apply blit_length in Hb|]].
  - apply aget_Some; [lia|]. subst buffer'. by rewrite list_lookup_middle.
  - subst buffer'. replace (Z.to_nat (i + 1)) with (length (take (Z.to_nat i) buffer) + 1)%nat by lia.
    by rewrite take_app_add.
Qed.

Lemma read_line_spec fuel i (buffer l rest : list Z) lg n :
  0 ≤ i → Forall (λ c, c ≠ newline ∧ c ≠ 0) l → (length l < fuel)%nat →
  length buffer = 60%nat → i + Z.of_nat (length l) < 60 →
  ∃ tail, read_line fuel i buffer (mkW (l ++ newline :: rest) lg n) =
    Done (i + Z.of_nat (length l) + 1, take (Z.to_nat i) buffer ++ l ++ newline :: tail, mkW rest lg n) ∧
    length (take (Z.to_nat i) buffer ++ l ++ newline :: tail) = 60%nat.
Proof.
  intros Hi Hl. revert fuel i buffer Hi. induction Hl as [|c l [Hc _] _ IH]; intros [|fuel] i buffer Hi Hf Hb Hroom;
    cbn in Hf; try lia; cbn [read_line sys_read documented input log next_id app mbind res_bind].
  - destruct (blit_one buffer i newline) as (-> & Hg & Hl & _); [cbn in Hroom; lia|]. cbn [mbind res_bind].
    rewrite Hg. cbn [mbind res_bind]. rewrite Z.eqb_refl. eexists. rewrite Z.add_0_r. split; [done|].
    by rewrite Hl.
  - destruct (blit_one buffer i c) as (-> & Hg & Hl & Ht); [cbn in Hroom; lia|]. cbn [mbind res_bind].
    rewrite Hg. cbn [mbind res_bind]. rewrite (proj2 (Z.eqb_neq _ _) Hc). cbn [length] in Hroom.
    destruct (IH fuel (i + 1) _ ltac:(lia) ltac:(lia) ltac:(rewrite Hl; done) ltac:(lia)) as (tail & -> & Hlen).
    rewrite Ht, <- app_assoc in *. exists tail. split; [|done]. cbn [length]. do 3 f_equal. lia.
Qed.

Lemma string_at_app s tail : Forall (λ c, c ≠ newline ∧ c ≠ 0) s → string_at (s ++ 0 :: tail) = Done s.
Proof.
  induction 1 as [|c s [_ Hc] _ IH]; [done|]. cbn [string_at app]. rewrite (proj2 (Z.eqb_neq _ _) Hc), IH. done.
Qed.

(** What one line makes the shell do. *)
Definition run_line (l : list Z) (id : Z) : list event :=
  Wrote [45; 45] :: match l with [] => [] | _ => [Execd l id; Joined id] end.

Definition used_ids (l : list Z) : Z := match l with [] => 0 | _ => 1 end.

Lemma command_spec buffer l rest lg n :
  line_ok l → length buffer = 60%nat →
  ∃ buffer', command buffer (mkW (l ++ newline :: rest) lg n) =
    Done (buffer', mkW rest (lg ++ run_line l n) (n + used_ids l)) ∧ length buffer' = 60%nat.
Proof.
  intros [Hl Hlen] Hb. unfold command. cbn [sys_write documented input log next_id].
  destruct (read_line_spec 61 0 buffer l rest (lg ++ [Wrote [45; 45]]) n) as (tail & -> & Hlen'); [done|done|lia|done|lia|].
  change (take (Z.to_nat 0) buffer) with (@nil Z) in *. cbn [app mbind res_bind] in *.
  replace (0 + Z.of_nat (length l) + 1 - 1) with (Z.of_nat (length l)) by lia.
  assert (Hset : aset (l ++ newline :: tail) (Z.of_nat (length l)) 0 = Done (l ++ 0 :: tail)).
  { rewrite aset_in_range by (rewrite length_app; cbn; lia). rewrite Nat2Z.id. f_equal.
    rewrite insert_app_r_alt by lia. by rewrite Nat.sub_diag. }
  rewrite Hset. cbn [mbind res_bind]. exists (l ++ 0 :: tail).
  split; [|rewrite length_app in Hlen' |- *; cbn in *; lia].
  destruct l as [|c l]; [cbn; by rewrite Z.add_0_r|].
  rewrite (proj2 (Z.ltb_lt 0 _)) by (cbn; lia). rewrite string_at_app by done.
  cbn [mbind res_bind sys_exec sys_join documented input log next_id]. unfold run_line. by rewrite <- !app_assoc.
Qed.

(** The calls for a list of lines. *)
Fixpoint run_lines (ls : list (list Z)) (id : Z) : list event :=
  match ls with
  | [] => []
  | l :: ls => run_line l id ++ run_lines ls (id + used_ids l)
  end.

(** C32: The shell runs the commands it is given. With a kernel that reads one character at a
    time, as syscall.h describes it, and an input of lines of at most 59 characters, the shell
    makes for each line, in order, exactly these calls: it writes the prompt, and if the line
    is not empty it executes the program of that name, letter by letter, and joins the process
    it got. It stays within its buffer of 60 characters, whatever that held before, and has
    then read all of the input. *)
Theorem shell_runs_commands (ls : list (list Z)) (buffer : list Z) (lg : list event) (n : Z) :
  length buffer = 60%nat → Forall line_ok ls →
  ∃ buffer' n', shell (length ls) buffer (mkW (concat ((λ l, l ++ [newline]) <$> ls)) lg n) =
    Done (buffer', mkW [] (lg ++ run_lines ls n) n').
Proof.
  intros Hb Hls. revert buffer lg n Hb. induction Hls as [|l ls Hl _ IH]; intros buffer lg n Hb.
  - eexists _, _. cbn. by rewrite app_nil_r.
  - cbn [length shell fmap list_fmap concat run_lines]. rewrite <- app_assoc. cbn [app].
    destruct (command_spec buffer l (concat ((λ l, l ++ [newline]) <$> ls)) lg n Hl Hb) as (buffer1 & -> & Hb1).
    cbn [mbind res_bind]. destruct (IH buffer1 (lg ++ run_line l n) (n + used_ids l) Hb1) as (b' & n' & ->).
    eexists _, _. by rewrite <- app_assoc.
Qed.

Lemma shell_runs_commands_witness :
  ∃ buffer' n', shell 3 (replicate 60 7) (mkW [97; 98; 10; 10; 99; 10] [] 2) =
    Done (buffer', mkW [] [Wrote [45; 45]; Execd [97; 98] 2; Joined 2; Wrote [45; 45]; Wrote [45; 45]; Execd [99] 3; Joined 3] n').
Proof.
  apply (shell_runs_commands [[97; 98]; []; [99]] (replicate 60 7) [] 2); [reflexivity|].
  repeat (constructor; [split; [repeat (constructor; [split; discriminate|]); constructor|cbn; lia]|]). constructor.
Defined.

(** A longer line leaves the buffer. *)
Lemma long_line_overruns fuel i (buffer l rest : list Z) lg n :
  0 ≤ i ≤ 60 → Forall (λ c, c ≠ newline) l → (length l ≤ fuel)%nat → Z.of_nat (length buffer) = 60 →
  60 < i + Z.of_nat (length l) → read_line fuel i buffer (mkW (l ++ rest) lg n) = Undef.
Proof.
  intros Hi Hl. revert fuel i buffer Hi. induction Hl as [|c l Hc _ IH]; intros [|fuel] i buffer Hi Hf Hb Hroom;
    cbn in Hf, Hroom; try lia; cbn [read_line sys_read documented input log next_id app mbind res_bind].
  destruct (decide (i = 60)) as [->|Hne].
  - unfold blit. rewrite Hb. done.
  - destruct (blit_one buffer i c) as (-> & Hg & Hlen & _); [lia|]. cbn [mbind res_bind]. rewrite Hg.
    cbn [mbind res_bind]. rewrite (proj2 (Z.eqb_neq _ _) Hc). apply IH; lia.
Qed.

(** ** The kernel of exception.cc *)

(** The words that scanf gets.  A word of more than two characters is cut, a shorter one is
    followed by a 0; SRead has room for ten characters. *)
Record words : Type := mkWords { to_come : list (list Z); calls : list event; next_process : Z }.

Definition word_bytes (word : list Z) : list Z := if 2 <? Z.of_nat (length word) then take 2 word else word ++ [0].

#[export] Instance nachos : Kernel words := {
  sys_write s w := mkWords (to_come w) (calls w ++ [Wrote s]) (next_process w);
  sys_read w :=
    match to_come w with
    | [] => Blocks
    | word :: rest => if 10 <? Z.of_nat (length word) then Undef else Done (word_bytes word, mkWords rest (calls w) (next_process w))
    end;
  sys_exec name w := (next_process w, mkWords (to_come w) (calls w ++ [Execd name (next_process w)]) (next_process w + 1));
  sys_join id w := mkWords (to_come w) (calls w ++ [Joined id]) (next_process w)
}.

(** scanf leaves out white space. *)
Definition is_word (word : list Z) : Prop := ∃ c cs, word = c :: cs ∧ c ≠ newline.

Lemma first_byte word buffer i buffer' :
  is_word word → 0 ≤ i → blit buffer i (word_bytes word) = Done buffer' → ∃ c, aget buffer' i = Done c ∧ c ≠ newline.
Proof.
  intros (c & cs & -> & Hc) Hi Hb. exists c. split; [|done]. apply aget_Some; [done|].
  rewrite (blit_lookup_in _ _ _ _ (Z.to_nat i) Hb).
  - rewrite Nat.sub_diag. unfold word_bytes. by case_match.
  - unfold word_bytes. case_match; cbn; lia.
Qed.

(** No line ever ends: the shell waits for more words or runs over its buffer. *)
Lemma nachos_shell_gets_no_line fuel i buffer (ws : list (list Z)) cs n :
  0 ≤ i → Forall is_word ws → ∀ r, read_line fuel i buffer (mkWords ws cs n) ≠ Done r.
Proof.
  intros Hi Hws. revert i buffer ws Hi Hws. induction fuel as [|fuel IH]; intros i buffer ws Hi Hws r; cbn [read_line]; [done|].
  cbn [sys_read nachos to_come calls next_process]. destruct Hws as [|word ws Hword Hws]; [done|].
  case_match; [done|]. cbn [mbind res_bind]. destruct (blit buffer i (word_bytes word)) as [buffer'| | | |] eqn:Hb; try done.
  cbn [mbind res_bind]. destruct (first_byte word buffer i buffer') as (c & -> & Hc); [done..|].
  cbn [mbind res_bind]. rewrite (proj2 (Z.eqb_neq _ _) Hc). apply IH; [lia|done].
Qed.

End ShellSpec.
