(* ===== verification/System.v ===== *)
(** System: starting and stopping Nachos - the command line in threads/main.cc and
    threads/system.cc (Initialize, Cleanup), and the debug flags of threads/utility.cc.

    Both files walk through the same argv, each looking for its own options.  [Initialize] is
    the loop and the list of what is then constructed, in order; [main] is the list of calls
    the other loop makes, up to the first that does not come back.  What the calls do is modelled
    elsewhere (StartProcess in Threads.v, Copy and Print in FsTest.v, MailTest in NetTest.v, and
    so on).  The symbols a build defines are a record; [threads_build], [userprog_build],
    [filesys_build] and [network_build] are those of the Makefiles.  strcmp and atoi are
    modelled; a double is a parameter, with the conversion of a string to it. *)
From Stdlib Require Import Strings.String Strings.Ascii.
From S2P Require Import Prelude.

Module Debug.
(** ** utility.cc *)

(** enableFlags, NULL at the start. *)
Definition flags : Type := option string.

Definition DebugInit (flagList : string) : flags := Some flagList.

(** strchr finds the terminating 0 as well. *)
Fixpoint strchr (s : string) (c : ascii) : bool :=
  match s with
  | EmptyString => Ascii.eqb c zero
  | String d s => Ascii.eqb c d || strchr s c
  end.

Definition DebugIsEnabled (enableFlags : flags) (flag : ascii) : bool :=
  match enableFlags with
  | Some s => strchr s flag || strchr s "+"%char
  | None => false
  end.

(** What DEBUG prints. *)
Definition DEBUG (enableFlags : flags) (flag : ascii) (message : string) : string :=
  if DebugIsEnabled enableFlags flag then message else EmptyString.
End Debug.

Module System.
#[local] Open Scope string_scope.
#[local] Open Scope Z_scope.
#[local] Open Scope list_scope.

(** ** The C library *)

Definition digit (c : ascii) : option Z :=
  let n := Z.of_nat (nat_of_ascii c) in if (48 <=? n) && (n <=? 57) then Some (n - 48) else None.

Fixpoint digits (s : string) (acc : Z) : Z :=
  match s with
  | EmptyString => acc
  | String c s => match digit c with Some d => digits s (10 * acc + d) | None => acc end
  end.

Definition blank (c : ascii) : bool := let n := nat_of_ascii c in (n =? 32)%nat || ((9 <=? n)%nat && (n <=? 13)%nat).

(** atoi; a number that is too large is not defined by C and wraps around here. *)
Fixpoint atoi (s : string) : Z :=
  match s with
  | EmptyString => 0
  | String c rest =>
      if blank c then atoi rest
      else if Ascii.eqb c "-" then s32 (- digits rest 0)
      else if Ascii.eqb c "+" then s32 (digits rest 0)
      else s32 (digits s 0)
  end.

(** ** The symbols of a build *)
Record build : Type := mkB {
  USER_PROGRAM : bool;
  FILESYS_NEEDED : bool;
  FILESYS : bool;
  NETWORK : bool
}.

Definition threads_build := mkB false false false false.
Definition userprog_build := mkB true true false false.
Definition filesys_build := mkB true true true false.
Definition network_build := mkB true true true true.

Section command_line.
Context {D : Type} (one : D) (atof : string → D).
Context (b : build).

(** ** Initialize *)

(** The local variables, and the globals that the options set. *)
Record options : Type := mkO {
  debugArgs : string;
  randomYield : option Z;        (* the argument of RandomInit, if it is TRUE *)
  threadChoice : Z;
  swapChoice : Z;
  memChoice : Z;
  debugUserProg : bool;
  pageFlag : bool;
  format : bool;
  rely : D;
  netname : Z
}.

(** Globals are 0 at the start. *)
Definition defaults : options := mkO "" None 0 0 0 false false false one 0.

Definition set_debugArgs (o : options) x : options :=
  mkO x (randomYield o) (threadChoice o) (swapChoice o) (memChoice o) (debugUserProg o) (pageFlag o) (format o) (rely o) (netname o).
Definition set_randomYield (o : options) x : options :=
  mkO (debugArgs o) x (threadChoice o) (swapChoice o) (memChoice o) (debugUserProg o) (pageFlag o) (format o) (rely o) (netname o).
Definition set_threadChoice (o : options) x : options :=
  mkO (debugArgs o) (randomYield o) x (swapChoice o) (memChoice o) (debugUserProg o) (pageFlag o) (format o) (rely o) (netname o).
Definition set_swapChoice (o : options) x : options :=
  mkO (debugArgs o) (randomYield o) (threadChoice o) x (memChoice o) (debugUserProg o) (pageFlag o) (format o) (rely o) (netname o).
Definition set_memChoice (o : options) x : options :=
  mkO (debugArgs o) (randomYield o) (threadChoice o) (swapChoice o) x (debugUserProg o) (pageFlag o) (format o) (rely o) (netname o).
Definition set_debugUserProg (o : options) x : options :=
  mkO (debugArgs o) (randomYield o) (threadChoice o) (swapChoice o) (memChoice o) x (pageFlag o) (format o) (rely o) (netname o).
Definition set_pageFlag (o : options) x : options :=
  mkO (debugArgs o) (randomYield o) (threadChoice o) (swapChoice o) (memChoice o) (debugUserProg o) x (format o) (rely o) (netname o).
Definition set_format (o : options) x : options :=
  mkO (debugArgs o) (randomYield o) (threadChoice o) (swapChoice o) (memChoice o) (debugUserProg o) (pageFlag o) x (rely o) (netname o).
Definition set_rely (o : options) x : options :=
  mkO (debugArgs o) (randomYield o) (threadChoice o) (swapChoice o) (memChoice o) (debugUserProg o) (pageFlag o) (format o) x (netname o).
Definition set_netname (o : options) x : options :=
  mkO (debugArgs o) (randomYield o) (threadChoice o) (swapChoice o) (memChoice o) (debugUserProg o) (pageFlag o) (format o) (rely o) x.

(** One turn of the loop: [next] is [*(argv + 1)], or [None] when that is NULL.  Returns
    [argCount]. *)
Definition option1 (arg : string) (next : option string) (o : options) : res (options * nat) :=
  '(o, argCount) ←
    (if String.eqb arg "-d" then
       Done match next with
            | None => (set_debugArgs o "+", 1%nat)
            | Some s => (set_debugArgs o s, 2%nat)
            end
     else if String.eqb arg "-rs" then
       match next with
       | None => Assert
       | Some s => Done (set_randomYield o (Some (atoi s)), 2%nat)
       end
     else if String.eqb arg "-A" then
       Done (set_threadChoice o (match next with None => -1 | Some s => atoi s end), 2%nat)
     else if String.eqb arg "-V" then
       Done (set_swapChoice o (match next with None => 0 | Some s => atoi s end), 2%nat)
     else if String.eqb arg "-M" then
       Done (set_memChoice o (match next with None => 1 | Some s => atoi s end), 2%nat)
     else Done (o, 1%nat));
  let o := if USER_PROGRAM b && String.eqb arg "-s" then set_debugUserProg o true else o in
  let o := if USER_PROGRAM b && String.eqb arg "-E" then set_pageFlag o true else o in
  let o := if FILESYS_NEEDED b && String.eqb arg "-f" then set_format o true else o in
  if NETWORK b && String.eqb arg "-l" then
    match next with
    | None => Assert
    | Some s => Done (set_rely o (atof s), 2%nat)
    end
  else if NETWORK b && String.eqb arg "-m" then
    match next with
    | None => Assert
    | Some s => Done (set_netname o (atoi s), 2%nat)
    end
  else Done (o, argCount).

(** The loop: [argc -= argCount, argv += argCount]. *)
Fixpoint parse (args : list string) (o : options) : res options :=
  match args with
  | [] => Done o
  | arg :: rest =>
      '(o, argCount) ← option1 arg (head rest) o;
      match rest, argCount with
      | _ :: rest', S (S _) => parse rest' o
      | _, _ => parse rest o
      end
  end.

(** What Initialize allocates, in order. *)
Inductive object : Type :=
| OStatistics | OInterrupt | OScheduler | OTimer | OMainThread | OBitMap | OMachine (debug : bool)
| OActiveThreads | OSynchDisk | OFileSystem (format : bool) | OPostOffice (netname : Z) (rely : D).

Definition when (c : bool) (l : list object) : list object := if c then l else [].

Definition constructed (o : options) : list object :=
  [OStatistics; OInterrupt; OScheduler] ++
  when (bool_decide (is_Some (randomYield o))) [OTimer] ++
  [OMainThread] ++
  when (USER_PROGRAM b) [OBitMap; OMachine (debugUserProg o); OActiveThreads] ++
  when (FILESYS b) [OSynchDisk] ++
  when (FILESYS_NEEDED b) [OFileSystem (format o)] ++
  when (NETWORK b) [OPostOffice (netname o) (rely o)].

Definition Initialize (argv : list string) : res (options * Debug.flags * list object) :=
  o ← parse (tail argv) defaults;
  Done (o, Debug.DebugInit (debugArgs o), constructed o).

(** ** Cleanup: what is deleted, in order.  [delete timer] does nothing when it is NULL. *)
Definition Cleanup (o : options) : list object :=
  when (NETWORK b) [OPostOffice (netname o) (rely o)] ++
  when (USER_PROGRAM b) [OMachine (debugUserProg o); OActiveThreads; OBitMap] ++
  when (FILESYS_NEEDED b) [OFileSystem (format o)] ++
  when (FILESYS b) [OSynchDisk] ++
  when (bool_decide (is_Some (randomYield o))) [OTimer] ++
  [OScheduler; OInterrupt].

(** ** main: the calls it makes before [currentThread->Finish()] *)
Inductive action : Type :=
| Copyright
| StartProcess (file : string)
| ConsoleTest (files : option (string * string))
| Halt
| Copy (from to : string)
| Print (file : string)
| Remove (file : string)
| List
| PrintFileSystem
| PerformanceTest
| Delay (seconds : Z)
| MailTest (farAddr : Z).

(** One turn of the loop on [arg] followed by [rest]: the calls and [argCount]. *)
Definition command1 (arg : string) (rest : list string) : res (list action * nat) :=
  let copyright := if String.eqb arg "-z" then [Copyright] else [] in
  '(user, argCount) ←
    (if USER_PROGRAM b then
       if String.eqb arg "-x" then
         match rest with
         | file :: _ => Done ([StartProcess file], 2%nat)
         | [] => Assert
         end
       else if String.eqb arg "-c" then
         match rest with
         | [] => Done ([ConsoleTest None; Halt], 1%nat)
         | from :: to :: _ => Done ([ConsoleTest (Some (from, to)); Halt], 3%nat)
         | [_] => Assert
         end
       else Done ([], 1%nat)
     else Done ([], 1%nat));
  '(files, argCount) ←
    (if FILESYS b then
       if String.eqb arg "-cp" then
         match rest with
         | from :: to :: _ => Done ([Copy from to], 3%nat)
         | _ => Assert
         end
       else if String.eqb arg "-p" then
         match rest with file :: _ => Done ([Print file], 2%nat) | [] => Assert end
       else if String.eqb arg "-r" then
         match rest with file :: _ => Done ([Remove file], 2%nat) | [] => Assert end
       else if String.eqb arg "-l" then Done ([List], argCount)
       else if String.eqb arg "-D" then Done ([PrintFileSystem], argCount)
       else if String.eqb arg "-t" then Done ([PerformanceTest], argCount)
       else Done ([], argCount)
     else Done ([], argCount));
  '(net, argCount) ←
    (if NETWORK b && String.eqb arg "-o" then
       match rest with
       | far :: _ => Done ([Delay 2; MailTest (atoi far)], 2%nat)
       | [] => Assert
       end
     else Done ([], argCount));
  Done (copyright ++ user ++ files ++ net, argCount).

(** Which calls come back.  [interrupt->Halt()] never does; StartProcess does when the file
    cannot be opened; the rest is up to the parts they belong to. *)
Context (returns : action → bool).

Definition comes_back (call : action) : bool := match call with Halt => false | _ => returns call end.

(** The calls that are made of a sequence of calls, and whether all of them came back. *)
Fixpoint perform (calls : list action) : list action * bool :=
  match calls with
  | [] => ([], true)
  | call :: calls =>
      if comes_back call then let '(made, back) := perform calls in (call :: made, back) else ([call], false)
  end.

(** How [main] ends: with [currentThread->Finish()], in a call that does not come back, or in
    a failed assertion. *)
Inductive ending : Type := Finish | Away | AssertFailed.

Fixpoint commands (args : list string) : list action * ending :=
  match args with
  | [] => ([], Finish)
  | arg :: rest =>
      match command1 arg rest with
      | Done (calls, argCount) =>
          let '(made, back) := perform calls in
          if back then
            let '(more, e) :=
              match argCount, rest with
              | 2%nat, _ :: rest' => commands rest'
              | 3%nat, _ :: _ :: rest' => commands rest'
              | _, _ => commands rest
              end in (made ++ more, e)
          else (made, Away)
      | _ => ([], AssertFailed)
      end
  end.

Definition main (argv : list string) : res (options * Debug.flags * list object * (list action * ending)) :=
  i ← Initialize argv;
  Done (i, commands (tail argv)).

End command_line.
End System.

(** * What a command line means *)
Module SystemSpec.
Import System.
#[local] Open Scope string_scope.
#[local] Open Scope Z_scope.
#[local] Open Scope list_scope.

(** The options of Initialize and the commands of main, with their arguments. *)
Inductive opt : Type :=
| DebugFlags (s : string) | RandomSeed (s : string) | ThreadChoice (s : string) | SwapChoice (s : string)
| MemChoice (s : string) | SingleStep | ShowPages | Format | Reliability (s : string) | NetName (s : string).

Inductive cmd : Type :=
| ShowCopyright | Run (f : string) | TestConsole (f g : string) | CopyFile (f g : string) | PrintFile (f : string)
| RemoveFile (f : string) | ListFiles | DumpFiles | TestFiles | TestMail (s : string).

Definition render_opt (x : opt) : list string :=
  match x with
  | DebugFlags s => ["-d"; s] | RandomSeed s => ["-rs"; s] | ThreadChoice s => ["-A"; s] | SwapChoice s => ["-V"; s]
  | MemChoice s => ["-M"; s] | SingleStep => ["-s"] | ShowPages => ["-E"] | Format => ["-f"]
  | Reliability s => ["-l"; s] | NetName s => ["-m"; s]
  end.

Definition render_cmd (x : cmd) : list string :=
  match x with
  | ShowCopyright => ["-z"] | Run f => ["-x"; f] | TestConsole f g => ["-c"; f; g] | CopyFile f g => ["-cp"; f; g]
  | PrintFile f => ["-p"; f] | RemoveFile f => ["-r"; f] | ListFiles => ["-l"] | DumpFiles => ["-D"]
  | TestFiles => ["-t"] | TestMail s => ["-o"; s]
  end.

Definition render (x : opt + cmd) : list string := match x with inl o => render_opt o | inr c => render_cmd c end.

Definition arguments (x : opt + cmd) : list string := tail (render x).

(** An argument that cannot be taken for an option. *)
Definition plain (s : string) : bool :=
  match s with String c _ => negb (Ascii.eqb c "-"%char) | EmptyString => true end.

(** What the build implements.  [-l] is an option in system.cc and a command in main.cc: in a
    build with both, it is always followed by the reliability, and lists the files as well. *)
Definition supported (b : build) (x : opt + cmd) : bool :=
  match x with
  | inl (SingleStep | ShowPages) => USER_PROGRAM b
  | inl Format => FILESYS_NEEDED b
  | inl (Reliability _) => NETWORK b
  | inl (NetName _) => NETWORK b
  | inr (Run _ | TestConsole _ _) => USER_PROGRAM b
  | inr ListFiles => FILESYS b && negb (NETWORK b)
  | inr (CopyFile _ _ | PrintFile _ | RemoveFile _ | DumpFiles | TestFiles) => FILESYS b
  | inr (TestMail _) => NETWORK b
  | _ => true
  end.

Section meaning.
Context {D : Type} (one : D) (atof : string → D) (returns : action → bool).
Implicit Types b : build.

Abbreviation options := (options (D := D)).

Definition set_by (o : options) (x : opt + cmd) : options :=
  match x with
  | inl (DebugFlags s) => set_debugArgs o s
  | inl (RandomSeed s) => set_randomYield o (Some (atoi s))
  | inl (ThreadChoice s) => set_threadChoice o (atoi s)
  | inl (SwapChoice s) => set_swapChoice o (atoi s)
  | inl (MemChoice s) => set_memChoice o (atoi s)
  | inl SingleStep => set_debugUserProg o true
  | inl ShowPages => set_pageFlag o true
  | inl Format => set_format o true
  | inl (Reliability s) => set_rely o (atof s)
  | inl (NetName s) => set_netname o (atoi s)
  | inr _ => o
  end.

Definition done_by b (x : opt + cmd) : list action :=
  match x with
  | inl (Reliability _) => if FILESYS b then [List] else []
  | inl _ => []
  | inr ShowCopyright => [Copyright]
  | inr (Run f) => [StartProcess f]
  | inr (TestConsole f g) => [ConsoleTest (Some (f, g)); Halt]
  | inr (CopyFile f g) => [Copy f g]
  | inr (PrintFile f) => [Print f]
  | inr (RemoveFile f) => [Remove f]
  | inr ListFiles => [List]
  | inr DumpFiles => [PrintFileSystem]
  | inr TestFiles => [PerformanceTest]
  | inr (TestMail s) => [Delay 2; MailTest (atoi s)]
  end.

Lemma plain_neq s t : plain s = true → plain t = false → String.eqb s t = false.
Proof. intros Hs Ht. apply String.eqb_neq. intros ->. congruence. Qed.

(** Arguments are skipped by the loop they do not belong to. *)
Lemma option1_plain b s next (o : options) : plain s = true → option1 atof b s next o = Done (o, 1%nat).
Proof.
  intros Hs. unfold option1. rewrite !(plain_neq s) by done. cbn [mbind res_bind]. by rewrite !andb_false_r.
Qed.

Lemma command1_plain b s rest : plain s = true → command1 b s rest = Done ([], 1%nat).
Proof.
  intros Hs. unfold command1. rewrite !(plain_neq s) by done. rewrite andb_false_r.
  by destruct (USER_PROGRAM b), (FILESYS b).
Qed.

Lemma parse_one b arg rest (o o' : options) :
  option1 atof b arg (head rest) o = Done (o', 1%nat) → parse atof b (arg :: rest) o = parse atof b rest o'.
Proof. intros H1. cbn [parse]. rewrite H1. cbn [mbind res_bind]. by destruct rest. Qed.

Lemma parse_two b arg x rest (o o' : options) :
  option1 atof b arg (Some x) o = Done (o', 2%nat) → parse atof b (arg :: x :: rest) o = parse atof b rest o'.
Proof. intros H1. cbn [parse head]. by rewrite H1. Qed.

Lemma parse_plain b s rest (o : options) : plain s = true → parse atof b (s :: rest) o = parse atof b rest o.
Proof. intros Hs. apply parse_one. by apply option1_plain. Qed.

(** What [perform] leaves, followed by the rest if it came back. *)
Definition then_rest (r : list action * bool) (k : list action * ending) : list action * ending :=
  let '(made, back) := r in if back then (made ++ k.1, k.2) else (made, Away).

Lemma commands_one b arg rest calls :
  command1 b arg rest = Done (calls, 1%nat) →
  commands b returns (arg :: rest) = then_rest (perform returns calls) (commands b returns rest).
Proof.
  intros H1. cbn [commands]. rewrite H1. unfold then_rest. destruct (perform returns calls) as [made []]; [|done].
  destruct rest; by destruct (commands b returns _).
Qed.

Lemma commands_two b arg x rest calls :
  command1 b arg (x :: rest) = Done (calls, 2%nat) →
  commands b returns (arg :: x :: rest) = then_rest (perform returns calls) (commands b returns rest).
Proof.
  intros H1. cbn [commands]. rewrite H1. unfold then_rest. destruct (perform returns calls) as [made []]; [|done].
  by destruct (commands b returns rest).
Qed.

Lemma commands_three b arg x y rest calls :
  command1 b arg (x :: y :: rest) = Done (calls, 3%nat) →
  commands b returns (arg :: x :: y :: rest) = then_rest (perform returns calls) (commands b returns rest).
Proof.
  intros H1. cbn [commands]. rewrite H1. unfold then_rest. destruct (perform returns calls) as [made []]; [|done].
  by destruct (commands b returns rest).
Qed.

Lemma commands_plain b s rest : plain s = true → commands b returns (s :: rest) = commands b returns rest.
Proof.
  intros Hs. rewrite (commands_one b s rest []) by (by apply command1_plain). cbn. by destruct (commands b returns rest).
Qed.

(** One sequence of calls after another. *)
Lemma perform_app calls calls' :
  perform returns (calls ++ calls') =
    let '(made, back) := perform returns calls in
    if back then let '(more, back) := perform returns calls' in (made ++ more, back) else (made, false).
Proof.
  induction calls as [|c calls IH]; cbn [perform app]; [by destruct (perform returns calls')|].
  destruct (comes_back returns c); [|done]. rewrite IH. destruct (perform returns calls) as [made []]; [|done].
  by destruct (perform returns calls').
Qed.

Lemma parse_item b x rest (o : options) :
  supported b x = true → forallb plain (arguments x) = true →
  parse atof b (render x ++ rest) o = parse atof b rest (set_by o x).
Proof.
  intros Hb Hp. destruct b as [[] [] [] []], x as [x|x]; destruct x; try done;
    cbn [render render_opt render_cmd app set_by arguments tail forallb] in *;
    rewrite ?andb_true_r in Hp; try apply andb_true_iff in Hp as [Hp Hq];
    first [apply parse_two; reflexivity
          |rewrite (parse_one _ _ _ o o) by reflexivity; rewrite ?parse_plain by done; reflexivity
          |apply parse_one; reflexivity].
Qed.

Lemma commands_item b x rest :
  supported b x = true → forallb plain (arguments x) = true →
  commands b returns (render x ++ rest) = then_rest (perform returns (done_by b x)) (commands b returns rest).
Proof.
  intros Hb Hp. destruct b as [[] [] [] []], x as [x|x]; destruct x; try done;
    cbn [render render_opt render_cmd app done_by arguments tail forallb] in *;
    rewrite ?andb_true_r in Hp; try apply andb_true_iff in Hp as [Hp Hq];
    first [apply (commands_three _ _ _ _ _ [_; _]); reflexivity
          |apply (commands_three _ _ _ _ _ [_]); reflexivity
          |apply (commands_two _ _ _ _ [_; _]); reflexivity
          |apply (commands_two _ _ _ _ [_]); reflexivity
          |rewrite (commands_one _ _ _ []) by reflexivity; rewrite ?commands_plain by done; reflexivity
          |rewrite (commands_one _ _ _ [List]) by reflexivity; rewrite ?commands_plain by done; reflexivity
          |apply (commands_one _ _ _ [_]); reflexivity].
Qed.

(** The options that fail an assertion when they come last. *)
Definition needs_argument b (arg : string) : Prop :=
  arg = "-rs" ∨ NETWORK b = true ∧ (arg = "-l" ∨ arg = "-m").

Lemma missing_argument b arg (xs : list (opt + cmd)) :
  forallb (supported b) xs = true → forallb plain (concat (arguments <$> xs)) = true → needs_argument b arg →
  ∀ o, parse atof b (concat (render <$> xs) ++ [arg]) o = Assert.
Proof.
  intros Hb Hp Harg. induction xs as [|x xs IH]; intros o.
  - cbn [fmap list_fmap concat app parse head]. unfold option1.
    destruct Harg as [->|[Hn [->| ->]]]; rewrite ?Hn; cbn; by rewrite ?andb_false_r.
  - cbn [fmap list_fmap concat forallb] in *. rewrite forallb_app in Hp.
    apply andb_true_iff in Hb as [Hb Hbs], Hp as [Hp Hps].
    rewrite <- app_assoc, parse_item by done. by apply IH.
Qed.

(** C31: What a command line means. Take any sequence of options and commands that the build
    has, mixed in any order, whose arguments do not begin with a dash, and write them one
    after the other on the command line of Nachos. Then Initialize sets exactly what the
    options say, each as a function of its argument and the last one winning, allocates the
    objects the build and the options ask for, in that order, and leaves the commands alone;
    and main makes exactly the calls the commands ask for, in their order, up to the first
    one that does not come back, and leaves the options alone. Neither fails an assertion.
    One option is in both files: -l is the reliability of the network and the command that
    lists the files. A build with only one of them has that one; a build with both, such as
    the network build, has only the first, with its argument, and main lists the files for
    it too; the command on its own is not in such a build: at the end of the line it fails
    an assertion of Initialize, as -m does there, and -rs in any build. *)
Theorem command_line_means b (program : string) (xs : list (opt + cmd)) :
  forallb (supported b) xs = true → forallb plain (concat (arguments <$> xs)) = true →
  main one atof b returns (program :: concat (render <$> xs)) =
    (let o := foldl set_by (defaults one) xs in
     let '(made, back) := perform returns (concat (done_by b <$> xs)) in
     Done (o, Debug.DebugInit (debugArgs o), constructed b o, (made, if back then Finish else Away))) ∧
  (∀ arg, needs_argument b arg → main one atof b returns (program :: concat (render <$> xs) ++ [arg]) = Assert).
Proof.
  intros Hb Hp. unfold main, Initialize. cbn [tail].
  split; [|intros arg Harg; by rewrite missing_argument].
  assert (Hparse : ∀ o, parse atof b (concat (render <$> xs)) o = Done (foldl set_by o xs)).
  { induction xs as [|x xs IH]; intros o; [done|]. cbn [fmap list_fmap concat forallb foldl] in *.
    rewrite forallb_app in Hp. apply andb_true_iff in Hb as [Hb Hbs], Hp as [Hp Hps].
    rewrite parse_item by done. by apply IH. }
  assert (Hcmds : commands b returns (concat (render <$> xs)) =
    then_rest (perform returns (concat (done_by b <$> xs))) ([], Finish)).
  { clear Hparse. induction xs as [|x xs IH]; [done|]. cbn [fmap list_fmap concat forallb] in *.
    rewrite forallb_app in Hp. apply andb_true_iff in Hb as [Hb Hbs], Hp as [Hp Hps].
    rewrite commands_item, IH, perform_app by done. unfold then_rest.
    destruct (perform returns (done_by b x)) as [made []]; [|done].
    destruct (perform returns (concat _)) as [more []]; cbn [fst snd]; by rewrite ?app_assoc. }
  rewrite Hparse. cbn [mbind res_bind]. rewrite Hcmds. unfold then_rest.
  destruct (perform returns _) as [made []]; cbn [fst snd]; by rewrite ?app_nil_r.
Qed.

(** Cleanup deletes what Initialize has allocated, each object once, except the statistics
    and the main thread, which it runs in. *)
Lemma Cleanup_deletes b (o : options) : constructed b o ≡ₚ Cleanup b o ++ [OStatistics; OMainThread].
Proof.
  unfold constructed, Cleanup, when. destruct b as [[] [] [] []], (bool_decide _); cbn; solve_Permutation.
Qed.

(** [-l] lists the files in main.cc and is the reliability of the network in system.cc: with
    both compiled in, [nachos -l] fails an assertion before main looks at it. *)
Lemma network_build_cannot_list : main one atof network_build returns ["nachos"; "-l"] = Assert.
Proof. done. Qed.

(** The console test with one file name. *)
Lemma console_needs_two_files b f : USER_PROGRAM b = true → commands b returns ["-c"; f] = ([], AssertFailed).
Proof. intros Hu. cbn [commands]. unfold command1. cbn. by rewrite Hu. Qed.

End meaning.

(** In the file system build the machine halts after the console test, so the files are not
    listed; in the network build they are, by the option that sets the reliability. *)
Lemma command_line_means_witness :
  main 1 (λ _, 0) filesys_build (λ _, true) ["nachos"; "-f"; "-cp"; "a"; "b"; "-rs"; "42"; "-c"; "in"; "out"; "-l"] =
    (let o := mkO "" (Some 42) 0 0 0 false false true 1 0 in
     Done (o, Debug.DebugInit "",
       [OStatistics; OInterrupt; OScheduler; OTimer; OMainThread; OBitMap; OMachine false; OActiveThreads; OSynchDisk;
        OFileSystem true], ([Copy "a" "b"; ConsoleTest (Some ("in", "out")); Halt], Away))) ∧
  main 1 (λ _, 0) network_build (λ _, true) ["nachos"; "-m"; "3"; "-l"; "0.5"; "-o"; "4"] =
    (let o := mkO "" None 0 0 0 false false false 0 3 in
     Done (o, Debug.DebugInit "",
       [OStatistics; OInterrupt; OScheduler; OMainThread; OBitMap; OMachine false; OActiveThreads; OSynchDisk;
        OFileSystem false; OPostOffice 3 0], ([List; Delay 2; MailTest 4], Finish))).
Proof.
  split.
  - destruct (command_line_means 1 (λ _, 0) (λ _, true) filesys_build "nachos"
      [inl Format; inr (CopyFile "a" "b"); inl (RandomSeed "42"); inr (TestConsole "in" "out"); inr ListFiles])
      as [H _]; [reflexivity..|exact H].
  - destruct (command_line_means 1 (λ _, 0) (λ _, true) network_build "nachos"
      [inl (NetName "3"); inl (Reliability "0.5"); inr (TestMail "4")]) as [H _]; [reflexivity..|exact H].
Defined.

(** The flag [+] enables every message, and before DebugInit none is. *)
Lemma debug_flags (s : string) (c : ascii) :
  Debug.DebugIsEnabled None c = false ∧
  (Debug.strchr s c = true → Debug.DebugIsEnabled (Debug.DebugInit s) c = true) ∧
  Debug.DebugIsEnabled (Debug.DebugInit "+") c = true.
Proof.
  split; [done|]. split; [|apply orb_true_r].
  intros Hc. unfold Debug.DebugIsEnabled, Debug.DebugInit. by rewrite Hc.
Qed.

End SystemSpec.
